(* ===== verification/_CoqProject ===== *)
-Q . S2P
Prelude.v
Interfaces.v
SignedImage.v
UsbUpdate.v
UsbUpdateSafety.v
UsbUpdateGrant.v
ModelBackend.v
SignedImageTheorems.v
UsbUpdateTheorems.v
UsbUpdateProgress.v
Rom.v
FlashEncryption.v
FlashWindows.v
FlashOperations.v
Ota.v
OtaRecords.v
OtaTheorems.v
OtaDevice.v
ModelRom.v
FlashInitialize.v
OtaActivation.v
EspBackend.v
EspView.v
EspTheorems.v
CtapHid.v
CtapHidSafety.v
CtapHidWire.v
CtapHidTheorems.v
Presence.v
PresenceTheorems.v
Epoch.v
EpochPolicy.v
EpochTransaction.v
EpochProgrammer.v
EpochTheorems.v
EpochMaintenance.v
EpochMaintenanceTheorems.v
MemoryProtection.v
MemoryProtectionTheorems.v
Storage.v
StorageTheorems.v
Identity.v
IdentityTheorems.v
PowerCut.v
PowerCutTheorems.v
Build.v
BuildTheorems.v
Provisioning.v
ProvisioningView.v
ModelBench.v
ProvisioningTheorems.v
ImportTheorems.v
Startup.v
UsbUpdateFrame.v
SecurityStatus.v
VendorCommands.v
VendorFrame.v
VendorTheorems.v
VendorRelease.v
UsbRuntime.v
UsbRuntimeTheorems.v
MainLoop.v
MainLoopTheorems.v
MainLoopRelease.v
FidoClient.v
PinToken.v
FidoState.v
ResidentReplacement.v
Utf8.v
ClientPin.v
ModelFido.v
ResidentTheorems.v
FidoStateTheorems.v
CounterTheorems.v
ClientPinSafety.v
PinAttempts.v
StorageFailure.v
PinAuthorization.v
TokenLifetime.v
FidoSetup.v
