(* ===== verification/Prelude.v ===== *)
(** * Salpa: a verification of the firmware

    Salpa is a FIDO2 security key: [no_std] Rust for the ESP32-S2, with its own USB
    transport, signed A/B updates, encrypted flash, an eFuse anti-rollback counter and
    the images that provision a device.  This library models that code, as the release
    build compiles it (features [release-flash-encryption], [usb-signed-update],
    [security-epoch-*], the FIDO stack), and proves what it promises.  It is a shallow
    embedding: a function of the source is a function here, with its name where Rocq
    allows it, its guards in the order of the source, and its early returns.

    ** How the code is represented

    Integers are in [Z], kept at their width by explicit wrap, saturation or checks.
    The crate is compiled with [overflow-checks], so an overflow, an index out of range,
    a failed assertion or a failed [expect] is a panic.  An operation is a [step S E A]
    of this file: a function from a state to [None] (a panic), or [Some (Ok a, s')], or
    [Some (Err e, s')] with the state an early return leaves behind.  [wp c Q s] says
    that [c] returns from [s], without a panic, in a state and with a result that
    satisfy [Q]; every proof about a [step] goes through its rules.

    Code that is not in the repository is a type class with the calls the firmware makes
    (an operational class) and, apart, what the firmware relies on (a law class, a
    [..View]).  Each law class has a concrete instance that discharges it, on which the
    witnesses evaluate.

      - [Interfaces]: the hash and the update backend ([Sha256], [UpdateBackend];
        [FlashView], [UpdateView], [WriteView]).  Two instances: [ModelBackend] (two slots
        in memory, as [FakeBackend] of the tests) and [EspView] (the release backend).
      - [Rom]: the ROM, MMU, cache and eFuse calls under encrypted flash.  [ModelRom].
      - [EpochTransaction], [EpochProgrammer]: the eFuse backend and the peripheral below
        it ([EpochView], [Efuse], [EfuseView]; [efuse_model]).
      - [MemoryProtection]: the permission registers ([Registers], [RegistersView]; [pms]).
      - [Storage], [ProvisioningView], [ImportTheorems]: littlefs and Trussed
        ([Filesystem], [StoredFilesystem], [TrussedClient] and their views; [ModelBench]).
      - [MainLoop]: the authenticator (a tree of calls, [Call], which reach the user
        interface, the interrupt flag and, through [CredentialStore], the block driver of
        the credential store), the USB stack (what each poll observes) and
        [ImageConfirmation].
      - [FidoClient], [FidoState], [ResidentReplacement]: the Trussed client of the
        authenticator ([FidoClient]: one request of it, typed by its answer;
        [FidoClientView]: which files, keys and times an answer may have changed, where a
        request that fails may or may not have written), the crates around it
        ([FidoCrates]), and CBOR ([PersistentCbor], [ReplacementCbor]).  [ModelFido].

    ** The parts, by file

    Signed updates.
      - [SignedImage], [SignedImageTheorems]: [src/src/signed_image.rs].
      - [UsbUpdate]: the session of [src/src/usb_update.rs] ([Session], [UsbUpdater],
        [handle] and one definition per request).  [UsbUpdateSafety] (invariant and frame
        of every handler), [UsbUpdateGrant] (what the user authorised), [UsbUpdateTheorems],
        [UsbUpdateProgress] (a cooperating host gets to the end).
      - [Rom], [FlashEncryption], [FlashWindows], [FlashOperations], [FlashInitialize]:
        [src/src/platform/flash_encryption.rs].
      - [Ota], [OtaRecords], [OtaTheorems], [OtaDevice], [OtaActivation]:
        [src/src/platform/ota.rs], first the records, then the device.
      - [EspBackend], [EspView], [EspTheorems]: [src/src/platform/usb_update.rs], and the
        proof that it implements the interface of the session.

    Transport and consent.
      - [CtapHid], [CtapHidSafety], [CtapHidWire], [CtapHidTheorems]: [src/src/ctaphid.rs]
        and [request_completion.rs].
      - [Presence], [PresenceTheorems]: [presence_gate.rs], [maintenance_presence.rs],
        [provisioning.rs] and [s2_user_presence.rs] of [src/src/platform/].
      - [UsbRuntime], [UsbRuntimeTheorems]: [src/src/usb.rs], [platform/usb_runtime.rs].

    Anti-rollback and memory protection.
      - [Epoch], [EpochPolicy]: [security_epoch.rs], [security_epoch_plan.rs];
        [EpochTransaction], [EpochProgrammer], [EpochTheorems]:
        [security_epoch_transaction.rs], [s2_epoch_programmer.rs]; [EpochMaintenance],
        [EpochMaintenanceTheorems]: [security_epoch_maintenance.rs].
      - [MemoryProtection], [MemoryProtectionTheorems]: [memory_protection.rs].
      - [SecurityStatus]: [security_status.rs], [security_epoch_preview.rs].

    Credentials and images.
      - [Storage], [StorageTheorems]: [storage_layout.rs], [storage.rs], [storage_init.rs].
      - [Identity], [IdentityTheorems]: [identity.rs], [usb_identity.rs], [rng_health.rs],
        [attestation.rs], [attestation_import.rs].
      - [Provisioning], [ProvisioningView], [ModelBench], [ProvisioningTheorems],
        [ImportTheorems]: [src/src/bin/provision-storage.rs], [import-attestation.rs],
        [provision-development.rs], with [platform/rng.rs].
      - [PowerCut], [PowerCutTheorems]: [src/src/bin/storage-powercut-test.rs].
      - [Build], [BuildTheorems]: [src/build.rs], [src/src/build_environment.rs].

    The authenticator, of [src/third_party/fido-authenticator/src/], which is a fork of
    this repository.
      - [FidoClient]: the requests and the macros that make them; [FidoSetup]: how the
        firmware configures it ([config.rs], [image_version.rs], [platform/dispatch.rs],
        [get_info.rs]).
      - [PinToken]: [ctap2/pin.rs]; [FidoState]: [state.rs]; [Utf8]: [core::str::from_utf8];
        [ClientPin]: the PIN, policy and reset commands of [ctap2.rs], the PIN checks of the
        others, and [dispatch.rs]; [ResidentReplacement]: the replacement of a resident
        credential and its recovery.
      - [FidoStateTheorems] (what is stored, whatever fails), [CounterTheorems],
        [ResidentTheorems]; [ClientPinSafety] (what each command leaves alone),
        [PinAttempts] (guesses, and what a new PIN may be), [StorageFailure];
        [PinAuthorization] (a token ages), [TokenLifetime].

    The whole device.
      - [VendorCommands], [UsbUpdateFrame], [VendorFrame], [VendorTheorems],
        [VendorRelease]: [vendor_commands.rs] over the session, the epochs and the status,
        and on the release backend.
      - [Startup]: the checks of [src/src/bin/startup/s2_fido.rs]; [MainLoop],
        [MainLoopTheorems], [MainLoopRelease]: its polling loop.

    ** What is proved

      - Updates.  The session is total; it writes only inside the slot it was granted,
        never the running one; it selects an image to boot only after reading it back and
        checking its signature against the trusted key; a grant needs the button; a late
        request is inert; a host that sends an authentic image in order, in time, gets it
        activated.  All of this holds of the release backend, where the boot records stay
        loadable through a power cut at any byte, except that the activation which uses up
        the sequence numbers reports success and boots nothing new.
      - Transport.  The engine never panics, keeps one transaction, reassembles and
        fragments messages exactly (against a wire format defined on its own).
      - Consent.  An approval is a fresh gesture inside its window; the wait ends.
      - Fuses.  Only the approved change, under the long hold; an attempt burns at most
        the delta of the plan, whatever fails.
      - Memory protection, vendor routing, the credential store as a NOR device confined
        to its partition, the attestation check, the staging page.
      - Provisioning.  Each image acts only after its hold, changes only its partition,
        and reports success only for a store the next image accepts; the build script lets
        through only consistent builds, whose partition table is the one the code assumes.
      - Power cuts.  The driver of the bench image is the same NOR device; its window shows the
        armed operation half done, once per boot, and success needs a store that came out whole.
      - The PIN.  A comparison is paid for in the store before it is made, so eight wrong
        PINs end it over any run, failed writes and power cuts included; exactly the PINs of
        the policy are accepted.
      - Tokens.  A token is granted for the right PIN only; it authorises an operation only
        while it is fresh, for the permissions and the relying party it was granted, under
        its own key; nothing once its user presence is consumed.
      - Stored state of the authenticator.  A start loads it, creates it once under the
        marker, or fails, and a file that does not read or parse leaves every byte as it
        was; memory is what is stored until a write fails, and then every command is
        refused; signature counters never repeat; a power cut during the replacement of a
        credential leaves a usable one.
      - The device.  The start is exact; every run of the loop ends each turn in a sound
        state and serves one request at a time; the partition of the credentials changes
        only as the requests of the authenticator to the block driver change it, and the
        loop itself writes nothing outside the firmware.

    ** Bounds and fuel

    [HASH_FUEL] (1920 chunks cover the largest slot) and [VERIFY_FUEL] (64 rounds cover one
    verification step) are proved enough: the theorems are totality theorems.
    [allocate_loop] has fuel 3, since at most two channel numbers are refused.
    [strip_set], [continuations] and [drain] take the length of their input.  The loops
    that wait for a person take the list of readings they make, [None] meaning the list
    was too short; [confirm_terminates] bounds its length, and [turn_ok] asks the
    environment of a turn for it.

    ** Not modelled

      - The development variants without flash encryption, the S3, and the bring-up loop
        without an authenticator ([startup/usb_bringup.rs]): the release build does not
        contain them.
      - The rest of [fido-authenticator]: making and asserting credentials beyond the
        replacement of a resident one, the credential formats, the enumeration of
        credentials, large blobs and CTAP1 (both off in [fido_config]), the migration of old
        states.  Where the main loop calls the authenticator it is any tree of calls of the
        user interface, the flag and the block driver, and in the theorems on tokens the commands that are not modelled are work of the client.
      - Trussed, littlefs, the USB stack and the other vendored or external crates: they are
        interfaces.  [platform/runtime.rs] only connects Trussed types.
      - Files of the authenticator outside its internal store, and the large-blob array
        beyond its removal on a reset.
      - The wiring of peripherals, the volatile accesses and the fault handler in the
        hardware halves of [memory_protection.rs] and [main.rs], the LED patterns, log
        lines, and the wiping of buffers that are out of reach afterwards. *)

From Stdlib Require Import Ascii String.
From stdpp Require Import base tactics numbers list option.

Open Scope Z_scope.

(** ** Bytes, buffers and machine integers

    A byte, a [u16], a [u32] and a [u64] are integers in [Z] kept in range by
    the operations; a buffer ([&[u8]], [[u8; N]]) is a [list Z].  The release
    profile of the crate compiles with [overflow-checks = true], so an
    arithmetic overflow, like an index out of range or a failed assertion, is a
    panic: it is [None] in the outer option of an operation. *)

Abbreviation bytes := (list Z).

Definition is_byte (b : Z) : Prop := 0 ≤ b < 256.
Definition is_u32 (x : Z) : Prop := 0 ≤ x < 2 ^ 32.
Definition is_u64 (x : Z) : Prop := 0 ≤ x < 2 ^ 64.

Definition U8_MAX : Z := 255.
Definition U16_MAX : Z := 65535.
Definition U32_MAX : Z := 4294967295.
Definition U64_MAX : Z := 18446744073709551615.

(** Checked arithmetic: [None] is the panic of an overflow check, or the [None]
    of the [checked_*] methods where the source calls those. *)
Definition u32_add (a b : Z) : option Z :=
  if a + b <=? U32_MAX then Some (a + b) else None.
Definition u32_sub (a b : Z) : option Z :=
  if b <=? a then Some (a - b) else None.

(** [u32::wrapping_add], [u32::wrapping_sub] and the [u64] saturating forms. *)
Definition u32_wrapping_add (a b : Z) : Z := (a + b) mod 0x100000000.
Definition u32_wrapping_sub (a b : Z) : Z := (a - b) mod 0x100000000.
Definition u64_saturating_sub (a b : Z) : Z := Z.max 0 (a - b).
Definition u64_saturating_add (a b : Z) : Z := Z.min U64_MAX (a + b).

Definition is_multiple_of (a b : Z) : bool := a mod b =? 0.

(** [l[a..b]], [l[i]] under a length check, [l[off..off + d.len()].copy_from_slice(d)]. *)
Definition slice (l : bytes) (a b : nat) : bytes := take (b - a) (drop a l).
Definition byte_at (l : bytes) (i : nat) : Z := nth i l 0.
Definition put (l : bytes) (off : nat) (d : bytes) : bytes :=
  take off l ++ d ++ drop (off + length d) l.
Definition zeros (n : nat) : bytes := replicate n 0.

(** [uN::from_le_bytes], [to_le_bytes] and the big-endian forms. *)
Definition le_decode (l : bytes) : Z := foldr (λ b acc, b + 256 * acc) 0 l.
Fixpoint le_encode (n : nat) (z : Z) : bytes :=
  match n with
  | O => []
  | S n => z mod 256 :: le_encode n (z / 256)
  end.
Definition be_decode (l : bytes) : Z := le_decode (rev l).
Definition be_encode (n : nat) (z : Z) : bytes := rev (le_encode n z).

(** Byte-for-byte comparison, the [==] of slices and arrays. *)
Definition bytes_eqb (a b : bytes) : bool := bool_decide (a = b).

(** The bytes of an ASCII literal. *)
Definition ascii_bytes (s : string) : bytes :=
  (λ c, Z.of_N (Ascii.N_of_ascii c)) <$> list_ascii_of_string s.

(** Population count of the low [n] bits, [count_ones]. *)
Fixpoint count_ones (n : nat) (z : Z) : Z :=
  match n with
  | O => 0
  | S n => Z.b2z (Z.testbit z (Z.of_nat n)) + count_ones n z
  end.

(** ** A byte-addressed memory

    A flash device or a slot is a total function from addresses to bytes; the
    bounds are the business of the code that uses it. *)
Definition memory := Z → Z.

Fixpoint mem_read (m : memory) (off : Z) (n : nat) : bytes :=
  match n with
  | O => []
  | S n => m off :: mem_read m (off + 1) n
  end.
Definition mem_write (m : memory) (off : Z) (d : bytes) : memory :=
  λ a, if (off <=? a) && (a <? off + Z.of_nat (length d))
       then byte_at d (Z.to_nat (a - off)) else m a.
Definition mem_fill (m : memory) (off len v : Z) : memory :=
  λ a, if (off <=? a) && (a <? off + len) then v else m a.

(** ** Tactics *)

(** Turn boolean tests of the hypotheses and the goal into propositions. *)
Ltac bool_to_prop :=
  repeat match goal with
  | H : (_ && _)%bool = true |- _ => apply andb_true_iff in H as [? ?]
  | H : (_ || _)%bool = false |- _ => apply orb_false_iff in H as [? ?]
  | H : (_ || _)%bool = true |- _ => apply orb_true_iff in H
  | H : (_ && _)%bool = false |- _ => apply andb_false_iff in H
  | H : negb _ = true |- _ => apply negb_true_iff in H
  | H : negb _ = false |- _ => apply negb_false_iff in H
  | H : (_ <=? _) = true |- _ => apply Z.leb_le in H
  | H : (_ <=? _) = false |- _ => apply Z.leb_gt in H
  | H : (_ <? _) = true |- _ => apply Z.ltb_lt in H
  | H : (_ <? _) = false |- _ => apply Z.ltb_ge in H
  | H : (_ >? _) = true |- _ => rewrite Z.gtb_ltb in H
  | H : (_ >? _) = false |- _ => rewrite Z.gtb_ltb in H
  | H : (_ >=? _) = true |- _ => rewrite Z.geb_leb in H
  | H : (_ >=? _) = false |- _ => rewrite Z.geb_leb in H
  | H : (_ =? _) = true |- _ => apply Z.eqb_eq in H
  | H : (_ =? _) = false |- _ => apply Z.eqb_neq in H
  | H : (_ =? _)%nat = true |- _ => apply Nat.eqb_eq in H
  | H : (_ =? _)%nat = false |- _ => apply Nat.eqb_neq in H
  | H : (_ <=? _)%nat = true |- _ => apply Nat.leb_le in H
  | H : (_ <=? _)%nat = false |- _ => apply Nat.leb_gt in H
  | H : (_ <? _)%nat = true |- _ => apply Nat.ltb_lt in H
  | H : (_ <? _)%nat = false |- _ => apply Nat.ltb_ge in H
  | H : bool_decide _ = true |- _ => apply bool_decide_eq_true in H
  | H : bool_decide _ = false |- _ => apply bool_decide_eq_false in H
  end.

(** Split the first [if] or [match] of a hypothesis or of the goal. *)
Ltac case_if_in H :=
  match type of H with
  | context [ if ?c then _ else _ ] => destruct c eqn:?
  end.
Ltac case_hyp H :=
  match type of H with
  | context [ match ?c with _ => _ end ] => destruct c eqn:?
  end.
Ltac case_goal :=
  match goal with
  | |- context [ match ?c with _ => _ end ] => destruct c eqn:?
  end.
(** Run a whole decision chain in a hypothesis, closing the absurd branches. *)
Ltac run_hyp H := repeat (case_hyp H; simplify_eq/=).

Ltac unfold_max := unfold U8_MAX, U16_MAX, U32_MAX, U64_MAX in *.

(** ** Checked arithmetic *)

Lemma u32_add_Some a b c : u32_add a b = Some c ↔ c = a + b ∧ a + b ≤ U32_MAX.
Proof. unfold u32_add. destruct (Z.leb_spec (a + b) U32_MAX); naive_solver lia. Qed.

Lemma u32_sub_Some a b c : u32_sub a b = Some c ↔ c = a - b ∧ b ≤ a.
Proof. unfold u32_sub. destruct (Z.leb_spec b a); naive_solver lia. Qed.

Lemma u32_add_ok a b : a + b ≤ U32_MAX → u32_add a b = Some (a + b).
Proof. intros. by apply u32_add_Some. Qed.

Lemma u32_sub_ok a b : b ≤ a → u32_sub a b = Some (a - b).
Proof. intros. by apply u32_sub_Some. Qed.

Lemma is_multiple_of_spec a b : is_multiple_of a b = true ↔ a mod b = 0.
Proof. unfold is_multiple_of. by rewrite Z.eqb_eq. Qed.

Create HintDb salpa.
#[export] Hint Rewrite u32_add_ok u32_sub_ok using (unfold_max; lia) : salpa.

(** ** Buffers *)

Lemma length_put l off d :
  (off + length d ≤ length l)%nat → length (put l off d) = length l.
Proof. intros. unfold put. rewrite !length_app, length_take, length_drop. lia. Qed.

(** The length of a buffer through a chain of writes. *)
Lemma put_length l off d n :
  length l = n → (off + length d ≤ n)%nat → length (put l off d) = n.
Proof. intros <-. apply length_put. Qed.

Lemma length_slice l a b : (a ≤ b ≤ length l)%nat → length (slice l a b) = (b - a)%nat.
Proof. intros. unfold slice. rewrite length_take, length_drop. lia. Qed.

Lemma length_zeros n : length (zeros n) = n.
Proof. apply length_replicate. Qed.

Lemma slice_put_same l off d :
  (off + length d ≤ length l)%nat → slice (put l off d) off (off + length d) = d.
Proof.
  intros. unfold slice, put.
  rewrite drop_app_le by (rewrite length_take; lia).
  rewrite (drop_ge (take off l)) by (rewrite length_take; lia).
  rewrite app_nil_l, take_app_le by lia.
  replace (off + length d - off)%nat with (length d) by lia. by rewrite take_ge.
Qed.

(** Writing into a buffer laid out in parts. *)
Lemma put_app (a b d : bytes) n : n = length a → put (a ++ b) n d = a ++ d ++ drop (length d) b.
Proof.
  intros ->. unfold put. rewrite take_app_le, take_ge by lia. do 2 f_equal.
  rewrite drop_app_ge by lia. f_equal. lia.
Qed.

Lemma drop_zeros k n : drop k (zeros n) = zeros (n - k).
Proof. apply drop_replicate. Qed.

Lemma put_zeros d n : put (zeros n) 0 d = d ++ zeros (n - length d).
Proof. unfold put. cbn [take app Nat.add]. by rewrite drop_zeros. Qed.

Lemma slice_full l : slice l 0 (length l) = l.
Proof. unfold slice. rewrite drop_0, Nat.sub_0_r. by apply take_ge. Qed.

Lemma bytes_eqb_true a b : bytes_eqb a b = true ↔ a = b.
Proof. unfold bytes_eqb. by rewrite bool_decide_eq_true. Qed.

Lemma bytes_eqb_false a b : bytes_eqb a b = false ↔ a ≠ b.
Proof. unfold bytes_eqb. by rewrite bool_decide_eq_false. Qed.

Lemma bytes_eqb_refl a : bytes_eqb a a = true.
Proof. by apply bytes_eqb_true. Qed.

#[export] Hint Rewrite length_put using (simpl; lia) : salpa.
#[export] Hint Rewrite length_zeros bytes_eqb_refl : salpa.

(** ** Integer encodings *)

Lemma length_le_encode n z : length (le_encode n z) = n.
Proof. revert z. induction n; naive_solver. Qed.

Lemma length_be_encode n z : length (be_encode n z) = n.
Proof. unfold be_encode. rewrite length_rev. apply length_le_encode. Qed.

#[export] Hint Rewrite length_le_encode length_be_encode : salpa.

Lemma le_encode_bytes n z : Forall is_byte (le_encode n z).
Proof.
  revert z. induction n as [|n IH]; intros z; simpl; constructor; auto.
  unfold is_byte. pose proof (Z.mod_pos_bound z 256). lia.
Qed.

Lemma le_decode_encode n z :
  0 ≤ z < 256 ^ Z.of_nat n → le_decode (le_encode n z) = z.
Proof.
  revert z. induction n as [|n IH]; intros z Hz; [simpl in *; lia|].
  cbn [le_encode]. change (le_decode (?b :: ?l)) with (b + 256 * le_decode l).
  rewrite IH.
  - pose proof (Z.div_mod z 256). lia.
  - rewrite Nat2Z.inj_succ, Z.pow_succ_r in Hz by lia.
    split; [apply Z.div_pos; lia|]. apply Z.div_lt_upper_bound; lia.
Qed.

Lemma le_decode_bound l :
  Forall is_byte l → 0 ≤ le_decode l < 256 ^ Z.of_nat (length l).
Proof.
  induction 1 as [|b l Hb Hl IH]; [simpl; lia|].
  change (le_decode (b :: l)) with (b + 256 * le_decode l).
  cbn [length]. rewrite Nat2Z.inj_succ, Z.pow_succ_r by lia. unfold is_byte in Hb. lia.
Qed.

Lemma le_encode_decode l :
  Forall is_byte l → le_encode (length l) (le_decode l) = l.
Proof.
  induction 1 as [|b l Hb Hl IH]; [done|].
  change (le_decode (b :: l)) with (b + 256 * le_decode l).
  unfold is_byte in Hb. cbn [length le_encode].
  replace (b + 256 * le_decode l) with (b + le_decode l * 256) by lia.
  rewrite Z.mod_add, Z.mod_small, Z.div_add, Z.div_small, Z.add_0_l by lia.
  by rewrite IH.
Qed.

Lemma le_encode_inj n a b :
  0 ≤ a < 256 ^ Z.of_nat n → 0 ≤ b < 256 ^ Z.of_nat n →
  le_encode n a = le_encode n b → a = b.
Proof. intros Ha Hb E. rewrite <- (le_decode_encode n a), E by done. by apply le_decode_encode. Qed.

Lemma be_decode_encode n z :
  0 ≤ z < 256 ^ Z.of_nat n → be_decode (be_encode n z) = z.
Proof. intros. unfold be_decode, be_encode. rewrite rev_involutive. by apply le_decode_encode. Qed.

Lemma be_encode_bytes n z : Forall is_byte (be_encode n z).
Proof. unfold be_encode. apply Forall_rev, le_encode_bytes. Qed.

(** ** Memory *)

Lemma length_mem_read m off n : length (mem_read m off n) = n.
Proof. revert off. induction n; simpl; auto. Qed.

#[export] Hint Rewrite length_mem_read : salpa.

Lemma mem_read_ext m m' off n :
  (∀ a, off ≤ a < off + Z.of_nat n → m a = m' a) → mem_read m off n = mem_read m' off n.
Proof.
  revert off. induction n as [|n IH]; intros off H; [done|]. cbn [mem_read].
  rewrite H, IH by lia || (intros; apply H; lia). done.
Qed.

Lemma mem_read_app m off n k :
  mem_read m off (n + k) = mem_read m off n ++ mem_read m (off + Z.of_nat n) k.
Proof.
  revert off. induction n as [|n IH]; intros off; [by rewrite Z.add_0_r|].
  cbn [mem_read Nat.add app]. rewrite IH. do 3 f_equal. lia.
Qed.

Lemma lookup_mem_read m off n i :
  (i < n)%nat → mem_read m off n !! i = Some (m (off + Z.of_nat i)).
Proof.
  revert off i. induction n as [|n IH]; intros off [|i] Hi; try lia; cbn [mem_read].
  - by rewrite Z.add_0_r.
  - change ((m off :: mem_read m (off + 1) n) !! S i) with (mem_read m (off + 1) n !! i).
    rewrite IH by lia. do 2 f_equal. lia.
Qed.

Lemma byte_at_lookup (l : bytes) i x : l !! i = Some x → byte_at l i = x.
Proof. intros H. unfold byte_at. by apply nth_lookup_Some. Qed.

Lemma mem_write_inside m off d i :
  (i < length d)%nat → mem_write m off d (off + Z.of_nat i) = byte_at d i.
Proof.
  intros. unfold mem_write.
  rewrite (proj2 (Z.leb_le _ _)), (proj2 (Z.ltb_lt _ _)) by lia. simpl.
  f_equal. lia.
Qed.

Lemma mem_read_write m off d : mem_read (mem_write m off d) off (length d) = d.
Proof.
  apply list_eq. intros i. destruct (decide (i < length d)%nat) as [Hi|Hi].
  - rewrite lookup_mem_read, mem_write_inside by done.
    destruct (lookup_lt_is_Some_2 d i Hi) as [x Hx]. by rewrite (byte_at_lookup _ _ _ Hx).
  - rewrite !lookup_ge_None_2; rewrite ?length_mem_read; auto with lia.
Qed.

Lemma mem_write_outside m off d a :
  ¬ (off ≤ a < off + Z.of_nat (length d)) → mem_write m off d a = m a.
Proof.
  intros. unfold mem_write. destruct (_ && _)%bool eqn:E; [|done]. bool_to_prop. lia.
Qed.

Lemma mem_fill_outside m off len v a :
  ¬ (off ≤ a < off + len) → mem_fill m off len v a = m a.
Proof.
  intros. unfold mem_fill. destruct (_ && _)%bool eqn:E; [|done]. bool_to_prop. lia.
Qed.

Lemma mem_fill_inside m off len v a :
  off ≤ a < off + len → mem_fill m off len v a = v.
Proof.
  intros. unfold mem_fill.
  by rewrite (proj2 (Z.leb_le _ _)), (proj2 (Z.ltb_lt _ _)) by lia.
Qed.

Lemma slice_mem_read m off n a b :
  (a ≤ b ≤ n)%nat →
  slice (mem_read m off n) a b = mem_read m (off + Z.of_nat a) (b - a).
Proof.
  intros [Hab Hbn]. replace n with (a + ((b - a) + (n - b)))%nat by lia.
  rewrite !mem_read_app. unfold slice.
  rewrite drop_app_le, drop_ge, app_nil_l by (rewrite length_mem_read; lia).
  rewrite take_app_le, take_ge by (rewrite length_mem_read; lia). done.
Qed.

(** ** Results and the step monad

    [result E A] is Rust's [Result<A, E>].  A function of the firmware that
    works on a state [S] (a backend, a session, a flash) is a [step S E A]: from
    a state, [None] for a panic or a loop that runs out of fuel, and otherwise a
    result and the new state.  An early [return e], the [?] operator included,
    is [Err e]. *)

Inductive result (E A : Type) : Type :=
  | Ok (a : A)
  | Err (e : E).
Arguments Ok {E A} a.
Arguments Err {E A} e.

#[export] Instance result_eq_dec {E A} `{EqDecision E, EqDecision A} : EqDecision (result E A).
Proof. solve_decision. Defined.

Definition step (S E A : Type) : Type := S → option (result E A * S).

#[export] Instance step_ret {S E} : MRet (step S E) := λ A a s, Some (Ok a, s).
#[export] Instance step_bind {S E} : MBind (step S E) := λ A A' k c s,
  match c s with
  | Some (Ok a, s) => k a s
  | Some (Err e, s) => Some (Err e, s)
  | None => None
  end.

Section step_operations.
Context {S E : Type}.

Definition throw {A} (e : E) : step S E A := λ s, Some (Err e, s).
Definition panic {A} : step S E A := λ _, None.
Definition get_state : step S E S := λ s, Some (Ok s, s).
Definition put_state (s' : S) : step S E unit := λ _, Some (Ok tt, s').
Definition modify (f : S → S) : step S E unit := λ s, Some (Ok tt, f s).

(** [assert!(c)] and a [return e] taken when [c] holds. *)
Definition assert_that (c : bool) : step S E unit := if c then mret tt else panic.
Definition return_if (c : bool) (e : E) : step S E unit := if c then throw e else mret tt.

(** [o.ok_or(e)?] and the panic of an overflow check. *)
Definition ok_or {A} (o : option A) (e : E) : step S E A :=
  match o with Some a => mret a | None => throw e end.
Definition checked {A} (o : option A) : step S E A :=
  match o with Some a => mret a | None => panic end.

(** A call that always succeeds, and [call(..).map_err(|_| e)?]. *)
Definition call {A} (f : S → A * S) : step S E A :=
  λ s, let '(a, s) := f s in Some (Ok a, s).
Definition call_or {A} (f : S → option A * S) (e : E) : step S E A :=
  λ s, match f s with
       | (Some a, s) => Some (Ok a, s)
       | (None, s) => Some (Err e, s)
       end.

(** Run [c] to a value on both exits: the body of a function whose early
    returns and whose final expression have the same type. *)
Definition finish (c : step S E E) (s : S) : option (E * S) :=
  match c s with
  | Some (Ok e, s) | Some (Err e, s) => Some (e, s)
  | None => None
  end.
End step_operations.

(** [call(..).map_err(|_| e)?] for a call with an error type of its own. *)
Definition map_err {S E E' A} (c : step S E A) (e : E') : step S E' A := λ s,
  match c s with
  | Some (Ok a, s) => Some (Ok a, s)
  | Some (Err _, s) => Some (Err e, s)
  | None => None
  end.

(** Total-correctness weakest precondition of a step: it does not panic, it
    terminates, and its result and final state satisfy [Q]. *)
Definition wp {S E A} (c : step S E A) (Q : result E A → S → Prop) (s : S) : Prop :=
  match c s with
  | Some (r, s') => Q r s'
  | None => False
  end.

Section wp_rules.
Context {S E : Type}.

Lemma wp_elim {A} (c : step S E A) Q s :
  wp c Q s → ∃ r s', c s = Some (r, s') ∧ Q r s'.
Proof. unfold wp. destruct (c s) as [[r s']|]; naive_solver. Qed.

Lemma wp_run {A} (c : step S E A) Q s r s' :
  c s = Some (r, s') → wp c Q s → Q r s'.
Proof. unfold wp. intros ->. done. Qed.

Lemma wp_mono {A} (c : step S E A) (Q Q' : result E A → S → Prop) s :
  wp c Q s → (∀ r s', Q r s' → Q' r s') → wp c Q' s.
Proof. unfold wp. destruct (c s) as [[r s']|]; naive_solver. Qed.

Lemma wp_conj {A} (c : step S E A) (P Q : result E A → S → Prop) s :
  wp c P s → wp c Q s → wp c (λ r s', P r s' ∧ Q r s') s.
Proof. unfold wp. destruct (c s) as [[r s']|]; naive_solver. Qed.

Lemma wp_ret {A} (a : A) (Q : result E A → S → Prop) s : Q (Ok a) s → wp (mret a) Q s.
Proof. done. Qed.

Lemma wp_throw {A} e (Q : result E A → S → Prop) s : Q (Err e) s → wp (throw e) Q s.
Proof. done. Qed.

Lemma wp_bind {A A'} (c : step S E A) (k : A → step S E A') Q s :
  wp c (λ r s', match r with Ok a => wp (k a) Q s' | Err e => Q (Err e) s' end) s →
  wp (c ≫= k) Q s.
Proof.
  unfold wp, mbind, step_bind. destruct (c s) as [[[a|e] s']|]; done.
Qed.

Lemma wp_get (Q : result E S → S → Prop) s : Q (Ok s) s → wp get_state Q s.
Proof. done. Qed.

Lemma wp_put s' (Q : result E unit → S → Prop) s : Q (Ok tt) s' → wp (put_state s') Q s.
Proof. done. Qed.

Lemma wp_modify f (Q : result E unit → S → Prop) s : Q (Ok tt) (f s) → wp (modify f) Q s.
Proof. done. Qed.

Lemma wp_assert_that (c : bool) (Q : result E unit → S → Prop) s :
  c = true → Q (Ok tt) s → wp (assert_that c) Q s.
Proof. by intros ->. Qed.

Lemma wp_return_if (c : bool) e (Q : result E unit → S → Prop) s :
  (c = true → Q (Err e) s) → (c = false → Q (Ok tt) s) → wp (return_if c e) Q s.
Proof. destruct c; cbn; auto. Qed.

Lemma wp_ok_or {A} (o : option A) e (Q : result E A → S → Prop) s :
  (∀ a, o = Some a → Q (Ok a) s) → (o = None → Q (Err e) s) → wp (ok_or o e) Q s.
Proof. destruct o; cbn; auto. Qed.

Lemma wp_checked {A} (o : option A) a (Q : result E A → S → Prop) s :
  o = Some a → Q (Ok a) s → wp (checked o) Q s.
Proof. by intros ->. Qed.

Lemma wp_call {A} (f : S → A * S) (Q : result E A → S → Prop) s :
  (∀ a s', f s = (a, s') → Q (Ok a) s') → wp (call f) Q s.
Proof. unfold wp, call. destruct (f s); auto. Qed.

Lemma wp_call_or {A} (f : S → option A * S) e (Q : result E A → S → Prop) s :
  (∀ a s', f s = (Some a, s') → Q (Ok a) s') →
  (∀ s', f s = (None, s') → Q (Err e) s') → wp (call_or f e) Q s.
Proof. unfold wp, call_or. destruct (f s) as [[a|] s']; auto. Qed.

Lemma wp_finish (c : step S E E) (Q : E → S → Prop) s :
  wp c (λ r s', match r with Ok e | Err e => Q e s' end) s →
  ∃ e s', finish c s = Some (e, s') ∧ Q e s'.
Proof.
  unfold wp, finish. destruct (c s) as [[[e|e] s']|]; naive_solver.
Qed.

Lemma finish_run (c : step S E E) s e s' :
  finish c s = Some (e, s') → c s = Some (Ok e, s') ∨ c s = Some (Err e, s').
Proof. unfold finish. intros K. destruct (c s) as [[[] ]|]; naive_solver. Qed.

Lemma wp_map_err {E' A} (c : step S E A) (e : E') (Q : result E' A → S → Prop) s :
  wp c (λ r s', match r with Ok a => Q (Ok a) s' | Err _ => Q (Err e) s' end) s →
  wp (map_err c e) Q s.
Proof. unfold wp, map_err. destruct (c s) as [[[a|e0] s']|]; done. Qed.

Lemma bind_Ok {A A'} (c : step S E A) (k : A → step S E A') s a' s' :
  (c ≫= k) s = Some (Ok a', s') ↔
  ∃ a s1, c s = Some (Ok a, s1) ∧ k a s1 = Some (Ok a', s').
Proof.
  unfold mbind, step_bind. destruct (c s) as [[[a|e] s1]|]; naive_solver.
Qed.
End wp_rules.

(** Partial correctness of a frame: whatever a step does, a preorder on states
    relates its start to its end.  The walk through a handler is proof search. *)
Definition preserves {S E A} (R : S → S → Prop) (c : step S E A) : Prop :=
  ∀ s r s', c s = Some (r, s') → R s s'.

Section preserves.
Context {S E : Type} (R : S → S → Prop) `{!PreOrder R}.

Lemma preserves_ret {A} (a : A) : preserves (E := E) R (mret a).
Proof. by intros s r s' [= _ <-]. Qed.

Lemma preserves_throw {A} e : preserves (A := A) (E := E) R (throw e).
Proof. by intros s r s' [= _ <-]. Qed.

Lemma preserves_panic {A} : preserves (A := A) (E := E) R panic.
Proof. by intros s r s' [=]. Qed.

Lemma preserves_bind {A A'} (c : step S E A) (k : A → step S E A') :
  preserves R c → (∀ a, preserves R (k a)) → preserves R (c ≫= k).
Proof.
  intros Hc Hk s r s'. unfold mbind, step_bind. destruct (c s) as [[[a|e] s1]|] eqn:Ec; [| |done].
  - intros E1. etrans; [by eapply Hc|by eapply Hk].
  - intros [= _ <-]. by eapply Hc.
Qed.

Lemma preserves_get : preserves (E := E) R get_state.
Proof. by intros s r s' [= _ <-]. Qed.

Lemma preserves_modify f : (∀ s, R s (f s)) → preserves (E := E) R (modify f).
Proof. intros Hf s r s' [= _ <-]. apply Hf. Qed.

Lemma preserves_return_if (c : bool) e : preserves (E := E) R (return_if c e).
Proof. unfold return_if. destruct c; [apply preserves_throw|apply preserves_ret]. Qed.

Lemma preserves_ok_or {A} (o : option A) e : preserves (E := E) R (ok_or o e).
Proof. destruct o; [apply preserves_ret|apply preserves_throw]. Qed.

Lemma preserves_checked {A} (o : option A) : preserves (E := E) R (checked o).
Proof. destruct o; [apply preserves_ret|apply preserves_panic]. Qed.

Lemma preserves_call {A} (f : S → A * S) : (∀ s a s', f s = (a, s') → R s s') → preserves (E := E) R (call f).
Proof. intros Hf s r s'. unfold call. destruct (f s) as [a s1] eqn:Ef. intros [= _ <-]. by eapply Hf. Qed.

Lemma preserves_call_or {A} (f : S → option A * S) e :
  (∀ s a s', f s = (a, s') → R s s') → preserves (E := E) R (call_or f e).
Proof.
  intros Hf s r s'. unfold call_or. destruct (f s) as [[a|] s1] eqn:Ef; intros [= _ <-]; by eapply Hf.
Qed.

Lemma preserves_map_err {E' A} (c : step S E A) (e : E') : preserves R c → preserves R (map_err c e).
Proof.
  intros Hc s r s'. unfold map_err. destruct (c s) as [[[a|e0] s1]|] eqn:Ec; [..|done];
    intros [= _ <-]; by eapply Hc.
Qed.

Lemma preserves_finish (c : step S E E) s e s' : preserves R c → finish c s = Some (e, s') → R s s'.
Proof. intros Hc [K|K]%finish_run; by eapply Hc. Qed.
End preserves.

Lemma wp_preserves {S E A} (R : S → S → Prop) (c : step S E A) (Q : result E A → S → Prop) s :
  preserves R c → wp c Q s → wp c (λ r s', Q r s' ∧ R s s') s.
Proof. intros Hp. unfold wp. destruct (c s) as [[r s']|] eqn:Ec; [|done]. intros. split; [done|by eapply Hp]. Qed.

Create HintDb preserves.
#[export] Hint Resolve preserves_ret preserves_throw preserves_panic preserves_get preserves_return_if
  preserves_ok_or preserves_checked preserves_map_err : preserves.

(** Walks through a handler: binds, branches and matches, then the hints. *)
Ltac preserve :=
  repeat (intros; cbv zeta; lazymatch goal with
    | |- preserves _ (mbind _ _) => apply preserves_bind; [typeclasses eauto | |]
    | |- preserves _ (match ?x with _ => _ end) => destruct x
    | |- preserves _ _ => solve [eauto with preserves typeclass_instances]
    end).

(** One symbolic-execution step of the monad. *)
Ltac wp_step :=
  lazymatch goal with
  | |- wp (_ ≫= _) _ _ => apply wp_bind
  | |- wp (mret _) _ _ => apply wp_ret
  | |- wp (throw _) _ _ => apply wp_throw
  | |- wp get_state _ _ => apply wp_get
  | |- wp (put_state _) _ _ => apply wp_put
  | |- wp (modify _) _ _ => apply wp_modify
  | |- wp (return_if _ _) _ _ => apply wp_return_if; intros
  | |- wp (ok_or _ _) _ _ => apply wp_ok_or; intros
  | |- wp (call _) _ _ => apply wp_call; intros
  | |- wp (call_or _ _) _ _ => apply wp_call_or; intros
  | |- wp (if ?c then _ else _) _ _ => destruct c eqn:?
  | |- wp (match ?c with _ => _ end) _ _ => destruct c eqn:?
  end; cbv beta iota.
Ltac wp_steps := repeat wp_step.

(** ** Bits *)

Lemma testbit_above n x k : 0 ≤ x < 2 ^ n → 0 ≤ n ≤ k → Z.testbit x k = false.
Proof. intros Hx Hk. apply (Z.bounded_iff_bits_nonneg n); lia. Qed.

Lemma lxor_bound n a b :
  0 ≤ n → 0 ≤ a < 2 ^ n → 0 ≤ b < 2 ^ n → 0 ≤ Z.lxor a b < 2 ^ n.
Proof.
  intros Hn Ha Hb. assert (0 ≤ Z.lxor a b) by (apply Z.lxor_nonneg; lia).
  apply Z.bounded_iff_bits_nonneg'; [lia..|]. intros k Hk.
  by rewrite Z.lxor_spec, !(testbit_above n) by lia.
Qed.

Lemma lor_bound n a b :
  0 ≤ n → 0 ≤ a < 2 ^ n → 0 ≤ b < 2 ^ n → 0 ≤ Z.lor a b < 2 ^ n.
Proof.
  intros Hn Ha Hb. assert (0 ≤ Z.lor a b) by (apply Z.lor_nonneg; lia).
  apply Z.bounded_iff_bits_nonneg'; [lia..|]. intros k Hk.
  by rewrite Z.lor_spec, !(testbit_above n) by lia.
Qed.

Lemma lxor_cancel_r a b : Z.lxor (Z.lxor a b) b = a.
Proof. by rewrite Z.lxor_assoc, Z.lxor_nilpotent, Z.lxor_0_r. Qed.

Lemma lxor_inj_r a a' b : Z.lxor a b = Z.lxor a' b → a = a'.
Proof. intros E. by rewrite <- (lxor_cancel_r a b), E, lxor_cancel_r. Qed.

(** Rounding with a mask of low bits. *)
Lemma lor_ones_r p n : 0 ≤ n → Z.lor p (Z.ones n) = 2 ^ n * (p / 2 ^ n) + (2 ^ n - 1).
Proof.
  intros Hn. replace (2 ^ n - 1) with (Z.ones n) by (rewrite Z.ones_equiv; lia).
  rewrite Z.mul_comm, <- Z.shiftr_div_pow2, <- Z.shiftl_mul_pow2 by lia.
  rewrite <- Z.ldiff_ones_r by lia.
  rewrite Z.add_nocarry_lxor.
  - apply Z.bits_inj'. intros k Hk.
    rewrite Z.lor_spec, Z.lxor_spec, Z.ldiff_spec.
    by destruct (Z.testbit p k), (Z.testbit (Z.ones n) k).
  - apply Z.bits_inj'. intros k Hk. rewrite Z.land_spec, Z.ldiff_spec, Z.bits_0.
    by destruct (Z.testbit p k), (Z.testbit (Z.ones n) k).
Qed.

Lemma land_high_mask v n w :
  0 ≤ n ≤ w → 0 ≤ v < 2 ^ w →
  Z.land v (Z.lxor (Z.ones n) (Z.ones w)) = 2 ^ n * (v / 2 ^ n).
Proof.
  intros Hn Hv. rewrite Z.mul_comm, <- Z.shiftr_div_pow2, <- Z.shiftl_mul_pow2 by lia.
  rewrite <- Z.ldiff_ones_r by lia.
  apply Z.bits_inj'. intros k Hk.
  rewrite Z.land_spec, Z.lxor_spec, Z.ldiff_spec, !Z.testbit_ones_nonneg by lia.
  destruct (Z.ltb_spec k n), (Z.ltb_spec k w); try lia; simpl; try done.
  by rewrite (testbit_above w) by lia.
Qed.

(** Population counts of disjoint words add up. *)
Lemma count_ones_bound n z : 0 ≤ count_ones n z ≤ Z.of_nat n.
Proof.
  induction n as [|n IH]; [simpl; lia|]. cbn [count_ones].
  destruct (Z.testbit z (Z.of_nat n)); simpl Z.b2z; lia.
Qed.

Lemma count_ones_lor n a b :
  Z.land a b = 0 → count_ones n (Z.lor a b) = count_ones n a + count_ones n b.
Proof.
  intros Hab. induction n as [|n IH]; [done|]. cbn [count_ones]. rewrite IH, Z.lor_spec.
  assert (Z.testbit a (Z.of_nat n) && Z.testbit b (Z.of_nat n) = false)
    by (by rewrite <- Z.land_spec, Hab, Z.bits_0).
  destruct (Z.testbit a _), (Z.testbit b _); simpl in *; try done; lia.
Qed.

Ltac put_lengths :=
  repeat (apply put_length;
          [|autorewrite with salpa; rewrite ?length_app, ?length_take; simpl; lia]).

Lemma mem_read_bytes (m : memory) off n : (∀ a, is_byte (m a)) → Forall is_byte (mem_read m off n).
Proof. intros H. revert off. induction n; intros off; constructor; auto. Qed.

Lemma slice_bytes l a b : Forall is_byte l → Forall is_byte (slice l a b).
Proof. intros. unfold slice. by apply Forall_take, Forall_drop. Qed.

Lemma le_decode_slice_u32 l a : 
  Forall is_byte l → (a + 4 ≤ length l)%nat → is_u32 (le_decode (slice l a (a + 4))).
Proof.
  intros Hl Ha. pose proof (le_decode_bound _ (slice_bytes l a (a + 4) Hl)) as H.
  rewrite length_slice in H by lia. replace (a + 4 - a)%nat with 4%nat in H by lia.
  apply H.
Qed.

Lemma byte_at_byte l i : Forall is_byte l → is_byte (byte_at l i).
Proof.
  intros Hl. unfold byte_at. destruct (decide (i < length l)%nat).
  - rewrite Forall_lookup in Hl. destruct (lookup_lt_is_Some_2 l i) as [x Hx]; [done|].
    rewrite (nth_lookup_Some _ _ _ _ Hx). eauto.
  - rewrite nth_overflow by lia. unfold is_byte. lia.
Qed.
