(* ===== verification/Interfaces.v ===== *)
(** * Interfaces between the components

    The hash of the [sha2] crate and the backend traits of
    [src/src/signed_image.rs] and [src/src/usb_update.rs] as type classes.  The
    operational classes ([Sha256], [ImageReader], [UpdateBackend]) hold the calls
    the firmware makes; the law classes ([FlashView], [UpdateView]) hold what it
    relies on: a backend owns two application slots, a read returns the bytes of
    the slot and changes none, an erase or a write touches only the range it is
    given, and only [activate] can change which slot boots.  Time is read through
    the backend, so a call may return a different instant each time.  A backend may
    lose track of its boot record when an activation fails halfway; its layout is
    promised to agree with the boot selection only while that is [boot_trusted]. *)

From stdpp Require Import base tactics numbers list option.
From S2P Require Import Prelude.

(** ** SHA-256

    [Sha256::digest].  The streaming hasher ([new], [update], [finalize]) hashes
    the concatenation of its updates, so a hasher is modelled by the message it
    has absorbed. *)
Class Sha256 := {
  sha256 : bytes → bytes;
  sha256_length : ∀ m, length (sha256 m) = 32%nat;
}.

Definition hasher : Type := bytes.
Definition hasher_new : hasher := [].
Definition hasher_update (h : hasher) (d : bytes) : hasher := h ++ d.
Definition hasher_finalize `{Sha256} (h : hasher) : bytes := sha256 h.

(** ** Reading and authenticating an image *)

(** [trait ImageReader]: [read(slot, offset, &mut output)] with the length of
    the output, and [verify_rsa_pss(public_key, signature, digest)]. *)
Class ImageReader (B : Type) := {
  ir_read : B → Z → Z → nat → option bytes * B;
  ir_verify_rsa_pss : B → bytes → bytes → bytes → option bool * B;
}.

Class FlashView (B : Type) `{ImageReader B} := {
  slot_mem : B → Z → memory;
  rsa_pss_valid : bytes → bytes → bytes → bool;
  slot_mem_byte : ∀ b s a, is_byte (slot_mem b s a);
  ir_read_frame : ∀ b s o n r b',
    ir_read b s o n = (r, b') → slot_mem b' = slot_mem b;
  ir_read_Some : ∀ b s o n d b',
    ir_read b s o n = (Some d, b') → d = mem_read (slot_mem b s) o n;
  ir_verify_frame : ∀ b k s d r b',
    ir_verify_rsa_pss b k s d = (r, b') → slot_mem b' = slot_mem b;
  ir_verify_Some : ∀ b k s d r b',
    ir_verify_rsa_pss b k s d = (Some r, b') → r = rsa_pss_valid k s d;
}.

(** ** Updating a slot *)

(** [struct UpdateLayout]. *)
Record UpdateLayout := mkUpdateLayout {
  active_slot : Z;
  active_sequence : Z;
  activation_entry : Z;
}.

#[export] Instance UpdateLayout_eq_dec : EqDecision UpdateLayout.
Proof. solve_decision. Defined.

(** [trait UpdateBackend]. *)
Class UpdateBackend (B : Type) `{ImageReader B} := {
  ub_now_ms : B → Z * B;
  ub_layout : B → option UpdateLayout * B;
  ub_erase : B → Z → Z → Z → option unit * B;
  ub_write : B → Z → Z → bytes → option unit * B;
  ub_activate : B → Z → Z → Z → option unit * B;
}.

Class UpdateView (B : Type) `{UpdateBackend B} `{!FlashView B} := {
  boot_state : Type;
  boot_view : B → boot_state;
  boot_layout : boot_state → UpdateLayout;
  boot_trusted : boot_state → Prop;
  ub_now_ms_u64 : ∀ b t b', ub_now_ms b = (t, b') → is_u64 t;
  ub_now_ms_frame : ∀ b t b',
    ub_now_ms b = (t, b') → slot_mem b' = slot_mem b ∧ boot_view b' = boot_view b;
  ub_layout_frame : ∀ b r b',
    ub_layout b = (r, b') → slot_mem b' = slot_mem b ∧ boot_view b' = boot_view b;
  ub_layout_Some : ∀ b l b', ub_layout b = (Some l, b') →
    boot_trusted (boot_view b) → l = boot_layout (boot_view b);
  ub_layout_u32 : ∀ b l b',
    ub_layout b = (Some l, b') → is_u32 (active_sequence l) ∧ 0 ≤ active_slot l;
  ub_erase_frame : ∀ b s o n r b', ub_erase b s o n = (r, b') →
    boot_view b' = boot_view b ∧
    ∀ s' a, s' ≠ s ∨ ¬ (o ≤ a < o + n) → slot_mem b' s' a = slot_mem b s' a;
  ub_write_frame : ∀ b s o d r b', ub_write b s o d = (r, b') →
    boot_view b' = boot_view b ∧
    ∀ s' a, s' ≠ s ∨ ¬ (o ≤ a < o + Z.of_nat (length d)) → slot_mem b' s' a = slot_mem b s' a;
  ir_read_boot : ∀ b s o n r b', ir_read b s o n = (r, b') → boot_view b' = boot_view b;
  ir_verify_boot : ∀ b k s d r b',
    ir_verify_rsa_pss b k s d = (r, b') → boot_view b' = boot_view b;
  ub_activate_frame : ∀ b s q e r b',
    ub_activate b s q e = (r, b') → ∀ s' a, slot_mem b' s' a = slot_mem b s' a;
}.

(** What a backend promises about erased flash: an erase produces it, a write to
    it stores the data, and nothing else consumes it. *)
Class WriteView (B : Type) `{UpdateView B} := {
  slot_erased : B → Z → Z → Prop;
  ub_now_erased : ∀ b t b' s a, ub_now_ms b = (t, b') → slot_erased b s a → slot_erased b' s a;
  ub_erase_Some : ∀ b s o n b', ub_erase b s o n = (Some tt, b') →
    ∀ a, o ≤ a < o + n ∨ slot_erased b s a → slot_erased b' s a;
  ub_write_erased : ∀ b s o d r b', ub_write b s o d = (r, b') →
    ∀ a, ¬ (o ≤ a < o + Z.of_nat (length d)) → slot_erased b s a → slot_erased b' s a;
  ub_write_Some : ∀ b s o d b', Forall is_byte d →
    (∀ a, o ≤ a < o + Z.of_nat (length d) → slot_erased b s a) →
    ub_write b s o d = (Some tt, b') → mem_read (slot_mem b' s) o (length d) = d;
}.
