(* ===== verification/SignedImage.v ===== *)
(** * Signed images

    [src/src/signed_image.rs]: the CRC of the signature block, the application
    descriptor, the Secure Boot V2 signature block, and the read-only
    verification of an installed slot. *)

From stdpp Require Import base tactics numbers list option.
From S2P Require Import Prelude Interfaces.

Definition OTA_SLOT_SIZE : Z := 0x1e0000.
Definition SIGNATURE_SECTOR_SIZE : Z := 0x1000.
Definition SIGNATURE_BLOCK_SIZE : nat := 1216.
Definition SIGNATURE_CRC_LENGTH : nat := 1196.
Definition RSA_PUBLIC_KEY_SIZE : nat := 776.
Definition RSA_SIGNATURE_SIZE : nat := 384.
Definition MAX_VERSION_LENGTH : nat := 31.
Definition ESP_IMAGE_MAGIC : Z := 0xe9.
Definition ESP32S2_CHIP_ID : Z := 2.
Definition ESP_APP_DESCRIPTOR_MAGIC : Z := 0xabcd5432.
Definition SECURE_BOOT_V2_SIGNATURE_MAGIC : Z := 0xe7.
Definition SECURE_BOOT_V2_RSA_VERSION : Z := 2.
Definition APP_DESCRIPTOR_OFFSET : nat := 32.
Definition APP_DESCRIPTOR_PREFIX_SIZE : nat := 80.
Definition APP_SECURE_VERSION_OFFSET : nat := 4.
Definition APP_VERSION_OFFSET : nat := 16.

(** ** CRC-32, bit by bit *)

Definition u32_not (x : Z) : Z := Z.lxor x U32_MAX.
Definition crc_bit (crc : Z) : Z :=
  Z.lxor (Z.shiftr crc 1) (Z.land 0xedb88320 (u32_wrapping_sub 0 (Z.land crc 1))).
Definition crc_byte (crc b : Z) : Z := Nat.iter 8 crc_bit (Z.lxor crc b).
Definition esp_crc32_le (seed : Z) (data : bytes) : Z :=
  u32_not (foldl crc_byte (u32_not seed) data).

(** ** Application descriptor *)

Record ImageMetadata := mkImageMetadata {
  im_secure_version : Z;
  im_version : bytes;
}.

Definition parse_image_metadata (image_prefix : bytes) : option ImageMetadata :=
  if negb (byte_at image_prefix 0 =? ESP_IMAGE_MAGIC)
     || negb ((1 <=? byte_at image_prefix 1) && (byte_at image_prefix 1 <=? 16))
     || negb (le_decode (slice image_prefix 12 14) =? ESP32S2_CHIP_ID)
     || negb (le_decode (slice image_prefix APP_DESCRIPTOR_OFFSET (APP_DESCRIPTOR_OFFSET + 4))
              =? ESP_APP_DESCRIPTOR_MAGIC)
  then None
  else
    let descriptor := drop APP_DESCRIPTOR_OFFSET image_prefix in
    let secure_version :=
      le_decode (slice descriptor APP_SECURE_VERSION_OFFSET (APP_SECURE_VERSION_OFFSET + 4)) in
    let version_field := slice descriptor APP_VERSION_OFFSET (APP_VERSION_OFFSET + 32) in
    '(version_length, _) ← list_find (λ byte, byte = 0) version_field;
    if (version_length =? 0)%nat || (MAX_VERSION_LENGTH <? version_length)%nat then None
    else Some (mkImageMetadata secure_version (take version_length version_field)).

(** ** Signature block *)

Record ParsedSignature := mkParsedSignature {
  ps_image_digest : bytes;
  ps_public_key : bytes;
  ps_signature : bytes;
}.

Definition parse_signature_block `{Sha256} (block trusted_key_digest : bytes)
  : option ParsedSignature :=
  if negb (byte_at block 0 =? SECURE_BOOT_V2_SIGNATURE_MAGIC)
     || negb (byte_at block 1 =? SECURE_BOOT_V2_RSA_VERSION)
     || negb (le_decode (slice block 1196 1200) =? esp_crc32_le 0 (take SIGNATURE_CRC_LENGTH block))
  then None
  else
    let image_digest := slice block 4 36 in
    let public_key := slice block 36 812 in
    if negb (bytes_eqb (sha256 public_key) trusted_key_digest) then None
    else Some (mkParsedSignature image_digest public_key (slice block 812 1196)).

(** ** Verification of an installed slot *)

Inductive InstalledImageError := IE_Slot | IE_Read | IE_Header | IE_Extent | IE_Signature.

Record VerifiedInstalledImage := mkVerifiedInstalledImage {
  vi_secure_version : Z;
  vi_signed_image_bytes : Z;
  vi_signed_content_digest : bytes;
}.

Section verify_installed_slot.
Context `{Sha256} {B : Type} `{ImageReader B}.

(** [position.checked_add(8).and_then(|v| v.checked_add(length)).filter(..)]. *)
Definition next_segment (position length : Z) : option Z :=
  value ← u32_add position 8;
  value ← u32_add value length;
  if value <=? OTA_SLOT_SIZE - SIGNATURE_SECTOR_SIZE - 48 then Some value else None.

(** One turn of [for segment in 0..prefix[1]]. *)
Definition segment_step (slot : Z) (segment : nat) (position : Z)
  : step B InstalledImageError Z :=
  header ← call_or (λ b, ir_read b slot position 8) IE_Read;
  let length := le_decode (slice header 4 8) in
  return_if ((segment =? 0)%nat
             && (length <? Z.of_nat APP_DESCRIPTOR_PREFIX_SIZE - Z.of_nat APP_DESCRIPTOR_OFFSET))
            IE_Header;;
  ok_or (next_segment position length) IE_Extent.

Fixpoint walk_segments (slot : Z) (segments : list nat) (position : Z)
  : step B InstalledImageError Z :=
  match segments with
  | [] => mret position
  | segment :: segments =>
      position ← segment_step slot segment position;
      walk_segments slot segments position
  end.

(** The 4 KiB boundary after the checksum and the appended digest. *)
Definition signature_offset_of (position : Z) : option Z :=
  trailer_end ← u32_add (Z.lor position 15) 33;
  value ← u32_add trailer_end (SIGNATURE_SECTOR_SIZE - 1);
  let value := Z.land value (u32_not (SIGNATURE_SECTOR_SIZE - 1)) in
  if (SIGNATURE_SECTOR_SIZE <=? value) && (value <=? OTA_SLOT_SIZE - SIGNATURE_SECTOR_SIZE)
  then Some value else None.

(** [while offset < signature_offset]: at most 1024 bytes per turn, so
    [HASH_FUEL] turns cover every offset inside a slot. *)
Definition HASH_FUEL : nat := 1920.
Fixpoint hash_loop (fuel : nat) (slot signature_offset offset : Z) (h : hasher)
  : step B InstalledImageError hasher :=
  if offset <? signature_offset then
    match fuel with
    | O => panic
    | S fuel =>
        let length := Z.min (signature_offset - offset) 1024 in
        chunk ← call_or (λ b, ir_read b slot offset (Z.to_nat length)) IE_Read;
        offset ← checked (u32_add offset length);
        hash_loop fuel slot signature_offset offset (hasher_update h chunk)
    end
  else mret h.

Definition verify_installed_slot (slot : Z) (trusted_key_digest : bytes)
  : step B InstalledImageError VerifiedInstalledImage :=
  return_if (1 <? slot) IE_Slot;;
  prefix ← call_or (λ b, ir_read b slot 0 APP_DESCRIPTOR_PREFIX_SIZE) IE_Read;
  metadata ← ok_or (parse_image_metadata prefix) IE_Header;
  return_if (negb (byte_at prefix 23 =? 1) || (16 <? im_secure_version metadata)) IE_Header;;
  position ← walk_segments slot (seq 0 (Z.to_nat (byte_at prefix 1))) 24;
  signature_offset ← ok_or (signature_offset_of position) IE_Extent;
  h ← hash_loop HASH_FUEL slot signature_offset 0 hasher_new;
  let digest := hasher_finalize h in
  block ← call_or (λ b, ir_read b slot signature_offset SIGNATURE_BLOCK_SIZE) IE_Read;
  signature ← ok_or (parse_signature_block block trusted_key_digest) IE_Signature;
  return_if (negb (bytes_eqb (ps_image_digest signature) digest)) IE_Signature;;
  valid ← call_or (λ b, ir_verify_rsa_pss b (ps_public_key signature) (ps_signature signature) digest)
                  IE_Signature;
  return_if (negb valid) IE_Signature;;
  signed_image_bytes ← checked (u32_add signature_offset SIGNATURE_SECTOR_SIZE);
  mret (mkVerifiedInstalledImage (im_secure_version metadata) signed_image_bytes digest).
End verify_installed_slot.

(** ** The CRC register *)

Lemma crc_bit_cases crc :
  crc_bit crc = if Z.odd crc then Z.lxor (crc / 2) 0xedb88320 else crc / 2.
Proof.
  unfold crc_bit. change 1 with (Z.ones 1) at 2. rewrite Z.land_ones by lia.
  rewrite Z.shiftr_div_pow2 by lia. change (2 ^ 1) with 2. rewrite Zmod_odd.
  destruct (Z.odd crc); [reflexivity|].
  change (u32_wrapping_sub 0 0) with 0. by rewrite Z.land_0_r, Z.lxor_0_r.
Qed.

Lemma crc_bit_u32 crc : is_u32 crc → is_u32 (crc_bit crc).
Proof.
  unfold is_u32. intros H. rewrite crc_bit_cases.
  assert (0 ≤ crc / 2 < 2 ^ 32) by (split; [apply Z.div_pos | apply Z.div_lt_upper_bound]; lia).
  destruct (Z.odd crc); [|lia]. apply lxor_bound; lia.
Qed.

(** The register step is a permutation of the 32-bit words: bit 31 of the
    result tells whether the polynomial was added. *)
Definition crc_unbit (crc : Z) : Z :=
  if Z.testbit crc 31 then 2 * Z.lxor crc 0xedb88320 + 1 else 2 * crc.

Lemma crc_unbit_bit crc : is_u32 crc → crc_unbit (crc_bit crc) = crc.
Proof.
  unfold is_u32. intros H. rewrite crc_bit_cases. unfold crc_unbit.
  assert (0 ≤ crc / 2 < 2 ^ 31) by (split; [apply Z.div_pos | apply Z.div_lt_upper_bound]; lia).
  pose proof (Z.div_mod crc 2 ltac:(lia)) as E. rewrite Zmod_odd in E.
  destruct (Z.odd crc).
  - rewrite Z.lxor_spec, (testbit_above 31) by lia. change (Z.testbit 0xedb88320 31) with true.
    cbn [xorb]. rewrite lxor_cancel_r. lia.
  - rewrite (testbit_above 31) by lia. lia.
Qed.

Lemma iter_crc_bit_u32 n crc : is_u32 crc → is_u32 (Nat.iter n crc_bit crc).
Proof. intros. induction n; [done|]. by apply crc_bit_u32. Qed.

Lemma iter_crc_bit_inj n a b :
  is_u32 a → is_u32 b → Nat.iter n crc_bit a = Nat.iter n crc_bit b → a = b.
Proof.
  intros Ha Hb. induction n as [|n IH]; [done|].
  rewrite !Nat.iter_succ. intros E. apply IH.
  rewrite <- (crc_unbit_bit (Nat.iter n crc_bit a)), E by by apply iter_crc_bit_u32.
  by apply crc_unbit_bit, iter_crc_bit_u32.
Qed.

(** Eight steps on a word whose low byte is clear are a shift, and steps
    distribute over [lxor]: bytes can be added to the register all at once. *)
Lemma crc_bit_lxor a b : crc_bit (Z.lxor a (2 * b)) = Z.lxor (crc_bit a) b.
Proof.
  rewrite !crc_bit_cases.
  assert (Z.odd (Z.lxor a (2 * b)) = Z.odd a) as ->.
  { rewrite <- !Z.bit0_odd, Z.lxor_spec.
    rewrite (Z.bit0_odd (2 * b)), Z.odd_mul. simpl. by rewrite xorb_false_r. }
  assert (Z.lxor a (2 * b) / 2 = Z.lxor (a / 2) b) as ->.
  { apply Z.bits_inj'. intros k Hk.
    rewrite !Z.div2_bits, !Z.lxor_spec, !Z.div2_bits by lia.
    by rewrite Z.double_bits_succ. }
  destruct (Z.odd a); [|done].
  by rewrite !Z.lxor_assoc, (Z.lxor_comm b).
Qed.

Lemma iter_crc_bit_lxor n a b :
  Nat.iter n crc_bit (Z.lxor a (2 ^ Z.of_nat n * b)) = Z.lxor (Nat.iter n crc_bit a) b.
Proof.
  revert a b. induction n as [|n IH]; intros a b.
  { change (2 ^ Z.of_nat 0) with 1. by rewrite Z.mul_1_l. }
  rewrite !Nat.iter_succ, Nat2Z.inj_succ, Z.pow_succ_r by lia.
  replace (2 * 2 ^ Z.of_nat n * b) with (2 ^ Z.of_nat n * (2 * b)) by lia.
  by rewrite IH, crc_bit_lxor.
Qed.

Lemma nat_iter_add {A} (f : A → A) n k x : Nat.iter (n + k) f x = Nat.iter n f (Nat.iter k f x).
Proof. induction n as [|n IH]; [done|]. cbn [Nat.add]. by rewrite !Nat.iter_succ, IH. Qed.

(** A little-endian word fed byte by byte is the word fed at once. *)
Lemma crc_le_encode n crc z :
  0 ≤ z < 256 ^ Z.of_nat n →
  foldl crc_byte crc (le_encode n z) = Nat.iter (8 * n) crc_bit (Z.lxor crc z).
Proof.
  revert crc z. induction n as [|n IH]; intros crc z Hz.
  { simpl in *. replace z with 0 by lia. by rewrite Z.lxor_0_r. }
  rewrite Nat2Z.inj_succ, Z.pow_succ_r in Hz by lia.
  cbn [le_encode foldl]. rewrite IH
    by (split; [apply Z.div_pos; lia | apply Z.div_lt_upper_bound; lia]).
  replace (8 * S n)%nat with (8 * n + 8)%nat by lia. rewrite nat_iter_add. f_equal.
  unfold crc_byte.
  assert (z = Z.lxor (z mod 256) (2 ^ Z.of_nat 8 * (z / 256))) as E.
  { rewrite <- Z.add_nocarry_lxor; [rewrite Z.add_comm; apply Z.div_mod; lia|].
    change (2 ^ Z.of_nat 8) with (2 ^ 8). change 256 with (2 ^ 8).
    apply Z.bits_inj'. intros k Hk. rewrite Z.land_spec, Z.bits_0, Z.mul_comm.
    rewrite <- Z.shiftl_mul_pow2, Z.shiftl_spec by lia.
    destruct (Z.ltb_spec k 8).
    - rewrite (Z.testbit_neg_r _ (k - 8)) by lia. by rewrite andb_false_r.
    - by rewrite Z.mod_pow2_bits_high by lia. }
  assert (Z.lxor crc z = Z.lxor (Z.lxor crc (z mod 256)) (2 ^ Z.of_nat 8 * (z / 256))) as ->
    by (by rewrite Z.lxor_assoc, <- E).
  by rewrite iter_crc_bit_lxor.
Qed.

Lemma crc_byte_u32 crc b : is_u32 crc → is_byte b → is_u32 (crc_byte crc b).
Proof.
  intros Hc Hb. apply iter_crc_bit_u32. apply lxor_bound; unfold is_u32, is_byte in *; lia.
Qed.

Lemma u32_not_u32 x : is_u32 x → is_u32 (u32_not x).
Proof. intros. apply lxor_bound; unfold is_u32 in *; unfold_max; lia. Qed.

Lemma u32_not_inj x y : u32_not x = u32_not y → x = y.
Proof. apply lxor_inj_r. Qed.

Lemma crc_fold_u32 data crc : is_u32 crc → Forall is_byte data → is_u32 (foldl crc_byte crc data).
Proof.
  intros Hc Hd. revert crc Hc. induction Hd; intros crc Hc; [done|].
  apply IHHd. by apply crc_byte_u32.
Qed.

Lemma esp_crc32_le_u32 seed data :
  is_u32 seed → Forall is_byte data → is_u32 (esp_crc32_le seed data).
Proof. intros. apply u32_not_u32, crc_fold_u32; [by apply u32_not_u32|done]. Qed.

(** ** Parsing *)

Lemma parse_image_metadata_Some prefix md :
  Forall is_byte prefix → length prefix = APP_DESCRIPTOR_PREFIX_SIZE →
  parse_image_metadata prefix = Some md →
  is_u32 (im_secure_version md) ∧ 1 ≤ byte_at prefix 1 ≤ 16 ∧
  (0 < length (im_version md) ≤ MAX_VERSION_LENGTH)%nat ∧ Forall is_byte (im_version md).
Proof.
  intros Hb Hl. unfold parse_image_metadata.
  destruct (_ || _)%bool eqn:E; [done|]. bool_to_prop.
  match goal with |- context [list_find ?P ?l] =>
    set (field := l); destruct (list_find P field) as [[n x]|] eqn:F end; [|done].
  unfold mbind, option_bind. destruct (_ || _)%bool eqn:E'; [done|]. bool_to_prop.
  intros [= <-]. cbn [im_secure_version im_version].
  assert (Forall is_byte field) by (by apply slice_bytes, Forall_drop).
  apply list_find_Some in F as (Hn & _). apply lookup_lt_Some in Hn.
  rewrite length_take. repeat split; try lia.
  1,2: apply (le_decode_slice_u32 (drop APP_DESCRIPTOR_OFFSET prefix));
       [by apply Forall_drop | rewrite length_drop, Hl; cbv; lia].
  by apply Forall_take.
Qed.

Lemma parse_signature_block_key `{Sha256} block key sig :
  parse_signature_block block key = Some sig → sha256 (ps_public_key sig) = key.
Proof.
  unfold parse_signature_block. intros E. run_hyp E. bool_to_prop. by apply bytes_eqb_true.
Qed.

(** A block laid out by the signer: magic, version, digest, key, signature, CRC
    over the first 1196 bytes, and padding. *)
Definition signature_body (digest public_key signature : bytes) : bytes :=
  [SECURE_BOOT_V2_SIGNATURE_MAGIC; SECURE_BOOT_V2_RSA_VERSION; 0; 0]
  ++ digest ++ public_key ++ signature.
Definition build_signature_block (digest public_key signature : bytes) : bytes :=
  let body := signature_body digest public_key signature in
  body ++ le_encode 4 (esp_crc32_le 0 body) ++ zeros 16.

Lemma slice_app_mid (x y z : bytes) a b :
  length x = a → (length y = b - a)%nat → slice (x ++ y ++ z) a b = y.
Proof.
  intros Hx Hy. unfold slice. rewrite drop_app_le, drop_ge, app_nil_l by lia.
  rewrite take_app_le, take_ge by lia. done.
Qed.

(** ** Specification of an authentic image *)

Definition trusted_signature `{Sha256} (rsa : bytes → bytes → bytes → bool)
    (key digest block : bytes) : Prop :=
  ∃ sig, parse_signature_block block key = Some sig ∧
         sha256 (ps_public_key sig) = key ∧
         ps_image_digest sig = digest ∧
         rsa (ps_public_key sig) (ps_signature sig) digest = true.

(** The bytes [0, len) of a slot are signed by the block stored at [len]. *)
Definition authentic_content `{Sha256} (rsa : bytes → bytes → bytes → bool)
    (key : bytes) (m : memory) (len : Z) : Prop :=
  trusted_signature rsa key (sha256 (mem_read m 0 (Z.to_nat len)))
    (mem_read m len SIGNATURE_BLOCK_SIZE).

(** The end of the last of [n] segments whose headers start at [pos]. *)
Fixpoint segments_end (m : memory) (n : nat) (pos : Z) : Z :=
  match n with
  | O => pos
  | S n => segments_end m n (pos + 8 + le_decode (mem_read m (pos + 4) 4))
  end.

Record installed_image `{Sha256} (rsa : bytes → bytes → bytes → bool) (key : bytes)
    (m : memory) (v : VerifiedInstalledImage) : Prop := {
  ii_len := vi_signed_image_bytes v - SIGNATURE_SECTOR_SIZE;
  ii_bounds : SIGNATURE_SECTOR_SIZE ≤ ii_len ∧ vi_signed_image_bytes v ≤ OTA_SLOT_SIZE;
  ii_aligned : vi_signed_image_bytes v mod SIGNATURE_SECTOR_SIZE = 0;
  ii_covers : segments_end m (Z.to_nat (m 1)) 24 + 33 ≤ ii_len;
  ii_metadata : ∃ md, parse_image_metadata (mem_read m 0 APP_DESCRIPTOR_PREFIX_SIZE) = Some md ∧
                      vi_secure_version v = im_secure_version md;
  ii_version : 0 ≤ vi_secure_version v ≤ 16;
  ii_digest : vi_signed_content_digest v = sha256 (mem_read m 0 (Z.to_nat ii_len));
  ii_authentic : authentic_content rsa key m ii_len;
}.

(** ** Correctness of the installed-slot verification *)

Lemma next_segment_spec pos len value :
  0 ≤ pos → is_u32 len → next_segment pos len = Some value →
  value = pos + 8 + len ∧ pos + 8 ≤ value ≤ OTA_SLOT_SIZE - SIGNATURE_SECTOR_SIZE - 48.
Proof.
  unfold next_segment, is_u32. intros Hp Hl E.
  destruct (u32_add pos 8) as [v1|] eqn:E1; simpl in E; [|done].
  destruct (u32_add v1 len) as [v2|] eqn:E2; simpl in E; [|done].
  apply u32_add_Some in E1, E2. destruct (_ <=? _) eqn:Ev; [|done]. bool_to_prop.
  simplify_eq. lia.
Qed.

Lemma signature_offset_of_spec pos so :
  0 ≤ pos → signature_offset_of pos = Some so →
  pos + 33 ≤ so ∧ so mod SIGNATURE_SECTOR_SIZE = 0 ∧
  SIGNATURE_SECTOR_SIZE ≤ so ≤ OTA_SLOT_SIZE - SIGNATURE_SECTOR_SIZE.
Proof.
  unfold signature_offset_of. intros Hp E.
  destruct (u32_add _ 33) as [t|] eqn:E1; simpl in E; [|done].
  destruct (u32_add t _) as [v|] eqn:E2; simpl in E; [|done].
  apply u32_add_Some in E1 as [-> H1], E2 as [-> H2].
  destruct (_ && _)%bool eqn:Ev; [|done]. bool_to_prop. injection E as <-.
  change 15 with (Z.ones 4) in *. rewrite lor_ones_r in * by lia. change (2 ^ 4) with 16 in *.
  pose proof (Z.div_mod pos 16 ltac:(lia)). pose proof (Z.mod_pos_bound pos 16 ltac:(lia)).
  assert (0 ≤ pos / 16) by (apply Z.div_pos; lia).
  unfold SIGNATURE_SECTOR_SIZE, OTA_SLOT_SIZE in *. unfold_max.
  set (w := 16 * (pos / 16) + (16 - 1) + 33 + (4096 - 1)) in *.
  change (u32_not (4096 - 1)) with (Z.lxor (Z.ones 12) (Z.ones 32)) in *.
  rewrite land_high_mask in * by (subst w; lia). change (2 ^ 12) with 4096 in *.
  pose proof (Z.div_mod w 4096 ltac:(lia)). pose proof (Z.mod_pos_bound w 4096 ltac:(lia)).
  split; [subst w; lia|]. split; [|lia]. rewrite Z.mul_comm. apply Z.mod_mul. lia.
Qed.

Section verification.
Context `{Sha256} {B : Type} `{FlashView B}.

Lemma slot_mem_read_bytes b s o n : Forall is_byte (mem_read (slot_mem b s) o n).
Proof. apply mem_read_bytes. intros. apply slot_mem_byte. Qed.

(** A read either fails or yields the bytes of the slot, and changes none. *)
Lemma wp_ir_read {E} slot off n (e : E) (Q : result E bytes → B → Prop) b :
  (∀ b', slot_mem b' = slot_mem b → Q (Ok (mem_read (slot_mem b slot) off n)) b') →
  (∀ b', slot_mem b' = slot_mem b → Q (Err e) b') →
  wp (call_or (λ b, ir_read b slot off n) e) Q b.
Proof.
  intros Hok Herr. apply wp_call_or.
  - intros a s' E1. rewrite (ir_read_Some _ _ _ _ _ _ E1). eapply Hok, ir_read_frame, E1.
  - intros s' E1. eapply Herr, ir_read_frame, E1.
Qed.

Lemma wp_ir_verify {E} pk sig d (e : E) (Q : result E bool → B → Prop) b :
  (∀ b', slot_mem b' = slot_mem b → Q (Ok (rsa_pss_valid pk sig d)) b') →
  (∀ b', slot_mem b' = slot_mem b → Q (Err e) b') →
  wp (call_or (λ b, ir_verify_rsa_pss b pk sig d) e) Q b.
Proof.
  intros Hok Herr. apply wp_call_or.
  - intros a s' E1. rewrite (ir_verify_Some _ _ _ _ _ _ E1). eapply Hok, ir_verify_frame, E1.
  - intros s' E1. eapply Herr, ir_verify_frame, E1.
Qed.

Lemma walk_segments_wp slot segments pos b :
  0 ≤ pos →
  wp (walk_segments slot segments pos)
     (λ r b', slot_mem b' = slot_mem b ∧
        match r with
        | Ok p => pos ≤ p ∧ p = segments_end (slot_mem b slot) (length segments) pos
        | Err e => e = IE_Read ∨ e = IE_Header ∨ e = IE_Extent
        end) b.
Proof.
  revert pos b. induction segments as [|k segments IH]; intros pos b Hpos; simpl.
  { apply wp_ret. auto with lia. }
  apply wp_bind. unfold segment_step. apply wp_bind, wp_ir_read; [|by auto].
  intros b1 Hb1. apply wp_bind, wp_return_if; intros _; [by auto|].
  apply wp_ok_or; [|by auto]. intros p Hp.
  assert (is_u32 (le_decode (slice (mem_read (slot_mem b slot) pos 8) 4 8))) as Hu.
  { apply (le_decode_slice_u32 _ 4); [apply slot_mem_read_bytes|by rewrite length_mem_read]. }
  apply next_segment_spec in Hp as [-> Hp]; [|lia..|exact Hu].
  eapply wp_mono; [apply IH; lia|]. intros r b' [Hb' Hr]. rewrite Hb1 in *.
  split; [congruence|]. destruct r; [|done].
  rewrite slice_mem_read in * by lia. split; [lia|apply Hr].
Qed.

Lemma hash_loop_wp fuel slot so off h b :
  0 ≤ off → so ≤ OTA_SLOT_SIZE → so - off ≤ 1024 * Z.of_nat fuel →
  wp (hash_loop fuel slot so off h)
     (λ r b', slot_mem b' = slot_mem b ∧
        match r with
        | Ok h' => h' = h ++ mem_read (slot_mem b slot) off (Z.to_nat (so - off))
        | Err e => e = IE_Read
        end) b.
Proof.
  revert off h b. induction fuel as [|fuel IH]; intros off h b Hoff Hso Hfuel; simpl;
    destruct (Z.ltb_spec off so); try lia.
  1,3: apply wp_ret; replace (Z.to_nat (so - off)) with 0%nat by lia; by rewrite app_nil_r.
  apply wp_bind, wp_ir_read; [|by auto]. intros b1 Hb1.
  apply wp_bind.
  eapply wp_checked; [apply u32_add_ok; unfold OTA_SLOT_SIZE in *; unfold_max; lia|].
  eapply wp_mono; [apply IH; lia|]. intros r b' [Hb' Hr]. rewrite Hb1 in *.
  split; [congruence|]. destruct r as [h'|]; [|done]. rewrite Hr. unfold hasher_update.
  set (len := Z.min (so - off) 1024).
  replace (Z.to_nat (so - off)) with (Z.to_nat len + Z.to_nat (so - (off + len)))%nat by lia.
  by rewrite mem_read_app, <- app_assoc, Z2Nat.id by lia.
Qed.

(** The contract of the scan: the verification never panics, changes no byte, and
    accepts only an authentic image whose signature covers every segment. *)
Lemma verify_installed_slot_wp slot key b :
  wp (verify_installed_slot slot key)
     (λ r b', slot_mem b' = slot_mem b ∧
        match r with
        | Ok v => installed_image rsa_pss_valid key (slot_mem b slot) v ∧ slot ≤ 1
        | Err _ => True
        end) b.
Proof.
  unfold verify_installed_slot. apply wp_bind, wp_return_if; [done|intros Hslot].
  apply wp_bind, wp_ir_read; [|done]. intros b1 Hb1.
  apply wp_bind, wp_ok_or; [|done]. intros md Hmd.
  apply wp_bind, wp_return_if; [done|intros Hver]. bool_to_prop.
  apply wp_bind. eapply wp_mono; [apply walk_segments_wp; lia|].
  intros [pos|e] b2 [Hb2 Hpos]; [|split; [congruence|done]]. destruct Hpos as [Hpos Hseg].
  apply wp_bind, wp_ok_or; [|split; [congruence|done]]. intros so Hso.
  apply signature_offset_of_spec in Hso as (Hcov & Hal & Hso); [|lia].
  apply wp_bind. eapply wp_mono; [apply hash_loop_wp; unfold HASH_FUEL, OTA_SLOT_SIZE, SIGNATURE_SECTOR_SIZE in *; lia|].
  intros [h|e] b3 [Hb3 Hh]; [|split; [congruence|done]].
  apply wp_bind, wp_ir_read; [|intros; split; [congruence|done]]. intros b4 Hb4.
  apply wp_bind, wp_ok_or; [|split; [congruence|done]]. intros sig Hsig.
  apply wp_bind, wp_return_if; [split; [congruence|done]|intros Hdig].
  apply negb_false_iff, bytes_eqb_true in Hdig.
  apply wp_bind, wp_ir_verify; [|intros; split; [congruence|done]]. intros b5 Hb5.
  apply wp_bind, wp_return_if; [split; [congruence|done]|intros Hrsa].
  apply negb_false_iff in Hrsa.
  apply wp_bind. eapply wp_checked; [apply u32_add_ok; unfold OTA_SLOT_SIZE, SIGNATURE_SECTOR_SIZE in *; unfold_max; lia|].
  apply wp_ret. split; [congruence|]. split; [|bool_to_prop; lia].
  rewrite Hb3, Hb2, Hb1 in *. rewrite Z.sub_0_r in Hh. unfold hasher_new in Hh. simpl in Hh.
  destruct (parse_image_metadata_Some _ _ (slot_mem_read_bytes _ _ _ _) (length_mem_read _ _ _) Hmd)
    as (Hu32 & Hn & _).
  split; cbn [vi_signed_image_bytes vi_secure_version vi_signed_content_digest];
    rewrite ?Z.add_simpl_r.
  - unfold SIGNATURE_SECTOR_SIZE in *. lia.
  - rewrite Z.add_mod, Hal by done. done.
  - rewrite <- Hcov. apply Z.add_le_mono_r, Z.eq_le_incl. rewrite Hseg, length_seq.
    do 2 f_equal.
  - eauto.
  - unfold is_u32 in Hu32. lia.
  - by rewrite Hh.
  - exists sig. rewrite <- Hh. repeat split; try done. by eapply parse_signature_block_key.
Qed.
End verification.
