(* ===== verification/UsbUpdate.v ===== *)
(** * Signed A/B update over USB

    [src/src/usb_update.rs]: the update session, its deadlines, the request
    handlers Begin, Write, Advance, Status and Abort, the verification of the
    written image and the response.  [Session] and [UsbUpdater] carry the fields
    of the Rust structs; a handler is a [step] on the updater whose early returns
    are [Err] and whose value is the status of the reply. *)

From stdpp Require Import base tactics numbers list option.
From S2P Require Import Prelude Interfaces SignedImage.

Definition PROTOCOL_VERSION : Z := 1.
Definition MAX_WRITE_CHUNK : nat := 992.
Definition ERASE_STEP_SIZE : Z := 0x10000.
Definition VERIFY_STEP_SIZE : Z := 0x10000.
Definition SESSION_IDLE_TIMEOUT_MS : Z := 120000.
Definition SESSION_MAX_LIFETIME_MS : Z := 900000.

Inductive Operation := Op_Info | Op_Begin | Op_Write | Op_Advance | Op_Status | Op_Abort.

Definition Operation_parse (value : Z) : option Operation :=
  if value =? 0 then Some Op_Info
  else if value =? 1 then Some Op_Begin
  else if value =? 2 then Some Op_Write
  else if value =? 3 then Some Op_Advance
  else if value =? 4 then Some Op_Status
  else if value =? 5 then Some Op_Abort
  else None.

Inductive StatusCode :=
  | St_Ok | UserPresenceRequired | InvalidRequest | InvalidState | SessionMismatch
  | OutOfOrder | ImageSize | FlashError | HashMismatch | SignatureError | Rollback
  | VersionMismatch | ActiveSlotChanged | SessionExpired.

#[export] Instance StatusCode_eq_dec : EqDecision StatusCode.
Proof. solve_decision. Defined.

(** The [repr(u8)] discriminants. *)
Definition status_code (s : StatusCode) : Z :=
  match s with
  | St_Ok => 0 | UserPresenceRequired => 1 | InvalidRequest => 2 | InvalidState => 3
  | SessionMismatch => 4 | OutOfOrder => 5 | ImageSize => 6 | FlashError => 7
  | HashMismatch => 8 | SignatureError => 9 | Rollback => 10 | VersionMismatch => 11
  | ActiveSlotChanged => 12 | SessionExpired => 13
  end.

Inductive Phase := Idle | Erasing | Receiving | Verifying | Activated | Failed.

#[export] Instance Phase_eq_dec : EqDecision Phase.
Proof. solve_decision. Defined.

Definition phase_code (p : Phase) : Z :=
  match p with
  | Idle => 0 | Erasing => 1 | Receiving => 2 | Verifying => 3 | Activated => 4 | Failed => 5
  end.

Record Session := mkSession {
  ss_started_ms : Z;
  ss_last_progress_ms : Z;
  ss_last_checked_ms : Z;
  ss_id : Z;
  ss_phase : Phase;
  ss_target_slot : Z;
  ss_active_slot : Z;
  ss_active_sequence : Z;
  ss_activation_entry : Z;
  ss_target_sequence : Z;
  ss_total : Z;
  ss_expected_hash : bytes;
  ss_expected_secure_version : Z;
  ss_expected_version : bytes;
  ss_expected_version_length : nat;
  ss_completed : Z;
  ss_full_hasher : hasher;
  ss_signed_hasher : hasher;
  ss_failure : StatusCode;
}.

(** Assignments to one field of the session. *)
Definition with_phase (v : Phase) (r : Session) : Session :=
  mkSession (r.(ss_started_ms)) (r.(ss_last_progress_ms)) (r.(ss_last_checked_ms))
    (r.(ss_id)) v (r.(ss_target_slot)) (r.(ss_active_slot)) (r.(ss_active_sequence))
    (r.(ss_activation_entry)) (r.(ss_target_sequence)) (r.(ss_total))
    (r.(ss_expected_hash)) (r.(ss_expected_secure_version)) (r.(ss_expected_version))
    (r.(ss_expected_version_length)) (r.(ss_completed)) (r.(ss_full_hasher))
    (r.(ss_signed_hasher)) (r.(ss_failure)).
Definition with_failure (v : StatusCode) (r : Session) : Session :=
  mkSession (r.(ss_started_ms)) (r.(ss_last_progress_ms)) (r.(ss_last_checked_ms))
    (r.(ss_id)) (r.(ss_phase)) (r.(ss_target_slot)) (r.(ss_active_slot))
    (r.(ss_active_sequence)) (r.(ss_activation_entry)) (r.(ss_target_sequence))
    (r.(ss_total)) (r.(ss_expected_hash)) (r.(ss_expected_secure_version))
    (r.(ss_expected_version)) (r.(ss_expected_version_length)) (r.(ss_completed))
    (r.(ss_full_hasher)) (r.(ss_signed_hasher)) v.
Definition with_last_progress_ms (v : Z) (r : Session) : Session :=
  mkSession (r.(ss_started_ms)) v (r.(ss_last_checked_ms)) (r.(ss_id)) (r.(ss_phase))
    (r.(ss_target_slot)) (r.(ss_active_slot)) (r.(ss_active_sequence))
    (r.(ss_activation_entry)) (r.(ss_target_sequence)) (r.(ss_total))
    (r.(ss_expected_hash)) (r.(ss_expected_secure_version)) (r.(ss_expected_version))
    (r.(ss_expected_version_length)) (r.(ss_completed)) (r.(ss_full_hasher))
    (r.(ss_signed_hasher)) (r.(ss_failure)).
Definition with_last_checked_ms (v : Z) (r : Session) : Session :=
  mkSession (r.(ss_started_ms)) (r.(ss_last_progress_ms)) v (r.(ss_id)) (r.(ss_phase))
    (r.(ss_target_slot)) (r.(ss_active_slot)) (r.(ss_active_sequence))
    (r.(ss_activation_entry)) (r.(ss_target_sequence)) (r.(ss_total))
    (r.(ss_expected_hash)) (r.(ss_expected_secure_version)) (r.(ss_expected_version))
    (r.(ss_expected_version_length)) (r.(ss_completed)) (r.(ss_full_hasher))
    (r.(ss_signed_hasher)) (r.(ss_failure)).
Definition with_completed (v : Z) (r : Session) : Session :=
  mkSession (r.(ss_started_ms)) (r.(ss_last_progress_ms)) (r.(ss_last_checked_ms))
    (r.(ss_id)) (r.(ss_phase)) (r.(ss_target_slot)) (r.(ss_active_slot))
    (r.(ss_active_sequence)) (r.(ss_activation_entry)) (r.(ss_target_sequence))
    (r.(ss_total)) (r.(ss_expected_hash)) (r.(ss_expected_secure_version))
    (r.(ss_expected_version)) (r.(ss_expected_version_length)) v (r.(ss_full_hasher))
    (r.(ss_signed_hasher)) (r.(ss_failure)).
Definition with_full_hasher (v : hasher) (r : Session) : Session :=
  mkSession (r.(ss_started_ms)) (r.(ss_last_progress_ms)) (r.(ss_last_checked_ms))
    (r.(ss_id)) (r.(ss_phase)) (r.(ss_target_slot)) (r.(ss_active_slot))
    (r.(ss_active_sequence)) (r.(ss_activation_entry)) (r.(ss_target_sequence))
    (r.(ss_total)) (r.(ss_expected_hash)) (r.(ss_expected_secure_version))
    (r.(ss_expected_version)) (r.(ss_expected_version_length)) (r.(ss_completed)) v
    (r.(ss_signed_hasher)) (r.(ss_failure)).
Definition with_signed_hasher (v : hasher) (r : Session) : Session :=
  mkSession (r.(ss_started_ms)) (r.(ss_last_progress_ms)) (r.(ss_last_checked_ms))
    (r.(ss_id)) (r.(ss_phase)) (r.(ss_target_slot)) (r.(ss_active_slot))
    (r.(ss_active_sequence)) (r.(ss_activation_entry)) (r.(ss_target_sequence))
    (r.(ss_total)) (r.(ss_expected_hash)) (r.(ss_expected_secure_version))
    (r.(ss_expected_version)) (r.(ss_expected_version_length)) (r.(ss_completed))
    (r.(ss_full_hasher)) v (r.(ss_failure)).

Record UsbUpdater (B : Type) := mkUsbUpdater {
  uu_backend : B;
  uu_trusted_key_digest : bytes;
  uu_current_version : bytes;
  uu_current_version_length : nat;
  uu_current_secure_version : Z;
  uu_next_session_id : Z;
  uu_session : option Session;
}.
Arguments mkUsbUpdater {B}.
Arguments uu_backend {B}.
Arguments uu_trusted_key_digest {B}.
Arguments uu_current_version {B}.
Arguments uu_current_version_length {B}.
Arguments uu_current_secure_version {B}.
Arguments uu_next_session_id {B}.
Arguments uu_session {B}.

Definition with_backend {B} (v : B) (r : UsbUpdater B) : UsbUpdater B :=
  mkUsbUpdater v (r.(uu_trusted_key_digest)) (r.(uu_current_version))
    (r.(uu_current_version_length)) (r.(uu_current_secure_version))
    (r.(uu_next_session_id)) (r.(uu_session)).
Definition with_next_session_id {B} (v : Z) (r : UsbUpdater B) : UsbUpdater B :=
  mkUsbUpdater (r.(uu_backend)) (r.(uu_trusted_key_digest)) (r.(uu_current_version))
    (r.(uu_current_version_length)) (r.(uu_current_secure_version)) v (r.(uu_session)).
Definition with_session {B} (v : option Session) (r : UsbUpdater B) : UsbUpdater B :=
  mkUsbUpdater (r.(uu_backend)) (r.(uu_trusted_key_digest)) (r.(uu_current_version))
    (r.(uu_current_version_length)) (r.(uu_current_secure_version))
    (r.(uu_next_session_id)) v.

(** ** Session *)

Definition live_phase (p : Phase) : bool :=
  match p with Erasing | Receiving | Verifying => true | _ => false end.

(** [fail(session, status)]: the session after it; the value is [status]. *)
Definition fail (status : StatusCode) (s : Session) : Session :=
  with_failure status (with_phase Failed s).

(** [Session::expire]: whether the session is expired, and the session after. *)
Definition expire (s : Session) (now_ms : Z) : bool * Session :=
  if negb (live_phase (ss_phase s)) then (bool_decide (ss_failure s = SessionExpired), s)
  else
    let expired :=
      (now_ms <? ss_last_checked_ms s)
      || (u64_saturating_sub now_ms (ss_started_ms s) >=? SESSION_MAX_LIFETIME_MS)
      || (u64_saturating_sub now_ms (ss_last_progress_ms s) >=? SESSION_IDLE_TIMEOUT_MS) in
    let s := with_last_checked_ms now_ms s in
    (expired, if expired then fail SessionExpired s else s).

(** [Session::progress]. *)
Definition progress (s : Session) (now_ms : Z) : StatusCode * Session :=
  let '(expired, s) := expire s now_ms in
  if expired then (SessionExpired, s)
  else (St_Ok, with_last_progress_ms now_ms s).

Definition expected_version (s : Session) : bytes :=
  take (ss_expected_version_length s) (ss_expected_version s).

Definition parse_session_id (request : bytes) : option Z :=
  if (length request =? 4)%nat then Some (le_decode request) else None.

Definition next_sequence (current target_slot : Z) : option Z :=
  if (current =? 0) || (1 <? target_slot) then None
  else
    let parity := target_slot + 1 in
    let increment := if current mod 2 =? parity mod 2 then 2 else 1 in
    u32_add current increment.

(** [current_version] padded to the fixed array. *)
Definition pad_version (v : bytes) : bytes := put (zeros MAX_VERSION_LENGTH) 0 v.

(** [UsbUpdater::new] with its two assertions. *)
Definition new {B} (backend : B) (trusted_key_digest current_version : bytes)
    (current_secure_version : Z) : option (UsbUpdater B) :=
  if (length current_version =? 0)%nat || (MAX_VERSION_LENGTH <? length current_version)%nat
  then None
  else Some (mkUsbUpdater backend trusted_key_digest (pad_version current_version)
               (length current_version) current_secure_version 1 None).

(** [UsbUpdater::phase]. *)
Definition phase {B} (u : UsbUpdater B) : Phase := from_option ss_phase Idle (uu_session u).

Section handlers.
Context `{Sha256} {B : Type} `{UpdateBackend B}.

Abbreviation handler := (step (UsbUpdater B) StatusCode).

Definition on_backend {A} (f : B → A * B) (u : UsbUpdater B) : A * UsbUpdater B :=
  let '(a, b) := f (uu_backend u) in (a, with_backend b u).

Definition now_ms : handler Z := call (on_backend ub_now_ms).

(** [let Some(session) = self.session.as_mut() else { return InvalidState }]. *)
Definition the_session : handler Session :=
  u ← get_state; ok_or (uu_session u) InvalidState.
Definition save_session (s : Session) : handler unit := modify (with_session (Some s)).

(** [session.expire(self.backend.now_ms())] and
    [session.progress(self.backend.now_ms())]. *)
Definition session_expire (s : Session) : handler (bool * Session) :=
  now ← now_ms;
  let '(expired, s) := expire s now in
  save_session s;; mret (expired, s).
Definition session_progress (s : Session) : handler StatusCode :=
  now ← now_ms;
  let '(status, s) := progress s now in
  save_session s;; mret status.

(** [return fail(session, status)]. *)
Definition fail_with {A} (status : StatusCode) (s : Session) : handler A :=
  save_session (fail status s);; throw status.

(** A backend call whose error fails the session with [status]. *)
Definition or_fail {A} (f : B → option A * B) (status : StatusCode) (s : Session) : handler A :=
  r ← call (on_backend f);
  match r with
  | Some a => mret a
  | None => fail_with status s
  end.

(** [UsbUpdater::poll]. *)
Definition poll (u : UsbUpdater B) : UsbUpdater B :=
  match uu_session u with
  | Some s =>
      let '(now, b) := ub_now_ms (uu_backend u) in
      with_session (Some (expire s now).2) (with_backend b u)
  | None => u
  end.

(** *** Begin *)

Definition BEGIN_FIXED : nat := 42.

Definition begin (request : bytes) (user_present : bool) : handler StatusCode :=
  return_if ((length request <? BEGIN_FIXED)%nat
             || negb (byte_at request 0 =? PROTOCOL_VERSION)) InvalidRequest;;
  let total := le_decode (slice request 1 5) in
  let version_length := Z.to_nat (byte_at request 41) in
  return_if (negb (length request =? BEGIN_FIXED + version_length)%nat
             || (version_length =? 0)%nat
             || (MAX_VERSION_LENGTH <? version_length)%nat) InvalidRequest;;
  return_if (negb ((SIGNATURE_SECTOR_SIZE * 2 <=? total) && (total <=? OTA_SLOT_SIZE))
             || negb (is_multiple_of total SIGNATURE_SECTOR_SIZE)) ImageSize;;
  let expected_hash := slice request 5 37 in
  let expected_secure_version := le_decode (slice request 37 41) in
  u ← get_state;
  return_if (expected_secure_version <? uu_current_secure_version u) Rollback;;
  return_if (negb user_present) UserPresenceRequired;;
  started_ms ← now_ms;
  layout ← call_or (on_backend ub_layout) FlashError;
  return_if ((1 <? active_slot layout) || (1 <? activation_entry layout)) InvalidState;;
  let target_slot := 1 - active_slot layout in
  target_sequence ← ok_or (next_sequence (active_sequence layout) target_slot) InvalidState;
  let expected_version := pad_version (drop 42 request) in
  let id := uu_next_session_id u in
  modify (with_next_session_id (Z.max (u32_wrapping_add id 1) 1));;
  let session :=
    mkSession started_ms started_ms started_ms id Erasing target_slot
      (active_slot layout) (active_sequence layout) (activation_entry layout)
      target_sequence total expected_hash expected_secure_version
      expected_version version_length 0 hasher_new hasher_new St_Ok in
  save_session session;;
  session_progress session.

(** *** Write *)

Definition write (request : bytes) : handler StatusCode :=
  return_if ((length request <? 9)%nat || (9 + MAX_WRITE_CHUNK <? length request)%nat)
    InvalidRequest;;
  let id := le_decode (slice request 0 4) in
  let offset := le_decode (slice request 4 8) in
  let data := drop 8 request in
  s ← the_session;
  return_if (negb (ss_id s =? id)) SessionMismatch;;
  '(expired, s) ← session_expire s;
  return_if expired SessionExpired;;
  return_if (bool_decide (ss_phase s ≠ Receiving)) InvalidState;;
  return_if ((length data =? 0)%nat || negb (is_multiple_of (Z.of_nat (length data)) 32))
    InvalidRequest;;
  return_if (negb (offset =? ss_completed s)) OutOfOrder;;
  end_ ← ok_or (u32_add offset (Z.of_nat (length data))) ImageSize;
  return_if (ss_total s <? end_) ImageSize;;
  or_fail (λ b, ub_write b (ss_target_slot s) offset data) FlashError s;;
  session_progress (with_completed end_ s).

(** *** Verification of the image read back from the target slot *)

Definition finish_verification : handler StatusCode :=
  s ← the_session;
  let fail_if c status : handler unit := if c : bool then fail_with status s else mret tt in
  fail_if (negb (bytes_eqb (hasher_finalize (ss_full_hasher s)) (ss_expected_hash s)))
    HashMismatch;;
  descriptor ← or_fail (λ b, ir_read b (ss_target_slot s) 0 APP_DESCRIPTOR_PREFIX_SIZE) FlashError s;
  match parse_image_metadata descriptor with
  | None => fail_with SignatureError s
  | Some metadata =>
    u ← get_state;
    fail_if (im_secure_version metadata <? uu_current_secure_version u) Rollback;;
    fail_if (negb (im_secure_version metadata =? ss_expected_secure_version s)
             || negb (bytes_eqb (im_version metadata) (expected_version s))) VersionMismatch;;
    let signed_digest := hasher_finalize (ss_signed_hasher s) in
    signature_offset ← checked (u32_sub (ss_total s) SIGNATURE_SECTOR_SIZE);
    block ← or_fail (λ b, ir_read b (ss_target_slot s) signature_offset SIGNATURE_BLOCK_SIZE)
              FlashError s;
    match parse_signature_block block (uu_trusted_key_digest u) with
    | None => fail_with SignatureError s
    | Some signature =>
      fail_if (negb (bytes_eqb (ps_image_digest signature) signed_digest)) SignatureError;;
      valid ← or_fail (λ b, ir_verify_rsa_pss b (ps_public_key signature)
                               (ps_signature signature) signed_digest) FlashError s;
      fail_if (negb valid) SignatureError;;
      layout ← or_fail ub_layout FlashError s;
      fail_if (negb (active_slot layout =? ss_active_slot s)
               || negb (active_sequence layout =? ss_active_sequence s)
               || negb (activation_entry layout =? ss_activation_entry s)) ActiveSlotChanged;;
      '(expired, s) ← session_expire s;
      return_if expired SessionExpired;;
      or_fail (λ b, ub_activate b (ss_target_slot s) (ss_target_sequence s)
                      (ss_activation_entry s)) FlashError s;;
      save_session (with_failure St_Ok (with_phase Activated s));;
      mret St_Ok
    end
  end.

(** One turn of [while session.completed < step_end]. *)
Definition verify_chunk (step_end signed_length : Z) (s : Session) : handler Session :=
  '(expired, s) ← session_expire s;
  return_if expired SessionExpired;;
  let length := Z.min (step_end - ss_completed s) 1024 in
  chunk ← or_fail (λ b, ir_read b (ss_target_slot s) (ss_completed s) (Z.to_nat length))
            FlashError s;
  let s := with_full_hasher (hasher_update (ss_full_hasher s) chunk) s in
  let s :=
    if ss_completed s <? signed_length then
      let signed_count := Z.min (signed_length - ss_completed s) length in
      with_signed_hasher
        (hasher_update (ss_signed_hasher s) (take (Z.to_nat signed_count) chunk)) s
    else s in
  completed ← checked (u32_add (ss_completed s) length);
  let s := with_completed completed s in
  save_session s;; mret s.

(** A step covers [VERIFY_STEP_SIZE] bytes in turns of 1024. *)
Definition VERIFY_FUEL : nat := 64.
Fixpoint verify_loop (fuel : nat) (step_end signed_length : Z) (s : Session) : handler Session :=
  if ss_completed s <? step_end then
    match fuel with
    | O => panic
    | S fuel =>
        s ← verify_chunk step_end signed_length s;
        verify_loop fuel step_end signed_length s
    end
  else mret s.

Definition verify_step : handler StatusCode :=
  s ← the_session;
  step_limit ← checked (u32_add (ss_completed s) VERIFY_STEP_SIZE);
  let step_end := Z.min step_limit (ss_total s) in
  signed_length ← checked (u32_sub (ss_total s) SIGNATURE_SECTOR_SIZE);
  s ← verify_loop VERIFY_FUEL step_end signed_length s;
  '(expired, s) ← session_expire s;
  return_if expired SessionExpired;;
  if negb (ss_completed s =? ss_total s) then session_progress s
  else finish_verification.

(** *** Advance *)

Definition advance (request : bytes) : handler StatusCode :=
  id ← ok_or (parse_session_id request) InvalidRequest;
  s ← the_session;
  return_if (negb (ss_id s =? id)) SessionMismatch;;
  '(expired, s) ← session_expire s;
  return_if expired SessionExpired;;
  match ss_phase s with
  | Erasing =>
      remaining ← checked (u32_sub (ss_total s) (ss_completed s));
      let length := Z.min remaining ERASE_STEP_SIZE in
      or_fail (λ b, ub_erase b (ss_target_slot s) (ss_completed s) length) FlashError s;;
      completed ← checked (u32_add (ss_completed s) length);
      session_progress
        (if completed =? ss_total s then with_phase Receiving (with_completed 0 s)
         else with_completed completed s)
  | Receiving =>
      return_if (negb (ss_completed s =? ss_total s)) InvalidState;;
      save_session (with_signed_hasher hasher_new (with_full_hasher hasher_new
                      (with_completed 0 (with_phase Verifying s))));;
      verify_step
  | Verifying => verify_step
  | Activated => mret St_Ok
  | Failed => mret (ss_failure s)
  | Idle => mret InvalidState
  end.

(** *** Status and Abort *)

Definition status (u : UsbUpdater B) (request : bytes) : StatusCode :=
  if (length request =? 0)%nat then St_Ok
  else
    match parse_session_id request with
    | None => InvalidRequest
    | Some id =>
        match uu_session u with
        | Some s =>
            if ss_id s =? id then
              if decide (ss_phase s = Failed) then ss_failure s else St_Ok
            else SessionMismatch
        | None => InvalidState
        end
    end.

Definition abort (request : bytes) : handler StatusCode :=
  id ← ok_or (parse_session_id request) InvalidRequest;
  u ← get_state;
  match uu_session u with
  | Some s =>
      if (ss_id s =? id) && bool_decide (ss_phase s ≠ Activated) then
        modify (with_session None);; mret St_Ok
      else if negb (ss_id s =? id) then mret SessionMismatch
      else mret InvalidState
  | None => mret InvalidState
  end.

(** *** Dispatch and response *)

Definition handle_inner (request : bytes) (user_present : bool) : handler StatusCode :=
  match head request ≫= Operation_parse with
  | None => mret InvalidRequest
  | Some Op_Info => mret (if (length request =? 1)%nat then St_Ok else InvalidRequest)
  | Some Op_Begin => begin (tail request) user_present
  | Some Op_Write => write (tail request)
  | Some Op_Advance => advance (tail request)
  | Some Op_Status => u ← get_state; mret (status u (tail request))
  | Some Op_Abort => abort (tail request)
  end.

Definition RESPONSE_FIXED : nat := 21.

Definition encode_response (u : UsbUpdater B) (st : StatusCode) (output : bytes)
  : option (nat * bytes) :=
  let len := (RESPONSE_FIXED + uu_current_version_length u)%nat in
  if (length output <? len)%nat then None
  else
    let '(ph, slot, id, completed, total) :=
      match uu_session u with
      | Some s => (ss_phase s, ss_target_slot s, ss_id s, ss_completed s, ss_total s)
      | None => (Idle, U8_MAX, 0, 0, 0)
      end in
    let output := put output 0 (zeros len) in
    let output := put output 0 [status_code st] in
    let output := put output 1 [PROTOCOL_VERSION] in
    let output := put output 2 [phase_code ph] in
    let output := put output 3 [slot] in
    let output := put output 4 (le_encode 4 id) in
    let output := put output 8 (le_encode 4 completed) in
    let output := put output 12 (le_encode 4 total) in
    let output := put output 16 (le_encode 4 (uu_current_secure_version u)) in
    let output := put output 20 [Z.of_nat (uu_current_version_length u)] in
    let output :=
      put output 21 (take (uu_current_version_length u) (uu_current_version u)) in
    Some (len, output).

Definition handle (u : UsbUpdater B) (request : bytes) (user_present : bool)
    (response : bytes) : option (nat * bytes * UsbUpdater B) :=
  '(st, u) ← finish (handle_inner request user_present) (poll u);
  '(n, response) ← encode_response u st response;
  Some (n, response, u).
End handlers.
