(* ===== verification/UsbUpdateSafety.v ===== *)
(** * Safety of the USB update

    The session invariant, the frame of every handler, and the theorems about
    [UsbUpdate.handle]: it is total, it changes flash only inside the target slot
    of a live session, and it changes the boot selection only for an image that
    it has just read back and authenticated. *)

From stdpp Require Import base tactics numbers list option.
From S2P Require Import Prelude Interfaces SignedImage UsbUpdate.

Section safety.
Context `{Sha256} {B : Type} `{UpdateView B}.

Abbreviation updater := (UsbUpdater B).
Implicit Types (u : updater) (b : B) (s : Session).

Definition mem_of u (slot : Z) : memory := slot_mem (uu_backend u) slot.
Definition boot_of u := boot_view (uu_backend u).

(** The fields fixed at construction. *)
Definition config u :=
  (uu_trusted_key_digest u, uu_current_version u, uu_current_version_length u,
   uu_current_secure_version u).

(** ** Invariant *)

Record session_shape s : Prop := {
  sh_total : SIGNATURE_SECTOR_SIZE * 2 ≤ ss_total s ≤ OTA_SLOT_SIZE;
  sh_aligned : ss_total s mod SIGNATURE_SECTOR_SIZE = 0;
  sh_completed : 0 ≤ ss_completed s ≤ ss_total s;
  sh_slots : ss_target_slot s = 1 - ss_active_slot s ∧ 0 ≤ ss_active_slot s ≤ 1;
  sh_phase : ss_phase s ≠ Idle;
  sh_id : is_u32 (ss_id s);
}.

(** While verifying, the hashers have absorbed the prefix already read. *)
Definition hashers_ok s (m : memory) : Prop :=
  ss_full_hasher s = mem_read m 0 (Z.to_nat (ss_completed s)) ∧
  ss_signed_hasher s =
    mem_read m 0 (Z.to_nat (Z.min (ss_completed s) (ss_total s - SIGNATURE_SECTOR_SIZE))).

Definition session_ok s (m : Z → memory) : Prop :=
  session_shape s ∧ (ss_phase s = Verifying → hashers_ok s (m (ss_target_slot s))).

Record updater_ok u : Prop := {
  uo_session : ∀ s, uu_session u = Some s → session_ok s (slot_mem (uu_backend u));
  uo_version : length (uu_current_version u) = MAX_VERSION_LENGTH ∧
               (0 < uu_current_version_length u ≤ MAX_VERSION_LENGTH)%nat;
  uo_next_id : 1 ≤ uu_next_session_id u ≤ U32_MAX;
}.

(** ** What an authorised activation looks like *)

Record verified_image (key : bytes) (min_version : Z) s (m : memory) : Prop := {
  vim_hash : sha256 (mem_read m 0 (Z.to_nat (ss_total s))) = ss_expected_hash s;
  vim_authentic :
    authentic_content rsa_pss_valid key m (ss_total s - SIGNATURE_SECTOR_SIZE);
  vim_metadata : ∃ md,
    parse_image_metadata (mem_read m 0 APP_DESCRIPTOR_PREFIX_SIZE) = Some md ∧
    im_secure_version md = ss_expected_secure_version s ∧
    im_version md = expected_version s ∧
    min_version ≤ im_secure_version md;
}.

Definition activation_authorised u' : Prop :=
  ∃ s, uu_session u' = Some s ∧ (ss_phase s = Activated ∨ ss_phase s = Failed) ∧
       session_shape s ∧
       verified_image (uu_trusted_key_digest u') (uu_current_secure_version u') s
         (mem_of u' (ss_target_slot s)).

(** ** Sessions under the clock *)

Lemma expire_spec s now :
  let '(e, s') := expire s now in
  (e = false ∧ ss_phase s' = ss_phase s ∧ ss_failure s' = ss_failure s ∧
     (live_phase (ss_phase s) = false ∧ s' = s ∨ s' = with_last_checked_ms now s)) ∨
  (e = true ∧ ss_failure s' = SessionExpired ∧
     (live_phase (ss_phase s) = false ∧ s' = s ∨
      live_phase (ss_phase s) = true ∧ s' = fail SessionExpired (with_last_checked_ms now s))).
Proof.
  unfold expire. destruct (live_phase (ss_phase s)) eqn:L; simpl.
  - set (c := (_ || _)%bool). destruct c; simpl; [right|left]; auto 10.
  - destruct (bool_decide_reflect (ss_failure s = SessionExpired)); [right|left]; auto 10.
Qed.

Lemma expire_ok s now m : session_ok s m → session_ok (expire s now).2 m.
Proof.
  intros [[] Hh]. pose proof (expire_spec s now) as E.
  destruct (expire s now) as [e s'].
  destruct E as [(-> & Hp & Hf & [[_ ->]| ->])|(-> & Hf & [[_ ->]|[_ ->]])];
    split; try (split; simpl; done); simpl; done.
Qed.

Lemma expire_false s now s' m :
  session_ok s m → expire s now = (false, s') →
  session_ok s' m ∧ ss_phase s' = ss_phase s ∧
  (s' = s ∨ s' = with_last_checked_ms now s).
Proof.
  intros Hs E. split; [by pose proof (expire_ok s now m Hs) as K; rewrite E in K|].
  pose proof (expire_spec s now) as K. rewrite E in K. naive_solver.
Qed.

Lemma progress_ok s now m : session_ok s m → session_ok (progress s now).2 m.
Proof.
  intros Hs. unfold progress. pose proof (expire_ok s now m Hs) as K.
  destruct (expire s now) as [e s']. simpl in K. destruct e; simpl; [done|].
  destruct K as [[] Hh]. split; [split; simpl; done|]. simpl. done.
Qed.

(** Only the deadline fields, the phase and the failure move with the clock. *)
Lemma progress_phase s now :
  ss_phase (progress s now).2 = ss_phase s ∨ ss_phase (progress s now).2 = Failed.
Proof.
  unfold progress. pose proof (expire_spec s now) as K. destruct (expire s now) as [e s'].
  destruct e; simpl; naive_solver.
Qed.

(** ** Backend calls: quiet ones leave flash and the boot selection alone *)

Definition quiet u u' : Prop :=
  slot_mem (uu_backend u') = slot_mem (uu_backend u) ∧ boot_of u' = boot_of u ∧
  config u' = config u ∧ uu_next_session_id u' = uu_next_session_id u.

Lemma quiet_refl u : quiet u u.
Proof. done. Qed.

Lemma quiet_trans u1 u2 u3 : quiet u1 u2 → quiet u2 u3 → quiet u1 u3.
Proof. unfold quiet. intuition congruence. Qed.

Lemma wp_now_ms (Q : result StatusCode Z → updater → Prop) u :
  (∀ now u', quiet u u' → uu_session u' = uu_session u → Q (Ok now) u') → wp now_ms Q u.
Proof.
  intros K. apply wp_call. unfold on_backend.
  destruct (ub_now_ms (uu_backend u)) as [t b] eqn:E. intros a u' [= <- <-].
  destruct (ub_now_ms_frame _ _ _ E). apply K; done.
Qed.

Lemma wp_session_expire s (Q : result StatusCode (bool * Session) → updater → Prop) u :
  (∀ now u', quiet u u' → uu_session u' = Some (expire s now).2 →
             Q (Ok (expire s now)) u') →
  wp (session_expire s) Q u.
Proof.
  intros K. apply wp_bind, wp_now_ms. intros now u1 Hq Hs.
  specialize (K now (with_session (Some (expire s now).2) u1)).
  destruct (expire s now) as [e s'].
  apply wp_bind, wp_modify, wp_ret, K; done.
Qed.

Lemma wp_session_progress s (Q : result StatusCode StatusCode → updater → Prop) u :
  (∀ now u', quiet u u' → uu_session u' = Some (progress s now).2 →
             Q (Ok (progress s now).1) u') →
  wp (session_progress s) Q u.
Proof.
  intros K. apply wp_bind, wp_now_ms. intros now u1 Hq Hs.
  specialize (K now (with_session (Some (progress s now).2) u1)).
  destruct (progress s now) as [e s'].
  apply wp_bind, wp_modify, wp_ret, K; done.
Qed.

Lemma wp_fail_with {A} st s (Q : result StatusCode A → updater → Prop) u :
  Q (Err st) (with_session (Some (fail st s)) u) → wp (fail_with st s) Q u.
Proof. intros. by apply wp_bind, wp_modify, wp_throw. Qed.

Lemma wp_or_fail {A} (f : B → option A * B) st s (Q : result StatusCode A → updater → Prop) u :
  (∀ a b', f (uu_backend u) = (Some a, b') → Q (Ok a) (with_backend b' u)) →
  (∀ b', f (uu_backend u) = (None, b') →
         Q (Err st) (with_session (Some (fail st s)) (with_backend b' u))) →
  wp (or_fail f st s) Q u.
Proof.
  intros Hok Hfail. apply wp_bind, wp_call. unfold on_backend.
  destruct (f (uu_backend u)) as [r b'] eqn:E. intros r' u' [= <- <-].
  destruct r as [a|]; [apply wp_ret; eauto|apply wp_fail_with; eauto].
Qed.

(** A read back of the target slot. *)
Lemma wp_read_or_fail slot off n s (Q : result StatusCode bytes → updater → Prop) u :
  (∀ u', quiet u u' → uu_session u' = uu_session u → Q (Ok (mem_read (mem_of u slot) off n)) u') →
  (∀ u', quiet u u' → uu_session u' = Some (fail FlashError s) → Q (Err FlashError) u') →
  wp (or_fail (λ b, ir_read b slot off n) FlashError s) Q u.
Proof.
  intros Hok Hfail. apply wp_or_fail.
  - intros a b' E. rewrite (ir_read_Some _ _ _ _ _ _ E).
    pose proof (ir_read_frame _ _ _ _ _ _ E). pose proof (ir_read_boot _ _ _ _ _ _ E).
    by apply Hok.
  - intros b' E.
    pose proof (ir_read_frame _ _ _ _ _ _ E). pose proof (ir_read_boot _ _ _ _ _ _ E).
    by apply Hfail.
Qed.

Lemma wp_the_session (Q : result StatusCode Session → updater → Prop) u :
  (∀ s, uu_session u = Some s → Q (Ok s) u) →
  (uu_session u = None → Q (Err InvalidState) u) → wp the_session Q u.
Proof. intros. apply wp_bind, wp_get, wp_ok_or; auto. Qed.
(** ** The step relation of the handlers *)

Record safe_step u u' : Prop := {
  st_ok : updater_ok u';
  st_config : config u' = config u;
  st_flash : ∀ x a,
    slot_mem (uu_backend u') x a ≠ slot_mem (uu_backend u) x a →
    ∃ s, uu_session u = Some s ∧ x = ss_target_slot s ∧ 0 ≤ a < ss_total s ∧
         (ss_phase s = Erasing ∨ ss_phase s = Receiving);
  st_boot : boot_of u' ≠ boot_of u → activation_authorised u';
}.

Lemma quiet_ok u u' :
  updater_ok u → quiet u u' →
  (∀ s, uu_session u' = Some s → session_ok s (slot_mem (uu_backend u))) → updater_ok u'.
Proof.
  intros Hu (Hm & Hb & Hc & Hn) Hs. destruct Hu as [Hsess Hver Hid].
  unfold config in Hc. simplify_eq. split; [by rewrite Hm|congruence|congruence].
Qed.

Lemma quiet_safe u u' :
  updater_ok u → quiet u u' →
  (∀ s, uu_session u' = Some s → session_ok s (slot_mem (uu_backend u))) → safe_step u u'.
Proof.
  intros Hu Hq Hs. pose proof (quiet_ok u u' Hu Hq Hs). destruct Hq as (Hm & Hb & Hc & Hn).
  split; try done. intros x a. by rewrite Hm.
Qed.

(** A failed session keeps its shape and carries no verification state. *)
Lemma failed_ok s m st : session_shape s → session_ok (fail st s) m.
Proof. intros []. split; [split; simpl; done|]. simpl. done. Qed.

Lemma with_completed_shape s c :
  session_shape s → 0 ≤ c ≤ ss_total s → session_shape (with_completed c s).
Proof. intros [] ?. split; simpl; done. Qed.

Lemma session_ok_mem s m m' :
  session_ok s m → (∀ a, 0 ≤ a < ss_total s → m' (ss_target_slot s) a = m (ss_target_slot s) a) →
  session_ok s m'.
Proof.
  intros [Hsh Hh] Hm. split; [done|]. intros Hp. destruct (Hh Hp) as [Hf Hg]. destruct Hsh.
  split; [rewrite Hf|rewrite Hg]; apply mem_read_ext; intros; symmetry; apply Hm; lia.
Qed.

(** Tail of a handler that ends with [session_progress s]. *)
Lemma wp_progress_safe u0 u s :
  updater_ok u0 → quiet u0 u → session_ok s (slot_mem (uu_backend u0)) →
  wp (session_progress s) (λ _ u', safe_step u0 u') u.
Proof.
  intros Hu Hq Hs. apply wp_session_progress. intros now u' Hq' Hs'.
  apply quiet_safe; [done|by eapply quiet_trans|]. rewrite Hs'. intros ? [= <-].
  by apply progress_ok.
Qed.

(** ** Completing the verification *)

Lemma fail_if_wp (c : bool) st s (Q : result StatusCode unit → updater → Prop) u :
  (c = true → Q (Err st) (with_session (Some (fail st s)) u)) →
  (c = false → Q (Ok tt) u) →
  wp (if c then fail_with st s else mret tt) Q u.
Proof. intros Ht Hf. destruct c; [by apply wp_fail_with, Ht|by apply wp_ret, Hf]. Qed.

(** Any failure on the way leaves a failed session and quiet hardware. *)
Lemma fail_safe u0 u s st :
  updater_ok u0 → quiet u0 u → session_shape s →
  safe_step u0 (with_session (Some (fail st s)) u).
Proof.
  intros Hu Hq Hs. apply quiet_safe; [done|done|]. intros ? [= <-]. by apply failed_ok.
Qed.

Lemma fail_safe' u0 u s st :
  updater_ok u0 → quiet u0 u → session_shape s → uu_session u = Some (fail st s) →
  safe_step u0 u.
Proof.
  intros Hu Hq Hs E. apply quiet_safe; [done|done|]. rewrite E. intros ? [= <-].
  by apply failed_ok.
Qed.

Lemma verified_image_ext key v s m m' :
  (∀ a, m' a = m a) → verified_image key v s m → verified_image key v s m'.
Proof.
  intros E. assert (∀ o n, mem_read m' o n = mem_read m o n) as R by (intros; by apply mem_read_ext).
  intros [K1 K2 K3]. unfold authentic_content in *. split; unfold authentic_content; by rewrite ?R.
Qed.

Lemma activate_wp u0 u s s0 :
  updater_ok u0 → quiet u0 u → uu_session u = Some s → session_shape s →
  (s = s0 ∨ ∃ now, s = with_last_checked_ms now s0) →
  verified_image (uu_trusted_key_digest u0) (uu_current_secure_version u0) s0
    (mem_of u0 (ss_target_slot s0)) →
  wp (or_fail (λ b, ub_activate b (ss_target_slot s) (ss_target_sequence s)
                      (ss_activation_entry s)) FlashError s;;
      save_session (with_failure St_Ok (with_phase Activated s));; mret St_Ok)
     (λ _ u', safe_step u0 u') u.
Proof.
  intros Hu (Hm & Hb & Hc & Hn) Hs Hsh Hs0 Hv.
  assert (Hdone : ∀ b' s', (∀ x a, slot_mem b' x a = slot_mem (uu_backend u0) x a) →
    session_shape s' → (ss_phase s' = Activated ∨ ss_phase s' = Failed) →
    ss_target_slot s' = ss_target_slot s0 →
    verified_image (uu_trusted_key_digest u0) (uu_current_secure_version u0) s'
      (mem_of u0 (ss_target_slot s0)) →
    safe_step u0 (with_session (Some s') (with_backend b' u))).
  { intros b' s' Hb' Hsh' Hp' Ht' Hv'. destruct Hu as [_ Hver Hid].
    injection Hc as Hk Hcv Hl Hsv. split; simpl.
    - split; simpl; [|congruence..]. intros ? [= <-]. split; [done|].
      destruct Hp' as [E|E]; by rewrite E.
    - unfold config. simpl. congruence.
    - intros x a. by rewrite Hb'.
    - intros _. exists s'. unfold mem_of. simpl. rewrite Ht', Hk, Hsv.
      do 3 (split; [done|]). eapply verified_image_ext; [|done]. intros a. by rewrite Hb'. }
  assert (Hv' : ∀ s', ss_total s' = ss_total s0 → ss_expected_hash s' = ss_expected_hash s0 →
    ss_expected_secure_version s' = ss_expected_secure_version s0 →
    expected_version s' = expected_version s0 →
    verified_image (uu_trusted_key_digest u0) (uu_current_secure_version u0) s'
      (mem_of u0 (ss_target_slot s0))).
  { intros s' E1 E2 E3 E4. destruct Hv. split; rewrite ?E1, ?E2, ?E3, ?E4; done. }
  assert (Hfields : ss_target_slot s = ss_target_slot s0 ∧ ss_total s = ss_total s0 ∧
    ss_expected_hash s = ss_expected_hash s0 ∧
    ss_expected_secure_version s = ss_expected_secure_version s0 ∧
    expected_version s = expected_version s0) by (destruct Hs0 as [->|[? ->]]; done).
  destruct Hfields as (F1 & F2 & F3 & F4 & F5).
  apply wp_bind, wp_or_fail.
  - intros [] b' E. pose proof (ub_activate_frame _ _ _ _ _ _ E) as E'.
    apply wp_bind, wp_modify, wp_ret. apply Hdone; [intros; by rewrite E', Hm| |by left|done|by apply Hv'].
    destruct Hsh. split; simpl; done.
  - intros b' E. pose proof (ub_activate_frame _ _ _ _ _ _ E) as E'.
    apply Hdone; [intros; by rewrite E', Hm|by apply (failed_ok s (slot_mem b'))|by right|done|by apply Hv'].
Qed.

Lemma finish_verification_wp u0 u s :
  updater_ok u0 → quiet u0 u → uu_session u = Some s →
  session_ok s (slot_mem (uu_backend u0)) → ss_phase s = Verifying →
  ss_completed s = ss_total s →
  wp finish_verification (λ _ u', safe_step u0 u') u.
Proof.
  intros Hu Hq Hs [Hsh Hh] Hp Hcomp. destruct (Hh Hp) as [Hfull Hsigned].
  assert (Htotal := sh_total _ Hsh). unfold SIGNATURE_SECTOR_SIZE, OTA_SLOT_SIZE in Htotal.
  rewrite Hcomp in Hfull. rewrite Hcomp, Z.min_r in Hsigned by (unfold SIGNATURE_SECTOR_SIZE; lia).
  assert (Hmem : ∀ v, quiet u0 v → mem_of v (ss_target_slot s) = mem_of u0 (ss_target_slot s))
    by (intros v (E & _); unfold mem_of; by rewrite E).
  assert (Hcfg : ∀ v, quiet u0 v → uu_trusted_key_digest v = uu_trusted_key_digest u0 ∧
    uu_current_secure_version v = uu_current_secure_version u0)
    by (intros v (_ & _ & E & _); by injection E).
  unfold finish_verification. apply wp_bind, wp_the_session; [|congruence].
  intros s' E. assert (s' = s) as -> by congruence. clear E. cbv zeta beta.
  apply wp_bind, fail_if_wp; [intros _; by apply fail_safe|]. intros Hhash.
  apply negb_false_iff, bytes_eqb_true in Hhash.
  apply wp_bind, wp_read_or_fail; intros u1 Hq1 Hs1;
    [|by eapply fail_safe'; [|by eapply quiet_trans|..]].
  rewrite Hmem by done. pose proof (quiet_trans _ _ _ Hq Hq1) as Hq01.
  destruct (parse_image_metadata _) as [md|] eqn:Hmd; [|by apply wp_fail_with, fail_safe].
  apply wp_bind, wp_get. destruct (Hcfg u1 Hq01) as [Hkey Hver]. rewrite Hkey, Hver.
  apply wp_bind, fail_if_wp; [intros _; by apply fail_safe|]. intros Hroll.
  apply wp_bind, fail_if_wp; [intros _; by apply fail_safe|]. intros Hvm.
  apply orb_false_iff in Hvm as [Hvm Hvs]. bool_to_prop. apply bytes_eqb_true in Hvs.
  apply wp_bind. eapply wp_checked; [apply u32_sub_ok; unfold SIGNATURE_SECTOR_SIZE; lia|].
  apply wp_bind, wp_read_or_fail; intros u2 Hq2 Hs2;
    [|by eapply fail_safe'; [|by eapply quiet_trans|..]].
  rewrite Hmem by done. pose proof (quiet_trans _ _ _ Hq01 Hq2) as Hq02.
  destruct (parse_signature_block _ _) as [sig|] eqn:Hsig; [|by apply wp_fail_with, fail_safe].
  apply wp_bind, fail_if_wp; [intros _; by apply fail_safe|]. intros Hdig.
  apply negb_false_iff, bytes_eqb_true in Hdig.
  apply wp_bind, wp_or_fail; [|intros b' E;
    pose proof (ir_verify_frame _ _ _ _ _ _ E); pose proof (ir_verify_boot _ _ _ _ _ _ E);
    by apply fail_safe; [|eapply quiet_trans; [exact Hq02|]|]].
  intros valid b3 E3. pose proof (ir_verify_Some _ _ _ _ _ _ E3) as Hvalid.
  assert (Hq03 : quiet u0 (with_backend b3 u2)).
  { pose proof (ir_verify_frame _ _ _ _ _ _ E3). pose proof (ir_verify_boot _ _ _ _ _ _ E3).
    by eapply quiet_trans; [exact Hq02|]. }
  apply wp_bind, fail_if_wp; [intros _; by apply fail_safe|]. intros Hrsa.
  apply negb_false_iff in Hrsa.
  apply wp_bind, wp_or_fail; [|intros b' E; destruct (ub_layout_frame _ _ _ E);
    by apply fail_safe; [|eapply quiet_trans; [exact Hq03|]|]].
  intros layout b4 E4. assert (Hq04 : quiet u0 (with_backend b4 (with_backend b3 u2))).
  { destruct (ub_layout_frame _ _ _ E4). by eapply quiet_trans; [exact Hq03|]. }
  apply wp_bind, fail_if_wp; [intros _; by apply fail_safe|]. intros _.
  apply wp_bind, wp_session_expire. intros now u5 Hq5 Hs5.
  pose proof (quiet_trans _ _ _ Hq04 Hq5) as Hq05.
  pose proof (expire_ok s now _ (conj Hsh Hh)) as Hsok.
  destruct (expire s now) as [e s5] eqn:Ee. simpl in Hsok, Hs5.
  apply wp_bind, wp_return_if; intros ->.
  { apply quiet_safe; [done..|]. rewrite Hs5. by intros ? [= <-]. }
  destruct (expire_false s now s5 _ (conj Hsh Hh) Ee) as ([Hsh5 _] & _ & Hs5').
  eapply activate_wp; [done..| |]; [destruct Hs5' as [->| ->]; eauto|].
  split.
  - by rewrite <- Hhash, Hfull.
  - unfold authentic_content, mem_of. rewrite <- Hsigned.
    exists sig. repeat split; try done.
    + by eapply parse_signature_block_key.
    + by rewrite <- Hrsa, Hvalid.
  - exists md. by repeat split.
Qed.

(** ** The verification loop *)

(** What the loop keeps: quiet hardware and a session still verifying the same
    image, advanced by the bytes read. *)
Definition verifying u0 s u s' : Prop :=
  quiet u0 u ∧ uu_session u = Some s' ∧ session_ok s' (slot_mem (uu_backend u0)) ∧
  ss_phase s' = Verifying ∧ ss_total s' = ss_total s.

Definition verify_post u0 s (done_at : Session → Prop) (r : result StatusCode Session)
    (u' : updater) : Prop :=
  match r with
  | Ok s' => verifying u0 s u' s' ∧ done_at s'
  | Err _ => safe_step u0 u'
  end.

(** The hashers of a session after the chunk of [len] bytes from [ss_completed s]. *)
Lemma chunk_hashed (m : memory) s s1 total len :
  let chunk := mem_read m (ss_completed s) (Z.to_nat len) in
  let s2 := with_full_hasher (hasher_update (ss_full_hasher s1) chunk) s1 in
  let s3 := if ss_completed s2 <? total - SIGNATURE_SECTOR_SIZE
    then with_signed_hasher (hasher_update (ss_signed_hasher s2)
           (take (Z.to_nat (Z.min (total - SIGNATURE_SECTOR_SIZE - ss_completed s2) len)) chunk)) s2
    else s2 in
  ss_completed s1 = ss_completed s → 0 ≤ ss_completed s → 0 ≤ len → SIGNATURE_SECTOR_SIZE ≤ total →
  ss_full_hasher s1 = mem_read m 0 (Z.to_nat (ss_completed s)) →
  ss_signed_hasher s1 = mem_read m 0 (Z.to_nat (Z.min (ss_completed s) (total - SIGNATURE_SECTOR_SIZE))) →
  ss_full_hasher s3 = mem_read m 0 (Z.to_nat (ss_completed s + len)) ∧
  ss_signed_hasher s3 = mem_read m 0 (Z.to_nat (Z.min (ss_completed s + len) (total - SIGNATURE_SECTOR_SIZE))).
Proof.
  cbv zeta. unfold SIGNATURE_SECTOR_SIZE. intros F3 Hc Hlen Htotal Hfull Hsigned. split.
  - transitivity (hasher_update (ss_full_hasher s1) (mem_read m (ss_completed s) (Z.to_nat len)));
      [by destruct (_ <? _)|].
    unfold hasher_update. rewrite Hfull. rewrite <- (Z2Nat.id (ss_completed s)) at 2 by lia.
    rewrite <- (mem_read_app m 0). f_equal. lia.
  - simpl. rewrite F3. destruct (Z.ltb_spec (ss_completed s) (total - 4096)).
    + simpl. unfold hasher_update. rewrite Hsigned, Z.min_l by lia.
      set (k := Z.to_nat (Z.min (total - 4096 - ss_completed s) len)).
      pose proof (slice_mem_read m (ss_completed s) (Z.to_nat len) 0 k ltac:(lia)) as Ht.
      unfold slice in Ht. rewrite drop_0, Nat.sub_0_r, Z.add_0_r in Ht. rewrite Ht.
      rewrite <- (Z2Nat.id (ss_completed s)) at 2 by lia.
      rewrite <- (mem_read_app m 0). f_equal. lia.
    + simpl. rewrite Hsigned. f_equal. lia.
Qed.

Lemma verify_chunk_wp u0 u s step_end :
  updater_ok u0 → verifying u0 s u s → ss_completed s < step_end ≤ ss_total s →
  wp (verify_chunk step_end (ss_total s - SIGNATURE_SECTOR_SIZE) s)
     (verify_post u0 s (λ s', ss_completed s' =
        ss_completed s + Z.min (step_end - ss_completed s) 1024)) u.
Proof.
  intros Hu (Hq & Hs & Hok & Hp & _) Hend. unfold verify_chunk.
  apply wp_bind, wp_session_expire. intros now u1 Hq1 Hs1.
  pose proof (quiet_trans _ _ _ Hq Hq1) as Hq01.
  pose proof (expire_ok s now _ Hok) as Hok1.
  destruct (expire s now) as [e s1] eqn:Ee. simpl in Hok1, Hs1.
  apply wp_bind, wp_return_if; intros ->.
  { apply quiet_safe; [done..|]. rewrite Hs1. by intros ? [= <-]. }
  destruct (expire_false s now s1 _ Hok Ee) as (_ & Hp1 & Hs1').
  assert (Hfields : ss_target_slot s1 = ss_target_slot s ∧ ss_total s1 = ss_total s ∧
    ss_completed s1 = ss_completed s) by (destruct Hs1' as [->| ->]; done).
  destruct Hfields as (F1 & F2 & F3). rewrite F1, F3.
  destruct Hok1 as [Hsh1 Hh1]. destruct Hh1 as [Hfull Hsigned]; [congruence|].
  assert (Htotal := sh_total _ Hsh1). assert (Hcompleted := sh_completed _ Hsh1).
  rewrite F1, F2, F3 in *. unfold SIGNATURE_SECTOR_SIZE, OTA_SLOT_SIZE in *.
  apply wp_bind, wp_read_or_fail; intros u2 Hq2 Hs2;
    [|by eapply fail_safe'; [|by eapply quiet_trans|..]].
  assert (mem_of u1 (ss_target_slot s) = slot_mem (uu_backend u0) (ss_target_slot s)) as ->
    by (destruct Hq01 as [E _]; unfold mem_of; by rewrite E).
  set (m := slot_mem (uu_backend u0) (ss_target_slot s)) in *.
  set (len := Z.min (step_end - ss_completed s) 1024) in *.
  cbv zeta. set (s2 := with_full_hasher _ _).
  set (s3 := if ss_completed s2 <? _ then _ else _).
  assert (Hs3 : ss_full_hasher s3 = mem_read m 0 (Z.to_nat (ss_completed s + len)) ∧
    ss_signed_hasher s3 = mem_read m 0 (Z.to_nat (Z.min (ss_completed s + len) (ss_total s - 4096))))
    by (apply (chunk_hashed m s s1 (ss_total s) len); unfold SIGNATURE_SECTOR_SIZE; done || lia).
  assert (Hs3f : ss_completed s3 = ss_completed s ∧ ss_phase s3 = Verifying ∧
    ss_total s3 = ss_total s ∧ ss_target_slot s3 = ss_target_slot s ∧ session_shape s3).
  { assert (Hsh2 : session_shape s2) by (destruct Hsh1; subst s2; split; simpl; done).
    assert (Hp2 : ss_phase s2 = Verifying) by (subst s2; simpl; congruence).
    subst s3. destruct (_ <? _);
      (split; [exact F3|split; [exact Hp2|split; [exact F2|split; [exact F1|]]]]);
      [destruct Hsh2; split; simpl; done | exact Hsh2]. }
  destruct Hs3f as (G1 & G2 & G3 & G4 & Hsh3). rewrite G1.
  apply wp_bind. eapply wp_checked; [apply u32_add_ok; unfold_max; lia|].
  apply wp_bind, wp_modify, wp_ret. split; [|done].
  split; [by eapply quiet_trans; [exact Hq01|]|]. split; [done|].
  split; [|split; [exact G2|exact G3]].
  split; [apply with_completed_shape; [done|lia]|]. intros _. unfold hashers_ok. simpl.
  rewrite G3, G4. exact Hs3.
Qed.

Lemma verify_loop_wp fuel u0 u s0 s step_end :
  updater_ok u0 → verifying u0 s0 u s → step_end ≤ ss_total s0 →
  ss_completed s ≤ step_end → step_end - ss_completed s ≤ 1024 * Z.of_nat fuel →
  wp (verify_loop fuel step_end (ss_total s0 - SIGNATURE_SECTOR_SIZE) s)
     (verify_post u0 s0 (λ s', ss_completed s' = step_end)) u.
Proof.
  intros Hu. revert u s. induction fuel as [|fuel IH]; intros u s Hv He Hc Hf; simpl;
    destruct (Z.ltb_spec (ss_completed s) step_end); try lia.
  1,3: apply wp_ret; split; [done|lia].
  pose proof Hv as (Hq & Hs & Hok & Hp & Ht). rewrite <- Ht.
  apply wp_bind. eapply wp_mono; [apply (verify_chunk_wp u0); [done| |lia]|].
  { exact (conj Hq (conj Hs (conj Hok (conj Hp eq_refl)))). }
  intros [s1|st] u1; [|done]. intros [(Hq1 & Hs1 & Hok1 & Hp1 & Ht1) Hc1].
  rewrite Ht. apply IH; [|lia..].
  exact (conj Hq1 (conj Hs1 (conj Hok1 (conj Hp1 (eq_trans Ht1 Ht))))).
Qed.

Lemma verify_step_wp u0 u s :
  updater_ok u0 → verifying u0 s u s → wp verify_step (λ _ u', safe_step u0 u') u.
Proof.
  intros Hu Hv. pose proof Hv as (Hq & Hs & Hok & Hp & _). pose proof Hok as [Hsh _].
  assert (Htotal := sh_total _ Hsh). assert (Hcompleted := sh_completed _ Hsh).
  unfold SIGNATURE_SECTOR_SIZE, OTA_SLOT_SIZE in Htotal.
  unfold verify_step. apply wp_bind, wp_the_session; [|congruence].
  intros s' E. assert (s' = s) as -> by congruence. clear E.
  apply wp_bind. eapply wp_checked; [apply u32_add_ok; unfold VERIFY_STEP_SIZE; unfold_max; lia|].
  apply wp_bind. eapply wp_checked; [apply u32_sub_ok; unfold SIGNATURE_SECTOR_SIZE; lia|].
  apply wp_bind. eapply wp_mono.
  { apply (verify_loop_wp VERIFY_FUEL u0 u s s); [done..|lia| |]; unfold VERIFY_STEP_SIZE, VERIFY_FUEL; lia. }
  intros [s1|st] u1; [|done]. intros [(Hq1 & Hs1 & Hok1 & Hp1 & Ht1) Hc1].
  apply wp_bind, wp_session_expire. intros now u2 Hq2 Hs2.
  pose proof (quiet_trans _ _ _ Hq1 Hq2) as Hq02.
  pose proof (expire_ok s1 now _ Hok1) as Hok2.
  destruct (expire s1 now) as [e s2] eqn:Ee. simpl in Hok2, Hs2.
  apply wp_bind, wp_return_if; intros ->.
  { apply quiet_safe; [done..|]. rewrite Hs2. by intros ? [= <-]. }
  destruct (expire_false s1 now s2 _ Hok1 Ee) as (_ & Hp2 & _).
  destruct (Z.eqb_spec (ss_completed s2) (ss_total s2)); simpl.
  - eapply finish_verification_wp; [done..|congruence|done].
  - by apply wp_progress_safe.
Qed.

(** ** The handlers *)

(** Every handler that works on a live session first expires it. *)
Lemma wp_entry_expire u0 u s (k : bool * Session → step updater StatusCode StatusCode) :
  updater_ok u0 → quiet u0 u → session_ok s (slot_mem (uu_backend u0)) →
  (∀ u1 s1 now, quiet u0 u1 → uu_session u1 = Some s1 → session_ok s1 (slot_mem (uu_backend u0)) →
     expire s now = (false, s1) →
     wp (k (false, s1)) (λ _ u', safe_step u0 u') u1) →
  (∀ s1, k (true, s1) = throw SessionExpired) →
  wp (session_expire s ≫= k) (λ _ u', safe_step u0 u') u.
Proof.
  intros Hu Hq Hok Hk Ht. apply wp_bind, wp_session_expire. intros now u1 Hq1 Hs1.
  pose proof (quiet_trans _ _ _ Hq Hq1) as Hq01. pose proof (expire_ok s now _ Hok) as Hok1.
  destruct (expire s now) as [e s1] eqn:Ee. simpl in Hok1, Hs1. destruct e.
  - rewrite Ht. apply wp_throw, quiet_safe; [done..|]. rewrite Hs1. by intros ? [= <-].
  - eapply Hk; done.
Qed.

Lemma idle_safe u : updater_ok u → safe_step u u.
Proof. intros Hu. apply quiet_safe; [done|apply quiet_refl|apply Hu]. Qed.

(** A mutation confined to the range of a live session. *)
Lemma mutation_safe u0 u u' s s0 st' lo hi :
  updater_ok u0 → quiet u0 u → uu_session u0 = Some s0 →
  ss_target_slot s = ss_target_slot s0 → ss_total s = ss_total s0 →
  (ss_phase s0 = Erasing ∨ ss_phase s0 = Receiving) →
  0 ≤ lo → hi ≤ ss_total s0 →
  boot_of u' = boot_of u → config u' = config u → uu_next_session_id u' = uu_next_session_id u →
  (∀ x a, x ≠ ss_target_slot s ∨ ¬ (lo ≤ a < hi) →
     slot_mem (uu_backend u') x a = slot_mem (uu_backend u) x a) →
  uu_session u' = Some st' → session_shape st' → ss_phase st' ≠ Verifying →
  safe_step u0 u'.
Proof.
  intros Hu (Hm & Hb & Hc & Hn) Hs0 Ht Htot Hp Hlo Hhi Hb' Hc' Hn' Hmem Hs' Hsh Hv.
  destruct Hu as [_ Hver Hid].
  rewrite Hc in Hc'. split.
  - unfold config in Hc'. simplify_eq. split; [|congruence..].
    rewrite Hs'. intros ? [= <-]. by split.
  - done.
  - intros x a Hne. exists s0. rewrite <- Hm in Hne.
    destruct (decide (x = ss_target_slot s ∧ lo ≤ a < hi)) as [[-> Ha]|Hn0].
    + repeat split; auto; lia.
    + destruct Hne. apply Hmem. destruct (decide (x = ss_target_slot s)); [right|by left].
      intros ?. by apply Hn0.
  - intros Hne. destruct Hne. congruence.
Qed.

(** The same, when the handler still has to record progress. *)
Lemma mutation_progress_wp u0 u1 u s s0 st' lo hi :
  updater_ok u0 → quiet u0 u → uu_session u0 = Some s0 →
  ss_target_slot s = ss_target_slot s0 → ss_total s = ss_total s0 →
  (ss_phase s0 = Erasing ∨ ss_phase s0 = Receiving) →
  0 ≤ lo → hi ≤ ss_total s0 →
  boot_of u1 = boot_of u → config u1 = config u → uu_next_session_id u1 = uu_next_session_id u →
  (∀ x a, x ≠ ss_target_slot s ∨ ¬ (lo ≤ a < hi) →
     slot_mem (uu_backend u1) x a = slot_mem (uu_backend u) x a) →
  session_shape st' → ss_phase st' ≠ Verifying →
  wp (session_progress st') (λ _ u', safe_step u0 u') u1.
Proof.
  intros Hu Hq Hs0 Ht Htot Hp Hlo Hhi Hb Hc Hn Hmem Hsh Hv.
  apply wp_session_progress. intros now u' (Hm' & Hb' & Hc' & Hn') Hs'.
  destruct (progress_ok st' now (slot_mem (uu_backend u1)) (conj Hsh (λ E, match Hv E with end)))
    as [Hsh' _].
  eapply (mutation_safe u0 u u' s s0 _ lo hi); try done; try congruence.
  - intros x a Hx. rewrite Hm'. by apply Hmem.
  - destruct (progress_phase st' now) as [E|E]; congruence.
Qed.

(** What [session_expire] leaves of the session that entered the handler. *)
Lemma entry_fields s now s1 m :
  session_ok s m → expire s now = (false, s1) →
  ss_target_slot s1 = ss_target_slot s ∧ ss_total s1 = ss_total s ∧
  ss_phase s1 = ss_phase s ∧ ss_completed s1 = ss_completed s.
Proof.
  intros Hok E. destruct (expire_false s now s1 m Hok E) as (_ & _ & [->| ->]); done.
Qed.

Lemma write_wp u request :
  updater_ok u → wp (write request) (λ _ u', safe_step u u') u.
Proof.
  intros Hu. unfold write. pose proof (idle_safe u Hu) as Hidle.
  apply wp_bind, wp_return_if; [done|intros Hlen].
  apply wp_bind, wp_the_session; [intros s Hs|done].
  pose proof (uo_session _ Hu _ Hs) as Hok.
  apply wp_bind, wp_return_if; [done|intros _].
  apply wp_entry_expire; [done|apply quiet_refl|done| |done].
  intros u1 s1 now Hq Hs1 Hok1 Ee. destruct (entry_fields s now s1 _ Hok Ee) as (F1 & F2 & F3 & F4).
  assert (Hquit : safe_step u u1) by (apply quiet_safe; [done..|]; rewrite Hs1; by intros ? [= <-]).
  pose proof Hok1 as [Hsh1 _]. assert (Hc1 := sh_completed _ Hsh1).
  apply wp_bind, wp_return_if; [done|intros _].
  apply wp_bind, wp_return_if; [done|intros Hph].
  apply bool_decide_eq_false, dec_stable in Hph.
  apply wp_bind, wp_return_if; [done|intros _].
  apply wp_bind, wp_return_if; [done|intros Hoff]. apply negb_false_iff, Z.eqb_eq in Hoff.
  apply wp_bind, wp_ok_or; [|done]. intros end_ He. apply u32_add_Some in He as [-> _].
  apply wp_bind, wp_return_if; [done|intros Hend]. apply Z.ltb_ge in Hend. rewrite Hoff in *.
  set (data := drop 8 request) in *.
  apply wp_bind, wp_or_fail.
  - intros [] b' E. destruct (ub_write_frame _ _ _ _ _ _ E) as [Hb Hm].
    eapply (mutation_progress_wp u _ u1 s1 s _ (ss_completed s1)
              (ss_completed s1 + Z.of_nat (length data))); try done; try lia.
    + right. congruence.
    + apply with_completed_shape; [done|lia].
    + simpl. rewrite Hph. done.
  - intros b' E. destruct (ub_write_frame _ _ _ _ _ _ E) as [Hb Hm].
    eapply (mutation_safe u u1 _ s1 s _ (ss_completed s1)
              (ss_completed s1 + Z.of_nat (length data))); try done; try lia.
    + right. congruence.
    + by apply (failed_ok s1 (slot_mem b')).
Qed.

Lemma erase_wp u0 u s s0 :
  updater_ok u0 → quiet u0 u → uu_session u0 = Some s0 → session_shape s →
  ss_target_slot s = ss_target_slot s0 → ss_total s = ss_total s0 → ss_phase s0 = Erasing →
  ss_phase s = Erasing →
  wp (remaining ← checked (u32_sub (ss_total s) (ss_completed s));
      let length := Z.min remaining ERASE_STEP_SIZE in
      or_fail (λ b, ub_erase b (ss_target_slot s) (ss_completed s) length) FlashError s;;
      completed ← checked (u32_add (ss_completed s) length);
      session_progress
        (if completed =? ss_total s then with_phase Receiving (with_completed 0 s)
         else with_completed completed s))
     (λ _ u', safe_step u0 u') u.
Proof.
  intros Hu Hq Hs0 Hsh Ht Htot Hp Hps.
  assert (Hc := sh_completed _ Hsh). assert (Htotal := sh_total _ Hsh).
  unfold OTA_SLOT_SIZE in Htotal.
  apply wp_bind. eapply wp_checked; [apply u32_sub_ok; lia|]. cbv zeta.
  unfold ERASE_STEP_SIZE. set (len := Z.min _ _).
  apply wp_bind, wp_or_fail.
  - intros [] b' E. destruct (ub_erase_frame _ _ _ _ _ _ E) as [Hb Hm].
    apply wp_bind. eapply wp_checked; [apply u32_add_ok; unfold_max; lia|].
    eapply (mutation_progress_wp u0 _ u s s0 _ (ss_completed s) (ss_completed s + len));
      try done; try lia; [by left|..].
    + destruct (_ =? _) eqn:Ec; [|apply with_completed_shape; [done|lia]].
      destruct Hsh. split; simpl; try done; lia.
    + destruct (_ =? _); simpl; [done|congruence].
  - intros b' E. destruct (ub_erase_frame _ _ _ _ _ _ E) as [Hb Hm].
    eapply (mutation_safe u0 u _ s s0 _ (ss_completed s) (ss_completed s + len));
      try done; try lia; [by left|].
    by apply (failed_ok s (slot_mem b')).
Qed.

Lemma advance_wp u request :
  updater_ok u → wp (advance request) (λ _ u', safe_step u u') u.
Proof.
  intros Hu. unfold advance. pose proof (idle_safe u Hu) as Hidle.
  apply wp_bind, wp_ok_or; [intros id _|done].
  apply wp_bind, wp_the_session; [intros s Hs|done].
  pose proof (uo_session _ Hu _ Hs) as Hok.
  apply wp_bind, wp_return_if; [done|intros _].
  apply wp_entry_expire; [done|apply quiet_refl|done| |done].
  intros u1 s1 now Hq Hs1 Hok1 Ee. destruct (entry_fields s now s1 _ Hok Ee) as (F1 & F2 & F3 & F4).
  assert (Hquit : safe_step u u1) by (apply quiet_safe; [done..|]; rewrite Hs1; by intros ? [= <-]).
  pose proof Hok1 as [Hsh1 _].
  apply wp_bind, wp_return_if; [done|intros _].
  destruct (ss_phase s1) eqn:Hp1; try by apply wp_ret.
  - eapply erase_wp; done || congruence.
  - apply wp_bind, wp_return_if; [done|intros _].
    apply wp_bind, wp_modify. set (s2 := with_signed_hasher _ _).
    apply (verify_step_wp u _ s2); [done|]. split; [done|]. split; [done|].
    split; [|done]. split.
    + destruct Hsh1. subst s2. split; simpl; try done. lia.
    + intros _. split; [done|].
      assert (Htotal := sh_total _ Hsh1). unfold SIGNATURE_SECTOR_SIZE in *. subst s2. simpl.
      by rewrite Z.min_l by lia.
  - apply (verify_step_wp u _ s1); [done|]. exact (conj Hq (conj Hs1 (conj Hok1 (conj Hp1 eq_refl)))).
Qed.

Lemma abort_wp u request :
  updater_ok u → wp (abort request) (λ _ u', safe_step u u') u.
Proof.
  intros Hu. unfold abort. pose proof (idle_safe u Hu) as Hidle.
  apply wp_bind, wp_ok_or; [intros id _|done].
  apply wp_bind, wp_get. destruct (uu_session u) as [s|]; [|done].
  destruct (_ && _)%bool; [|by destruct (negb _)].
  apply wp_bind, wp_modify, wp_ret, quiet_safe; done.
Qed.

Lemma begin_wp u request present :
  updater_ok u → wp (begin request present) (λ _ u', safe_step u u') u.
Proof.
  intros Hu. unfold begin. pose proof (idle_safe u Hu) as Hidle.
  apply wp_bind, wp_return_if; [done|intros _].
  apply wp_bind, wp_return_if; [done|intros Hvl].
  apply wp_bind, wp_return_if; [done|intros Htot].
  apply orb_false_iff in Htot as [Ht Ha]. apply negb_false_iff in Ht, Ha.
  apply andb_true_iff in Ht as [Ht1 Ht2]. apply Z.leb_le in Ht1, Ht2.
  apply is_multiple_of_spec in Ha.
  apply wp_bind, wp_get. apply wp_bind, wp_return_if; [done|intros _].
  apply wp_bind, wp_return_if; [done|intros _].
  apply wp_bind, wp_now_ms. intros started u1 Hq1 Hs1.
  assert (Hquit : ∀ v, quiet u v → uu_session v = uu_session u → safe_step u v).
  { intros v Hq Hs. apply quiet_safe; [done..|]. rewrite Hs. apply Hu. }
  assert (Hlay : ∀ r b', ub_layout (uu_backend u1) = (r, b') → quiet u (with_backend b' u1)).
  { intros r b' E. destruct (ub_layout_frame _ _ _ E). by eapply quiet_trans; [exact Hq1|]. }
  apply wp_bind, wp_call_or; unfold on_backend;
    destruct (ub_layout (uu_backend u1)) as [r b'] eqn:E; intros; simplify_eq;
    [|apply Hquit; [by eapply Hlay|done]].
  destruct (ub_layout_u32 _ _ _ E) as [Hseq Hact]. specialize (Hlay _ _ eq_refl).
  pose proof (Hquit _ Hlay Hs1) as Hstop.
  apply wp_bind, wp_return_if; [done|intros Hl]. apply orb_false_iff in Hl as [Hl _].
  apply Z.ltb_ge in Hl.
  apply wp_bind, wp_ok_or; [intros q Hq|done].
  apply wp_bind, wp_modify, wp_bind, wp_modify.
  set (s0 := mkSession _ _ _ _ _ _ _ _ _ _ _ _ _ _ _ _ _ _ _). 
  set (u2 := with_session _ _).
  destruct Hlay as (Hm & Hb & Hc & Hn). pose proof Hu as [_ Hver Hid].
  assert (Hsh : session_shape s0).
  { subst s0. split; simpl; try done; try lia;
      unfold is_u32, U32_MAX, SIGNATURE_SECTOR_SIZE in *; lia. }
  apply wp_session_progress. intros now u3 (Hm3 & Hb3 & Hc3 & Hn3) Hs3.
  assert (Hm30 : slot_mem (uu_backend u3) = slot_mem (uu_backend u)) by (rewrite Hm3; exact Hm).
  split.
  - split.
    + rewrite Hs3. intros ? [= <-]. apply progress_ok. split; [done|]. subst s0. simpl. done.
    + assert (config u3 = config u) as E3 by (rewrite Hc3; exact Hc).
      unfold config in E3. injection E3 as _ -> -> _. exact Hver.
    + rewrite Hn3. simpl. unfold u32_wrapping_add, U32_MAX in *.
      pose proof (Z.mod_pos_bound (uu_next_session_id u + 1) 0x100000000 ltac:(lia)). lia.
  - rewrite Hc3. exact Hc.
  - intros x addr. by rewrite Hm30.
  - intros Hne. destruct Hne. rewrite Hb3. exact Hb.
Qed.

Lemma handle_inner_wp u request present :
  updater_ok u → wp (handle_inner request present) (λ _ u', safe_step u u') u.
Proof.
  intros Hu. pose proof (idle_safe u Hu). unfold handle_inner.
  destruct (head request ≫= Operation_parse) as [[]|]; try by apply wp_ret.
  - by apply begin_wp.
  - by apply write_wp.
  - by apply advance_wp.
  - by apply abort_wp.
Qed.

Lemma poll_quiet u :
  quiet u (poll u) ∧
  match uu_session u with
  | Some s => ∃ now, uu_session (poll u) = Some (expire s now).2
  | None => poll u = u
  end.
Proof.
  unfold poll. destruct (uu_session u) as [s|] eqn:Hs; [|done].
  destruct (ub_now_ms (uu_backend u)) as [t b] eqn:E. destruct (ub_now_ms_frame _ _ _ E).
  split; [done|]. by exists t.
Qed.

Lemma poll_ok u : updater_ok u → updater_ok (poll u).
Proof.
  intros Hu. destruct (poll_quiet u) as [Hq Hs]. apply (quiet_ok u); [done..|].
  intros s' Hs'. destruct (uu_session u) as [s|] eqn:E.
  - destruct Hs as [now Hs]. rewrite Hs in Hs'. simplify_eq.
    by apply expire_ok, (uo_session _ Hu).
  - rewrite Hs, E in Hs'. done.
Qed.

(** Polling neither revives a session nor moves it to a live phase. *)
Lemma poll_live u s :
  uu_session (poll u) = Some s → live_phase (ss_phase s) = true →
  ∃ s0, uu_session u = Some s0 ∧ ss_target_slot s0 = ss_target_slot s ∧
        ss_total s0 = ss_total s ∧ ss_phase s0 = ss_phase s.
Proof.
  destruct (poll_quiet u) as [_ Hs]. destruct (uu_session u) as [s0|] eqn:E.
  - destruct Hs as [now ->]. intros [= <-] Hl. pose proof (expire_spec s0 now) as K.
    destruct (expire s0 now) as [e s1]. simpl in *. exists s0.
    destruct K as [(-> & Hp & _ & [[_ ->]| ->])|(-> & _ & [[_ ->]|[_ ->]])]; done.
  - rewrite Hs, E. done.
Qed.

Lemma encode_response_total u st output :
  (RESPONSE_FIXED + uu_current_version_length u ≤ length output)%nat →
  ∃ output', encode_response u st output = Some ((RESPONSE_FIXED + uu_current_version_length u)%nat, output').
Proof.
  intros Hl. unfold encode_response.
  destruct (Nat.ltb_spec (length output) (RESPONSE_FIXED + uu_current_version_length u)); [lia|].
  destruct (uu_session u); eexists; reflexivity.
Qed.

(** The whole request, from poll to response. *)
Lemma handle_safe u request present response :
  updater_ok u →
  (RESPONSE_FIXED + uu_current_version_length u ≤ length response)%nat →
  ∃ n response' u', handle u request present response = Some (n, response', u') ∧
    safe_step (poll u) u'.
Proof.
  intros Hu Hl. unfold handle.
  destruct (wp_finish (handle_inner request present) (λ _ u', safe_step (poll u) u') (poll u))
    as (st & u' & E & Hsafe).
  { eapply wp_mono; [by apply handle_inner_wp, poll_ok|]. by intros [] ?. }
  rewrite E. simpl. pose proof (st_config _ _ Hsafe) as Hc.
  destruct (poll_quiet u) as [(_ & _ & Hc0 & _) _]. rewrite Hc0 in Hc. injection Hc as _ _ Hlen _.
  destruct (encode_response_total u' st response) as [out Eo]; [by rewrite Hlen|].
  rewrite Eo. simpl. eauto 10.
Qed.

Lemma handle_run u request present response n response' u' :
  updater_ok u → handle u request present response = Some (n, response', u') →
  safe_step (poll u) u'.
Proof.
  intros Hu E. unfold handle in E.
  destruct (wp_finish (handle_inner request present) (λ _ u', safe_step (poll u) u') (poll u))
    as (st & u1 & E1 & Hsafe).
  { eapply wp_mono; [by apply handle_inner_wp, poll_ok|]. by intros [] ?. }
  rewrite E1 in E. simpl in E. destruct (encode_response u1 st response) as [[]|]; simplify_eq/=. done.
Qed.
End safety.
