(* ===== verification/UsbUpdateGrant.v ===== *)
(** * Authority of the update session

    The grant of a session (its id, start time, target, expected image) is fixed
    by Begin: no other request, and no passage of time, changes it, and Begin
    creates one only with the user present.  The proofs are a partial-correctness
    pass over the handlers of [UsbUpdate]. *)

From stdpp Require Import base tactics numbers list option.
From S2P Require Import Prelude Interfaces SignedImage UsbUpdate UsbUpdateSafety.

(** Everything of a session but its progress. *)
Definition Grant : Type := Z * Z * Z * Z * Z * Z * Z * Z * bytes * Z * bytes * nat.
Definition grant (s : Session) : Grant :=
  (ss_started_ms s, ss_id s, ss_target_slot s, ss_active_slot s, ss_active_sequence s,
   ss_activation_entry s, ss_target_sequence s, ss_total s, ss_expected_hash s,
   ss_expected_secure_version s, ss_expected_version s, ss_expected_version_length s).

Lemma grant_expire s now : grant (expire s now).2 = grant s.
Proof.
  pose proof (expire_spec s now) as K. destruct (expire s now) as [e s'].
  destruct K as [(_ & _ & _ & [[_ ->]| ->])|(_ & _ & [[_ ->]|[_ ->]])]; done.
Qed.

Lemma grant_progress s now : grant (progress s now).2 = grant s.
Proof.
  unfold progress. pose proof (grant_expire s now) as K. destruct (expire s now) as [[] s']; done.
Qed.

(** A session cannot have every grant. *)
Lemma grant_not_all s : ¬ (∀ g, grant s = g).
Proof.
  intros Hg. pose proof (Hg (1, 0, 0, 0, 0, 0, 0, 0, [], 0, [], 0%nat)) as G.
  rewrite (Hg (0, 0, 0, 0, 0, 0, 0, 0, [], 0, [], 0%nat)) in G. congruence.
Qed.

Section keeps.
Context `{Sha256} {B : Type} `{UpdateBackend B}.

Abbreviation updater := (UsbUpdater B).
Implicit Types (u : updater) (s : Session).

Definition granted (g : Grant) u : Prop := ∀ s, uu_session u = Some s → grant s = g.

(** [c] keeps the grant [g], and its value, when it has one, satisfies [good]. *)
Definition keeps (g : Grant) {A} (c : step updater StatusCode A) (good : A → Prop) : Prop :=
  ∀ u r u', granted g u → c u = Some (r, u') →
    granted g u' ∧ match r with Ok a => good a | Err _ => True end.

Section rules.
Context (g : Grant).
Abbreviation any := (λ _, True).

Lemma keeps_ret {A} (a : A) (good : A → Prop) : good a → keeps g (mret a) good.
Proof. intros Ha u r u' Hu [= <- <-]. done. Qed.

Lemma keeps_throw {A} e (good : A → Prop) : keeps g (throw e) good.
Proof. intros u r u' Hu [= <- <-]. done. Qed.

Lemma keeps_bind {A A'} (c : step updater StatusCode A) (k : A → step updater StatusCode A')
    good good' :
  keeps g c good → (∀ a, good a → keeps g (k a) good') → keeps g (c ≫= k) good'.
Proof.
  intros Hc Hk u r u' Hu E. unfold mbind, step_bind in E.
  destruct (c u) as [[[a|e] u1]|] eqn:E1; simplify_eq.
  - destruct (Hc _ _ _ Hu E1) as [Hu1 Ha]. by eapply Hk.
  - by destruct (Hc _ _ _ Hu E1).
Qed.

Lemma keeps_checked {A} (o : option A) : keeps g (checked o) any.
Proof. destruct o; intros u r u' Hu E; cbv in E; simplify_eq; done. Qed.

Lemma keeps_ok_or {A} (o : option A) e : keeps g (ok_or o e) any.
Proof. destruct o; intros u r u' Hu [= <- <-]; done. Qed.

Lemma keeps_return_if c e : keeps g (return_if c e) any.
Proof. destruct c; intros u r u' Hu [= <- <-]; done. Qed.

Lemma keeps_backend {A} (f : B → A * B) : keeps g (call (on_backend f)) any.
Proof.
  intros u r u' Hu E. unfold call, on_backend in E. destruct (f (uu_backend u)) as [a b].
  by simplify_eq.
Qed.

Lemma keeps_get : keeps g get_state any.
Proof. intros u r u' Hu [= <- <-]. done. Qed.

Lemma keeps_save s : grant s = g → keeps g (save_session s) any.
Proof. intros Hs u r u' Hu [= <- <-]. split; [|done]. by intros ? [= <-]. Qed.

Lemma keeps_the_session : keeps g the_session (λ s, grant s = g).
Proof.
  intros u r u' Hu E. unfold the_session, mbind, step_bind, get_state, ok_or in E.
  destruct (uu_session u) as [s|] eqn:Hs; cbv in E; simplify_eq; [|done].
  split; [done|]. by apply Hu.
Qed.

Lemma keeps_session_expire s :
  grant s = g → keeps g (session_expire s) (λ r, grant r.2 = g).
Proof.
  intros Hs. eapply keeps_bind; [apply keeps_backend|]. intros now _.
  pose proof (grant_expire s now) as K. destruct (expire s now) as [e s']. simpl in K.
  eapply keeps_bind; [apply keeps_save; congruence|]. intros _ _. apply keeps_ret.
  simpl. congruence.
Qed.

Lemma keeps_session_progress s : grant s = g → keeps g (session_progress s) any.
Proof.
  intros Hs. eapply keeps_bind; [apply keeps_backend|]. intros now _.
  pose proof (grant_progress s now) as K. destruct (progress s now) as [e s']. simpl in K.
  eapply keeps_bind; [apply keeps_save; congruence|]. intros _ _. by apply keeps_ret.
Qed.

Lemma keeps_fail_with {A} st s (good : A → Prop) : grant s = g → keeps g (fail_with st s) good.
Proof.
  intros Hs. eapply keeps_bind; [by apply keeps_save|]. intros _ _. apply keeps_throw.
Qed.

Lemma keeps_or_fail {A} (f : B → option A * B) st s :
  grant s = g → keeps g (or_fail f st s) any.
Proof.
  intros Hs. eapply keeps_bind; [apply keeps_backend|]. intros [a|] _;
    [by apply keeps_ret|by apply keeps_fail_with].
Qed.
End rules.
End keeps.

(** Symbolic execution of a handler under [keeps]. *)
Create HintDb keeps.
#[export] Hint Resolve keeps_throw keeps_checked keeps_ok_or keeps_return_if keeps_backend
  keeps_get keeps_the_session : keeps.
Ltac keeps_step :=
  first
    [ by auto with keeps
    | apply keeps_save; first [done | simpl; congruence]
    | apply keeps_session_expire; done
    | apply keeps_session_progress; first [done | case_match; done]
    | apply keeps_fail_with; done
    | apply keeps_or_fail; done
    | apply keeps_ret; done
    | apply (keeps_ret _ _ (λ _, True)); exact I
    | lazymatch goal with
      | |- keeps _ (_ ≫= _) _ => eapply keeps_bind; [keeps_step|intros ? ?]
      | |- keeps _ (if ?c then _ else _) _ => destruct c
      | |- keeps _ (match ?x with _ => _ end) _ => destruct x
      end ].
Ltac keeps_steps := repeat (keeps_step; cbv beta zeta; simpl in * |-).

Section handlers.
Context `{Sha256} {B : Type} `{UpdateBackend B}.
Context (g : Grant).
Implicit Types (u : UsbUpdater B) (s : Session).

Lemma keeps_finish_verification : keeps (B := B) g finish_verification (λ _, True).
Proof. unfold finish_verification. keeps_steps. Qed.

Lemma keeps_verify_chunk e l s :
  grant s = g → keeps (B := B) g (verify_chunk e l s) (λ s', grant s' = g).
Proof.
  intros Hs. unfold verify_chunk. keeps_steps. destruct (_ <? _); keeps_steps.
Qed.

Lemma keeps_verify_loop fuel e l s :
  grant s = g → keeps (B := B) g (verify_loop fuel e l s) (λ s', grant s' = g).
Proof.
  revert s. induction fuel as [|fuel IH]; intros s Hs; simpl;
    (destruct (_ <? _); [|by apply keeps_ret]).
  - by intros u r u' _ E.
  - eapply keeps_bind; [by apply keeps_verify_chunk|]. intros s' Hs'. by apply IH.
Qed.

Lemma keeps_verify_step : keeps (B := B) g verify_step (λ _, True).
Proof.
  unfold verify_step. eapply keeps_bind; [apply keeps_the_session|]. intros s Hs.
  do 2 (eapply keeps_bind; [apply keeps_checked|]; intros ? _).
  eapply keeps_bind; [by apply keeps_verify_loop|]. intros s' Hs'.
  keeps_steps. apply keeps_finish_verification.
Qed.

Lemma keeps_write request : keeps (B := B) g (write request) (λ _, True).
Proof. unfold write. keeps_steps. Qed.

Lemma keeps_advance request : keeps (B := B) g (advance request) (λ _, True).
Proof.
  unfold advance. keeps_steps. all: try apply keeps_verify_step.
Qed.

Lemma keeps_abort request : keeps (B := B) g (abort request) (λ _, True).
Proof.
  unfold abort. keeps_steps. intros u r u' Hu E. cbv in E. simplify_eq. done.
Qed.
End handlers.
