(* ===== verification/ModelBackend.v ===== *)
(** * A concrete backend

    Two slots held in memory, a clock that advances by one millisecond per
    reading and a boot record, in the manner of [FakeBackend] of the tests of
    [src/src/usb_update.rs].  It implements the interfaces and discharges their
    laws, so the theorems proved against the interfaces apply to it.  The hash
    and the signature check are small computable functions. *)

From stdpp Require Import base tactics numbers list option.
From S2P Require Import Prelude Interfaces SignedImage UsbUpdate.

Definition model_sha256 (m : bytes) : bytes :=
  le_encode 32 (foldl (λ acc b, (acc * 31 + b + 1) mod 0x10000) 7 m).

#[export] Instance model_sha : Sha256 := {|
  sha256 := model_sha256;
  sha256_length := λ m, length_le_encode 32 _;
|}.

(** A signature is the digest followed by padding. *)
Definition model_rsa (public_key signature digest : bytes) : bool :=
  bytes_eqb (take 32 signature) digest.

Record model := mkModel {
  mb_clock : Z;
  mb_slots : Z → memory;
  mb_layout : UpdateLayout;
}.

Definition model_slot (b : model) (s : Z) : memory := λ a, mb_slots b s a mod 256.
Definition model_boot (l : UpdateLayout) : UpdateLayout :=
  mkUpdateLayout (active_slot l mod 2) (active_sequence l mod 0x100000000) (activation_entry l mod 2).
Definition set_slot (b : model) (s : Z) (m : memory) : model :=
  mkModel (mb_clock b) (λ s', if s' =? s then m else mb_slots b s') (mb_layout b).

#[export] Instance model_reader : ImageReader model := {|
  ir_read b s o n := (Some (mem_read (model_slot b s) o n), b);
  ir_verify_rsa_pss b k s d := (Some (model_rsa k s d), b);
|}.

(** The clock stops at its last value. *)
Definition model_now (clock : Z) : Z := Z.min U64_MAX (Z.max 0 clock).

#[export] Instance model_backend : UpdateBackend model := {|
  ub_now_ms b := (model_now (mb_clock b), mkModel (mb_clock b + 1) (mb_slots b) (mb_layout b));
  ub_layout b := (Some (model_boot (mb_layout b)), b);
  ub_erase b s o n := (Some tt, set_slot b s (mem_fill (mb_slots b s) o n 255));
  ub_write b s o d := (Some tt, set_slot b s (mem_write (mb_slots b s) o d));
  ub_activate b s q e := (Some tt, mkModel (mb_clock b) (mb_slots b) (mkUpdateLayout s q (1 - e)));
|}.

#[export] Instance model_flash_view : FlashView model.
Proof.
  refine {| slot_mem := model_slot; rsa_pss_valid := model_rsa |}.
  - intros. unfold model_slot, is_byte. pose proof (Z.mod_pos_bound (mb_slots b s a) 256). lia.
  - by intros * [= <- <-].
  - by intros * [= <- <-].
  - by intros * [= <- <-].
  - by intros * [= <- <-].
Defined.

Lemma set_slot_outside b s m s' a :
  s' ≠ s ∨ m a = mb_slots b s a → model_slot (set_slot b s m) s' a = model_slot b s' a.
Proof.
  unfold model_slot, set_slot. simpl. destruct (Z.eqb_spec s' s) as [->|]; [|done].
  by intros [?| ->].
Qed.

#[export] Instance model_update_view : UpdateView model.
Proof.
  refine {| boot_view := mb_layout; boot_layout := model_boot; boot_trusted := λ _, True |}.
  - intros * [= <- <-]. unfold is_u64, model_now, U64_MAX. lia.
  - by intros * [= <- <-].
  - by intros * [= <- <-].
  - by intros * [= <- <-].
  - intros * [= <- <-]. split; simpl; [apply Z.mod_pos_bound; lia|].
    pose proof (Z.mod_pos_bound (active_slot (mb_layout b)) 2). lia.
  - intros * [= <- <-]. split; [done|]. intros s' a Ha. apply set_slot_outside.
    destruct Ha; [by left|right]. by apply mem_fill_outside.
  - intros * [= <- <-]. split; [done|]. intros s' a Ha. apply set_slot_outside.
    destruct Ha; [by left|right]. by apply mem_write_outside.
  - by intros * [= <- <-].
  - by intros * [= <- <-].
  - by intros * [= <- <-].
Defined.

#[export] Instance model_write_view : WriteView model.
Proof.
  refine {| slot_erased := λ b s a, model_slot b s a = 255 |}.
  - by intros * [= <- <-].
  - intros * [= <-] a Ha. unfold model_slot, set_slot. simpl. rewrite Z.eqb_refl.
    destruct (decide (o ≤ a < o + n)); [by rewrite mem_fill_inside|].
    rewrite mem_fill_outside by done. destruct Ha; [done|]. done.
  - intros * [= <- <-] a Ha. rewrite set_slot_outside by (right; by apply mem_write_outside). done.
  - intros * Hd _ [= <-]. etrans; [|apply (mem_read_write (mb_slots b s) o d)].
    apply list_eq. intros i. destruct (decide (i < length d)%nat) as [Hi|Hi].
    + rewrite !lookup_mem_read by done. f_equal.
      unfold slot_mem, model_flash_view, model_slot, set_slot. simpl. rewrite Z.eqb_refl.
      rewrite mem_write_inside by done. pose proof (byte_at_byte d i Hd). unfold is_byte in *.
      apply Z.mod_small. lia.
    + rewrite !lookup_ge_None_2; rewrite ?length_mem_read; auto with lia.
Defined.

(** ** A signed image, the requests that install it, and runs of requests *)

(** The smallest image: one 4 KiB signed sector and the signature sector. *)
Definition model_total : Z := 0x2000.
Definition model_prefix : bytes :=
  put (put (put (put (put (put (put (zeros 80) 0 [ESP_IMAGE_MAGIC; 1]) 12 [2; 0]) 23 [1])
    28 [48]) 32 (le_encode 4 ESP_APP_DESCRIPTOR_MAGIC)) 36 (le_encode 4 3)) 48 [49; 46; 48].
Definition model_signed : bytes := model_prefix ++ zeros (4096 - 80).
Definition model_public_key : bytes := replicate RSA_PUBLIC_KEY_SIZE 5.
Definition model_key : bytes := sha256 model_public_key.
Definition model_image : bytes :=
  let digest := sha256 model_signed in
  model_signed
  ++ build_signature_block digest model_public_key (digest ++ zeros (384 - 32))
  ++ replicate (4096 - 1216) 255.

Definition begin_request (total : Z) (hash : bytes) (secure_version : Z) (version : bytes) : bytes :=
  [1; PROTOCOL_VERSION] ++ le_encode 4 total ++ hash ++ le_encode 4 secure_version
  ++ [Z.of_nat (length version)] ++ version.
Definition write_request (id offset : Z) (data : bytes) : bytes :=
  [2] ++ le_encode 4 id ++ le_encode 4 offset ++ data.
Definition advance_request (id : Z) : bytes := [3] ++ le_encode 4 id.

Definition model_start : option (UsbUpdater model) :=
  new (mkModel 1000 (λ _ _, 0x11) (mkUpdateLayout 0 1 1)) model_key [48; 46; 49] 2.

(** A host driving the updater with (request, presence) pairs. *)
Fixpoint run_requests `{Sha256} {B} `{UpdateBackend B} (u : UsbUpdater B)
    (requests : list (bytes * bool)) : option (UsbUpdater B) :=
  match requests with
  | [] => Some u
  | (request, present) :: requests =>
      '(_, _, u) ← handle u request present (zeros 64);
      run_requests u requests
  end.

Definition model_begin : bytes := begin_request model_total (sha256 model_image) 3 [49; 46; 48].

(** The slot once the image is written, and the session waiting for the Advance
    that verifies it. *)
Definition model_image_mem : memory :=
  let digest := sha256 model_signed in
  let block := build_signature_block digest model_public_key (digest ++ zeros (384 - 32)) in
  let prefix := model_prefix in
  λ a,
    if a <? 80 then byte_at prefix (Z.to_nat a)
    else if a <? 4096 then 0
    else if a <? 4096 + 1216 then byte_at block (Z.to_nat (a - 4096))
    else 255.
Definition model_session (completed : Z) : Session :=
  mkSession 1000 1200 1300 1 Receiving 1 0 1 1 2 model_total
    (sha256 (mem_read model_image_mem 0 8192)) 3 (pad_version [49; 46; 48]) 3
    completed hasher_new hasher_new St_Ok.
Definition model_updater (clock : Z) (m : memory) (session : option Session) : UsbUpdater model :=
  mkUsbUpdater (mkModel clock (λ _, m) (mkUpdateLayout 0 1 1))
    model_key (pad_version [48; 46; 49]) 3 2 2 session.

(** Every byte written; nothing written yet; the same session much later. *)
Definition model_ready : UsbUpdater model :=
  model_updater 1301 model_image_mem (Some (model_session model_total)).
Definition model_receiving : UsbUpdater model :=
  model_updater 1301 (λ _, 255) (Some (model_session 0)).
Definition model_late : UsbUpdater model :=
  model_updater 901000 (λ _, 255) (Some (model_session 0)).
