(* ===== verification/UsbUpdateTheorems.v ===== *)
(** * Theorems about the USB update

    Totality, confinement of flash changes, authorisation of boot changes,
    presence, deadlines, and the round trips of the requests. *)

From stdpp Require Import base tactics numbers list option.
From S2P Require Import Prelude Interfaces SignedImage UsbUpdate UsbUpdateSafety UsbUpdateGrant ModelBackend.

Section theorems.
Context `{Sha256} {B : Type} `{UpdateView B}.
Implicit Types (u : UsbUpdater B) (s : Session).

(** ** Safety of one request *)

(** C1: a request that changes the boot selection, even one whose activation
    reports an error, leaves a session whose whole image, read back from the
    target slot, has the hash announced at Begin, carries a signature block of
    the trusted key over its signed part that the RSA check accepts, and has
    the announced version, not below the running firmware's floor. *)
Theorem boot_change_authorised u request present response n response' u' :
  updater_ok u → handle u request present response = Some (n, response', u') →
  boot_of u' ≠ boot_of u → activation_authorised u'.
Proof.
  intros Hu E Hb. apply (st_boot _ _ (handle_run _ _ _ _ _ _ _ Hu E)).
  destruct (poll_quiet u) as [(_ & Hb0 & _) _]. congruence.
Qed.

(** C2: a request changes flash only in the target slot of a session that was
    erasing or receiving when the request came, below the announced size, and
    the target slot is never the slot that was active at Begin. *)
Theorem flash_change_confined u request present response n response' u' x a :
  updater_ok u → handle u request present response = Some (n, response', u') →
  slot_mem (uu_backend u') x a ≠ slot_mem (uu_backend u) x a →
  ∃ s, uu_session u = Some s ∧ (ss_phase s = Erasing ∨ ss_phase s = Receiving) ∧
       x = ss_target_slot s ∧ x ≠ ss_active_slot s ∧ 0 ≤ a < ss_total s.
Proof.
  intros Hu E Hne. destruct (poll_quiet u) as [(Hm & _) _]. rewrite <- Hm in Hne.
  destruct (st_flash _ _ (handle_run _ _ _ _ _ _ _ Hu E) _ _ Hne) as (s & Hs & -> & Ha & Hp).
  destruct (poll_live u s Hs) as (s0 & Hs0 & Ht & Htot & Hp0);
    [by destruct Hp as [-> | ->]|]. rewrite <- Hp0 in Hp. rewrite <- Htot in Ha.
  exists s0. rewrite <- Ht. destruct (sh_slots _ (proj1 (uo_session _ Hu _ Hs0))).
  repeat split; auto; lia.
Qed.

Lemma handle_total_aux u request present response :
  updater_ok u → (52 ≤ length response)%nat →
  ∃ n response' u', handle u request present response = Some (n, response', u') ∧
    (n ≤ 52)%nat ∧ length response' = length response ∧ updater_ok u'.
Proof.
  intros Hu Hl. destruct (uo_version _ Hu) as [Hv1 Hv2]. unfold MAX_VERSION_LENGTH in *.
  destruct (handle_safe u request present response Hu) as (n & response' & u' & E & Hs);
    [unfold RESPONSE_FIXED; lia|].
  exists n, response', u'. split; [done|]. destruct Hs as [Hok Hc _ _].
  unfold handle in E. destruct (finish _ _) as [[st u1]|]; [|done]. cbn in E.
  destruct (encode_response u1 st response) as [[n1 out]|] eqn:Eo; [|done].
  cbn in E. simplify_eq. destruct (uo_version _ Hok) as [Hw1 Hw2]. unfold MAX_VERSION_LENGTH in *.
  unfold encode_response in Eo. destruct (Nat.ltb_spec (length response)
    (RESPONSE_FIXED + uu_current_version_length u')); [done|].
  unfold RESPONSE_FIXED in *.
  destruct (uu_session u'); cbv zeta in Eo; injection Eo as <- <-;
    (split; [lia|]); (split; [|done]); by put_lengths.
Qed.

(** C3: a request never panics and always terminates: with a response buffer
    that fits a status reply, [handle] returns, writes at most 52 bytes, keeps
    the buffer's length and keeps the invariant of the updater. *)
Theorem handle_total u request present response :
  updater_ok u → (52 ≤ length response)%nat →
  ∃ n response' u', handle u request present response = Some (n, response', u') ∧
    (n ≤ 52)%nat ∧ length response' = length response ∧ updater_ok u'.
Proof. apply handle_total_aux. Qed.

(** ** Authority *)

Lemma take_pad_version v n : length v = n → take n (pad_version v) = v.
Proof.
  intros <-. unfold pad_version, put. rewrite take_0, app_nil_l, take_app_le by lia.
  by apply take_ge.
Qed.

(** The session Begin creates, read off its request. *)
Definition begun u request s' : Prop :=
  (boot_trusted (boot_of u) → ss_active_slot s' = active_slot (boot_layout (boot_of u))) ∧
  ss_id s' = uu_next_session_id u ∧
  ss_total s' = le_decode (slice request 1 5) ∧
  ss_expected_hash s' = slice request 5 37 ∧
  ss_expected_secure_version s' = le_decode (slice request 37 41) ∧
  expected_version s' = drop 42 request ∧
  uu_current_secure_version u ≤ ss_expected_secure_version s'.

Definition status_of (r : result StatusCode StatusCode) : StatusCode :=
  match r with Ok st | Err st => st end.

Lemma finish_status (c : step (UsbUpdater B) StatusCode StatusCode) u st u' Q :
  finish c u = Some (st, u') → wp c Q u → ∃ r, status_of r = st ∧ Q r u'.
Proof.
  intros Ef W. destruct (finish_run _ _ _ _ Ef) as [K|K];
    pose proof (wp_run _ _ _ _ _ K W); eexists; by split; [|done].
Qed.

Lemma begin_session_wp u request present :
  wp (begin request present)
     (λ r u', (uu_session u' = uu_session u ∧ status_of r ≠ St_Ok) ∨
        present = true ∧ ∃ s', uu_session u' = Some s' ∧ begun u request s') u.
Proof.
  unfold begin. apply wp_bind, wp_return_if; [by left|intros Hlen].
  apply wp_bind, wp_return_if; [by left|intros Hvl].
  apply orb_false_iff in Hvl as [Hvl _]. apply orb_false_iff in Hvl as [Hvl _].
  apply negb_false_iff, Nat.eqb_eq in Hvl.
  apply wp_bind, wp_return_if; [by left|intros _].
  apply wp_bind, wp_get, wp_bind, wp_return_if; [by left|intros Hsv]. apply Z.ltb_ge in Hsv.
  apply wp_bind, wp_return_if; [by left|intros Hpres]. apply negb_false_iff in Hpres.
  apply wp_bind, wp_now_ms. intros started u1 (_ & Hb1 & _ & Hid1) Hs1.
  apply wp_bind, wp_call_or; unfold on_backend;
    destruct (ub_layout (uu_backend u1)) as [r b'] eqn:E; intros; simplify_eq; [|by left].
  pose proof (ub_layout_Some _ _ _ E) as El. change (boot_view (uu_backend u1)) with (boot_of u1) in El.
  rewrite Hb1 in El.
  apply wp_bind, wp_return_if; [by left|intros Hl].
  apply wp_bind, wp_ok_or; [intros q Hq|by left].
  apply wp_bind, wp_modify, wp_bind, wp_modify, wp_session_progress.
  intros now u3 _ Hs3. right. split; [done|].
  eexists. split; [exact Hs3|]. set (s0 := mkSession _ _ _ _ _ _ _ _ _ _ _ _ _ _ _ _ _ _ _).
  pose proof (grant_progress s0 now) as G.
  unfold grant in G. injection G as _ G1 _ G2 _ _ _ G3 G4 G5 G6 G7.
  unfold begun, expected_version. rewrite G1, G2, G3, G4, G5, G6, G7. subst s0. simpl.
  split; [intros Ht; by rewrite (El Ht)|]. repeat split; try done.
  apply take_pad_version. rewrite length_drop. unfold BEGIN_FIXED in *. lia.
Qed.

Lemma keeps_begin_absent g request : keeps (B := B) g (begin request false) (λ _, True).
Proof.
  unfold begin. do 5 (keeps_step; cbv beta zeta).
  eapply (keeps_bind _ _ _ (λ _, False)); [|done].
  intros u r u' Hu [= <- <-]. done.
Qed.

Lemma keeps_handle_inner g request :
  keeps (B := B) g (handle_inner request false) (λ _, True).
Proof.
  unfold handle_inner. destruct (head request ≫= Operation_parse) as [[]|];
    try by apply keeps_ret.
  - apply keeps_begin_absent.
  - apply keeps_write.
  - apply keeps_advance.
  - keeps_steps.
  - apply keeps_abort.
Qed.

Lemma poll_granted g u : granted g u → granted g (poll u).
Proof.
  destruct (poll_quiet u) as [_ Hp]. destruct (uu_session u) as [s|] eqn:Hs.
  - destruct Hp as [now Hp]. intros Hg s'. rewrite Hp. intros [= <-].
    rewrite grant_expire. by apply Hg.
  - by rewrite Hp.
Qed.

Lemma handle_keeps g u request response n response' u' :
  granted g u → handle u request false response = Some (n, response', u') → granted g u'.
Proof.
  intros Hg E. unfold handle in E.
  destruct (finish _ _) as [[st u1]|] eqn:Ef; [|done]. cbn in E.
  destruct (encode_response u1 st response) as [[n1 out]|]; [|done]. cbn in E. simplify_eq.
  apply poll_granted in Hg.
  destruct (finish_run _ _ _ _ Ef) as [K|K]; by destruct (keeps_handle_inner g request _ _ _ Hg K).
Qed.

Lemma session_needs_presence_aux u request response n response' u' s' :
  handle u request false response = Some (n, response', u') → uu_session u' = Some s' →
  ∃ s, uu_session u = Some s ∧ grant s' = grant s.
Proof.
  intros E Hs'. destruct (uu_session u) as [s|] eqn:Hs.
  - exists s. split; [done|]. eapply (handle_keeps (grant s)); [|done..].
    intros ?. rewrite Hs. by intros [= <-].
  - exfalso. eapply (grant_not_all s'). intros g.
    eapply (handle_keeps g); [|done..]. intros ?. by rewrite Hs.
Qed.

(** C4: without the user present no request creates a session or touches the
    grant of the live one: its id, its start time (hence its deadline), its
    target, and the size, hash, epoch and version it may install. *)
Theorem session_needs_presence u request response n response' u' s' :
  handle u request false response = Some (n, response', u') → uu_session u' = Some s' →
  ∃ s, uu_session u = Some s ∧ grant s' = grant s.
Proof. apply session_needs_presence_aux. Qed.

(** ** Runs of requests *)

(** Requests served one after the other without a change of boot selection. *)
Inductive serving u0 : UsbUpdater B → Prop :=
  | serving_start : serving u0 u0
  | serving_request u request present response n response' u' :
      serving u0 u → handle u request present response = Some (n, response', u') →
      boot_of u' = boot_of u → serving u0 u'.

Lemma new_ok b key version secure_version u :
  new b key version secure_version = Some u → updater_ok u ∧ uu_session u = None ∧ uu_backend u = b.
Proof.
  unfold new. destruct (_ || _)%bool eqn:E; [done|]. bool_to_prop. intros [= <-].
  split; [|done]. split; simpl; [done| |unfold_max; lia].
  split; [|lia]. unfold pad_version. apply put_length; [apply length_zeros|lia].
Qed.

Lemma handle_active u request present response n response' u' s' :
  handle u request present response = Some (n, response', u') → uu_session u' = Some s' →
  boot_trusted (boot_of u) →
  (∃ s, uu_session u = Some s ∧ ss_active_slot s' = ss_active_slot s) ∨
  ss_active_slot s' = active_slot (boot_layout (boot_of u)).
Proof.
  intros E Hs' Htrust. destruct present.
  2:{ left. destruct (session_needs_presence_aux u request response n response' u' s' E Hs')
        as (s & Hs & G). exists s. split; [done|]. unfold grant in G. by simplify_eq. }
  unfold handle in E. destruct (finish _ _) as [[st u1]|] eqn:Ef; [|done]. cbn in E.
  destruct (encode_response u1 st response) as [[n1 out]|]; [|done]. cbn in E. simplify_eq.
  destruct (poll_quiet u) as [(_ & Hb & _) Hp].
  assert (Hpoll : ∀ s, uu_session (poll u) = Some s →
    ∃ s0, uu_session u = Some s0 ∧ grant s = grant s0).
  { destruct (uu_session u) as [s0|] eqn:E0; [|rewrite Hp, E0; done].
    destruct Hp as [now ->]. intros s [= <-]. exists s0. by rewrite grant_expire. }
  assert (Hkeep : ∀ c : step (UsbUpdater B) StatusCode StatusCode,
    (∀ g, keeps g c (λ _, True)) → finish c (poll u) = Some (st, u') →
    ∃ s, uu_session u = Some s ∧ ss_active_slot s' = ss_active_slot s).
  { intros c Hc Efc. destruct (uu_session (poll u)) as [s1|] eqn:Hs1.
    - destruct (Hpoll s1 eq_refl) as (s0 & Hs0 & G). exists s0. split; [done|].
      assert (granted (grant s1) (poll u)) by (intros ?; rewrite Hs1; by intros [= <-]).
      destruct (finish_run _ _ _ _ Efc) as [K|K];
        destruct (Hc (grant s1) _ _ _ ltac:(done) K) as [Hg _];
        pose proof (Hg _ Hs') as G'; unfold grant in *; simplify_eq; congruence.
    - exfalso. assert (∀ g, granted g (poll u)) as Hall by (intros g ?; by rewrite Hs1).
      assert (∀ g, grant s' = g) as Hg.
      { intros g. destruct (finish_run _ _ _ _ Efc) as [K|K];
          by destruct (Hc g _ _ _ (Hall g) K) as [Hg _]; apply Hg. }
      by apply (grant_not_all s'). }
  unfold handle_inner in Ef.
  destruct (head request ≫= Operation_parse) as [[]|]; try (left; eapply Hkeep; [|exact Ef];
    intros g; first [by apply keeps_ret | apply keeps_write | apply keeps_advance
      | apply keeps_abort | solve [keeps_steps]]).
  destruct (finish_run _ _ _ _ Ef) as [K|K];
    pose proof (wp_run _ _ _ _ _ K (begin_session_wp (poll u) (tail request) true)) as W;
    (destruct W as [[W _]|(_ & s1 & W & Ha & _)];
      [rewrite Hs' in W; symmetry in W; destruct (Hpoll _ W) as (s0 & Hs0 & G);
       left; exists s0; split; [done|]; unfold grant in G; by simplify_eq
      |right; rewrite Hs' in W; simplify_eq; rewrite Ha; rewrite Hb; done]).
Qed.

(** C5: from power-up, whatever the host sends and however far an update gets,
    as long as no activation has changed the boot selection not one byte of the
    slot the device boots from differs. *)
Theorem running_slot_untouched b key version secure_version u0 u a :
  new b key version secure_version = Some u0 → boot_trusted (boot_view b) → serving u0 u →
  let running := active_slot (boot_layout (boot_view b)) in
  slot_mem (uu_backend u) running a = slot_mem b running a.
Proof.
  intros Hnew Htrust Hserve running. destruct (new_ok _ _ _ _ _ Hnew) as (Hu0 & Hs0 & Hb0).
  enough (updater_ok u ∧ boot_of u = boot_view b ∧
    (∀ s, uu_session u = Some s → ss_active_slot s = running) ∧
    slot_mem (uu_backend u) running a = slot_mem b running a) by naive_solver.
  induction Hserve as [|u request present response n response' u' Hserve IH E Hboot].
  - unfold boot_of. rewrite Hb0. split; [done|]. split; [done|]. split; [|done]. intros ?. by rewrite Hs0.
  - destruct IH as (Hu & Hbu & Hs & Hm).
    pose proof (handle_run _ _ _ _ _ _ _ Hu E) as Hstep. destruct (poll_quiet u) as [(Hmp & _) _].
    split; [apply Hstep|]. split; [congruence|]. split.
    + intros s' Hs'. destruct (handle_active _ _ _ _ _ _ _ _ E Hs' ltac:(by rewrite Hbu)) as [(s & Hsu & ->)| ->].
      * by apply Hs.
      * by rewrite Hbu.
    + rewrite <- Hm. destruct (decide (slot_mem (uu_backend u') running a =
        slot_mem (uu_backend u) running a)) as [|Hne]; [done|exfalso].
      rewrite <- Hmp in Hne. destruct (st_flash _ _ Hstep _ _ Hne) as (s & Hsp & Hx & _ & Hph).
      destruct (poll_live u s Hsp) as (s0 & Hsu & Ht & _); [by destruct Hph as [-> | ->]|].
      destruct (sh_slots _ (proj1 (uo_session _ Hu _ Hsu))) as [Ht0 _].
      rewrite (Hs _ Hsu) in Ht0. lia.
Qed.

(** ** Deadlines *)

(** The deadline test of [Session::expire], as a condition on a clock reading. *)
Definition past_deadline s now : Prop :=
  now < ss_last_checked_ms s ∨ SESSION_MAX_LIFETIME_MS ≤ now - ss_started_ms s ∨
  SESSION_IDLE_TIMEOUT_MS ≤ now - ss_last_progress_ms s.

Lemma expire_past s now :
  live_phase (ss_phase s) = true → past_deadline s now →
  expire s now = (true, fail SessionExpired (with_last_checked_ms now s)).
Proof.
  intros Hl Hp. unfold expire. rewrite Hl. cbv zeta. simpl negb. cbv iota.
  assert (((now <? ss_last_checked_ms s)
    || (u64_saturating_sub now (ss_started_ms s) >=? SESSION_MAX_LIFETIME_MS)
    || (u64_saturating_sub now (ss_last_progress_ms s) >=? SESSION_IDLE_TIMEOUT_MS))%bool = true) as ->;
    [|done].
  unfold past_deadline, u64_saturating_sub, SESSION_MAX_LIFETIME_MS, SESSION_IDLE_TIMEOUT_MS in *.
  rewrite !Z.geb_leb, !orb_true_iff, Z.ltb_lt, !Z.leb_le. lia.
Qed.

Lemma begin_boot u request : wp (begin request false) (λ _ u', boot_of u' = boot_of u) u.
Proof.
  unfold begin. do 3 (apply wp_bind, wp_return_if; [done|intros _]).
  apply wp_bind, wp_get, wp_bind, wp_return_if; [done|intros _].
  by apply wp_bind, wp_return_if.
Qed.

Lemma expired_entry u s (k : bool * Session → step (UsbUpdater B) StatusCode StatusCode) :
  (∀ e s1, ss_phase s1 = ss_phase s → (e = true ∨ e = false) →
     ∀ u1, boot_of u1 = boot_of u → wp (k (e, s1)) (λ _ u', boot_of u' = boot_of u) u1) →
  live_phase (ss_phase s) = false →
  wp (session_expire s ≫= k) (λ _ u', boot_of u' = boot_of u) u.
Proof.
  intros Hk Hl. apply wp_bind, wp_session_expire. intros now u1 (_ & Hb & _) _.
  unfold expire. rewrite Hl. apply Hk; [done|destruct (bool_decide _); auto|done].
Qed.

Lemma dead_boot u s request :
  uu_session u = Some s → ss_phase s = Failed →
  wp (handle_inner request false) (λ _ u', boot_of u' = boot_of u) u.
Proof.
  intros Hs Hf. assert (Hl : live_phase (ss_phase s) = false) by by rewrite Hf.
  unfold handle_inner. destruct (head request ≫= Operation_parse) as [[]|]; try done.
  - apply begin_boot.
  - unfold write. apply wp_bind, wp_return_if; [done|intros _].
    apply wp_bind, wp_the_session; [|done]. rewrite Hs. intros ? [= <-].
    apply wp_bind, wp_return_if; [done|intros _]. apply expired_entry; [|done].
    intros e s1 Hp _ u1 Hb. apply wp_bind, wp_return_if; [done|intros _].
    apply wp_bind, wp_return_if; [done|intros K].
    apply bool_decide_eq_false, dec_stable in K. congruence.
  - unfold advance. apply wp_bind, wp_ok_or; [intros id _|done].
    apply wp_bind, wp_the_session; [|done]. rewrite Hs. intros ? [= <-].
    apply wp_bind, wp_return_if; [done|intros _]. apply expired_entry; [|done].
    intros e s1 Hp _ u1 Hb. apply wp_bind, wp_return_if; [done|intros _].
    by rewrite Hp, Hf.
  - unfold abort. apply wp_bind, wp_ok_or; [intros id _|done].
    apply wp_bind, wp_get. rewrite Hs. destruct (_ && _)%bool; [done|by destruct (negb _)].
Qed.

(** a request that comes after the idle or the absolute deadline of a live
    session, or with a clock that went backwards, and without fresh presence,
    leaves flash and the boot selection as they are: the poll at its entry has
    already failed the session as expired. *)
Theorem late_request_is_inert u s request response n response' u' now b :
  updater_ok u → uu_session u = Some s → live_phase (ss_phase s) = true →
  ub_now_ms (uu_backend u) = (now, b) → past_deadline s now →
  handle u request false response = Some (n, response', u') →
  (∀ x a, slot_mem (uu_backend u') x a = slot_mem (uu_backend u) x a) ∧
  boot_of u' = boot_of u ∧
  uu_session (poll u) = Some (fail SessionExpired (with_last_checked_ms now s)).
Proof.
  intros Hu Hs Hl Hnow Hpast E. pose proof (handle_run _ _ _ _ _ _ _ Hu E) as Hstep.
  assert (Hp : uu_session (poll u) = Some (fail SessionExpired (with_last_checked_ms now s)))
    by (unfold poll; rewrite Hs, Hnow, expire_past by done; done).
  destruct (poll_quiet u) as [(Hm & Hb & _) _].
  split; [|split; [|done]].
  - intros x a. rewrite <- Hm.
    destruct (decide (slot_mem (uu_backend u') x a = slot_mem (uu_backend (poll u)) x a))
      as [|Hne]; [done|exfalso].
    destruct (st_flash _ _ Hstep _ _ Hne) as (s1 & Hs1 & _ & _ & K). rewrite Hp in Hs1.
    simplify_eq. simpl in K. naive_solver.
  - unfold handle in E. destruct (finish _ _) as [[st u1]|] eqn:Ef; [|done]. cbn in E.
    destruct (encode_response u1 st response) as [[n1 out]|]; [|done]. cbn in E. simplify_eq.
    destruct (finish_run _ _ _ _ Ef) as [K|K];
      pose proof (wp_run _ _ _ _ _ K (dead_boot _ _ _ Hp eq_refl)); congruence.
Qed.

(** ** Round trips of the requests *)

Lemma begin_request_parts total hash secure_version version :
  is_u32 total → length hash = 32%nat → is_u32 secure_version →
  let request := tail (begin_request total hash secure_version version) in
  byte_at request 0 = PROTOCOL_VERSION ∧ le_decode (slice request 1 5) = total ∧ slice request 5 37 = hash ∧
  le_decode (slice request 37 41) = secure_version ∧ byte_at request 41 = Z.of_nat (length version) ∧
  drop 42 request = version ∧ length request = (42 + length version)%nat.
Proof.
  intros Ht Hh Hv request.
  set (a := [PROTOCOL_VERSION] ++ le_encode 4 total). set (b := a ++ hash). set (c := b ++ le_encode 4 secure_version).
  assert (length a = 5%nat) as La by (subst a; by rewrite length_app, length_le_encode).
  assert (length b = 37%nat) as Lb by (subst b; by rewrite length_app, La, Hh).
  assert (length c = 41%nat) as Lc by (subst c; by rewrite length_app, Lb, length_le_encode).
  assert (request = [PROTOCOL_VERSION] ++ le_encode 4 total ++ hash ++ le_encode 4 secure_version
    ++ [Z.of_nat (length version)] ++ version) as E1 by done.
  assert (request = a ++ hash ++ le_encode 4 secure_version ++ [Z.of_nat (length version)] ++ version) as E2
    by (rewrite E1; subst a; by rewrite <- !app_assoc).
  assert (request = b ++ le_encode 4 secure_version ++ [Z.of_nat (length version)] ++ version) as E3
    by (rewrite E2; subst b; by rewrite <- !app_assoc).
  assert (request = c ++ [Z.of_nat (length version)] ++ version) as E4
    by (rewrite E3; subst c; by rewrite <- !app_assoc).
  clearbody request. split_and!.
  - by rewrite E1.
  - rewrite E1, slice_app_mid by (rewrite ?length_le_encode; done). by apply le_decode_encode.
  - rewrite E2. apply slice_app_mid; lia.
  - rewrite E3, slice_app_mid by (rewrite ?length_le_encode; lia). by apply le_decode_encode.
  - unfold byte_at. by rewrite E4, app_nth2, Lc by lia.
  - rewrite E4, (app_assoc c), drop_app_length' by (rewrite length_app, Lc; done). done.
  - rewrite E4, !length_app, Lc. simpl. lia.
Qed.

(** Begin, given the request a host encodes, either refuses or creates a
    session for exactly the announced size, hash, epoch and version, with a
    fresh id and an epoch not below the running firmware's. *)
Theorem begin_roundtrip u total hash secure_version version u' :
  is_u32 total → length hash = 32%nat → is_u32 secure_version →
  (length version ≤ 255)%nat →
  finish (handle_inner (begin_request total hash secure_version version) true) u
    = Some (St_Ok, u') →
  ∃ s, uu_session u' = Some s ∧ ss_id s = uu_next_session_id u ∧
       ss_total s = total ∧ ss_expected_hash s = hash ∧
       ss_expected_secure_version s = secure_version ∧ expected_version s = version ∧
       uu_current_secure_version u ≤ secure_version.
Proof.
  intros Ht Hh Hv Hl E.
  destruct (finish_status _ _ _ _ _ E (begin_session_wp u _ true)) as (r & Hr & [[_ K]|(_ & s & Hs & Hb)]);
    [congruence|]. exists s. destruct Hb as (_ & Hid & Htot & Hhash & Hsv & Hver & Hfloor).
  destruct (begin_request_parts total hash secure_version version Ht Hh Hv) as (_ & P1 & P2 & P3 & _ & P4 & _).
  rewrite P1 in Htot. rewrite P2 in Hhash. rewrite P3 in Hsv. rewrite P4 in Hver. repeat split; congruence.
Qed.

End theorems.

(** ** Writing an image *)

Section writing.
Context `{Sha256} {B : Type} `{WriteView B}.
Implicit Types (u : UsbUpdater B) (s : Session).

(** Reading the clock keeps erased flash erased. *)
Definition erased_of u (slot : Z) (lo hi : Z) : Prop :=
  ∀ a, lo ≤ a < hi → slot_erased (uu_backend u) slot a.

Lemma wp_now_ms_erased (Q : result StatusCode Z → UsbUpdater B → Prop) u :
  (∀ now u', quiet u u' → uu_session u' = uu_session u →
     (∀ x a, slot_erased (uu_backend u) x a → slot_erased (uu_backend u') x a) → Q (Ok now) u') →
  wp now_ms Q u.
Proof.
  intros K. apply wp_call. unfold on_backend.
  destruct (ub_now_ms (uu_backend u)) as [t b] eqn:E. intros a u' [= <- <-].
  destruct (ub_now_ms_frame _ _ _ E). apply K; [done..|]. intros x y. by apply (ub_now_erased _ _ _ _ _ E).
Qed.

(** One accepted Write. *)
Definition written u (offset : Z) (data : bytes) u' : Prop :=
  ∃ s s', uu_session u = Some s ∧ uu_session u' = Some s' ∧ grant s' = grant s ∧
    ss_completed s = offset ∧ ss_completed s' = offset + Z.of_nat (length data) ∧
    offset + Z.of_nat (length data) ≤ ss_total s ∧
    (∀ lo hi, erased_of u (ss_target_slot s) lo hi → offset + Z.of_nat (length data) ≤ lo →
       erased_of u' (ss_target_slot s) lo hi) ∧
    (erased_of u (ss_target_slot s) offset (offset + Z.of_nat (length data)) →
     mem_read (mem_of u' (ss_target_slot s)) offset (length data) = data) ∧
    ∀ a, ¬ (offset ≤ a < offset + Z.of_nat (length data)) →
         mem_of u' (ss_target_slot s) a = mem_of u (ss_target_slot s) a.

Lemma write_accepted_wp u request :
  Forall is_byte request →
  wp (write request)
     (λ r u', status_of r = St_Ok → written u (le_decode (slice request 4 8)) (drop 8 request) u') u.
Proof.
  intros Hbytes. unfold write. apply wp_bind, wp_return_if; [done|intros _].
  apply wp_bind, wp_the_session; [intros s Hs|done].
  apply wp_bind, wp_return_if; [done|intros _].
  apply wp_bind, wp_bind, wp_now_ms_erased. intros now u1 (Hm1 & _) Hs1 Her1.
  pose proof (grant_expire s now) as G. pose proof (expire_spec s now) as K.
  destruct (expire s now) as [e s1]. simpl in G. apply wp_bind, wp_modify, wp_ret.
  apply wp_bind, wp_return_if; [done|intros ->].
  assert (ss_completed s1 = ss_completed s) as Hc
    by (destruct K as [(_ & _ & _ & [[_ ->]| ->])|(? & _)]; done).
  assert (ss_target_slot s1 = ss_target_slot s ∧ ss_total s1 = ss_total s) as [F1 F2]
    by (unfold grant in G; by simplify_eq).
  do 2 (apply wp_bind, wp_return_if; [done|intros _]).
  apply wp_bind, wp_return_if; [done|intros Hoff]. apply negb_false_iff, Z.eqb_eq in Hoff.
  apply wp_bind, wp_ok_or; [|done]. intros end_ He. apply u32_add_Some in He as [-> _].
  apply wp_bind, wp_return_if; [done|intros Hend]. apply Z.ltb_ge in Hend.
  apply wp_bind, wp_or_fail; [|done]. intros [] b' E. cbn [uu_backend with_session] in E.
  destruct (ub_write_frame _ _ _ _ _ _ E) as [_ Hm].
  pose proof (ub_write_erased _ _ _ _ _ _ E) as Her2.
  apply wp_bind, wp_now_ms_erased. intros now2 u3 (Hm3 & _) Hs3 Her3.
  cbn [uu_backend with_backend with_session uu_session] in *.
  set (s2 := with_completed _ s1). pose proof (grant_progress s2 now2) as G2.
  destruct (progress s2 now2) as [st s3] eqn:Ep. cbn [snd] in G2.
  apply wp_bind, wp_modify, wp_ret. intros Hok. cbn [status_of] in Hok. subst st.
  assert (ss_completed s3 = ss_completed s2) as Hc3.
  { unfold progress in Ep. pose proof (expire_spec s2 now2) as K2.
    destruct (expire s2 now2) as [[] s2']; [done|]. injection Ep as <-. simpl.
    destruct K2 as [(_ & _ & _ & [[_ ->]| ->])|(? & _)]; done. }
  exists s, s3. split; [done|]. split; [done|]. split; [rewrite G2; exact G|].
  split; [congruence|]. split; [by rewrite Hc3|]. split; [by rewrite <- F2|].
  rewrite <- F1 in *. unfold erased_of, mem_of. cbn [uu_backend with_session]. rewrite Hm3.
  split; [|split].
  - intros lo hi Her Hlo a Ha. apply Her3, Her2; [lia|]. by apply Her1, Her.
  - intros Her. eapply (ub_write_Some _ _ _ _ _ (Forall_drop _ 8 _ Hbytes)); [|exact E].
    intros a Ha. by apply Her1, Her.
  - intros a Ha. rewrite Hm by auto. by rewrite Hm1.
Qed.

(** The host sends the chunks in order and stops at the first refusal. *)
Fixpoint write_all (id offset : Z) (chunks : list bytes) u : option (UsbUpdater B) :=
  match chunks with
  | [] => Some u
  | data :: chunks =>
      match finish (handle_inner (write_request id offset data) false) u with
      | Some (St_Ok, u) => write_all id (offset + Z.of_nat (length data)) chunks u
      | _ => None
      end
  end.

Lemma write_all_spec id chunks : ∀ offset u u' s,
  0 ≤ offset → offset = ss_completed s →
  uu_session u = Some s → Forall (Forall is_byte) chunks →
  erased_of u (ss_target_slot s) offset (ss_total s) →
  write_all id offset chunks u = Some u' →
  ∃ s', uu_session u' = Some s' ∧ grant s' = grant s ∧
    ss_completed s' = offset + Z.of_nat (length (concat chunks)) ∧
    mem_read (mem_of u' (ss_target_slot s)) 0 (Z.to_nat (ss_completed s')) =
      mem_read (mem_of u (ss_target_slot s)) 0 (Z.to_nat offset) ++ concat chunks.
Proof.
  induction chunks as [|data chunks IH]; intros offset u u' s Hpos Hoff Hs Hb Her E; simpl in E.
  { simplify_eq. exists s. simpl. rewrite Z.add_0_r, app_nil_r. done. }
  inversion_clear Hb as [|? ? Hd Hb'].
  destruct (finish _ u) as [[[] u1]|] eqn:Ef; try done.
  destruct (finish_status _ _ _ _ _ Ef (write_accepted_wp u (tail (write_request id offset data))
    ltac:(unfold write_request; cbn [tail app]; repeat apply Forall_app_2; try done;
          apply le_encode_bytes))) as (r & Hr & W).
  specialize (W Hr). unfold write_request in W. cbn [tail app] in W.
  rewrite (slice_app_mid (le_encode 4 id)) in W by (rewrite ?length_le_encode; done).
  rewrite app_assoc, drop_app_length' in W by (rewrite length_app, !length_le_encode; done).
  destruct W as (s1 & s2 & Hs1 & Hs2 & G & Hc1 & Hc2 & Hend & Her1 & Hread & Hout).
  assert (s1 = s) as -> by congruence.
  rewrite <- Hc1, <- Hoff in Hc2, Hend, Her1, Hread, Hout.
  assert (ss_target_slot s2 = ss_target_slot s ∧ ss_total s2 = ss_total s) as [Ht Htot]
    by (unfold grant in G; by simplify_eq).
  specialize (Hread ltac:(intros a Ha; apply Her; lia)).
  destruct (IH (offset + Z.of_nat (length data)) u1 u' s2) as (s3 & Hs3 & G3 & Hc3 & Hr3);
    [lia|done..| |done|].
  { rewrite Ht, Htot. apply Her1; [|lia]. intros a Ha. apply Her. lia. }
  exists s3. split; [done|]. split; [congruence|].
  rewrite Ht in Hr3. simpl concat. rewrite length_app. split; [lia|].
  rewrite Hr3, app_assoc. f_equal.
  replace (Z.to_nat (offset + Z.of_nat (length data))) with (Z.to_nat offset + length data)%nat by lia.
  rewrite mem_read_app, Z2Nat.id, Z.add_0_l, Hread by lia. f_equal.
  apply mem_read_ext. intros a Ha. apply Hout. lia.
Qed.

(** C6: when every Write of a host that sends the chunks of an image in order into
    an erased slot is accepted, the target slot begins with exactly the
    concatenation of the chunks and the session has counted every byte of it. *)
Theorem written_image u chunks u' s :
  uu_session u = Some s → ss_completed s = 0 → Forall (Forall is_byte) chunks →
  erased_of u (ss_target_slot s) 0 (ss_total s) →
  write_all (ss_id s) 0 chunks u = Some u' →
  ∃ s', uu_session u' = Some s' ∧ grant s' = grant s ∧
    ss_completed s' = Z.of_nat (length (concat chunks)) ∧
    mem_read (mem_of u' (ss_target_slot s)) 0 (length (concat chunks)) = concat chunks.
Proof.
  intros Hs Hc Hb Her E.
  destruct (write_all_spec (ss_id s) chunks 0 u u' s) as (s' & Hs' & G & Hc' & Hr); [lia|done..|].
  exists s'. rewrite Z.add_0_l in Hc'. rewrite Hc', Nat2Z.id in Hr. done.
Qed.
End writing.

(** ** Witnesses at the concrete backend *)

Lemma model_updater_ok clock m completed :
  0 ≤ completed ≤ model_total →
  updater_ok (model_updater clock m (Some (model_session completed))).
Proof.
  intros Hc. split; [|by vm_compute; intuition lia|by vm_compute].
  intros s [= <-]. split; [|done]. unfold model_total in Hc.
  split; simpl; unfold is_u32, SIGNATURE_SECTOR_SIZE, OTA_SLOT_SIZE, model_total; try done; lia.
Qed.

Lemma boot_change_authorised_witness :
  ∃ n response' u',
    handle model_ready (advance_request 1) false (zeros 64) = Some (n, response', u') ∧
    boot_of u' = mkUpdateLayout 1 2 0 ∧ activation_authorised u'.
Proof.
  assert (Hu : updater_ok model_ready) by (apply model_updater_ok; unfold model_total; lia).
  destruct (handle_safe model_ready (advance_request 1) false (zeros 64) Hu)
    as (n & r & u' & E & _); [vm_compute; lia|].
  assert (Hb : option_map (λ x, boot_of x.2) (handle model_ready (advance_request 1) false (zeros 64))
    = Some (mkUpdateLayout 1 2 0)) by (vm_compute; reflexivity).
  rewrite E in Hb. injection Hb as Hb. exists n, r, u'. split; [done|]. split; [done|].
  apply (boot_change_authorised model_ready (advance_request 1) false (zeros 64) n r u' Hu E).
  intros H. assert (mkUpdateLayout 1 2 0 = mkUpdateLayout 0 1 1) as [=].
  transitivity (boot_of u'); [symmetry; exact Hb|exact H].
Defined.

Definition model_data : bytes := replicate 32 7.
Definition after_write : option (nat * bytes * UsbUpdater model) :=
  handle model_receiving (write_request 1 0 model_data) false (zeros 64).

Lemma flash_change_confined_witness :
  ∃ n response' u', after_write = Some (n, response', u') ∧
    ∃ s, uu_session model_receiving = Some s ∧ (ss_phase s = Erasing ∨ ss_phase s = Receiving) ∧
         1 = ss_target_slot s ∧ 1 ≠ ss_active_slot s ∧ 0 ≤ 31 < ss_total s.
Proof.
  do 3 eexists. split; [vm_compute; reflexivity|].
  eapply (flash_change_confined model_receiving (write_request 1 0 model_data) false (zeros 64));
    [apply model_updater_ok; unfold model_total; lia|vm_compute; reflexivity|vm_compute; discriminate].
Defined.

Lemma handle_total_witness :
  ∃ n response' u', handle model_receiving [7; 7] true (zeros 64) = Some (n, response', u') ∧
    (n ≤ 52)%nat ∧ length response' = 64%nat ∧ updater_ok u'.
Proof.
  apply (handle_total model_receiving [7; 7] true (zeros 64));
    [apply model_updater_ok; unfold model_total; lia|vm_compute; lia].
Defined.

Lemma session_needs_presence_witness :
  ∃ n response' u' s', after_write = Some (n, response', u') ∧ uu_session u' = Some s' ∧
    ∃ s, uu_session model_receiving = Some s ∧ grant s' = grant s.
Proof.
  do 4 eexists. split; [vm_compute; reflexivity|]. split; [reflexivity|].
  eapply (session_needs_presence model_receiving (write_request 1 0 model_data) (zeros 64));
    [vm_compute; reflexivity|reflexivity].
Defined.

(** The updater a request leaves behind, and the state of a host that starts
    the device, begins a session and erases the first sector. *)
Definition after {B} (u : UsbUpdater B) (r : option (nat * bytes * UsbUpdater B)) : UsbUpdater B :=
  match r with Some (_, _, u') => u' | None => u end.

Lemma after_eq {B} (u : UsbUpdater B) r n response :
  option_map fst r = Some (n, response) → r = Some (n, response, after u r).
Proof. destruct r as [[[] ]|]; simpl; intros; by simplify_eq. Qed.

Definition model_fresh : model := mkModel 1000 (λ _ _, 255) (mkUpdateLayout 0 1 1).
Definition model_new : UsbUpdater model :=
  default model_ready (new model_fresh model_key [48; 46; 49] 2).
Definition model_begun : UsbUpdater model :=
  after model_new (handle model_new (begin_request model_total (zeros 32) 3 [49]) true (zeros 64)).
Definition model_erased : UsbUpdater model :=
  after model_begun (handle model_begun (advance_request 1) false (zeros 64)).

Lemma running_slot_untouched_witness :
  new model_fresh model_key [48; 46; 49] 2 = Some model_new ∧
  option_map ss_phase (uu_session model_erased) = Some Receiving ∧
  slot_mem (uu_backend model_erased) (active_slot (boot_layout (boot_view model_fresh))) 5 =
    slot_mem model_fresh (active_slot (boot_layout (boot_view model_fresh))) 5.
Proof.
  assert (Hn : new model_fresh model_key [48; 46; 49] 2 = Some model_new) by (vm_compute; reflexivity).
  split; [exact Hn|]. split; [vm_compute; reflexivity|].
  apply (running_slot_untouched model_fresh model_key [48; 46; 49] 2 model_new model_erased 5 Hn); [exact I|].
  eapply (serving_request _ model_begun (advance_request 1) false (zeros 64));
    [eapply (serving_request _ model_new (begin_request model_total (zeros 32) 3 [49]) true (zeros 64));
      [apply serving_start|..]|..];
    first [apply after_eq; vm_compute; reflexivity|vm_compute; reflexivity].
Defined.

Lemma late_request_is_inert_witness :
  ∃ n response' u',
    handle model_late (write_request 1 0 model_data) false (zeros 64) = Some (n, response', u') ∧
    (∀ x a, slot_mem (uu_backend u') x a = slot_mem (uu_backend model_late) x a) ∧
    boot_of u' = boot_of model_late ∧
    uu_session (poll model_late) =
      Some (fail SessionExpired (with_last_checked_ms 901000 (model_session 0))).
Proof.
  do 3 eexists. split; [vm_compute; reflexivity|].
  eapply (late_request_is_inert model_late (model_session 0) (write_request 1 0 model_data) (zeros 64));
    [apply model_updater_ok; unfold model_total; lia|reflexivity|reflexivity|vm_compute; reflexivity
    | |vm_compute; reflexivity].
  right. left. vm_compute. discriminate.
Defined.

Lemma begin_roundtrip_witness :
  ∃ u', finish (handle_inner (begin_request model_total (zeros 32) 3 [49]) true) model_receiving
      = Some (St_Ok, u') ∧
    ∃ s, uu_session u' = Some s ∧ ss_id s = 2 ∧ ss_total s = model_total ∧
         ss_expected_hash s = zeros 32 ∧ ss_expected_secure_version s = 3 ∧
         expected_version s = [49] ∧ 2 ≤ 3.
Proof.
  eexists. split; [vm_compute; reflexivity|].
  eapply (begin_roundtrip model_receiving model_total (zeros 32) 3 [49]);
    [vm_compute; intuition discriminate|reflexivity|vm_compute; intuition discriminate
    |simpl; lia|vm_compute; reflexivity].
Defined.

Lemma written_image_witness :
  ∃ u', write_all 1 0 [model_data; model_data] model_receiving = Some u' ∧
    ∃ s', uu_session u' = Some s' ∧ grant s' = grant (model_session 0) ∧
      ss_completed s' = 64 ∧ mem_read (mem_of u' 1) 0 64 = replicate 64 7.
Proof.
  eexists. split; [vm_compute; reflexivity|].
  eapply (written_image model_receiving [model_data; model_data] _ (model_session 0));
    [reflexivity|reflexivity| |intros a Ha; reflexivity|vm_compute; reflexivity].
  repeat constructor; discriminate.
Defined.
