(* ===== verification/UsbUpdateProgress.v ===== *)
(** * A cooperating host gets its image installed

    The other half of [UsbUpdateSafety]: on a backend without faults, a host that sends an
    authentic image in order and in time ends with an activated session.  The host is a
    program over [handle]: it learns the session from the reply to Begin, checks the
    status of every reply, and sends no more requests than the size of the image asks for. *)

From stdpp Require Import base tactics numbers list option.
From S2P Require Import Prelude Interfaces SignedImage UsbUpdate UsbUpdateSafety UsbUpdateGrant ModelBackend.
From S2P Require Import UsbUpdateTheorems.

(** ** The host *)

Section host.
Context `{Sha256} {B : Type} `{UpdateBackend B}.

(** One request; a reply other than Ok stops the host. *)
Definition ask u request present : option (bytes * UsbUpdater B) :=
  '(_, reply, u) ← handle u request present (zeros 64);
  if byte_at reply 0 =? status_code St_Ok then Some (reply, u) else None.

Fixpoint ask_all (requests : list bytes) u : option (UsbUpdater B) :=
  match requests with
  | [] => Some u
  | request :: requests =>
      '(_, u) ← ask u request false;
      ask_all requests u
  end.

Fixpoint write_requests (id offset : Z) (chunks : list bytes) : list bytes :=
  match chunks with
  | [] => []
  | data :: chunks => write_request id offset data :: write_requests id (offset + Z.of_nat (length data)) chunks
  end.

Definition steps_of (total step : Z) : nat := Z.to_nat ((total + step - 1) / step).

Definition install (image : bytes) (chunks : list bytes) (secure_version : Z) (version : bytes) u
  : option (UsbUpdater B) :=
  let total := Z.of_nat (length image) in
  '(reply, u) ← ask u (begin_request total (sha256 image) secure_version version) true;
  let id := le_decode (slice reply 4 8) in
  u ← ask_all (replicate (steps_of total ERASE_STEP_SIZE) (advance_request id)) u;
  u ← ask_all (write_requests id 0 chunks) u;
  ask_all (replicate (steps_of total VERIFY_STEP_SIZE) (advance_request id)) u.
End host.

(** ** A backend without faults

    Its calls succeed on arguments the protocol allows; [clock] is its last reading, and
    [delay] bounds the time between two readings, whatever happens in between. *)

Definition sector_range (o n : Z) : Prop :=
  0 ≤ o ∧ 0 < n ∧ o + n ≤ OTA_SLOT_SIZE ∧ o mod SIGNATURE_SECTOR_SIZE = 0 ∧ n mod SIGNATURE_SECTOR_SIZE = 0.

(** A chunk the session accepts. *)
Definition chunk_ok (data : bytes) : Prop :=
  Forall is_byte data ∧ (0 < length data ≤ MAX_WRITE_CHUNK)%nat ∧ (Z.of_nat (length data)) mod 32 = 0.

Class HealthyBackend (B : Type) `{WriteView B} (delay : Z) := {
  healthy : B → Prop;
  clock : B → Z;
  hb_trusted : ∀ b, healthy b → boot_trusted (boot_view b);
  hb_now : ∀ b t b', healthy b → ub_now_ms b = (t, b') →
    healthy b' ∧ clock b ≤ t ≤ clock b + delay ∧ clock b' = t;
  hb_layout : ∀ b, healthy b → ∃ b',
    ub_layout b = (Some (boot_layout (boot_view b)), b') ∧ healthy b' ∧ clock b' = clock b;
  hb_erase : ∀ b s o n, healthy b → s = 1 - active_slot (boot_layout (boot_view b)) → sector_range o n →
    ∃ b', ub_erase b s o n = (Some tt, b') ∧ healthy b' ∧ clock b' = clock b;
  hb_write : ∀ b s o d, healthy b → s = 1 - active_slot (boot_layout (boot_view b)) → chunk_ok d →
    0 ≤ o → o mod 32 = 0 → o + Z.of_nat (length d) ≤ OTA_SLOT_SIZE →
    ∃ b', ub_write b s o d = (Some tt, b') ∧ healthy b' ∧ clock b' = clock b;
  hb_read : ∀ b s o n, healthy b → 0 ≤ s ≤ 1 → 0 ≤ o → (0 < n)%nat → o + Z.of_nat n ≤ OTA_SLOT_SIZE →
    ∃ d b', ir_read b s o n = (Some d, b') ∧ healthy b' ∧ clock b' = clock b;
  hb_verify : ∀ b k s d, healthy b →
    ∃ v b', ir_verify_rsa_pss b k s d = (Some v, b') ∧ healthy b' ∧ clock b' = clock b;
  hb_activate : ∀ b s q e, healthy b →
    let l := boot_layout (boot_view b) in
    s = 1 - active_slot l → next_sequence (active_sequence l) s = Some q → e = activation_entry l →
    ∃ b', ub_activate b s q e = (Some tt, b') ∧ healthy b' ∧ clock b' = clock b;
}.

(** ** Replies *)

Lemma slice_put_before l off d a b : (a ≤ b ≤ off)%nat → (off ≤ length l)%nat →
  slice (put l off d) a b = slice l a b.
Proof.
  intros Hb Hl. unfold slice, put. rewrite !take_drop_commute. f_equal.
  replace (a + (b - a))%nat with b by lia.
  rewrite take_app_le by (rewrite length_take; lia). by rewrite take_take, Nat.min_l by lia.
Qed.

Lemma byte_at_put_before l off d i : (i < off ≤ length l)%nat → byte_at (put l off d) i = byte_at l i.
Proof.
  intros Hi. unfold byte_at, put. rewrite !nth_lookup, lookup_app_l by (rewrite length_take; lia).
  by rewrite lookup_take_lt by lia.
Qed.

Section progress.
Context `{Sha256} {B : Type} {delay : Z} `{HealthyBackend B delay}.
Implicit Types (u : UsbUpdater B) (s : Session) (b : B).

(** A buffer that stays long under further puts. *)
Ltac long_buffer K K0 :=
  first [exact K0 | apply K; [long_buffer K K0|rewrite ?length_le_encode; simpl; lia]].

Lemma reply_of u s st out n out' :
  uu_session u = Some s → (64 ≤ length out)%nat → (uu_current_version_length u ≤ MAX_VERSION_LENGTH)%nat →
  encode_response u st out = Some (n, out') →
  byte_at out' 0 = status_code st ∧ slice out' 4 8 = le_encode 4 (ss_id s).
Proof.
  intros Hs Hl Hv. unfold encode_response, RESPONSE_FIXED, MAX_VERSION_LENGTH in *. rewrite Hs.
  destruct (Nat.ltb_spec (length out) (21 + uu_current_version_length u)); [lia|].
  cbv zeta. intros [= _ <-].
  assert (length (take (uu_current_version_length u) (uu_current_version u)) ≤ 32)%nat
    by (rewrite length_take; lia).
  assert (∀ o d l, (64 ≤ length l)%nat → (o + length d ≤ 64)%nat → (64 ≤ length (put l o d))%nat) as K
    by (intros; rewrite length_put; lia).
  assert (64 ≤ length (put out 0 (zeros (21 + uu_current_version_length u))))%nat as K0
    by (apply K; rewrite ?length_zeros; lia).
  set (blank := put out 0 _) in *.
  assert (∀ l : bytes, (64 ≤ length l)%nat → ∀ o, (o ≤ 64)%nat → (o ≤ length l)%nat) as K' by (intros; lia).
  split.
  - rewrite 9!byte_at_put_before; [done|..]; (split; [lia|apply K'; [long_buffer K K0|lia]]).
  - rewrite 5!slice_put_before; [|first [lia|apply K'; [long_buffer K K0|lia]]..].
    apply (slice_put_same _ 4 (le_encode 4 (ss_id s))), K'; [long_buffer K K0|rewrite length_le_encode; lia].
Qed.

(** ** In time

    [j] milliseconds since the last progress, [c] since Begin. *)

Record on_time (j c : Z) s b : Prop := {
  ot_live : live_phase (ss_phase s) = true;
  ot_healthy : healthy b;
  ot_checked : ss_last_checked_ms s ≤ clock b;
  ot_progress : ss_last_progress_ms s ≤ clock b ≤ ss_last_progress_ms s + j;
  ot_started : ss_started_ms s ≤ clock b ≤ ss_started_ms s + c;
}.

(** Both deadlines are still ahead. *)
Definition in_budget (j c : Z) : Prop := j < SESSION_IDLE_TIMEOUT_MS ∧ c < SESSION_MAX_LIFETIME_MS.

Lemma delay_nonneg b : healthy b → 0 ≤ delay.
Proof. intros Hb. destruct (ub_now_ms b) as [t b'] eqn:E. destruct (hb_now _ _ _ Hb E). lia. Qed.

Lemma expire_on_time j c s b t b' :
  on_time j c s b → ub_now_ms b = (t, b') → in_budget (j + delay) (c + delay) →
  expire s t = (false, with_last_checked_ms t s) ∧
  on_time (j + delay) (c + delay) (with_last_checked_ms t s) b' ∧ clock b' = t.
Proof.
  intros [Hl Hh Hc Hp Hs] E [Hj Hb]. destruct (hb_now _ _ _ Hh E) as (Hh' & Ht & Hcl).
  unfold expire. rewrite Hl. cbn [negb].
  assert ((t <? ss_last_checked_ms s) || (u64_saturating_sub t (ss_started_ms s) >=? SESSION_MAX_LIFETIME_MS)
    || (u64_saturating_sub t (ss_last_progress_ms s) >=? SESSION_IDLE_TIMEOUT_MS) = false) as ->.
  { unfold u64_saturating_sub. rewrite !orb_false_iff, Z.ltb_ge, !Z.geb_leb, !Z.leb_gt. lia. }
  split; [done|]. split; [|done]. split; simpl; try done; lia.
Qed.

Lemma wp_expire_on_time j c s (Q : result StatusCode (bool * Session) → UsbUpdater B → Prop) u :
  on_time j c s (uu_backend u) → in_budget (j + delay) (c + delay) →
  (∀ t u', let s' := with_last_checked_ms t s in quiet u u' → uu_session u' = Some s' →
     (∀ x a, slot_erased (uu_backend u) x a → slot_erased (uu_backend u') x a) →
     on_time (j + delay) (c + delay) s' (uu_backend u') → Q (Ok (false, s')) u') →
  wp (session_expire s) Q u.
Proof.
  intros Ht Hb K. apply wp_bind, wp_call. unfold on_backend.
  destruct (ub_now_ms (uu_backend u)) as [t b] eqn:E. intros a u' [= <- <-].
  destruct (ub_now_ms_frame _ _ _ E) as [F1 F2].
  destruct (expire_on_time _ _ _ _ _ _ Ht E Hb) as (-> & Ht' & _).
  apply wp_bind, wp_modify, wp_ret, K; [by repeat split|done| |done].
  intros x y. by apply (ub_now_erased _ _ _ _ _ E).
Qed.

(** [progress]: the time since the last progress is forgotten. *)
Definition progressed (t : Z) s : Session := with_last_progress_ms t (with_last_checked_ms t s).

Lemma wp_progress_on_time j c s (Q : result StatusCode StatusCode → UsbUpdater B → Prop) u :
  on_time j c s (uu_backend u) → in_budget (j + delay) (c + delay) →
  (∀ t u', let s' := progressed t s in quiet u u' → uu_session u' = Some s' →
     (∀ x a, slot_erased (uu_backend u) x a → slot_erased (uu_backend u') x a) →
     on_time 0 (c + delay) s' (uu_backend u') → Q (Ok St_Ok) u') →
  wp (session_progress s) Q u.
Proof.
  intros Ht Hb K. apply wp_bind, wp_call. unfold on_backend.
  destruct (ub_now_ms (uu_backend u)) as [t b] eqn:E. intros a u' [= <- <-].
  destruct (ub_now_ms_frame _ _ _ E) as [F1 F2].
  destruct (expire_on_time _ _ _ _ _ _ Ht E Hb) as (Ee & [Hl Hh Hc Hp Hs] & Hcl).
  unfold progress. rewrite Ee.
  apply wp_bind, wp_modify, wp_ret. apply (K t); [by repeat split|done| |].
  - intros x y. by apply (ub_now_erased _ _ _ _ _ E).
  - split; simpl in *; try done; lia.
Qed.

(** A call that succeeds, with what the backend is like afterwards. *)
Lemma wp_or_fail_ok {A} (f : B → option A * B) a b' st s (Q : result StatusCode A → UsbUpdater B → Prop) u :
  f (uu_backend u) = (Some a, b') → Q (Ok a) (with_backend b' u) → wp (or_fail f st s) Q u.
Proof. intros E K. apply wp_or_fail; rewrite E; intros; by simplify_eq. Qed.

(** ** One request *)

(** The session the host's Begin was granted: for [image], on the slot that is not active. *)
Record assigned (image : bytes) (secure_version : Z) (version : bytes) s u : Prop := {
  as_active : ss_active_slot s = active_slot (boot_layout (boot_of u));
  as_sequence : ss_active_sequence s = active_sequence (boot_layout (boot_of u));
  as_entry : ss_activation_entry s = activation_entry (boot_layout (boot_of u));
  as_target : ss_target_slot s = 1 - ss_active_slot s;
  as_next : next_sequence (ss_active_sequence s) (ss_target_slot s) = Some (ss_target_sequence s);
  as_total : ss_total s = Z.of_nat (length image);
  as_hash : ss_expected_hash s = sha256 image;
  as_secure : ss_expected_secure_version s = secure_version;
  as_version : expected_version s = version;
}.

Lemma assigned_ext image secure version s s' u u' :
  grant s' = grant s → boot_of u' = boot_of u → assigned image secure version s u → assigned image secure version s' u'.
Proof.
  unfold grant. intros G Hb []. injection G as G1 G2 G3 G4 G5 G6 G7 G8 G9 G10 G11 G12.
  split; unfold expected_version in *; rewrite ?Hb; congruence.
Qed.

(** Between two requests. *)
Record running (c : Z) s u : Prop := {
  rn_session : uu_session u = Some s;
  rn_time : on_time 0 c s (uu_backend u);
  rn_ok : updater_ok u;
}.

Lemma ask_ok u request present (P : Session → UsbUpdater B → Prop) :
  updater_ok u →
  wp (handle_inner request present) (λ r u', r = Ok St_Ok ∧ ∃ s', uu_session u' = Some s' ∧ P s' u') (poll u) →
  ∃ reply s' u', ask u request present = Some (reply, u') ∧ updater_ok u' ∧
    uu_session u' = Some s' ∧ P s' u' ∧ slice reply 4 8 = le_encode 4 (ss_id s').
Proof.
  intros Hu W. destruct (handle_safe u request present (zeros 64) Hu) as (n & reply & u' & E & Hsafe).
  { destruct (uo_version _ Hu) as [_ Hv]. rewrite length_zeros. unfold RESPONSE_FIXED, MAX_VERSION_LENGTH in *. lia. }
  pose proof (st_ok _ _ Hsafe) as Hu'. unfold ask. rewrite E. cbn [mbind option_bind].
  unfold handle in E. destruct (finish _ _) as [[st u1]|] eqn:Ef; [|done]. cbn [mbind option_bind] in E.
  destruct (finish_status _ _ _ _ _ Ef W) as (r & Hr & -> & s' & Hs' & HP). cbn [status_of] in Hr. subst st.
  destruct (encode_response u1 St_Ok (zeros 64)) as [[m out]|] eqn:Eo; [|done]. cbn in E. simplify_eq.
  destruct (uo_version _ Hu') as [_ Hv].
  eapply reply_of in Eo as [R1 R2]; [|exact Hs'|by rewrite length_zeros|lia].
  rewrite R1, Z.eqb_refl. by exists reply, s', u'.
Qed.

Lemma poll_on_time c s u : running c s u → in_budget delay (c + delay) →
  ∃ t, let s' := with_last_checked_ms t s in
    quiet u (poll u) ∧ uu_session (poll u) = Some s' ∧
    (∀ x a, slot_erased (uu_backend u) x a → slot_erased (uu_backend (poll u)) x a) ∧
    on_time delay (c + delay) s' (uu_backend (poll u)).
Proof.
  intros [Hs Ht Hu] Hb. destruct (poll_quiet u) as [Hq _]. unfold poll in *. rewrite Hs in *.
  destruct (ub_now_ms (uu_backend u)) as [t b] eqn:E. exists t.
  destruct (expire_on_time 0 c _ _ _ _ Ht E Hb) as (Ee & Ht' & _). rewrite Ee.
  split; [by rewrite Ee in Hq|]. split; [done|]. split; [|done].
  intros x y. by apply (ub_now_erased _ _ _ _ _ E).
Qed.

(** A request of the host that works on the session. *)
Lemma ask_running c s u request (P : Session → UsbUpdater B → Prop) :
  running c s u → in_budget delay (c + delay) →
  (∀ t v, let s1 := with_last_checked_ms t s in
     quiet u v → uu_session v = Some s1 → updater_ok v → 
     (∀ x a, slot_erased (uu_backend u) x a → slot_erased (uu_backend v) x a) →
     on_time delay (c + delay) s1 (uu_backend v) →
     wp (handle_inner request false) (λ r u', r = Ok St_Ok ∧ ∃ s', uu_session u' = Some s' ∧ P s' u') v) →
  ∃ s' u', snd <$> ask u request false = Some u' ∧ updater_ok u' ∧ uu_session u' = Some s' ∧ P s' u' ∧
    grant s' = grant s.
Proof.
  intros Hr Hb K. pose proof Hr as [Hs Ht Hu].
  destruct (poll_on_time _ _ _ Hr Hb) as (t & Hq & Hs1 & He & Ht1).
  assert (wp (handle_inner request false) (λ _ u', ∀ s', uu_session u' = Some s' → grant s' = grant s) (poll u)) as Hg.
  { destruct (wp_elim _ _ _ (handle_inner_wp _ request false (poll_ok _ Hu))) as (r & u' & E & _).
    unfold wp. rewrite E. intros s' Hs'.
    destruct (keeps_handle_inner (grant s) request (poll u) r u') as [G _]; [|done|by apply G].
    intros ?. rewrite Hs1. by intros [= <-]. }
  destruct (ask_ok u request false (λ s' u', P s' u' ∧ grant s' = grant s) Hu)
    as (reply & s' & u' & E & Hu' & Hs' & [HP HG] & _).
  { eapply wp_mono; [eapply wp_conj; [by apply (K t); try done; apply poll_ok|exact Hg]|].
    intros r u' [(-> & s' & Hs' & HP) G]. split; [done|]. exists s'. by repeat split; auto. }
  exists s', u'. by rewrite E.
Qed.

Lemma grant_fields s s' : grant s' = grant s →
  ss_id s' = ss_id s ∧ ss_target_slot s' = ss_target_slot s ∧ ss_total s' = ss_total s.
Proof. unfold grant. intros [= _ -> -> _ _ _ _ -> _ _ _ _]. done. Qed.

(** *** Erasing *)

Definition erased_upto (k : Z) s u : Prop :=
  erased_of u (ss_target_slot s) 0 k ∧
  (k < ss_total s ∧ ss_phase s = Erasing ∧ ss_completed s = k ∨
   k = ss_total s ∧ ss_phase s = Receiving ∧ ss_completed s = 0).

Lemma parse_id id : is_u32 id → parse_session_id (le_encode 4 id) = Some id.
Proof. intros Hid. unfold parse_session_id. rewrite length_le_encode. cbv [Nat.eqb]. by rewrite le_decode_encode. Qed.

Lemma handle_advance id u : handle_inner (advance_request id) false u = advance (le_encode 4 id) u.
Proof. done. Qed.

Lemma advance_erases_wp k s u c :
  uu_session u = Some s → session_shape s → ss_target_slot s = 1 - active_slot (boot_layout (boot_of u)) →
  erased_upto k s u → k < ss_total s → k mod SIGNATURE_SECTOR_SIZE = 0 →
  on_time delay c s (uu_backend u) → in_budget (3 * delay) (c + 2 * delay) →
  wp (advance (le_encode 4 (ss_id s))) (λ r u', r = Ok St_Ok ∧ ∃ s', uu_session u' = Some s' ∧
    (on_time 0 (c + 2 * delay) s' (uu_backend u') ∧ boot_of u' = boot_of u ∧
     erased_upto (Z.min (ss_total s) (k + ERASE_STEP_SIZE)) s' u')) u.
Proof.
  intros Hs Hsh Htgt [Her Hst] Hk Hal Ht [Hb1 Hb2]. pose proof (delay_nonneg _ (ot_healthy _ _ _ _ Ht)).
  destruct Hst as [(_ & Hp & Hc)|(? & _)]; [|lia].
  pose proof (sh_total _ Hsh) as Htot. pose proof (sh_completed _ Hsh) as Hcomp. pose proof (sh_aligned _ Hsh) as Hta.
  unfold OTA_SLOT_SIZE, SIGNATURE_SECTOR_SIZE in *.
  unfold advance. rewrite parse_id by apply Hsh. apply wp_bind, wp_ok_or; [intros ? [= <-]|done].
  apply wp_bind, wp_the_session; [intros ? E|congruence]. assert (s0 = s) as -> by congruence. clear E.
  apply wp_bind, wp_return_if; [by rewrite Z.eqb_refl|intros _].
  apply wp_bind. eapply (wp_expire_on_time delay c); [exact Ht|split; lia|].
  intros t u1 s1 (Hm1 & Hb1' & _) Hs1 He1 Ht1. apply wp_bind, wp_return_if; [done|intros _].
  subst s1. cbn [ss_phase ss_total ss_completed ss_target_slot with_last_checked_ms] in *. rewrite Hp, Hc.
  apply wp_bind. eapply wp_checked; [apply u32_sub_ok; lia|].
  assert (sector_range k (Z.min (ss_total s - k) ERASE_STEP_SIZE)) as Hr.
  { unfold sector_range, ERASE_STEP_SIZE, OTA_SLOT_SIZE, SIGNATURE_SECTOR_SIZE. split_and!; try lia.
    destruct (Z.min_spec (ss_total s - k) 0x10000) as [[_ ->]|[_ ->]]; [|done].
    rewrite Zminus_mod, Hta, Hal. done. }
  destruct (hb_erase _ (ss_target_slot s) _ _ (ot_healthy _ _ _ _ Ht1) ltac:(by change (boot_view (uu_backend u1)) with (boot_of u1); rewrite Hb1') Hr)
    as (b2 & E & Hh2 & Hc2).
  destruct (ub_erase_frame _ _ _ _ _ _ E) as [Hbv _].
  apply wp_bind. eapply wp_or_fail_ok; [exact E|].
  apply wp_bind. eapply wp_checked; [apply u32_add_ok; unfold_max; unfold ERASE_STEP_SIZE in *; lia|].
  replace (k + Z.min (ss_total s - k) ERASE_STEP_SIZE) with (Z.min (ss_total s) (k + ERASE_STEP_SIZE)) by lia.
  set (k' := Z.min _ _). set (s2 := if k' =? ss_total s then _ else _).
  assert (on_time (delay + delay) (c + delay) s2 b2) as Ht2.
  { destruct Ht1 as [Hl1 Hh1 Hc1 Hp1 Hs1']. subst s2. destruct (_ =? _); split; simpl in *; rewrite ?Hc2, ?Hp; done. }
  eapply wp_progress_on_time; [exact Ht2|split; lia|].
  intros t3 u3 s3 (Hm3 & Hb3 & _) Hs3 He3 Ht3. split; [done|]. exists s3. split; [done|].
  replace (c + 2 * delay) with (c + delay + delay) by lia. split; [done|].
  split; [rewrite Hb3; change (boot_view b2 = boot_of u); rewrite Hbv; exact Hb1'|].
  assert (ss_target_slot s3 = ss_target_slot s ∧ ss_total s3 = ss_total s) as [F1 F2]
    by (subst s3 s2; destruct (_ =? _); done).
  split.
  - rewrite F1. intros a Ha. apply He3. cbn [uu_backend with_backend]. eapply ub_erase_Some; [exact E|].
    destruct (decide (a < k)); [right; apply He1, Her; lia|left; lia].
  - rewrite F2. subst s3 s2. destruct (Z.eqb_spec k' (ss_total s)); [right|left]; simpl.
    + done.
    + split; [lia|]. by rewrite Hp.
Qed.

(** *** Writing *)

Lemma write_request_parts id offset data : is_u32 id → is_u32 offset →
  let request := tail (write_request id offset data) in
  le_decode (slice request 0 4) = id ∧ le_decode (slice request 4 8) = offset ∧ drop 8 request = data ∧
  length request = (8 + length data)%nat.
Proof.
  intros Hid Ho. cbn [tail write_request app]. split_and!.
  - unfold slice. rewrite drop_0, take_app_length' by by rewrite length_le_encode. by apply le_decode_encode.
  - rewrite (slice_app_mid (le_encode 4 id)) by (rewrite ?length_le_encode; done). by apply le_decode_encode.
  - by rewrite app_assoc, drop_app_length' by (rewrite length_app, !length_le_encode; done).
  - by rewrite !length_app, !length_le_encode.
Qed.

Definition received (image : bytes) (k : Z) s u : Prop :=
  ss_phase s = Receiving ∧ ss_completed s = k ∧ erased_of u (ss_target_slot s) k (ss_total s) ∧
  mem_read (mem_of u (ss_target_slot s)) 0 (Z.to_nat k) = take (Z.to_nat k) image.

(** A chunk in order, in time and within the image is accepted. *)
Lemma write_answers_wp k s u c data :
  uu_session u = Some s → session_shape s → ss_target_slot s = 1 - active_slot (boot_layout (boot_of u)) →
  ss_phase s = Receiving → ss_completed s = k → is_u32 k → k mod 32 = 0 → chunk_ok data →
  k + Z.of_nat (length data) ≤ ss_total s →
  on_time delay c s (uu_backend u) → in_budget (3 * delay) (c + 2 * delay) →
  wp (write (tail (write_request (ss_id s) k data))) (λ r u', r = Ok St_Ok ∧ ∃ s', uu_session u' = Some s' ∧
    ss_phase s' = Receiving ∧ on_time 0 (c + 2 * delay) s' (uu_backend u') ∧ boot_of u' = boot_of u) u.
Proof.
  intros Hs Hsh Htgt Hp Hk Hku Hal (Hbytes & Hlen & Hmod) Hend Ht [Hb1 Hb2].
  pose proof (delay_nonneg _ (ot_healthy _ _ _ _ Ht)).
  pose proof (sh_total _ Hsh) as Htot. pose proof (sh_completed _ Hsh) as Hcomp. unfold OTA_SLOT_SIZE in *.
  destruct (write_request_parts (ss_id s) k data (sh_id _ Hsh) Hku) as (R1 & R2 & R3 & R4).
  unfold write. cbv zeta. rewrite R1, R2, R3, R4. unfold MAX_WRITE_CHUNK in *.
  apply wp_bind, wp_return_if.
  { intros [E%Nat.ltb_lt|E%Nat.ltb_lt]%orb_true_iff; lia. } intros _.
  apply wp_bind, wp_the_session; [intros ? E|congruence]. assert (s0 = s) as -> by congruence. clear E.
  apply wp_bind, wp_return_if; [by rewrite Z.eqb_refl|intros _].
  apply wp_bind. eapply (wp_expire_on_time delay c); [exact Ht|split; lia|].
  intros t u1 s1 (Hm1 & Hb1' & _) Hs1 He1 Ht1. apply wp_bind, wp_return_if; [done|intros _].
  subst s1. cbn [ss_phase ss_total ss_completed ss_target_slot with_last_checked_ms] in *. rewrite Hp, Hk.
  apply wp_bind, wp_return_if; [by intros ?%bool_decide_eq_true|intros _].
  apply wp_bind, wp_return_if; [intros [E%Nat.eqb_eq|E]%orb_true_iff; [lia|]|intros _].
  { apply negb_true_iff, not_true_iff_false in E. by rewrite is_multiple_of_spec in E. }
  apply wp_bind, wp_return_if; [by rewrite Z.eqb_refl|intros _].
  apply wp_bind, wp_ok_or; [intros ? [-> _]%u32_add_Some|rewrite u32_add_ok by (unfold_max; lia); done].
  apply wp_bind, wp_return_if; [intros E%Z.ltb_lt; lia|intros _].
  destruct (hb_write _ (ss_target_slot s) k data (ot_healthy _ _ _ _ Ht1)) as (b2 & E & Hh2 & Hc2);
    [by change (boot_view (uu_backend u1)) with (boot_of u1); rewrite Hb1'|done|unfold is_u32 in Hku; lia|done|unfold OTA_SLOT_SIZE; lia|].
  destruct (ub_write_frame _ _ _ _ _ _ E) as [Hbv _].
  apply wp_bind. eapply wp_or_fail_ok; [exact E|].
  set (s2 := with_completed _ _).
  assert (on_time (delay + delay) (c + delay) s2 b2) as Ht2.
  { destruct Ht1. subst s2. split; simpl in *; rewrite ?Hc2; done. }
  eapply wp_progress_on_time; [exact Ht2|split; lia|].
  intros t3 u3 s3 (Hm3 & Hb3 & _) Hs3 He3 Ht3. split; [done|]. exists s3. split; [done|]. split; [done|].
  replace (c + 2 * delay) with (c + delay + delay) by lia. split; [done|].
  rewrite Hb3; change (boot_view b2 = boot_of u); rewrite Hbv; exact Hb1'.
Qed.

Lemma write_stores_wp image k s u c data :
  uu_session u = Some s → session_shape s → ss_target_slot s = 1 - active_slot (boot_layout (boot_of u)) →
  ss_total s = Z.of_nat (length image) → received image k s u → k mod 32 = 0 → chunk_ok data →
  slice image (Z.to_nat k) (Z.to_nat k + length data) = data → k + Z.of_nat (length data) ≤ ss_total s →
  on_time delay c s (uu_backend u) → in_budget (3 * delay) (c + 2 * delay) →
  wp (write (tail (write_request (ss_id s) k data))) (λ r u', r = Ok St_Ok ∧ ∃ s', uu_session u' = Some s' ∧
    (on_time 0 (c + 2 * delay) s' (uu_backend u') ∧ boot_of u' = boot_of u ∧
     received image (k + Z.of_nat (length data)) s' u')) u.
Proof.
  intros Hs Hsh Htgt Himg (Hp & Hk & Her & Hmem) Hal Hch Hdata Hend Ht Hb. pose proof Hch as (Hbytes & Hlen & _).
  pose proof (sh_total _ Hsh) as Htot. pose proof (sh_completed _ Hsh) as Hcomp. unfold OTA_SLOT_SIZE in *.
  assert (is_u32 k) as Hku by (unfold is_u32; lia).
  destruct (write_request_parts (ss_id s) k data (sh_id _ Hsh) Hku) as (_ & R2 & R3 & _).
  assert (Forall is_byte (tail (write_request (ss_id s) k data))) as Hreq.
  { unfold write_request. cbn [tail app]. repeat apply Forall_app_2; try done; apply le_encode_bytes. }
  eapply wp_mono;
    [eapply wp_conj; [exact (write_accepted_wp u _ Hreq)|by apply (write_answers_wp k s u c data)]|].
  intros r u' [W (-> & s' & Hs' & Hp' & Ht' & Hb')]. split; [done|]. exists s'. split; [done|].
  split; [done|]. split; [done|]. destruct (W eq_refl) as (s0 & s1 & E0 & E1 & G & Hc0 & Hc1 & _ & He & Hr & Hf).
  assert (s0 = s) as -> by congruence. assert (s1 = s') as -> by congruence.
  rewrite R2, R3 in *. assert (ss_target_slot s' = ss_target_slot s ∧ ss_total s' = ss_total s) as [F1 F2]
    by (unfold grant in G; by simplify_eq).
  split; [done|]. split; [done|]. rewrite F1, F2. split; [apply He; [|lia]; intros a Ha; apply Her; lia|].
  replace (Z.to_nat (k + Z.of_nat (length data))) with (Z.to_nat k + length data)%nat by lia.
  rewrite mem_read_app, Z.add_0_l, Z2Nat.id by lia. rewrite Hr by (intros a Ha; apply Her; lia).
  rewrite <- take_take_drop. f_equal.
  - rewrite <- Hmem. apply mem_read_ext. intros a Ha. apply Hf. lia.
  - unfold slice in Hdata. by replace (Z.to_nat k + length data - Z.to_nat k)%nat with (length data) in Hdata by lia.
Qed.

(** *** Verifying *)

(** An image the device with trusted key [key] and floor [floor] installs. *)
Record installable (key : bytes) (floor : Z) (image : bytes) (secure_version : Z) (version : bytes) : Prop := {
  in_size : SIGNATURE_SECTOR_SIZE * 2 ≤ Z.of_nat (length image) ≤ OTA_SLOT_SIZE;
  in_aligned : Z.of_nat (length image) mod SIGNATURE_SECTOR_SIZE = 0;
  in_version : (0 < length version ≤ MAX_VERSION_LENGTH)%nat;
  in_floor : floor ≤ secure_version ≤ U32_MAX ∧ 0 ≤ secure_version;
  in_metadata : ∃ md, parse_image_metadata (slice image 0 APP_DESCRIPTOR_PREFIX_SIZE) = Some md ∧
    im_secure_version md = secure_version ∧ im_version md = version;
  in_signature :
    let signed := (length image - Z.to_nat SIGNATURE_SECTOR_SIZE)%nat in
    ∃ sig, parse_signature_block (slice image signed (signed + SIGNATURE_BLOCK_SIZE)) key = Some sig ∧
      ps_image_digest sig = sha256 (take signed image) ∧
      rsa_pss_valid (ps_public_key sig) (ps_signature sig) (ps_image_digest sig) = true;
}.

Lemma on_time_same j c s s' b b' :
  on_time j c s b → healthy b' → clock b' = clock b → live_phase (ss_phase s') = true →
  ss_last_checked_ms s' = ss_last_checked_ms s → ss_last_progress_ms s' = ss_last_progress_ms s →
  ss_started_ms s' = ss_started_ms s → on_time j c s' b'.
Proof. intros [] Hh Hc Hl E1 E2 E3. split; rewrite ?E1, ?E2, ?E3, ?Hc; done. Qed.

Lemma on_time_mono j j' c c' s b : on_time j c s b → j ≤ j' → c ≤ c' → on_time j' c' s b.
Proof. intros [] ??. split; try done; lia. Qed.

Lemma wp_read_ok {st} slot off n s (Q : result StatusCode bytes → UsbUpdater B → Prop) u :
  healthy (uu_backend u) → 0 ≤ slot ≤ 1 → 0 ≤ off → (0 < n)%nat → off + Z.of_nat n ≤ OTA_SLOT_SIZE →
  (∀ b', let u' := with_backend b' u in quiet u u' → healthy b' → clock b' = clock (uu_backend u) →
     Q (Ok (mem_read (mem_of u slot) off n)) u') →
  wp (or_fail (λ b, ir_read b slot off n) st s) Q u.
Proof.
  intros Hh Hsl Ho Hn Hend K. destruct (hb_read _ slot off n Hh Hsl Ho Hn Hend) as (d & b' & E & Hh' & Hc').
  eapply wp_or_fail_ok; [exact E|]. rewrite (ir_read_Some _ _ _ _ _ _ E). apply K; [|done..].
  pose proof (ir_read_frame _ _ _ _ _ _ E). pose proof (ir_read_boot _ _ _ _ _ _ E). done.
Qed.

Section verification.
Context (image : bytes) (secure_version : Z) (version : bytes).

Lemma mem_slice (m : memory) total a n : total = length image → mem_read m 0 total = image → (a + n ≤ total)%nat →
  mem_read m (Z.of_nat a) n = slice image a (a + n).
Proof.
  intros -> Hm Ha. rewrite <- Hm, slice_mem_read by lia. rewrite Z.add_0_l. f_equal. lia.
Qed.

(** At the end of the verification the hashers have seen the image and its signed part. *)
Lemma image_hashed u s :
  session_ok s (slot_mem (uu_backend u)) → ss_phase s = Verifying → ss_completed s = ss_total s →
  assigned image secure_version version s u → SIGNATURE_SECTOR_SIZE * 2 ≤ Z.of_nat (length image) ≤ OTA_SLOT_SIZE →
  mem_read (mem_of u (ss_target_slot s)) 0 (length image) = image →
  ss_full_hasher s = image ∧ ss_signed_hasher s = take (length image - Z.to_nat SIGNATURE_SECTOR_SIZE)%nat image.
Proof.
  intros [Hsh Hh] Hp Hcomp As Hsize Hmem. destruct (Hh Hp) as [Hfull Hsigned].
  rewrite Hcomp, (as_total _ _ _ _ _ As) in Hfull, Hsigned. rewrite Nat2Z.id in Hfull.
  fold (mem_of u (ss_target_slot s)) in Hfull, Hsigned. rewrite Hmem in Hfull. split; [done|].
  unfold SIGNATURE_SECTOR_SIZE, OTA_SLOT_SIZE in *. rewrite Z.min_r in Hsigned by lia.
  replace (Z.to_nat (Z.of_nat (length image) - 4096)) with (length image - Z.to_nat 4096)%nat in Hsigned by lia.
  set (signed := (length image - Z.to_nat 4096)%nat) in *. rewrite Hsigned.
  pose proof (mem_slice _ _ 0 signed eq_refl Hmem ltac:(lia)) as K.
  etrans; [exact K|]. unfold slice. by rewrite drop_0, Nat.sub_0_r.
Qed.

Lemma finish_ok j c u s :
  uu_session u = Some s → session_ok s (slot_mem (uu_backend u)) → ss_phase s = Verifying →
  ss_completed s = ss_total s → assigned image secure_version version s u →
  installable (uu_trusted_key_digest u) (uu_current_secure_version u) image secure_version version →
  mem_read (mem_of u (ss_target_slot s)) 0 (length image) = image →
  on_time j c s (uu_backend u) → in_budget (j + delay) (c + delay) →
  wp finish_verification (λ r u', r = Ok St_Ok ∧ ∃ s', uu_session u' = Some s' ∧ ss_phase s' = Activated ∧
    ∀ x a, slot_mem (uu_backend u') x a = slot_mem (uu_backend u) x a) u.
Proof.
  intros Hs Hok Hp Hcomp As Hin Hmem Ht Hb. pose proof Hok as [Hsh _].
  assert (Hslots := sh_slots _ Hsh). pose proof (in_size _ _ _ _ _ Hin) as Hsize.
  destruct (image_hashed u s Hok Hp Hcomp As Hsize Hmem) as [Hfull Hsigned'].
  destruct Hin as [_ _ _ [Hfloor _] (md & Hmd & Hsec & Hver) (sig & Hsig & Hdig & Hrsa)].
  rewrite (as_total _ _ _ _ _ As) in *. unfold SIGNATURE_SECTOR_SIZE, OTA_SLOT_SIZE in *.
  set (signed := (length image - Z.to_nat 4096)%nat) in *.
  unfold finish_verification. apply wp_bind, wp_the_session; [|congruence].
  intros s0 E. assert (s0 = s) as -> by congruence. clear E. cbv zeta beta.
  apply wp_bind, fail_if_wp; intros E.
  { rewrite Hfull, (as_hash _ _ _ _ _ As), bytes_eqb_refl in E. done. } clear E.
  apply wp_bind, wp_read_ok; [apply Ht|lia|lia|unfold APP_DESCRIPTOR_PREFIX_SIZE; lia|
    unfold OTA_SLOT_SIZE, APP_DESCRIPTOR_PREFIX_SIZE; lia|]. intros b1 u1 Hq1 Hh1 Hc1.
  pose proof (mem_slice _ _ 0 APP_DESCRIPTOR_PREFIX_SIZE eq_refl Hmem ltac:(unfold APP_DESCRIPTOR_PREFIX_SIZE; lia)) as Hr.
  change (Z.of_nat 0) with 0 in Hr. rewrite Hr, Nat.add_0_l, Hmd. clear Hr.
  apply wp_bind, wp_get. subst u1. cbn [uu_current_secure_version uu_trusted_key_digest with_backend].
  apply wp_bind, fail_if_wp; intros E; [apply Z.ltb_lt in E; lia|clear E].
  apply wp_bind, fail_if_wp; intros E.
  { by rewrite (as_secure _ _ _ _ _ As), (as_version _ _ _ _ _ As), Hsec, Hver, Z.eqb_refl, bytes_eqb_refl in E. } clear E.
  rewrite (as_total _ _ _ _ _ As). unfold SIGNATURE_SECTOR_SIZE.
  apply wp_bind. eapply wp_checked; [apply u32_sub_ok; lia|].
  apply wp_bind, wp_read_ok; [done|lia|lia|unfold SIGNATURE_BLOCK_SIZE; lia|
    unfold OTA_SLOT_SIZE, SIGNATURE_BLOCK_SIZE; lia|]. intros b2 u2 Hq2 Hh2 Hc2.
  assert (mem_of (with_backend b1 u) (ss_target_slot s) = mem_of u (ss_target_slot s)) as ->
    by (unfold mem_of; by rewrite (proj1 Hq1)).
  replace (Z.of_nat (length image) - 4096) with (Z.of_nat signed) by lia.
  rewrite (mem_slice _ _ signed SIGNATURE_BLOCK_SIZE eq_refl Hmem) by (unfold SIGNATURE_BLOCK_SIZE; lia).
  rewrite Hsig. subst u2. unfold hasher_finalize. rewrite Hsigned', <- Hdig.
  apply wp_bind, fail_if_wp; intros E; [by rewrite bytes_eqb_refl in E|clear E].
  destruct (hb_verify b2 (ps_public_key sig) (ps_signature sig) (ps_image_digest sig) Hh2) as (v & b3 & E3 & Hh3 & Hc3).
  pose proof (ir_verify_Some _ _ _ _ _ _ E3) as ->. pose proof (ir_verify_boot _ _ _ _ _ _ E3) as Hbv3.
  apply wp_bind. eapply wp_or_fail_ok; [exact E3|].
  apply wp_bind, fail_if_wp; intros E; [by rewrite Hrsa in E|clear E].
  destruct (hb_layout b3 Hh3) as (b4 & E4 & Hh4 & Hc4). destruct (ub_layout_frame _ _ _ E4) as [Hm4 Hbv4].
  apply wp_bind. eapply wp_or_fail_ok; [exact E4|].
  assert (boot_view b3 = boot_of u) as Hbv by (rewrite Hbv3; destruct Hq2 as (_ & E2 & _); destruct Hq1 as (_ & E1 & _);
      unfold boot_of in *; cbn [uu_backend with_backend] in *; congruence).
  rewrite Hbv. apply wp_bind, fail_if_wp; intros E.
  { by rewrite (as_active _ _ _ _ _ As), (as_sequence _ _ _ _ _ As), (as_entry _ _ _ _ _ As), !Z.eqb_refl in E. } clear E.
  apply wp_bind. eapply (wp_expire_on_time j c); [|exact Hb|].
  { eapply on_time_same; [exact Ht|exact Hh4|cbn [uu_backend with_backend] in *; congruence|apply Ht|done..]. }
  intros t u5 s5 (Hm5 & Hb5 & _) Hs5 _ Ht5. apply wp_bind, wp_return_if; [done|intros _].
  subst s5. cbn [ss_target_slot ss_target_sequence ss_activation_entry with_last_checked_ms].
  assert (boot_view (uu_backend u5) = boot_of u) as Hbu5.
  { change (boot_of u5 = boot_of u). rewrite Hb5. change (boot_view b4 = boot_of u). congruence. }
  destruct (hb_activate (uu_backend u5) (ss_target_slot s) (ss_target_sequence s) (ss_activation_entry s)) as (b6 & E6 & _).
  { apply Ht5. }
  { rewrite Hbu5, <- (as_active _ _ _ _ _ As). apply As. }
  { rewrite Hbu5, <- (as_sequence _ _ _ _ _ As). apply As. }
  { rewrite Hbu5. apply As. }
  apply wp_bind. eapply wp_or_fail_ok; [exact E6|]. apply wp_bind, wp_modify, wp_ret. split; [done|]. eexists. split; [done|].
  split; [done|]. intros x a. cbn [uu_backend with_session with_backend]. rewrite (ub_activate_frame _ _ _ _ _ _ E6), Hm5.
  cbn [uu_backend with_backend] in *. rewrite Hm4, (ir_verify_frame _ _ _ _ _ _ E3).
  assert (slot_mem b2 = slot_mem b1) as -> by exact (proj1 Hq2).
  assert (slot_mem b1 = slot_mem (uu_backend u)) as -> by exact (proj1 Hq1). done.
Qed.

Lemma chunk_on_time j c s u step_end sl :
  uu_session u = Some s → on_time j c s (uu_backend u) → in_budget (j + delay) (c + delay) →
  0 ≤ ss_target_slot s ≤ 1 → 0 ≤ ss_completed s < step_end → step_end ≤ OTA_SLOT_SIZE →
  wp (verify_chunk step_end sl s) (λ r u', ∃ s', r = Ok s' ∧ on_time (j + delay) (c + delay) s' (uu_backend u') ∧
    ss_target_slot s' = ss_target_slot s ∧ uu_session u' = Some s' ∧
    ss_completed s' = ss_completed s + Z.min (step_end - ss_completed s) 1024) u.
Proof.
  intros Hs Ht Hb Hsl Hc He. unfold verify_chunk. unfold OTA_SLOT_SIZE in *.
  apply wp_bind. eapply (wp_expire_on_time j c); [exact Ht|exact Hb|].
  intros t u1 s1 _ Hs1 _ Ht1. apply wp_bind, wp_return_if; [done|intros _].
  subst s1. cbn [ss_completed ss_target_slot with_last_checked_ms] in *. cbv zeta.
  set (len := Z.min _ 1024).
  apply wp_bind, wp_read_ok; [apply Ht1|done|lia|lia|unfold OTA_SLOT_SIZE; lia|].
  intros b2 u2 Hq2 Hh2 Hc2. set (s2 := with_full_hasher _ _). set (s3 := if _ <? sl then _ else _).
  assert (ss_completed s3 = ss_completed s ∧ ss_target_slot s3 = ss_target_slot s ∧
    on_time (j + delay) (c + delay) (with_completed (ss_completed s + len) s3) b2) as (F1 & F2 & F3).
  { subst s3 s2. destruct (_ <? sl); (split; [done|]); (split; [done|]);
      (eapply on_time_same; [exact Ht1|done|done|apply Ht1|done..]). }
  rewrite F1. apply wp_bind. eapply wp_checked; [apply u32_add_ok; unfold_max; lia|].
  apply wp_bind, wp_modify, wp_ret. eexists. split; [done|]. split; [exact F3|]. done.
Qed.

Lemma loop_on_time fuel j c s u step_end sl :
  uu_session u = Some s → on_time j c s (uu_backend u) →
  in_budget (j + Z.of_nat fuel * delay) (c + Z.of_nat fuel * delay) →
  0 ≤ ss_target_slot s ≤ 1 → 0 ≤ ss_completed s ≤ step_end → step_end ≤ OTA_SLOT_SIZE →
  step_end - ss_completed s ≤ 1024 * Z.of_nat fuel →
  wp (verify_loop fuel step_end sl s) (λ r u', ∃ s', r = Ok s' ∧
    on_time (j + Z.of_nat fuel * delay) (c + Z.of_nat fuel * delay) s' (uu_backend u')) u.
Proof.
  revert j c s u. induction fuel as [|fuel IH]; intros j c s u Hs Ht Hb Hsl Hc He Hf;
    pose proof (delay_nonneg _ (ot_healthy _ _ _ _ Ht)); cbn [verify_loop];
    destruct (Z.ltb_spec (ss_completed s) step_end); try lia.
  1,3: apply wp_ret; exists s; (split; [done|]); (eapply on_time_mono; [exact Ht|lia|lia]).
  rewrite Nat2Z.inj_succ in *. replace (j + Z.succ (Z.of_nat fuel) * delay) with (j + delay + Z.of_nat fuel * delay) in * by lia.
  replace (c + Z.succ (Z.of_nat fuel) * delay) with (c + delay + Z.of_nat fuel * delay) in * by lia.
  destruct Hb as [Hb1 Hb2].
  apply wp_bind. eapply wp_mono; [apply (chunk_on_time j c); [done|done|split; nia|done|lia|done]|].
  intros r u1 (s1 & -> & Ht1 & Ht1' & Hs1 & Hc1). apply IH; [done|done|done|by rewrite Ht1'|lia|done|lia].
Qed.

(** What is read of the image. *)
Definition reading (k : Z) s : Prop :=
  k = 0 ∧ ss_phase s = Receiving ∧ ss_completed s = ss_total s ∨ ss_phase s = Verifying ∧ ss_completed s = k.

(** The turns of one step, in time and within what was granted. *)
Lemma loop_ok c u0 u s k :
  updater_ok u0 → verifying u0 s u s → boot_of u = boot_of u0 → ss_completed s = k → k < ss_total s →
  on_time (2 * delay) c s (uu_backend u) → in_budget (70 * delay) (c + 66 * delay) →
  let k' := Z.min (ss_total s) (k + VERIFY_STEP_SIZE) in
  wp (verify_loop VERIFY_FUEL k' (ss_total s - SIGNATURE_SECTOR_SIZE) s) (λ r u', ∃ s', r = Ok s' ∧
    verifying u0 s u' s' ∧ ss_completed s' = k' ∧ on_time (66 * delay) (c + 64 * delay) s' (uu_backend u') ∧
    grant s' = grant s) u.
Proof.
  intros Hu Hv Hboot Hk Hlt Ht [Hb1 Hb2] k'. pose proof Hv as (_ & Hs & Hok & _).
  pose proof (delay_nonneg _ (ot_healthy _ _ _ _ Ht)). pose proof Hok as [Hsh _].
  assert (Htotal := sh_total _ Hsh). assert (Hcompleted := sh_completed _ Hsh). assert (Hslots := sh_slots _ Hsh).
  unfold SIGNATURE_SECTOR_SIZE, OTA_SLOT_SIZE in Htotal.
  assert (k' = Z.min (ss_total s) (k + 0x10000)) as Hk' by done.
  assert (keeps (B := B) (grant s) (verify_loop VERIFY_FUEL k' (ss_total s - SIGNATURE_SECTOR_SIZE) s)
    (λ s', grant s' = grant s)) as Hkeep by by apply keeps_verify_loop.
  pose proof (verify_loop_wp VERIFY_FUEL u0 u s s k' Hu Hv ltac:(lia)
    ltac:(unfold VERIFY_STEP_SIZE in *; lia) ltac:(unfold VERIFY_STEP_SIZE, VERIFY_FUEL in *; lia)) as Hloop.
  destruct (wp_elim _ _ _ Hloop) as (r & u1 & E & W).
  assert (Z.of_nat VERIFY_FUEL = 64) as F by done.
  destruct (wp_run _ _ _ _ _ E (loop_on_time VERIFY_FUEL (2 * delay) c s u k' (ss_total s - SIGNATURE_SECTOR_SIZE)
    Hs Ht ltac:(rewrite F; split; lia) ltac:(lia) ltac:(lia) ltac:(unfold OTA_SLOT_SIZE; lia) ltac:(lia))) as (s1 & -> & Ht1).
  destruct W as [W Hc1]. unfold wp. rewrite E. exists s1. split; [done|]. split; [done|]. split; [done|]. split.
  - rewrite F in Ht1. by replace (66 * delay) with (2 * delay + 64 * delay) by lia.
  - eapply (Hkeep _ (Ok s1)); [|exact E]. intros ?. rewrite Hs. by intros [= <-].
Qed.

Lemma verify_step_ok c u0 u s k :
  updater_ok u0 → verifying u0 s u s → boot_of u = boot_of u0 → ss_completed s = k → k < ss_total s →
  assigned image secure_version version s u0 →
  installable (uu_trusted_key_digest u0) (uu_current_secure_version u0) image secure_version version →
  mem_read (mem_of u0 (ss_target_slot s)) 0 (length image) = image →
  on_time (2 * delay) c s (uu_backend u) → in_budget (70 * delay) (c + 66 * delay) →
  let k' := Z.min (ss_total s) (k + VERIFY_STEP_SIZE) in
  wp verify_step (λ r u', r = Ok St_Ok ∧ ∃ s', uu_session u' = Some s' ∧
    (k' < ss_total s ∧ quiet u0 u' ∧ on_time 0 (c + 66 * delay) s' (uu_backend u') ∧ reading k' s' ∨
     k' = ss_total s ∧ ss_phase s' = Activated ∧ ∀ x a, slot_mem (uu_backend u') x a = slot_mem (uu_backend u0) x a)) u.
Proof.
  intros Hu Hv Hboot Hk Hlt As Hin Hmem Ht [Hb1 Hb2] k'. pose proof Hv as (Hq & Hs & Hok & Hp & _).
  pose proof (delay_nonneg _ (ot_healthy _ _ _ _ Ht)).
  pose proof Hok as [Hsh _]. assert (Htotal := sh_total _ Hsh). assert (Hcompleted := sh_completed _ Hsh).
  assert (Hslots := sh_slots _ Hsh). unfold SIGNATURE_SECTOR_SIZE, OTA_SLOT_SIZE in Htotal.
  unfold verify_step. apply wp_bind, wp_the_session; [|congruence].
  intros s0 E. assert (s0 = s) as -> by congruence. clear E. rewrite Hk.
  apply wp_bind. eapply wp_checked; [apply u32_add_ok; unfold VERIFY_STEP_SIZE; unfold_max; lia|].
  apply wp_bind. eapply wp_checked; [apply u32_sub_ok; unfold SIGNATURE_SECTOR_SIZE; lia|].
  rewrite (Z.min_comm _ (ss_total s)). fold k'.
  assert (k' = Z.min (ss_total s) (k + 0x10000)) as Hk' by done.
  apply wp_bind. eapply wp_mono; [by apply (loop_ok c u0 u s k)|].
  intros r u1 (s1 & -> & (Hq1 & Hs1 & Hok1 & Hp1 & Ht1') & Hc1 & Ht1 & G1).
  apply wp_bind. eapply (wp_expire_on_time (66 * delay) (c + 64 * delay)); [exact Ht1|split; lia|].
  intros t u2 s2 Hq2' Hs2 _ Ht2. apply wp_bind, wp_return_if; [done|intros _].
  pose proof (quiet_trans _ _ _ Hq1 Hq2') as Hq2.
  assert (grant s2 = grant s) as G2 by (subst s2; exact G1).
  assert (session_ok s2 (slot_mem (uu_backend u0))) as Hok2.
  { subst s2. destruct Hok1 as [[] Hh1]. split; [by split|exact Hh1]. }
  subst s2. set (s2 := with_last_checked_ms t s1) in *.
  assert (ss_completed s2 = k' ∧ ss_total s2 = ss_total s ∧ ss_phase s2 = Verifying ∧ ss_target_slot s2 = ss_target_slot s)
    as (E1 & E2 & E3 & E4) by (split; [done|]; split; [done|]; split; [done|]; unfold grant in G2; by simplify_eq).
  rewrite E1, E2. destruct (Z.eqb_spec k' (ss_total s)) as [Hend|Hend]; cbn [negb].
  - destruct Hq2 as (Hm2 & Hbo2 & Hcfg2 & _). unfold config in Hcfg2. injection Hcfg2 as K1 _ _ K2.
    eapply wp_mono; [apply (finish_ok (66 * delay + delay) (c + 64 * delay + delay) u2 s2); [done| |done|congruence| | | | |]|].
    + by rewrite Hm2.
    + eapply assigned_ext; [exact G2|exact Hbo2|exact As].
    + by rewrite K1, K2.
    + unfold mem_of. by rewrite Hm2, E4.
    + exact Ht2.
    + split; lia.
    + intros r u3 (-> & s3 & Hs3 & Hp3 & Hm3). split; [done|]. exists s3. split; [done|]. right. split; [done|].
      split; [done|]. intros x a. by rewrite Hm3, Hm2.
  - eapply (wp_progress_on_time (66 * delay + delay)); [exact Ht2|split; lia|].
    intros t3 u3 s3 Hq3 Hs3 _ Ht3. split; [done|]. exists s3. split; [done|]. left.
    replace (c + 64 * delay + delay + delay) with (c + 66 * delay) in Ht3 by lia.
    split; [lia|]. split; [by eapply quiet_trans|]. split; [done|]. right. done.
Qed.

Lemma advance_reads_wp k s u c :
  updater_ok u → uu_session u = Some s → reading k s → k < ss_total s →
  assigned image secure_version version s u →
  installable (uu_trusted_key_digest u) (uu_current_secure_version u) image secure_version version →
  mem_read (mem_of u (ss_target_slot s)) 0 (length image) = image →
  on_time delay c s (uu_backend u) → in_budget (70 * delay) (c + 67 * delay) →
  let k' := Z.min (ss_total s) (k + VERIFY_STEP_SIZE) in
  wp (advance (le_encode 4 (ss_id s))) (λ r u', r = Ok St_Ok ∧ ∃ s', uu_session u' = Some s' ∧
    (k' < ss_total s ∧ quiet u u' ∧ on_time 0 (c + 67 * delay) s' (uu_backend u') ∧ reading k' s' ∨
     k' = ss_total s ∧ ss_phase s' = Activated ∧ ∀ x a, slot_mem (uu_backend u') x a = slot_mem (uu_backend u) x a)) u.
Proof.
  intros Hu Hs Hrd Hlt As Hin Hmem Ht [Hb1 Hb2] k'. pose proof (uo_session _ Hu _ Hs) as Hok.
  pose proof (delay_nonneg _ (ot_healthy _ _ _ _ Ht)). pose proof Hok as [Hsh Hh].
  pose proof (sh_total _ Hsh) as Htot. unfold SIGNATURE_SECTOR_SIZE in *.
  unfold advance. rewrite parse_id by apply Hsh. apply wp_bind, wp_ok_or; [intros ? [= <-]|done].
  apply wp_bind, wp_the_session; [intros ? E|congruence]. assert (s0 = s) as -> by congruence. clear E.
  apply wp_bind, wp_return_if; [by rewrite Z.eqb_refl|intros _].
  apply wp_bind. eapply (wp_expire_on_time delay c); [exact Ht|split; lia|].
  intros t u1 s1 Hq1 Hs1 _ Ht1. apply wp_bind, wp_return_if; [done|intros _].
  subst s1. set (s1 := with_last_checked_ms t s) in *.
  replace (delay + delay) with (2 * delay) in Ht1 by lia.
  assert (∀ s2 v, grant s2 = grant s → quiet u v → uu_session v = Some s2 → session_ok s2 (slot_mem (uu_backend u)) →
    ss_phase s2 = Verifying → ss_completed s2 = k → on_time (2 * delay) (c + delay) s2 (uu_backend v) →
    wp verify_step (λ r u', r = Ok St_Ok ∧ ∃ s', uu_session u' = Some s' ∧
      (k' < ss_total s ∧ quiet u u' ∧ on_time 0 (c + 67 * delay) s' (uu_backend u') ∧ reading k' s' ∨
       k' = ss_total s ∧ ss_phase s' = Activated ∧ ∀ x a, slot_mem (uu_backend u') x a = slot_mem (uu_backend u) x a)) v) as Hstep.
  { intros s2 v G Hqv Hs2 Hok2 Hp2 Hc2 Ht2. subst k'. replace (c + 67 * delay) with (c + delay + 66 * delay) in * by lia.
    assert (ss_total s2 = ss_total s ∧ ss_target_slot s2 = ss_target_slot s) as [F1 F2]
      by (unfold grant in G; by simplify_eq).
    rewrite <- F1. apply (verify_step_ok (c + delay) u); [done| |apply Hqv|done|by rewrite F1| |done|by rewrite F2|done|split; lia].
    - split; [done|]. split; [done|]. split; [done|]. by split.
    - eapply assigned_ext; [exact G|done|exact As]. }
  destruct Hrd as [(-> & Hp & Hc)|[Hp Hc]]; change (ss_phase s1) with (ss_phase s); rewrite Hp.
  - apply wp_bind, wp_return_if; intros E; [change (negb (ss_completed s =? ss_total s) = true) in E; by rewrite Hc, Z.eqb_refl in E|].
    apply wp_bind, wp_modify. eapply Hstep; [| |reflexivity|..]; [done|done| |done|done|].
    + split; [destruct Hsh; split; simpl; try done; lia|]. intros _. split; [done|]. simpl.
      unfold SIGNATURE_SECTOR_SIZE. by rewrite Z.min_l by lia.
    + eapply on_time_same; [exact Ht1|apply Ht1|done..].
  - apply (Hstep s1); [done|done|done| |done|done|done].
    split; [by destruct Hsh; split|]. exact Hh.
Qed.

(** ** Begin *)

(** A device ready for an update: no fault, and boot records Begin accepts. *)
Record device_ready u : Prop := {
  dr_ok : updater_ok u;
  dr_healthy : healthy (uu_backend u);
  dr_layout : let l := boot_layout (boot_of u) in
    0 ≤ active_slot l ≤ 1 ∧ activation_entry l ≤ 1 ∧
    is_Some (next_sequence (active_sequence l) (1 - active_slot l));
}.

Definition total_size : Z := Z.of_nat (length image).
Definition the_begin : bytes := begin_request total_size (sha256 image) secure_version version.

Lemma poll_healthy u : healthy (uu_backend u) → healthy (uu_backend (poll u)).
Proof.
  intros Hh. unfold poll. destruct (uu_session u); [|done].
  destruct (ub_now_ms (uu_backend u)) as [t b] eqn:E. by destruct (hb_now _ _ _ Hh E).
Qed.

Lemma wp_now_healthy (Q : result StatusCode Z → UsbUpdater B → Prop) u :
  healthy (uu_backend u) →
  (∀ t b', let u' := with_backend b' u in quiet u u' → healthy b' → clock b' = t → Q (Ok t) u') → wp now_ms Q u.
Proof.
  intros Hh K. apply wp_call. unfold on_backend.
  destruct (ub_now_ms (uu_backend u)) as [t b] eqn:E. intros a u' [= <- <-].
  destruct (ub_now_ms_frame _ _ _ E). destruct (hb_now _ _ _ Hh E) as (? & ? & ?). by apply K.
Qed.

Lemma begin_opens_wp u :
  device_ready u → in_budget (2 * delay) (2 * delay) →
  installable (uu_trusted_key_digest u) (uu_current_secure_version u) image secure_version version →
  wp (begin (tail the_begin) true) (λ r u', r = Ok St_Ok ∧ ∃ s', uu_session u' = Some s' ∧
    (config u' = config u ∧ boot_of u' = boot_of u ∧ on_time 0 delay s' (uu_backend u') ∧
     assigned image secure_version version s' u' ∧ erased_upto 0 s' u')) u.
Proof.
  intros [Hu Hh (Hact & Hent & [q Hq])] [Hb1 Hb2] Hin. pose proof (delay_nonneg _ Hh).
  assert (Hin' := Hin). destruct Hin' as [Hsize Hal Hv [[Hfl Hsv] Hsv'] _ _].
  unfold SIGNATURE_SECTOR_SIZE, OTA_SLOT_SIZE in Hsize.
  assert (is_u32 total_size ∧ is_u32 secure_version) as [Ht32 Hs32]
    by (unfold is_u32, U32_MAX, total_size in *; lia).
  destruct (begin_request_parts total_size (sha256 image) secure_version version Ht32 (sha256_length _) Hs32)
    as (P0 & P1 & P2 & P3 & P4 & P5 & P6). fold the_begin in *.
  unfold begin. cbv zeta. rewrite P0, P1, P2, P3, P4, P5, P6, Nat2Z.id. unfold BEGIN_FIXED, MAX_VERSION_LENGTH in *.
  apply wp_bind, wp_return_if; intros E; [apply orb_true_iff in E as [E%Nat.ltb_lt|E]; [lia|by rewrite Z.eqb_refl in E]|clear E].
  apply wp_bind, wp_return_if; intros E.
  { rewrite !orb_true_iff, negb_true_iff, Nat.eqb_neq, Nat.eqb_eq, Nat.ltb_lt in E. lia. } clear E.
  apply wp_bind, wp_return_if; intros E.
  { rewrite orb_true_iff, !negb_true_iff, andb_false_iff, !Z.leb_gt in E. unfold SIGNATURE_SECTOR_SIZE, OTA_SLOT_SIZE, total_size in E.
    destruct E as [E|E]; [lia|]. apply not_true_iff_false in E. by rewrite is_multiple_of_spec in E. } clear E.
  apply wp_bind, wp_get, wp_bind, wp_return_if; intros E; [apply Z.ltb_lt in E; lia|clear E].
  apply wp_bind, wp_return_if; [done|intros _].
  apply wp_bind, wp_now_healthy; [done|]. intros t b1 u1 Hq1 Hh1 Hc1.
  destruct (hb_layout b1 Hh1) as (b2 & E2 & Hh2 & Hc2). destruct (ub_layout_frame _ _ _ E2) as [Hm2 Hbv2].
  assert (boot_view b1 = boot_of u) as Hbv1 by apply Hq1. rewrite Hbv1 in E2.
  apply wp_bind, wp_call_or; unfold on_backend; cbn [uu_backend with_backend u1]; rewrite E2; intros; simplify_eq.
  apply wp_bind, wp_return_if; intros E; [apply orb_true_iff in E as [E%Z.ltb_lt|E%Z.ltb_lt]; lia|clear E].
  apply wp_bind. unfold ok_or. rewrite Hq. apply wp_ret, wp_bind, wp_modify, wp_bind, wp_modify.
  set (s0 := mkSession _ _ _ _ _ _ _ _ _ _ _ _ _ _ _ _ _ _ _).
  assert (on_time 0 0 s0 b2) as Ht0 by (split; [done|done|simpl; lia..]).
  eapply wp_progress_on_time; [exact Ht0|split; lia|].
  intros t3 u3 s3 (Hm3 & Hb3 & Hcfg3 & Hid3) Hs3 _ Ht3. split; [done|]. exists s3. split; [done|].
  assert (boot_of u3 = boot_of u) as Hbo3.
  { rewrite Hb3. change (boot_view b2 = boot_of u). by rewrite Hbv2. }
  split_and!.
  - exact Hcfg3.
  - done.
  - done.
  - subst s3 s0. split; unfold expected_version, progressed; simpl; rewrite ?Hbo3; try done.
    apply take_pad_version. done.
  - split; [intros a Ha; lia|]. left. subst s3 s0. unfold total_size. simpl. split; [lia|done].
Qed.

(** ** The whole update *)

Lemma steps_of_step r step : 0 < step → 0 < r →
  steps_of r step = S (steps_of (r - Z.min r step) step).
Proof.
  intros Hs Hr. unfold steps_of. destruct (Z.min_spec r step) as [[Hlt ->]|[Hge ->]].
  - replace ((r + step - 1) / step) with 1 by (apply Z.div_unique with (r - 1); lia).
    rewrite Z.sub_diag. by rewrite Z.div_small by lia.
  - rewrite <- Z2Nat.inj_succ by (apply Z.div_pos; lia). f_equal.
    replace (r + step - 1) with (r - step + step - 1 + 1 * step) by lia. rewrite Z.div_add by lia. lia.
Qed.

Lemma steps_of_done step : 0 < step → steps_of 0 step = 0%nat.
Proof. intros Hs. unfold steps_of. by rewrite Z.div_small by lia. Qed.

(** What every request of the session keeps; [c] milliseconds since Begin. *)
Record installing (key : bytes) (floor c : Z) s u : Prop := {
  is_running : running c s u;
  is_assigned : assigned image secure_version version s u;
  is_config : uu_trusted_key_digest u = key ∧ uu_current_secure_version u = floor;
}.

Context (key : bytes) (floor : Z).
Hypothesis image_installable : installable key floor image secure_version version.

Lemma ask_installing c c' s u request (P : Session → UsbUpdater B → Prop) :
  installing key floor c s u → in_budget delay (c + delay) →
  (∀ t v, let s1 := with_last_checked_ms t s in
     quiet u v → uu_session v = Some s1 → updater_ok v →
     (∀ x a, slot_erased (uu_backend u) x a → slot_erased (uu_backend v) x a) →
     on_time delay (c + delay) s1 (uu_backend v) → assigned image secure_version version s1 v →
     wp (handle_inner request false) (λ r u', r = Ok St_Ok ∧ ∃ s', uu_session u' = Some s' ∧
       (on_time 0 c' s' (uu_backend u') ∧ boot_of u' = boot_of v ∧ P s' u')) v) →
  ∃ s' u', snd <$> ask u request false = Some u' ∧ installing key floor c' s' u' ∧ P s' u' ∧ grant s' = grant s.
Proof.
  intros [Hr As [Hk Hf]] Hb K. pose proof Hr as [Hs Ht Hu].
  destruct (ask_running c s u request (λ s' u', on_time 0 c' s' (uu_backend u') ∧ boot_of u' = boot_of u ∧
    config u' = config u ∧ P s' u') Hr Hb) as (s' & u' & E & Hu' & Hs' & (Ht' & Hbo & Hc & HP) & HG).
  - intros t v s1 Hq Hs1 Hv He Ht1.
    assert (assigned image secure_version version s1 v) as As1 by (eapply assigned_ext; [|apply Hq|exact As]; done).
    specialize (K t v Hq Hs1 Hv He Ht1 As1). destruct (wp_elim _ _ _ K) as (r & u' & E & -> & s' & Hs' & Ht' & Hbo & HP).
    destruct (wp_elim _ _ _ (handle_inner_wp _ request false Hv)) as (r1 & u1 & E1 & Hsafe).
    rewrite E in E1. simplify_eq. unfold wp. rewrite E. split; [done|]. exists s'. split; [done|]. split; [done|].
    destruct Hq as (_ & Hq & Hqc & _). split; [congruence|]. split; [|done]. by rewrite (st_config _ _ Hsafe).
  - exists s', u'. split; [done|]. split; [|done]. split; [by split| |].
    + eapply assigned_ext; [exact HG|exact Hbo|exact As].
    + unfold config in Hc. injection Hc as Hc1 _ _ Hc2. split; congruence.
Qed.

Lemma shape_installing c s u : installing key floor c s u → session_shape s ∧ ss_target_slot s = 1 - active_slot (boot_layout (boot_of u)) ∧
  ss_total s = total_size ∧ 0 ≤ delay.
Proof.
  intros [[Hs Ht Hu] As _]. split; [by apply (uo_session _ Hu)|]. split; [by rewrite (as_target _ _ _ _ _ As), (as_active _ _ _ _ _ As)|].
  split; [apply As|]. exact (delay_nonneg _ (ot_healthy _ _ _ _ Ht)).
Qed.

Lemma erase_all c s u k :
  installing key floor c s u → erased_upto k s u → 0 ≤ k ≤ total_size → k mod SIGNATURE_SECTOR_SIZE = 0 ∨ k = total_size →
  let n := steps_of (total_size - k) ERASE_STEP_SIZE in
  in_budget (3 * delay) (c + 3 * Z.of_nat n * delay) →
  ∃ s' u', ask_all (replicate n (advance_request (ss_id s))) u = Some u' ∧
    installing key floor (c + 3 * Z.of_nat n * delay) s' u' ∧ erased_upto total_size s' u' ∧ grant s' = grant s.
Proof.
  remember (steps_of (total_size - k) ERASE_STEP_SIZE) as n eqn:En. revert c s u k En.
  induction n as [|n IH]; cbv zeta in *; intros c s u k En Hi He Hk Hal Hb; destruct (shape_installing _ _ _ Hi) as (Hsh & Htg & Htot & Hd).
  { destruct (decide (k = total_size)) as [->|].
    - exists s, u. rewrite Z.mul_0_r, Z.add_0_r. by cbn.
    - rewrite steps_of_step in En by (unfold ERASE_STEP_SIZE; lia). done. }
  destruct (decide (k = total_size)) as [->|Hne].
  { rewrite Z.sub_diag, steps_of_done in En by done. done. }
  rewrite steps_of_step in En by (unfold ERASE_STEP_SIZE; lia). injection En as En. destruct Hb as [Hb1 Hb2].
  rewrite Nat2Z.inj_succ in *. pose proof (Nat2Z.is_nonneg n).
  assert (0 ≤ Z.of_nat n * delay) by nia.
  set (k' := Z.min (ss_total s) (k + ERASE_STEP_SIZE)).
  destruct (ask_installing c (c + 3 * delay) s u (advance_request (ss_id s)) (erased_upto k')) as (s1 & u1 & E & Hi1 & He1 & G1);
    [done|split; lia| |].
  { intros t v s1 Hq Hs1 Hv Hev Ht1 As1. replace (c + 3 * delay) with (c + delay + 2 * delay) by lia.
    apply (advance_erases_wp k s1); [done| | | |by rewrite (as_total _ _ _ _ _ As1); unfold total_size in *; lia
      |by destruct Hal|done|split; lia].
    - by apply (uo_session _ Hv).
    - by rewrite (as_target _ _ _ _ _ As1), (as_active _ _ _ _ _ As1).
    - destruct He as [He1 He2]. split; [|exact He2]. intros a Ha. by apply Hev, He1. }
  destruct (grant_fields _ _ G1) as (Hid & _).
  destruct (IH (c + 3 * delay) s1 u1 k') as (s2 & u2 & E2 & Hi2 & He2 & G2).
  - rewrite En. f_equal. unfold k'. rewrite Htot. lia.
  - done.
  - done.
  - unfold k', ERASE_STEP_SIZE. lia.
  - unfold k', ERASE_STEP_SIZE, SIGNATURE_SECTOR_SIZE in *. destruct Hal as [Hal|]; [|done].
    destruct (Z.min_spec (ss_total s) (k + 0x10000)) as [[_ ->]|[_ ->]]; [by right|left].
    by rewrite Zplus_mod, Hal.
  - split; lia.
  - exists s2, u2. cbn [replicate ask_all]. rewrite Hid in E2.
    destruct (ask u _ false) as [[reply v]|]; [|done]. cbn in E. injection E as ->. cbn [mbind option_bind].
    split; [done|]. replace (c + 3 * Z.succ (Z.of_nat n) * delay) with (c + 3 * delay + 3 * Z.of_nat n * delay) by lia.
    split; [done|]. split; [done|]. congruence.
Qed.

Lemma write_chunks chunks : ∀ c s u k,
  installing key floor c s u → received image k s u → 0 ≤ k → k mod 32 = 0 →
  Forall chunk_ok chunks → concat chunks = drop (Z.to_nat k) image →
  k + Z.of_nat (length (concat chunks)) = total_size →
  in_budget (3 * delay) (c + 3 * Z.of_nat (length chunks) * delay) →
  ∃ s' u', ask_all (write_requests (ss_id s) k chunks) u = Some u' ∧
    installing key floor (c + 3 * Z.of_nat (length chunks) * delay) s' u' ∧
    received image total_size s' u' ∧ grant s' = grant s.
Proof.
  induction chunks as [|data chunks IH]; intros c s u k Hi Hrec Hk Hal Hch Hcat Hend Hb;
    destruct (shape_installing _ _ _ Hi) as (Hsh & Htg & Htot & Hd).
  { simpl in Hend. exists s, u. rewrite Z.mul_0_r, Z.add_0_r. replace total_size with k by lia. done. }
  apply Forall_cons_1 in Hch as [Hc Hch]. cbn [concat length] in *. rewrite length_app in Hend.
  destruct Hb as [Hb1 Hb2]. rewrite Nat2Z.inj_succ in *. pose proof (Nat2Z.is_nonneg (length chunks)).
  assert (0 ≤ Z.of_nat (length chunks) * delay) by nia.
  assert (slice image (Z.to_nat k) (Z.to_nat k + length data) = data) as Hdata.
  { unfold slice. rewrite <- Hcat. replace (Z.to_nat k + length data - Z.to_nat k)%nat with (length data) by lia.
    by apply take_app_length. }
  assert (is_u32 k) as Hku.
  { destruct image_installable as [[_ Hs] _ _ _ _ _]. unfold is_u32, total_size, OTA_SLOT_SIZE in *. lia. }
  destruct (ask_installing c (c + 3 * delay) s u (write_request (ss_id s) k data)
    (received image (k + Z.of_nat (length data)))) as (s1 & u1 & E & Hi1 & Hr1 & G1); [done|split; lia| |].
  { intros t v s1 Hq Hs1 Hv Hev Ht1 As1. replace (c + 3 * delay) with (c + delay + 2 * delay) by lia.
    assert (ss_total s1 = total_size) as Htot1 by exact Htot.
    apply (write_stores_wp image k s1); [done| | |exact Htot| |done|done|done|unfold total_size in *; lia|done|split; lia].
    - by apply (uo_session _ Hv).
    - by rewrite (as_target _ _ _ _ _ As1), (as_active _ _ _ _ _ As1).
    - destruct Hrec as (R1 & R2 & R3 & R4). split; [done|]. split; [done|]. split.
      + intros a Ha. by apply Hev, R3.
      + unfold mem_of in *. by rewrite (proj1 Hq). }
  destruct (grant_fields _ _ G1) as (Hid & _).
  destruct (IH (c + 3 * delay) s1 u1 (k + Z.of_nat (length data))) as (s2 & u2 & E2 & Hi2 & Hr2 & G2); [done|done|lia| |done| |lia|split; lia|].
  - destruct Hc as (_ & _ & Hm). by rewrite Zplus_mod, Hal, Hm.
  - rewrite Z2Nat.inj_add, Nat2Z.id by lia. rewrite <- drop_drop, <- Hcat. by rewrite drop_app_length.
  - exists s2, u2. cbn [write_requests ask_all]. rewrite Hid in E2.
    destruct (ask u _ false) as [[reply v]|]; [|done]. cbn in E. injection E as ->. cbn [mbind option_bind].
    split; [done|]. replace (c + 3 * Z.succ (Z.of_nat (length chunks)) * delay)
      with (c + 3 * delay + 3 * Z.of_nat (length chunks) * delay) by lia.
    split; [done|]. split; [done|]. congruence.
Qed.

(** The session has activated [image] in its slot. *)
Definition installed (s : Session) u : Prop :=
  ss_phase s = Activated ∧ mem_read (mem_of u (ss_target_slot s)) 0 (length image) = image.

Lemma read_all c s u k :
  installing key floor c s u → reading k s → 0 ≤ k < total_size →
  mem_read (mem_of u (ss_target_slot s)) 0 (length image) = image →
  let n := steps_of (total_size - k) VERIFY_STEP_SIZE in
  in_budget (70 * delay) (c + 68 * Z.of_nat n * delay) →
  ∃ s' u', ask_all (replicate n (advance_request (ss_id s))) u = Some u' ∧
    uu_session u' = Some s' ∧ installed s' u' ∧ grant s' = grant s.
Proof.
  remember (steps_of (total_size - k) VERIFY_STEP_SIZE) as n eqn:En. revert c s u k En.
  induction n as [|n IH]; cbv zeta in *; intros c s u k En Hi Hrd Hk Hmem Hb;
    destruct (shape_installing _ _ _ Hi) as (Hsh & _ & Htot & Hd);
    rewrite steps_of_step in En by (unfold VERIFY_STEP_SIZE; lia); [done|].
  injection En as En. destruct Hb as [Hb1 Hb2]. rewrite Nat2Z.inj_succ in *. pose proof (Nat2Z.is_nonneg n).
  assert (0 ≤ Z.of_nat n * delay) by nia. destruct Hi as [Hr As [Hkey Hfl]]. pose proof Hr as [Hs Ht Hu].
  set (k' := Z.min (ss_total s) (k + VERIFY_STEP_SIZE)).
  destruct (ask_running c s u (advance_request (ss_id s)) (λ s' u',
    (k' < ss_total s ∧ quiet (with_next_session_id (uu_next_session_id u') u) u' ∧
       on_time 0 (c + 68 * delay) s' (uu_backend u') ∧ reading k' s') ∨
    (k' = ss_total s ∧ ss_phase s' = Activated ∧ ∀ x a, slot_mem (uu_backend u') x a = slot_mem (uu_backend u) x a)) Hr)
    as (s1 & u1 & E & Hu1 & Hs1 & Hcase & G1); [split; lia| |].
  { intros t v s1 Hq Hs1 Hv _ Ht1. replace (c + 68 * delay) with (c + delay + 67 * delay) by lia.
    pose proof Hq as (Hm & Hbo & Hcfg & _). pose proof Hcfg as Hcfg'. unfold config in Hcfg'. injection Hcfg' as K1 _ _ K2.
    eapply wp_mono; [apply (advance_reads_wp k s1 v (c + delay)); [done|done|exact Hrd|change (k < ss_total s); lia| | | |done|split; lia]|].
    - eapply assigned_ext; [|exact Hbo|exact As]; done.
    - by rewrite K1, K2, Hkey, Hfl.
    - unfold mem_of. rewrite Hm. exact Hmem.
    - intros r u' (-> & s' & Hs' & Hcase). split; [done|]. exists s'. split; [done|].
      destruct Hcase as [(C1 & C2 & C3 & C4)|(C1 & C2 & C3)]; [left|right].
      + split; [done|]. split; [|done]. destruct (quiet_trans _ _ _ Hq C2) as (Q1 & Q2 & Q3 & _). by repeat split.
      + split; [done|]. split; [done|]. intros x a. by rewrite C3, Hm. }
  destruct (grant_fields _ _ G1) as (Hid & Htg & _).
  cbn [replicate ask_all]. destruct (ask u _ false) as [[reply v]|]; [|done]. cbn in E. injection E as ->. cbn [mbind option_bind].
  destruct Hcase as [(C1 & (Q1 & Q2 & Q3 & _) & C3 & C4)|(C1 & C2 & C3)].
  - change (slot_mem (uu_backend u1) = slot_mem (uu_backend u)) in Q1.
    change (boot_of u1 = boot_of u) in Q2. change (config u1 = config u) in Q3.
    destruct (IH (c + 68 * delay) s1 u1 k') as (s2 & u2 & E2 & Hs2 & Hi2 & G2).
    + rewrite En. f_equal. unfold k'. lia.
    + split; [by split| |].
      * eapply assigned_ext; [exact G1|exact Q2|exact As].
      * unfold config in Q3. injection Q3 as Q3 _ _ Q4. split; congruence.
    + done.
    + unfold k', VERIFY_STEP_SIZE in *. lia.
    + unfold mem_of in *. rewrite Q1, Htg. exact Hmem.
    + split; lia.
    + rewrite Hid in E2. exists s2, u2. split; [done|]. split; [done|]. split; [done|]. congruence.
  - assert (n = 0%nat) as ->.
    { rewrite En. replace (total_size - k - Z.min (total_size - k) VERIFY_STEP_SIZE) with 0 by (unfold k' in *; lia).
      by apply steps_of_done. }
    exists s1, u1. split; [done|]. split; [done|]. split; [|done]. split; [done|]. rewrite Htg.
    etrans; [|exact Hmem]. apply mem_read_ext. intros a _. apply C3.
Qed.
End verification.

Lemma poll_ready u : device_ready u → device_ready (poll u).
Proof.
  intros [Hu Hh Hl]. destruct (poll_quiet u) as [(_ & Hb & _) _].
  split; [by apply poll_ok|by apply poll_healthy|by rewrite Hb].
Qed.

(** The clock readings of an installation, an upper bound. *)
Definition readings_of (total : Z) (chunks : nat) : Z :=
  1 + 3 * Z.of_nat (steps_of total ERASE_STEP_SIZE) + 3 * Z.of_nat chunks + 68 * Z.of_nat (steps_of total VERIFY_STEP_SIZE).

(** C7: On a device without faults, a cooperating host gets an authentic image installed:
    whatever session was there before, a Begin with the button pressed, the erasing
    Advances, the image in order in chunks the protocol allows, and the verifying
    Advances, as many as the size asks for, are all answered Ok, and then the slot that is
    not active holds exactly the image and its session is Activated.  The time between
    two clock readings only has to keep the whole within the two deadlines. *)
Theorem update_completes image chunks secure_version version u :
  device_ready u →
  installable (uu_trusted_key_digest u) (uu_current_secure_version u) image secure_version version →
  concat chunks = image → Forall chunk_ok chunks →
  70 * delay < SESSION_IDLE_TIMEOUT_MS →
  readings_of (Z.of_nat (length image)) (length chunks) * delay < SESSION_MAX_LIFETIME_MS →
  ∃ s u', install image chunks secure_version version u = Some u' ∧ uu_session u' = Some s ∧
    ss_phase s = Activated ∧ ss_target_slot s = 1 - active_slot (boot_layout (boot_of u)) ∧
    mem_read (mem_of u' (ss_target_slot s)) 0 (length image) = image.
Proof.
  intros Hr Hin Hcat Hch Hidle Hlife. pose proof (delay_nonneg _ (dr_healthy _ Hr)).
  assert (in_size' := in_size _ _ _ _ _ Hin). unfold SIGNATURE_SECTOR_SIZE, OTA_SLOT_SIZE in in_size'.
  unfold readings_of in Hlife. fold (total_size image) in Hlife.
  set (ne := steps_of (total_size image) ERASE_STEP_SIZE) in *. set (nv := steps_of (total_size image) VERIFY_STEP_SIZE) in *.
  pose proof (Nat2Z.is_nonneg ne). pose proof (Nat2Z.is_nonneg nv). pose proof (Nat2Z.is_nonneg (length chunks)).
  assert (0 ≤ Z.of_nat ne * delay ∧ 0 ≤ Z.of_nat nv * delay ∧ 0 ≤ Z.of_nat (length chunks) * delay) by (split_and!; nia).
  assert (1 ≤ Z.of_nat nv) as Hnv.
  { unfold nv. rewrite steps_of_step by (unfold VERIFY_STEP_SIZE, total_size; lia). lia. }
  assert (delay ≤ Z.of_nat nv * delay) by nia. rewrite !Z.mul_add_distr_r, <- !Z.mul_assoc in Hlife.
  pose proof (poll_ready _ Hr) as Hr1. destruct (poll_quiet u) as [(_ & Hb1 & Hc1 & _) _].
  unfold config in Hc1. injection Hc1 as Hk1 _ _ Hf1. rewrite <- Hk1, <- Hf1 in Hin.
  destruct (ask_ok u (the_begin image secure_version version) true (λ s' u',
    config u' = config (poll u) ∧ boot_of u' = boot_of (poll u) ∧ on_time 0 delay s' (uu_backend u') ∧
    assigned image secure_version version s' u' ∧ erased_upto 0 s' u') (dr_ok _ Hr))
    as (reply & s0 & u0 & E0 & Hu0 & Hs0 & (Hc0 & Hb0 & Ht0 & As0 & He0) & Hreply).
  { apply (begin_opens_wp image secure_version version); [done|split; lia|done]. }
  unfold config in Hc0. injection Hc0 as Hk0 _ _ Hf0.
  assert (installing image secure_version version (uu_trusted_key_digest (poll u)) (uu_current_secure_version (poll u)) delay s0 u0)
    as Hi0 by (split; [by split|done|done]).
  destruct (erase_all image secure_version version _ _ Hin delay s0 u0 0 Hi0 He0) as (s1 & u1 & E1 & Hi1 & He1 & G1);
    [unfold total_size; lia|by left|rewrite Z.sub_0_r; fold ne; split; lia|].
  rewrite Z.sub_0_r in E1, Hi1. fold ne in E1, Hi1.
  destruct (shape_installing image secure_version version _ _ _ _ _ Hi1) as (_ & _ & Htot1 & _).
  assert (received image 0 s1 u1) as Hrec1.
  { destruct He1 as [R1 [(R2 & _)|(R2 & R3 & R4)]]; [lia|]. split; [done|]. split; [done|]. by rewrite Htot1. }
  destruct (write_chunks image secure_version version _ _ Hin chunks _ s1 u1 0 Hi1 Hrec1) as (s2 & u2 & E2 & Hi2 & Hrec2 & G2);
    [lia|done|done|done|by rewrite Hcat|split; lia|].
  destruct (shape_installing image secure_version version _ _ _ _ _ Hi2) as (_ & Htg2 & Htot2 & _).
  destruct Hrec2 as (R1 & R2 & _ & R3). unfold total_size in R3. rewrite Nat2Z.id, firstn_all in R3.
  destruct (read_all image secure_version version _ _ Hin _ s2 u2 0 Hi2) as (s3 & u3 & E3 & Hs3 & [Hp3 Hm3] & G3);
    [by left; rewrite R2, Htot2|unfold total_size; lia|exact R3|rewrite Z.sub_0_r; fold nv; split; lia|].
  rewrite Z.sub_0_r in E3. fold nv in E3.
  apply grant_fields in G1 as (I1 & T1 & _), G2 as (I2 & T2 & _), G3 as (_ & I3 & _).
  rewrite T2, T1 in I3. rewrite I1 in I2.
  exists s3, u3. split.
  - unfold install, the_begin, total_size in *. rewrite E0. cbn [mbind option_bind]. rewrite Hreply.
    rewrite le_decode_encode by (apply (sh_id _ (proj1 (uo_session _ Hu0 _ Hs0)))). fold ne nv.
    rewrite E1. cbn [mbind option_bind]. rewrite <- I1, E2. cbn [mbind option_bind]. by rewrite I1, <- I2.
  - split; [done|]. split; [done|]. split; [|exact Hm3].
    rewrite I3, (as_target _ _ _ _ _ As0), (as_active _ _ _ _ _ As0), Hb0, Hb1. done.
Qed.
End progress.

(** ** Witness *)

#[export] Instance model_healthy : HealthyBackend model 1.
Proof.
  refine {| healthy := λ _, True; clock := λ b, model_now (mb_clock b - 1) |}.
  - done.
  - intros * _ [= <- <-]. simpl. split; [done|]. rewrite Z.add_simpl_r. unfold model_now, U64_MAX. lia.
  - intros b _. by exists b.
  - intros * _ _ _. by eexists.
  - intros * _ _ _ _ _ _. by eexists.
  - intros * _ _ _ _ _. by eexists _, _.
  - intros * _. by eexists _, _.
  - intros * _ l _ _ _. by eexists.
Defined.

(** Chunks of the largest size. *)
Fixpoint cut (fuel : nat) (l : bytes) : list bytes :=
  match fuel with
  | O => []
  | S fuel => if (length l =? 0)%nat then [] else take MAX_WRITE_CHUNK l :: cut fuel (drop MAX_WRITE_CHUNK l)
  end.
Definition model_chunks : list bytes := cut 10 model_image.

Definition is_byteb (b : Z) : bool := (0 <=? b) && (b <? 256).
Definition chunk_okb (data : bytes) : bool :=
  forallb is_byteb data && (0 <? length data)%nat && (length data <=? MAX_WRITE_CHUNK)%nat
  && is_multiple_of (Z.of_nat (length data)) 32.

Lemma chunks_okb l : forallb chunk_okb l = true → Forall chunk_ok l.
Proof.
  intros K. rewrite forallb_forall in K. apply Forall_forall. intros d Hd. specialize (K d Hd).
  unfold chunk_okb in K. rewrite !andb_true_iff, Nat.ltb_lt, Nat.leb_le, is_multiple_of_spec, forallb_forall in K.
  destruct K as [[[K1 K2] K3] K4]. split; [|by split]. apply Forall_forall. intros b Hb.
  specialize (K1 b Hb). unfold is_byteb in K1. unfold is_byte. bool_to_prop. lia.
Qed.

Lemma model_new_ready : device_ready model_new.
Proof.
  assert (new model_fresh model_key [48; 46; 49] 2 = Some model_new) as Hn by reflexivity.
  apply new_ok in Hn as (Hu & _ & Hb). split; [done|exact I|].
  unfold boot_of, boot_view, model_update_view. rewrite Hb.
  split; [split; by vm_compute|]. split; [by vm_compute|]. by eexists.
Qed.

Lemma model_installable : installable model_key 2 model_image 3 [49; 46; 48].
Proof.
  assert (length model_image = 8192%nat) as Hl by (vm_compute; reflexivity).
  split; rewrite ?Hl.
  - by unfold SIGNATURE_SECTOR_SIZE, OTA_SLOT_SIZE.
  - reflexivity.
  - unfold MAX_VERSION_LENGTH. simpl. lia.
  - unfold U32_MAX. lia.
  - eexists. split; [vm_compute; reflexivity|]. split; vm_compute; reflexivity.
  - eexists. split; [vm_compute; reflexivity|]. split; vm_compute; reflexivity.
Qed.

Lemma update_completes_witness :
  ∃ s u', install model_image model_chunks 3 [49; 46; 48] model_new = Some u' ∧ uu_session u' = Some s ∧
    ss_phase s = Activated ∧ mem_read (mem_of u' 1) 0 (length model_image) = model_image.
Proof.
  destruct (update_completes model_image model_chunks 3 [49; 46; 48] model_new model_new_ready) as (s & u' & E & Hs & Hp & Ht & Hm).
  - exact model_installable.
  - vm_compute. reflexivity.
  - apply chunks_okb. vm_compute. reflexivity.
  - reflexivity.
  - assert (length model_image = 8192%nat) as -> by (vm_compute; reflexivity).
    assert (length model_chunks = 9%nat) as -> by (vm_compute; reflexivity). reflexivity.
  - exists s, u'. split; [exact E|]. split; [exact Hs|]. split; [exact Hp|]. rewrite Ht in Hm. exact Hm.
Defined.
