(* ===== verification/Rom.v ===== *)
(** * The hardware under the firmware

    The ROM and register calls of [src/src/platform/flash_encryption.rs],
    [src/src/platform/ota.rs] and [src/src/platform/usb_update.rs] as an
    interface: the operations the firmware calls ([Rom]) and what it relies on
    ([RomView]).  External flash is one memory of decrypted bytes; the CPU reads it
    through 64 KiB virtual pages, and through an instruction cache that may hold
    stale lines.  [seen] is what a load returns; an address is coherent when that
    is the byte of flash its page maps to.  Only a page whose entry has the access
    bit for flash is promised to return flash; nothing is known of a load through
    any other entry.  A write or an erase leaves stale lines behind, invalidating a
    range or switching the cache off and on removes them. *)

From stdpp Require Import base tactics numbers list option.
From S2P Require Import Prelude.

(** The argument of [ets_rsa_pss_verify]. *)
Record RsaPublicKey := mkRsaPublicKey {
  rk_modulus : bytes;
  rk_exponent : Z;
  rk_rinv : bytes;
  rk_mdash : Z;
}.

Class Rom (M : Type) := {
  rom_flash_encryption : M → bool;
  rom_now_ms : M → Z * M;
  rom_cache_disable_icache : M → Z * M;
  rom_cache_enable_icache : Z → M → M;
  rom_cache_ibus_mmu_set : Z → Z → Z → Z → Z → Z → M → Z * M;
  rom_cache_invalidate_addr : Z → Z → M → M;
  rom_load : M → Z → nat → bytes;
  rom_read_volatile : M → Z → Z;
  rom_spiflash_unlock : M → option Z * M;
  rom_spiflash_erase_sector : Z → M → option Z * M;
  rom_spiflash_write_encrypted : Z → bytes → M → Z * M;
  rom_rsa_pss_verify : RsaPublicKey → bytes → bytes → bool * bytes;
}.

Definition PAGE : Z := 0x10000.
Definition DROM_TABLE : Z := 0x61801000 + 0x80 * 4.
Definition DROM_BASE_PAGE : Z := 0x3f00.

(** [SOC_MMU_ACCESS_FLASH], bit 15 of an entry: the page is a page of flash. *)
Definition flash_entry (entry : Z) : bool := Z.testbit entry 15.

Class RomView (M : Type) `{Rom M} := {
  (** The decrypted bytes of flash, the raw entry of each virtual page, the bytes
      a load returns, whether the cache is on, and which bytes of flash are in
      the erased state. *)
  flash : M → memory;
  mmu : M → Z → Z;
  seen : M → memory;
  icache_on : M → bool;
  erased : M → Z → Prop;

  flash_byte : ∀ m a, is_byte (flash m a);
  seen_byte : ∀ m a, is_byte (seen m a);
  rom_load_seen : ∀ m a n, rom_load m a n = mem_read (seen m) a n;
  rom_read_mmu : ∀ m k, 0 ≤ k < 64 → rom_read_volatile m (DROM_TABLE + k * 4) = mmu m (DROM_BASE_PAGE + k);
  rom_now_u64 : ∀ m t m', rom_now_ms m = (t, m') → is_u64 t;
  rom_now_frame : ∀ m t m', rom_now_ms m = (t, m') →
    flash m' = flash m ∧ mmu m' = mmu m ∧ seen m' = seen m ∧ erased m' = erased m;

  rom_disable_frame : ∀ m r m', rom_cache_disable_icache m = (r, m') →
    flash m' = flash m ∧ mmu m' = mmu m ∧ erased m' = erased m ∧ icache_on m' = false;
  rom_enable_frame : ∀ m r, flash (rom_cache_enable_icache r m) = flash m ∧
    mmu (rom_cache_enable_icache r m) = mmu m ∧
    erased (rom_cache_enable_icache r m) = erased m;
  (** Switching the cache off dropped every line. *)
  rom_enable_fresh : ∀ m r a, icache_on m = false → flash_entry (mmu m (a / PAGE)) = true →
    seen (rom_cache_enable_icache r m) a =
      flash m (Z.land (mmu m (a / PAGE)) 0x3fff * PAGE + a mod PAGE);

  rom_mmu_set_frame : ∀ e v p k n f m r m', rom_cache_ibus_mmu_set e v p k n f m = (r, m') →
    flash m' = flash m ∧ erased m' = erased m ∧ icache_on m' = icache_on m ∧
    ∀ q, ¬ (v / PAGE ≤ q < v / PAGE + n) → mmu m' q = mmu m q;
  rom_mmu_set_ok : ∀ e v p n m m', rom_cache_ibus_mmu_set e v p 64 n 0 m = (0, m') →
    ∀ i, 0 ≤ i < n → mmu m' (v / PAGE + i) = Z.lor e (p / PAGE + i);

  rom_invalidate_frame : ∀ v n m, flash (rom_cache_invalidate_addr v n m) = flash m ∧
    mmu (rom_cache_invalidate_addr v n m) = mmu m ∧
    erased (rom_cache_invalidate_addr v n m) = erased m;
  rom_invalidate_seen : ∀ v n m a, flash_entry (mmu m (a / PAGE)) = true →
    let fresh := flash m (Z.land (mmu m (a / PAGE)) 0x3fff * PAGE + a mod PAGE) in
    let m' := rom_cache_invalidate_addr v n m in
    seen m' a = fresh ∨ (¬ v ≤ a < v + n ∧ seen m' a = seen m a);

  rom_unlock_frame : ∀ m r m', rom_spiflash_unlock m = (r, m') →
    flash m' = flash m ∧ mmu m' = mmu m ∧ seen m' = seen m ∧ erased m' = erased m;

  rom_erase_frame : ∀ sector m r m', rom_spiflash_erase_sector sector m = (r, m') →
    mmu m' = mmu m ∧
    (∀ a, ¬ (sector * 0x1000 ≤ a < sector * 0x1000 + 0x1000) →
       flash m' a = flash m a ∧ (erased m a → erased m' a)) ∧
    (∀ a, flash_entry (mmu m (a / PAGE)) = true → seen m' a = seen m a ∨
       seen m' a = flash m' (Z.land (mmu m (a / PAGE)) 0x3fff * PAGE + a mod PAGE));
  rom_erase_ok : ∀ sector m m', rom_spiflash_erase_sector sector m = (None, m') →
    ∀ a, sector * 0x1000 ≤ a < sector * 0x1000 + 0x1000 → erased m' a;

  rom_write_frame : ∀ addr block m r m', rom_spiflash_write_encrypted addr block m = (r, m') →
    mmu m' = mmu m ∧
    (∀ a, ¬ (addr ≤ a < addr + Z.of_nat (length block)) →
       flash m' a = flash m a ∧ (erased m a → erased m' a)) ∧
    (∀ a, flash_entry (mmu m (a / PAGE)) = true → seen m' a = seen m a ∨
       seen m' a = flash m' (Z.land (mmu m (a / PAGE)) 0x3fff * PAGE + a mod PAGE));
  rom_write_ok : ∀ addr block m m', rom_spiflash_write_encrypted addr block m = (0, m') →
    (∀ a, addr ≤ a < addr + Z.of_nat (length block) → erased m a) → Forall is_byte block →
    mem_read (flash m') addr (length block) = block;
}.

Section view.
Context {M : Type} `{RomView M}.

(** The byte of flash a virtual address maps to, where it maps to flash, and coherence of
    an address: a load returns that byte. *)
Definition translate (m : M) (a : Z) : Z := Z.land (mmu m (a / PAGE)) 0x3fff * PAGE + a mod PAGE.
Definition maps_flash (m : M) (a : Z) : Prop := flash_entry (mmu m (a / PAGE)) = true.
Definition coherent (m : M) (a : Z) : Prop := maps_flash m a → seen m a = flash m (translate m a).
End view.
