(* ===== verification/FlashEncryption.v ===== *)
(** * Encrypted flash

    [src/src/platform/flash_encryption.rs] in the release configuration: the fixed
    DROM mappings, reads through them, reads of an update slot through one
    temporary page, encrypted writes in blocks of 32 bytes and sector erases. *)

From stdpp Require Import base tactics numbers list option.
From S2P Require Import Prelude Rom.

Definition MMU_PAGE_SIZE : Z := 0x10000.
Definition RESERVED_DROM_START : Z := 0x3f390000.
Definition RESERVED_DROM_END : Z := 0x3f3f0000.

Record Mapping := mkMapping {
  virtual_start : Z;
  physical_start : Z;
  size : Z;
}.

#[export] Instance Mapping_eq_dec : EqDecision Mapping.
Proof. solve_decision. Defined.

Definition OTADATA_MAPPING : Mapping := mkMapping 0x3f390000 0x00000000 0x00020000.
Definition OTA0_DESCRIPTOR_MAPPING : Mapping := mkMapping 0x3f3b0000 0x00020000 MMU_PAGE_SIZE.
Definition OTA1_DESCRIPTOR_MAPPING : Mapping := mkMapping 0x3f3c0000 0x00200000 MMU_PAGE_SIZE.
Definition FIDO_STORE_MAPPING : Mapping := mkMapping 0x3f3d0000 0x003e0000 0x00020000.
Definition MAPPINGS : list Mapping :=
  [OTADATA_MAPPING; OTA0_DESCRIPTOR_MAPPING; OTA1_DESCRIPTOR_MAPPING; FIDO_STORE_MAPPING].

Inductive FlashEncryptionError :=
  | FE_Disabled | FE_MappingFailed (code : Z) | FE_UnmappedRange | FE_NotAligned
  | FE_UnlockFailed (code : Z) | FE_EraseFailed (code : Z) | FE_WriteFailed (code : Z).

(** [Mapping::physical_range] as its two ends. *)
Definition physical_range (m : Mapping) : Z * Z := (physical_start m, physical_start m + size m).

(** The closure of [find_map] on one mapping; its guard excludes the underflow of
    [address - mapping.physical_start]. *)
Definition map_in (address fin : Z) (mapping : Mapping) : option Z :=
  let '(first, last) := physical_range mapping in
  if (first <=? address) && (fin <=? last)
  then offset ← u32_sub address (physical_start mapping); u32_add (virtual_start mapping) offset
  else None.

Fixpoint find_map {A B} (f : A → option B) (l : list A) : option B :=
  match l with
  | [] => None
  | x :: l => match f x with Some y => Some y | None => find_map f l end
  end.

Definition mapped_virtual_address (address : Z) (length : nat) : option Z :=
  length ← (if Z.of_nat length <=? U32_MAX then Some (Z.of_nat length) else None);
  fin ← u32_add address length;
  find_map (map_in address fin) MAPPINGS.

Definition encrypted_write_is_aligned (address : Z) (length : nat) : bool :=
  is_multiple_of address 32 && is_multiple_of (Z.of_nat length) 32.

(** The hardware and the [INITIALIZED] flag of the module. *)
Record Device (M : Type) := mkDevice {
  dv_rom : M;
  dv_initialized : bool;
}.
Arguments mkDevice {M}.
Arguments dv_rom {M}.
Arguments dv_initialized {M}.

Section hardware.
Context {M : Type} `{Rom M}.

Definition flash_step : Type → Type := step (Device M) FlashEncryptionError.

Definition on_rom {A} (f : M → A * M) (d : Device M) : A * Device M :=
  let '(a, m) := f (dv_rom d) in (a, mkDevice m (dv_initialized d)).
Definition set_initialized (d : Device M) : Device M := mkDevice (dv_rom d) true.
Definition rom_do (f : M → M) : flash_step unit := call (on_rom (λ m, (tt, f m))).

(** A ROM call whose code is zero on success, and one that returns [Result]. *)
Definition zero_or (f : M → Z * M) (e : Z → FlashEncryptionError) : flash_step unit :=
  r ← call (on_rom f);
  return_if (negb (r =? 0)) (e r).
Definition result_or (f : M → option Z * M) (e : Z → FlashEncryptionError) : flash_step unit :=
  r ← call (on_rom f);
  match r with None => mret tt | Some code => throw (e code) end.

Definition MMU_ACCESS_FLASH : Z := Z.shiftl 1 15.

Definition map_drom (virtual_address physical_address page_count : Z) (m : M) : Z * M :=
  let '(autoload, m) := rom_cache_disable_icache m in
  let '(result, m) := rom_cache_ibus_mmu_set MMU_ACCESS_FLASH virtual_address physical_address
                        (MMU_PAGE_SIZE / 1024) page_count 0 m in
  (result, rom_cache_enable_icache autoload m).

Fixpoint map_release_regions (mappings : list Mapping) : flash_step unit :=
  match mappings with
  | [] => mret tt
  | mapping :: mappings =>
      zero_or (map_drom (virtual_start mapping) (physical_start mapping)
                 (size mapping / MMU_PAGE_SIZE)) FE_MappingFailed;;
      map_release_regions mappings
  end.

Definition initialize : flash_step unit :=
  d ← get_state;
  return_if (negb (rom_flash_encryption (dv_rom d))) FE_Disabled;;
  if dv_initialized d then mret tt
  else map_release_regions MAPPINGS;; modify set_initialized.

Definition require_initialized : flash_step unit :=
  d ← get_state; return_if (negb (dv_initialized d)) FE_Disabled.

Definition load (virtual_address : Z) (length : nat) : flash_step bytes :=
  d ← get_state; mret (rom_load (dv_rom d) virtual_address length).

Definition read (address : Z) (length : nat) : flash_step bytes :=
  require_initialized;;
  virtual_address ← ok_or (mapped_virtual_address address length) FE_UnmappedRange;
  load virtual_address length.

Definition map_update_page_and_copy (physical_page page_offset : Z) (length : nat)
  : flash_step bytes :=
  let window := virtual_start OTA0_DESCRIPTOR_MAPPING in
  zero_or (map_drom window physical_page 1) FE_MappingFailed;;
  rom_do (rom_cache_invalidate_addr window MMU_PAGE_SIZE);;
  output ← load (window + page_offset) length;
  restored ← call (on_rom (map_drom window (physical_start OTA0_DESCRIPTOR_MAPPING) 1));
  rom_do (rom_cache_invalidate_addr window MMU_PAGE_SIZE);;
  return_if (negb (restored =? 0)) (FE_MappingFailed restored);;
  mret output.

(** The page loop of [read_update]: each round copies at least one byte. *)
Fixpoint read_pages (fuel : nat) (address : Z) (length : nat) : flash_step bytes :=
  if (length =? 0)%nat then mret []
  else match fuel with
  | O => panic
  | S fuel =>
      let physical_page := Z.land address (U32_MAX - (MMU_PAGE_SIZE - 1)) in
      let page_offset := address - physical_page in
      let count := Nat.min length (Z.to_nat (MMU_PAGE_SIZE - page_offset)) in
      current ← map_update_page_and_copy physical_page page_offset count;
      address ← checked (u32_add address (Z.of_nat count));
      rest ← read_pages fuel address (length - count);
      mret (current ++ rest)
  end.

Definition read_update (address : Z) (length : nat) : flash_step bytes :=
  require_initialized;;
  ok_or (if Z.of_nat length <=? U32_MAX then Some tt else None) FE_UnmappedRange;;
  ok_or (u32_add address (Z.of_nat length)) FE_UnmappedRange;;
  read_pages length address length.

Definition invalidate_physical_range (physical_address : Z) (length : nat) : flash_step unit :=
  virtual_address ← ok_or (mapped_virtual_address physical_address length) FE_UnmappedRange;
  ok_or (if Z.of_nat length <=? U32_MAX then Some tt else None) FE_UnmappedRange;;
  rom_do (rom_cache_invalidate_addr virtual_address (Z.of_nat length)).

(** [for (index, chunk) in data.chunks_exact(32).enumerate()], from [index] on. *)
Fixpoint write_blocks (count : nat) (index : nat) (address : Z) (data : bytes) : flash_step unit :=
  match count with
  | O => mret tt
  | S count =>
      let chunk := slice data (32 * index) (32 * index + 32) in
      offset ← checked (if Z.of_nat index * 32 <=? U32_MAX then Some (Z.of_nat index * 32) else None);
      block_address ← checked (u32_add address offset);
      zero_or (rom_spiflash_write_encrypted block_address chunk) FE_WriteFailed;;
      write_blocks count (S index) address data
  end.

Definition write_inner (address : Z) (data : bytes) (invalidate_fixed_mapping : bool)
  : flash_step unit :=
  require_initialized;;
  return_if (negb (encrypted_write_is_aligned address (length data))) FE_NotAligned;;
  result_or rom_spiflash_unlock FE_UnlockFailed;;
  write_blocks (length data / 32) 0 address data;;
  if invalidate_fixed_mapping then invalidate_physical_range address (length data) else mret tt.

Definition write (address : Z) (data : bytes) : flash_step unit := write_inner address data true.
Definition write_update (address : Z) (data : bytes) : flash_step unit :=
  write_inner address data false.

(** [for sector_address in (address..end).step_by(0x1000)]. *)
Fixpoint erase_sectors (sectors : list Z) : flash_step unit :=
  match sectors with
  | [] => mret tt
  | sector_address :: sectors =>
      result_or (rom_spiflash_erase_sector (sector_address / 0x1000)) FE_EraseFailed;;
      erase_sectors sectors
  end.
Definition step_by (first last stride : Z) : list Z :=
  (λ i, first + stride * Z.of_nat i) <$> seq 0 (Z.to_nat ((last - first + stride - 1) / stride)).

Definition erase_inner (address : Z) (length : nat) (invalidate_fixed_mapping : bool)
  : flash_step unit :=
  require_initialized;;
  return_if (negb (is_multiple_of address 0x1000) || negb (is_multiple_of (Z.of_nat length) 0x1000))
    FE_NotAligned;;
  result_or rom_spiflash_unlock FE_UnlockFailed;;
  ok_or (if Z.of_nat length <=? U32_MAX then Some tt else None) FE_UnmappedRange;;
  fin ← ok_or (u32_add address (Z.of_nat length)) FE_UnmappedRange;
  erase_sectors (step_by address fin 0x1000);;
  if invalidate_fixed_mapping then invalidate_physical_range address length else mret tt.

Definition erase (address : Z) (length : nat) : flash_step unit := erase_inner address length true.
Definition erase_update (address : Z) (length : nat) : flash_step unit :=
  erase_inner address length false.
End hardware.
