(* ===== verification/FlashWindows.v ===== *)
(** * The fixed windows stay coherent

    What the operations of [FlashEncryption] do to flash and to the fixed DROM
    windows: which bytes change, which mapping survives, and when a load through
    a window returns the current byte of flash. *)

From stdpp Require Import base tactics numbers list option.
From S2P Require Import Prelude Rom FlashEncryption.

Section windows.
Context {M : Type} `{RomView M}.

(** [a] is mapped by [mp], and the physical address behind it. *)
Definition in_window (mp : Mapping) (a : Z) : Prop :=
  virtual_start mp ≤ a < virtual_start mp + size mp.
Definition physical (mp : Mapping) (a : Z) : Z := a - virtual_start mp + physical_start mp.

(** The window is mapped to flash, and coherent except where flash in [lo, hi) may have
    changed since the last invalidation. *)
Definition maps_to (m : M) (a p : Z) : Prop := maps_flash m a ∧ translate m a = p.
Definition window_upto (m : M) (mp : Mapping) (lo hi : Z) : Prop :=
  ∀ a, in_window mp a → maps_to m a (physical mp a) ∧
    (¬ lo ≤ physical mp a < hi → coherent m a).
Definition window_ok (m : M) (mp : Mapping) : Prop := window_upto m mp 0 0.

Definition fixed_windows : list Mapping := [OTADATA_MAPPING; OTA1_DESCRIPTOR_MAPPING; FIDO_STORE_MAPPING].

(** The windows no operation ever remaps. *)
Definition fixed_ok (d : Device M) : Prop :=
  dv_initialized d = true → Forall (window_ok (dv_rom d)) fixed_windows.

(** What an operation on flash [lo, hi) may change: nothing of the mapping, no
    byte outside, and loads only where flash is in the range or up to date. *)
Record within (lo hi : Z) (m m' : M) : Prop := {
  wi_flash : ∀ a, ¬ lo ≤ a < hi → flash m' a = flash m a;
  wi_erased : ∀ a, ¬ lo ≤ a < hi → erased m a → erased m' a;
  wi_mmu : mmu m' = mmu m;
  wi_seen : ∀ a, seen m' a = seen m a ∨ coherent m' a ∨ lo ≤ translate m a < hi;
}.

Lemma translate_mmu m m' a : mmu m' = mmu m → translate m' a = translate m a.
Proof. unfold translate. by intros ->. Qed.

Lemma maps_flash_mmu m m' a : mmu m' = mmu m → maps_flash m' a ↔ maps_flash m a.
Proof. unfold maps_flash. by intros ->. Qed.

Lemma maps_to_mmu m m' a p : mmu m' = mmu m → maps_to m a p → maps_to m' a p.
Proof. intros E [Hf Ht]. split; [by apply (maps_flash_mmu _ _ _ E)|by rewrite (translate_mmu _ _ _ E)]. Qed.

(** Nothing has to be shown of an address that is not mapped to flash. *)
Lemma coherent_if m a : (maps_flash m a → coherent m a) → coherent m a.
Proof. intros K F. by apply K. Qed.

Lemma within_refl lo hi m : within lo hi m m.
Proof. split; auto. Qed.

Lemma within_trans lo hi m1 m2 m3 :
  within lo hi m1 m2 → within lo hi m2 m3 → within lo hi m1 m3.
Proof.
  intros [F1 E1 T1 S1] [F2 E2 T2 S2]. split.
  - intros a Ha. rewrite F2, F1; done.
  - auto.
  - congruence.
  - intros a. destruct (decide (lo ≤ translate m1 a < hi)) as [|Hout]; [auto|].
    assert (translate m2 a = translate m1 a) as Et by by apply translate_mmu.
    destruct (S2 a) as [->|[|Hin]]; [|auto|rewrite Et in Hin; auto].
    destruct (S1 a) as [->|[Hc|]]; auto. right. left.
    assert (translate m3 a = translate m1 a) as Et3 by (by rewrite <- Et; apply translate_mmu).
    destruct (S2 a) as [Hs|[|]]; [|done|rewrite Et in *; done].
    intros Hf. rewrite Hs, Hc by by apply (maps_flash_mmu m2 m3). by rewrite Et, Et3, F2.
Qed.

Lemma within_weaken lo hi lo' hi' m m' :
  lo' ≤ lo → hi ≤ hi' → within lo hi m m' → within lo' hi' m m'.
Proof.
  intros Hl Hh [F E T S]. split; [intros a Ha; apply F; lia|intros a Ha; apply E; lia|done|].
  intros a. destruct (S a) as [|[|]]; auto. right. right. lia.
Qed.

Lemma window_within lo hi m m' mp :
  within lo hi m m' → window_upto m mp lo hi → window_upto m' mp lo hi.
Proof.
  intros W K a Ha. destruct (K a Ha) as [[Hf Ht] Hc].
  assert (translate m' a = translate m a) as E by (apply translate_mmu, W).
  split; [eapply maps_to_mmu; [apply W|done]|]. intros Hout.
  destruct (wi_seen _ _ _ _ W a) as [Hs|[|Hin]]; [|done|].
  - intros _. rewrite Hs, E, (wi_flash _ _ _ _ W) by (by rewrite Ht). by apply Hc.
  - rewrite Ht in Hin. done.
Qed.

Lemma window_ok_upto m mp lo hi : window_ok m mp → window_upto m mp lo hi.
Proof. intros W a Ha. destruct (W a Ha) as [Ht Hc]. split; [done|]. intros _. apply Hc. lia. Qed.

(** A window whose physical range the operation does not meet is untouched. *)
Definition apart (mp : Mapping) (lo hi : Z) : Prop :=
  hi ≤ physical_start mp ∨ physical_start mp + size mp ≤ lo.

Lemma window_apart m mp lo hi : apart mp lo hi → window_upto m mp lo hi → window_ok m mp.
Proof.
  intros Hap W a Ha. destruct (W a Ha) as [Ht Hc]. split; [done|]. intros _. apply Hc.
  unfold apart, physical, in_window in *. lia.
Qed.

Lemma load_window m mp a n :
  window_ok m mp → virtual_start mp ≤ a → a + Z.of_nat n ≤ virtual_start mp + size mp →
  rom_load m a n = mem_read (flash m) (physical mp a) n.
Proof.
  intros W Ha Hn. rewrite rom_load_seen. apply list_eq. intros i.
  destruct (decide (i < n)%nat) as [Hi|Hi].
  - rewrite !lookup_mem_read by done. f_equal.
    destruct (W (a + Z.of_nat i)) as [[Hf Ht] Hc]; [unfold in_window; lia|].
    rewrite Hc, Ht by (done || lia). f_equal. unfold physical. lia.
  - rewrite !lookup_ge_None_2; rewrite ?length_mem_read; auto with lia.
Qed.

(** ** Remapping *)

Lemma map_drom_spec v p n m r m' :
  map_drom v p n m = (r, m') →
  flash m' = flash m ∧ erased m' = erased m ∧ (∀ a, coherent m' a) ∧
  (∀ q, ¬ (v / PAGE ≤ q < v / PAGE + n) → mmu m' q = mmu m q) ∧
  (r = 0 → ∀ i, 0 ≤ i < n → mmu m' (v / PAGE + i) = Z.lor MMU_ACCESS_FLASH (p / PAGE + i)).
Proof.
  unfold map_drom. destruct (rom_cache_disable_icache m) as [auto m1] eqn:E1.
  destruct (rom_cache_ibus_mmu_set _ _ _ _ _ _ m1) as [c m2] eqn:E2. intros [= <- <-].
  destruct (rom_disable_frame _ _ _ E1) as (F1 & T1 & Er1 & I1).
  destruct (rom_mmu_set_frame _ _ _ _ _ _ _ _ _ E2) as (F2 & Er2 & I2 & T2).
  destruct (rom_enable_frame m2 auto) as (F3 & T3 & Er3).
  repeat split.
  - congruence.
  - congruence.
  - intros a. unfold coherent, maps_flash, translate. rewrite F3, T3. intros Hf.
    by rewrite rom_enable_fresh by congruence.
  - intros q Hq. rewrite T3, T2 by done. by rewrite T1.
  - intros -> i Hi. rewrite T3. eapply rom_mmu_set_ok; [exact E2|done].
Qed.

(** A window away from the remapped pages stays mapped and becomes coherent. *)
Lemma window_remap v p n m r m' mp lo hi :
  map_drom v p n m = (r, m') → window_upto m mp lo hi →
  (∀ a, in_window mp a → ¬ (v / PAGE ≤ a / PAGE < v / PAGE + n)) → window_ok m' mp.
Proof.
  intros E W Hap a Ha. destruct (map_drom_spec _ _ _ _ _ _ E) as (_ & _ & Hc & Hm & _).
  split; [|auto]. unfold maps_to, maps_flash, translate. rewrite Hm by auto. apply (W a Ha).
Qed.

Lemma page_entry k : 0 ≤ k < 2 ^ 14 → Z.land (Z.lor MMU_ACCESS_FLASH k) 0x3fff = k.
Proof.
  intros Hk. rewrite Z.land_lor_distr_l. change 0x3fff with (Z.ones 14).
  rewrite (Z.land_ones k), Z.mod_small by lia. reflexivity.
Qed.

Lemma page_entry_flash k : flash_entry (Z.lor MMU_ACCESS_FLASH k) = true.
Proof. unfold flash_entry. rewrite Z.lor_spec. reflexivity. Qed.

(** ** Windows and ranges of the fixed mappings *)

Lemma map_in_Some mp address fin v :
  0 ≤ address → map_in address fin mp = Some v →
  physical_start mp ≤ address ∧ fin ≤ physical_start mp + size mp ∧
  v = virtual_start mp + (address - physical_start mp).
Proof.
  unfold map_in, physical_range. intros Ha E. run_hyp E. bool_to_prop.
  destruct (u32_sub _ _) as [o|] eqn:Eo; simpl in E; [|done].
  apply u32_sub_Some in Eo as [-> ?]. apply u32_add_Some in E as [-> ?]. lia.
Qed.

Lemma find_map_Some {A C} (f : A → option C) l y :
  find_map f l = Some y → ∃ x, x ∈ l ∧ f x = Some y.
Proof.
  induction l as [|x l IH]; simpl; [done|]. destruct (f x) eqn:E.
  - intros [= <-]. exists x. split; [left|done].
  - intros Hl. destruct (IH Hl) as (x' & ? & ?). exists x'. split; [by right|done].
Qed.

(** A virtual address handed out for a range lies in one fixed window, at the
    offset of the range in it. *)
Lemma mapped_virtual_address_Some address n v :
  0 ≤ address → mapped_virtual_address address n = Some v →
  ∃ mp, mp ∈ MAPPINGS ∧ virtual_start mp ≤ v ∧ physical mp v = address ∧
        v + Z.of_nat n ≤ virtual_start mp + size mp.
Proof.
  unfold mapped_virtual_address. intros Ha E.
  apply bind_Some in E as (len & El & E). apply bind_Some in E as (fin & Ef & E).
  destruct (_ <=? _); simplify_eq. apply u32_add_Some in Ef as [-> ?].
  apply find_map_Some in E as (mp & Hin & E). exists mp. split; [done|].
  apply map_in_Some in E as (? & ? & ->); [|done]. unfold physical. lia.
Qed.

Lemma in_mappings mp : mp ∈ MAPPINGS →
  mp = OTADATA_MAPPING ∨ mp = OTA0_DESCRIPTOR_MAPPING ∨
  mp = OTA1_DESCRIPTOR_MAPPING ∨ mp = FIDO_STORE_MAPPING.
Proof. unfold MAPPINGS. rewrite !elem_of_cons, elem_of_nil. tauto. Qed.

(** The fixed windows occupy disjoint pages and disjoint parts of flash. *)
Lemma mappings_disjoint mp mp' a b :
  mp ∈ MAPPINGS → mp' ∈ MAPPINGS → mp ≠ mp' → in_window mp a → in_window mp' b →
  a / PAGE ≠ b / PAGE ∧ physical mp a ≠ physical mp' b.
Proof.
  intros Hm Hm' Hne Ha Hb. unfold in_window, physical, PAGE in *.
  apply in_mappings in Hm, Hm'.
  destruct Hm as [->|[->|[->| ->]]], Hm' as [->|[->|[->| ->]]]; try done;
    simpl in *; unfold MMU_PAGE_SIZE in *; split; try lia;
    intros Heq; pose proof (Z.div_mod a 65536 ltac:(lia)); pose proof (Z.div_mod b 65536 ltac:(lia));
    pose proof (Z.mod_pos_bound a 65536 ltac:(lia)); pose proof (Z.mod_pos_bound b 65536 ltac:(lia)); lia.
Qed.

Lemma mapped_virtual_address_in mp address n :
  mp ∈ MAPPINGS → physical_start mp ≤ address → (0 < n)%nat →
  address + Z.of_nat n ≤ physical_start mp + size mp →
  mapped_virtual_address address n = Some (virtual_start mp + (address - physical_start mp)).
Proof.
  intros Hm Ha Hn Hend. unfold mapped_virtual_address.
  apply in_mappings in Hm.
  assert (Z.of_nat n ≤ U32_MAX ∧ address + Z.of_nat n ≤ U32_MAX ∧ 0 ≤ address) as (H1 & H2 & H3)
    by (unfold_max; destruct Hm as [->|[->|[->| ->]]]; simpl in *; unfold MMU_PAGE_SIZE in *; lia).
  apply Z.leb_le in H1 as ->. cbn [mbind option_bind]. rewrite u32_add_ok by done. cbn [mbind option_bind].
  unfold MAPPINGS, find_map, map_in, physical_range.
  repeat match goal with
  | |- context [ (?x <=? address) && ?y ] =>
      let E := fresh in destruct ((x <=? address) && y) eqn:E; bool_to_prop
  end;
  destruct Hm as [->|[->|[->| ->]]]; simpl in *; unfold MMU_PAGE_SIZE in *; try lia;
  rewrite u32_sub_ok by lia; cbn [mbind option_bind]; rewrite u32_add_ok by (unfold_max; lia);
  done.
Qed.

(** ** Operations of a device *)

Lemma wp_on_rom {A} (f : M → A * M) (Q : result FlashEncryptionError A → Device M → Prop) d :
  (∀ a m, f (dv_rom d) = (a, m) → Q (Ok a) (mkDevice m (dv_initialized d))) →
  wp (call (on_rom f)) Q d.
Proof. intros HQ. unfold wp, call, on_rom. destruct (f (dv_rom d)) as [a m]. by apply HQ. Qed.

Lemma wp_zero_or (f : M → Z * M) e (Q : result FlashEncryptionError unit → Device M → Prop) d :
  (∀ m, f (dv_rom d) = (0, m) → Q (Ok tt) (mkDevice m (dv_initialized d))) →
  (∀ c m, f (dv_rom d) = (c, m) → Q (Err (e c)) (mkDevice m (dv_initialized d))) →
  wp (zero_or f e) Q d.
Proof.
  intros Hok Herr. apply wp_bind, wp_on_rom. intros c m E.
  destruct (Z.eqb_spec c 0) as [->|]; [by apply Hok|by apply Herr].
Qed.

Lemma wp_result_or (f : M → option Z * M) e (Q : result FlashEncryptionError unit → Device M → Prop) d :
  (∀ m, f (dv_rom d) = (None, m) → Q (Ok tt) (mkDevice m (dv_initialized d))) →
  (∀ c m, f (dv_rom d) = (Some c, m) → Q (Err (e c)) (mkDevice m (dv_initialized d))) →
  wp (result_or f e) Q d.
Proof.
  intros Hok Herr. apply wp_bind, wp_on_rom. intros [c|] m E; [by apply wp_throw, Herr|by apply wp_ret, Hok].
Qed.

Lemma wp_require_initialized (Q : result FlashEncryptionError unit → Device M → Prop) d :
  (dv_initialized d = true → Q (Ok tt) d) → (dv_initialized d = false → Q (Err FE_Disabled) d) →
  wp require_initialized Q d.
Proof.
  intros Hok Herr. apply wp_bind, wp_get, wp_return_if; intros E;
    [apply negb_true_iff in E|apply negb_false_iff in E]; auto.
Qed.

(** A read inside one window, when the window is coherent. *)
Lemma read_spec mp address n d :
  mp ∈ MAPPINGS → physical_start mp ≤ address → (0 < n)%nat →
  address + Z.of_nat n ≤ physical_start mp + size mp →
  dv_initialized d = true → window_ok (dv_rom d) mp →
  read address n d = Some (Ok (mem_read (flash (dv_rom d)) address n), d).
Proof.
  intros Hm Ha Hn Hend Hi W. unfold read, require_initialized, mbind, step_bind, get_state.
  rewrite Hi. cbn. rewrite (mapped_virtual_address_in mp) by done. cbn.
  unfold load, mbind, step_bind, get_state.
  rewrite (load_window _ mp) by (done || lia). cbn. unfold physical.
  by replace (virtual_start mp + (address - physical_start mp) - virtual_start mp + physical_start mp)
    with address by lia.
Qed.

(** Every fixed window, and the descriptor window of slot 0. *)
Definition windows_ok (d : Device M) : Prop :=
  dv_initialized d = true → Forall (window_ok (dv_rom d)) MAPPINGS.

Lemma windows_fixed d : windows_ok d → fixed_ok d.
Proof.
  intros W Hi. specialize (W Hi). unfold MAPPINGS in W.
  do 4 (inversion_clear W as [|? ? ? W']; rename W' into W).
  unfold fixed_windows. repeat (apply List.Forall_cons; [done|]). apply List.Forall_nil.
Qed.

Lemma windows_in d mp : windows_ok d → mp ∈ MAPPINGS → dv_initialized d = true → window_ok (dv_rom d) mp.
Proof. intros W Hmp Hi. specialize (W Hi). rewrite Forall_forall in W. by apply W, list_elem_of_In. Qed.

(** ** Reading an update slot *)

(** What a read of an update slot leaves alone. *)
Record remapped (d d' : Device M) : Prop := {
  re_initialized : dv_initialized d' = dv_initialized d;
  re_flash : flash (dv_rom d') = flash (dv_rom d);
  re_erased : erased (dv_rom d') = erased (dv_rom d);
  re_mmu : ∀ q, q ≠ 0x3f3b → mmu (dv_rom d') q = mmu (dv_rom d) q;
  re_windows : ∀ mp, mp ∈ fixed_windows → window_ok (dv_rom d) mp → window_ok (dv_rom d') mp;
}.

Lemma remapped_refl d : remapped d d.
Proof. by split. Qed.

Lemma remapped_trans d1 d2 d3 : remapped d1 d2 → remapped d2 d3 → remapped d1 d3.
Proof.
  intros [I1 F1 E1 T1 W1] [I2 F2 E2 T2 W2]. split; [congruence..| |auto].
  intros q Hq. by rewrite T2, T1.
Qed.

Lemma fixed_window_page mp a : mp ∈ fixed_windows → in_window mp a → a / PAGE ≠ 0x3f3b.
Proof.
  unfold fixed_windows, in_window, PAGE. rewrite !elem_of_cons, elem_of_nil.
  intros [->|[->|[->|[]]]]; simpl; unfold MMU_PAGE_SIZE; intros Ha Heq;
    pose proof (Z.div_mod a 65536 ltac:(lia)); pose proof (Z.mod_pos_bound a 65536 ltac:(lia)); lia.
Qed.

(** Remapping the temporary page. *)
Lemma remap_page d p r m :
  map_drom 0x3f3b0000 p 1 (dv_rom d) = (r, m) → remapped d (mkDevice m (dv_initialized d)).
Proof.
  intros E. destruct (map_drom_spec _ _ _ _ _ _ E) as (F & Er & _ & T & _).
  split; simpl; [done..| |].
  - intros q Hq. apply T. change (0x3f3b0000 / PAGE) with 0x3f3b. lia.
  - intros mp Hmp W. eapply window_remap; [exact E|exact W|].
    intros a Ha. pose proof (fixed_window_page mp a Hmp Ha).
    change (0x3f3b0000 / PAGE) with 0x3f3b. lia.
Qed.

Lemma invalidate_coherent v n m a :
  coherent m a → coherent (rom_cache_invalidate_addr v n m) a.
Proof.
  unfold coherent, maps_flash, translate. intros Hc. destruct (rom_invalidate_frame v n m) as (F & T & _).
  rewrite F, T. intros Hf. destruct (rom_invalidate_seen v n m a Hf) as [E|[_ E]]; [exact E|by rewrite E; apply Hc].
Qed.

Lemma invalidate_window v n m mp :
  window_ok m mp → window_ok (rom_cache_invalidate_addr v n m) mp.
Proof.
  intros W a Ha. destruct (W a Ha) as [Ht Hc]. destruct (rom_invalidate_frame v n m) as (_ & T & _).
  split; [by eapply maps_to_mmu|]. intros _. apply invalidate_coherent, Hc. lia.
Qed.

Lemma remapped_invalidate v n d :
  remapped d (mkDevice (rom_cache_invalidate_addr v n (dv_rom d)) (dv_initialized d)).
Proof.
  destruct (rom_invalidate_frame v n (dv_rom d)) as (F & T & Er).
  split; simpl; [done..|by intros; rewrite T|]. intros mp _. apply invalidate_window.
Qed.

(** The temporary window after a successful remap to the page of [p]. *)
Lemma remapped_window p m m' mp :
  mp = mkMapping 0x3f3b0000 p MMU_PAGE_SIZE → p mod PAGE = 0 → 0 ≤ p / PAGE < 2 ^ 14 →
  map_drom 0x3f3b0000 p 1 m = (0, m') → window_ok m' mp.
Proof.
  intros -> Hal Hp E a Ha. destruct (map_drom_spec _ _ _ _ _ _ E) as (_ & _ & Hc & _ & Hm).
  split; [|auto]. specialize (Hm eq_refl 0 ltac:(lia)). rewrite !Z.add_0_r in Hm.
  unfold in_window, physical, maps_to, maps_flash, translate in *. simpl in *. unfold PAGE, MMU_PAGE_SIZE in *.
  assert (a / 65536 = 0x3f3b) as Hq by (symmetry; apply (Z.div_unique a 65536 _ (a - 0x3f3b0000)); lia).
  change (0x3f3b0000 / 65536) with 0x3f3b in Hm. rewrite Hq, Hm, page_entry by done.
  split; [apply page_entry_flash|].
  pose proof (Z.div_mod a 65536 ltac:(lia)). pose proof (Z.div_mod p 65536 ltac:(lia)). lia.
Qed.

Lemma page_copy_wp p off n d :
  p mod PAGE = 0 → 0 ≤ p / PAGE < 2 ^ 14 → 0 ≤ off → off + Z.of_nat n ≤ MMU_PAGE_SIZE →
  wp (map_update_page_and_copy p off n) (λ r d', remapped d d' ∧
     match r with
     | Ok out => out = mem_read (flash (dv_rom d)) (p + off) n ∧
                 window_ok (dv_rom d') OTA0_DESCRIPTOR_MAPPING
     | Err _ => True
     end) d.
Proof.
  intros Hal Hp Hoff Hn. unfold map_update_page_and_copy. cbv zeta.
  change (virtual_start OTA0_DESCRIPTOR_MAPPING) with 0x3f3b0000.
  change (physical_start OTA0_DESCRIPTOR_MAPPING) with 0x20000.
  apply wp_bind, wp_zero_or; [|intros c m E; split; [by eapply remap_page|done]].
  intros m1 E1. pose proof (remap_page _ _ _ _ E1) as R1.
  apply wp_bind, wp_on_rom. intros [] m2 [= <-].
  pose proof (remapped_trans _ _ _ R1 (remapped_invalidate 0x3f3b0000 MMU_PAGE_SIZE _)) as R2.
  simpl in R2. apply wp_bind, wp_bind, wp_get, wp_ret. simpl.
  set (w := mkMapping 0x3f3b0000 p MMU_PAGE_SIZE).
  pose proof (invalidate_window 0x3f3b0000 MMU_PAGE_SIZE _ _ (remapped_window p _ _ w eq_refl Hal Hp E1)) as Ww.
  rewrite (load_window _ w) by (simpl; lia || exact Ww).
  apply wp_bind, wp_on_rom. intros c m3 E3.
  pose proof (remapped_trans _ _ _ R2 (remap_page _ _ _ _ E3)) as R3. simpl in R3.
  apply wp_bind, wp_on_rom. intros [] m4 [= <-].
  pose proof (remapped_trans _ _ _ R3 (remapped_invalidate 0x3f3b0000 MMU_PAGE_SIZE _)) as R4.
  simpl in R4. apply wp_bind, wp_return_if; [by split|]. intros Hc. apply wp_ret.
  apply negb_false_iff, Z.eqb_eq in Hc. subst c.
  split; [exact R4|]. split.
  - pose proof (re_flash _ _ R2) as F2. simpl in F2. rewrite F2. f_equal. unfold physical. simpl. lia.
  - apply invalidate_window. eapply (remapped_window 0x20000); [reflexivity..| |exact E3].
    by vm_compute.
Qed.

Lemma page_of_address a : 0 ≤ a ≤ U32_MAX →
  Z.land a (U32_MAX - (MMU_PAGE_SIZE - 1)) = a - a mod PAGE.
Proof.
  intros Ha. change (U32_MAX - (MMU_PAGE_SIZE - 1)) with (Z.lxor (Z.ones 16) (Z.ones 32)).
  rewrite land_high_mask by (unfold_max; lia). unfold PAGE.
  pose proof (Z.div_mod a 65536 ltac:(lia)). change (2 ^ 16) with 65536. lia.
Qed.

Lemma read_pages_wp fuel address n d :
  (n ≤ fuel)%nat → 0 ≤ address → address + Z.of_nat n ≤ 2 ^ 30 →
  wp (read_pages fuel address n) (λ r d', remapped d d' ∧
     match r with
     | Ok out => out = mem_read (flash (dv_rom d)) address n ∧
                 (d' = d ∨ window_ok (dv_rom d') OTA0_DESCRIPTOR_MAPPING)
     | Err _ => True
     end) d.
Proof.
  revert address n d. induction fuel as [|fuel IH]; intros address n d Hf Ha Hend; simpl;
    destruct (Nat.eqb_spec n 0) as [->|Hn]; try (exfalso; lia).
  1,2: apply wp_ret; split; [apply remapped_refl|split; [done|by left]].
  rewrite page_of_address by (unfold_max; lia).
  pose proof (Z.mod_pos_bound address PAGE ltac:(unfold PAGE; lia)).
  pose proof (Z.div_mod address PAGE ltac:(unfold PAGE; lia)).
  set (page := address - address mod PAGE).
  assert (page = address / PAGE * PAGE) as Hpage by (unfold page; lia).
  replace (address - page) with (address mod PAGE) by (unfold page; lia).
  unfold PAGE, MMU_PAGE_SIZE in *.
  set (count := Nat.min n (Z.to_nat (65536 - address mod 65536))).
  apply wp_bind. eapply wp_mono.
  { apply (page_copy_wp page (address mod 65536) count); unfold PAGE, MMU_PAGE_SIZE; rewrite ?Hpage.
    - by rewrite Z.mod_mul.
    - rewrite Z.div_mul by done. split; [apply Z.div_pos; lia|apply Z.div_lt_upper_bound; lia].
    - lia.
    - unfold count. lia. }
  intros [out|e] d1 [R1 Hr]; [|by split]. destruct Hr as [Hout W1].
  apply wp_bind. eapply wp_checked; [apply u32_add_ok; unfold_max; unfold count; lia|].
  apply wp_bind. eapply wp_mono; [apply IH; unfold count; lia|].
  intros [rest|e] d2 [R2 Hr]; [|split; [by eapply remapped_trans|done]].
  destruct Hr as [Hrest W2]. apply wp_ret. split; [by eapply remapped_trans|].
  rewrite Hout, Hrest, (re_flash _ _ R1). split.
  - replace n with (count + (n - count))%nat at 2 by (unfold count; lia).
    rewrite mem_read_app. f_equal. f_equal. unfold page. lia.
  - right. destruct W2 as [->|]; done.
Qed.
End windows.
