(* ===== verification/FlashOperations.v ===== *)
(** * Reads, writes and erases of encrypted flash

    What [read_update], [write_inner] and [erase_inner] of [FlashEncryption] do to
    a device, on success and on every error. *)

From stdpp Require Import base tactics numbers list option.
From S2P Require Import Prelude Rom FlashEncryption FlashWindows.

Section operations.
Context {M : Type} `{RomView M}.

Lemma read_update_wp address n (d : Device M) :
  0 ≤ address → address + Z.of_nat n ≤ 2 ^ 30 →
  wp (read_update address n) (λ r d', remapped d d' ∧
     match r with
     | Ok out => dv_initialized d = true ∧ out = mem_read (flash (dv_rom d)) address n ∧
                 (d' = d ∨ window_ok (dv_rom d') OTA0_DESCRIPTOR_MAPPING)
     | Err _ => True
     end) d.
Proof.
  intros Ha Hn. unfold read_update.
  apply wp_bind, wp_require_initialized; intros Hi; [|split; [apply remapped_refl|done]].
  apply wp_bind, wp_ok_or; [|split; [apply remapped_refl|done]]. intros [] _.
  apply wp_bind, wp_ok_or; [|split; [apply remapped_refl|done]]. intros ? _.
  eapply wp_mono; [apply read_pages_wp; lia|]. intros [out|e] d' [R K]; split; naive_solver.
Qed.

(** ** Writing *)

(** Flash from [address] on holds [data], at the indices in [lo, hi). *)
Definition holds (m : M) (address : Z) (data : bytes) (lo hi : Z) : Prop :=
  ∀ i, lo ≤ i < hi → flash m (address + i) = byte_at data (Z.to_nat i).
Definition all_erased (m : M) (lo hi : Z) : Prop := ∀ a, lo ≤ a < hi → erased m a.

Definition dwithin (lo hi : Z) (d d' : Device M) : Prop :=
  dv_initialized d' = dv_initialized d ∧ within lo hi (dv_rom d) (dv_rom d').

Lemma dwithin_refl lo hi d : dwithin lo hi d d.
Proof. split; [done|apply within_refl]. Qed.

Lemma dwithin_trans lo hi d1 d2 d3 : dwithin lo hi d1 d2 → dwithin lo hi d2 d3 → dwithin lo hi d1 d3.
Proof. intros [I1 W1] [I2 W2]. split; [congruence|by eapply within_trans]. Qed.

Lemma dwithin_weaken lo hi lo' hi' d d' :
  lo' ≤ lo → hi ≤ hi' → dwithin lo hi d d' → dwithin lo' hi' d d'.
Proof. intros Hl Hh [I W]. split; [done|by eapply within_weaken]. Qed.

Lemma unlock_within lo hi r m d :
  rom_spiflash_unlock (dv_rom d) = (r, m) → dwithin lo hi d (mkDevice m (dv_initialized d)).
Proof.
  intros E. destruct (rom_unlock_frame _ _ _ E) as (F & T & S & Er). split; [done|].
  split; simpl; intros; rewrite ?F, ?Er; auto. left. by rewrite S.
Qed.

(** What a law says of the loads of an address that is mapped to flash. *)
Lemma seen_or_coherent (m m' : M) a (P : Prop) : mmu m' = mmu m →
  (maps_flash m a → seen m' a = seen m a ∨ seen m' a = flash m' (translate m a)) →
  seen m' a = seen m a ∨ coherent m' a ∨ P.
Proof.
  intros T K. unfold coherent, maps_flash, translate in *. rewrite T.
  destruct (flash_entry (mmu m (a / PAGE))); [|by right; left]. destruct (K eq_refl); auto.
Qed.

Lemma invalidate_within lo hi v n (d : Device M) :
  dwithin lo hi d (mkDevice (rom_cache_invalidate_addr v n (dv_rom d)) (dv_initialized d)).
Proof.
  destruct (rom_invalidate_frame v n (dv_rom d)) as (F & T & Er). split; [done|].
  split; simpl; intros; rewrite ?F, ?Er; auto.
  apply seen_or_coherent; [done|]. intros Hf. rewrite F. by destruct (rom_invalidate_seen v n (dv_rom d) a Hf) as [E|[_ E]]; [right|left].
Qed.

(** A write block and an erased sector stay in their range. *)
Lemma write_within addr block m r m' :
  rom_spiflash_write_encrypted addr block m = (r, m') →
  within addr (addr + Z.of_nat (length block)) m m'.
Proof.
  intros E. destruct (rom_write_frame _ _ _ _ _ E) as (T & K & S). split; [apply K|apply K|done|].
  intros a. by apply seen_or_coherent; [|apply S].
Qed.

Lemma erase_within sector m r m' :
  rom_spiflash_erase_sector sector m = (r, m') →
  within (sector * 0x1000) (sector * 0x1000 + 0x1000) m m'.
Proof.
  intros E. destruct (rom_erase_frame _ _ _ _ E) as (T & K & S). split; [apply K|apply K|done|].
  intros a. by apply seen_or_coherent; [|apply S].
Qed.

Lemma mem_read_holds (m : M) address block j :
  mem_read (flash m) address (length block) = block → 0 ≤ j < Z.of_nat (length block) →
  flash m (address + j) = byte_at block (Z.to_nat j).
Proof.
  intros E Hj. assert (Z.to_nat j < length block)%nat as Hl by lia.
  pose proof (lookup_mem_read (flash m) address (length block) (Z.to_nat j) Hl) as L.
  rewrite E in L. apply byte_at_lookup in L. by rewrite L, Z2Nat.id by lia.
Qed.

Lemma byte_at_slice l a b i : (i < b - a)%nat → byte_at (slice l a b) i = byte_at l (a + i).
Proof.
  intros Hi. unfold byte_at, slice. rewrite !nth_lookup, lookup_take_lt, lookup_drop by done. done.
Qed.

Lemma write_blocks_wp count index address data (d : Device M) :
  0 ≤ address → address + 32 * Z.of_nat (index + count) ≤ U32_MAX →
  (32 * (index + count) ≤ length data)%nat →
  let lo := 32 * Z.of_nat index in let hi := 32 * Z.of_nat (index + count) in
  wp (write_blocks count index address data) (λ r d',
     dwithin (address + lo) (address + hi) d d' ∧
     (r = Ok tt → Forall is_byte data → all_erased (dv_rom d) (address + lo) (address + hi) →
      holds (dv_rom d') address data lo hi)) d.
Proof.
  cbv zeta. revert index d. induction count as [|count IH]; intros index d Ha Hend Hlen;
    cbn [write_blocks].
  { apply wp_ret. split; [apply dwithin_refl|]. intros _ _ _ i Hi. lia. }
  unfold_max. apply wp_bind. eapply wp_checked; [by rewrite (proj2 (Z.leb_le _ _)) by (unfold_max; lia)|].
  apply wp_bind. eapply wp_checked; [apply u32_add_ok; unfold_max; lia|].
  set (chunk := slice data (32 * index) (32 * index + 32)).
  assert (length chunk = 32%nat) as Hc by (unfold chunk; rewrite length_slice; lia).
  assert (∀ r m, rom_spiflash_write_encrypted (address + Z.of_nat index * 32) chunk (dv_rom d) = (r, m) →
    dwithin (address + 32 * Z.of_nat index) (address + 32 * Z.of_nat (index + S count))
      d (mkDevice m (dv_initialized d))) as Hw.
  { intros r m E. eapply dwithin_weaken; [| |split; [reflexivity|exact (write_within _ _ _ _ _ E)]]; lia. }
  apply wp_bind, wp_zero_or; [|intros c m E; split; [by eapply Hw|done]].
  intros m E. specialize (Hw _ _ E).
  eapply wp_mono; [apply IH; lia|]. intros r d' [W K].
  replace (S index + count)%nat with (index + S count)%nat in * by lia.
  split. { eapply dwithin_trans; [exact Hw|eapply dwithin_weaken; [| |exact W]; lia]. }
  intros Hr Hb Her i Hi. destruct (decide (i < 32 * Z.of_nat (S index))) as [Hlo|Hhi].
  - rewrite (wi_flash _ _ _ _ (proj2 W)) by lia. cbn [dv_rom].
    assert (mem_read (flash m) (address + Z.of_nat index * 32) (length chunk) = chunk) as Em.
    { eapply rom_write_ok; [exact E|intros a ?; apply Her; lia|by apply slice_bytes]. }
    replace (address + i) with (address + Z.of_nat index * 32 + (i - 32 * Z.of_nat index)) by lia.
    rewrite (mem_read_holds _ _ _ _ Em) by lia. unfold chunk. rewrite byte_at_slice by lia.
    f_equal. lia.
  - apply K; [done|done| |lia]. intros a ?. cbn [dv_rom].
    apply (wi_erased _ _ _ _ (write_within _ _ _ _ _ E)); [rewrite Hc; lia|]. apply Her. lia.
Qed.

(** A window that contains the touched range is coherent again once the range is
    invalidated; one apart from it always was. *)
Lemma invalidate_range mp address n v (m : M) :
  mp ∈ MAPPINGS → 0 ≤ address → mapped_virtual_address address n = Some v →
  window_upto m mp address (address + Z.of_nat n) →
  window_ok (rom_cache_invalidate_addr v (Z.of_nat n) m) mp.
Proof.
  intros Hmp Ha Hv W.
  destruct (mapped_virtual_address_Some _ _ _ Ha Hv) as (mp' & Hmp' & Hlo & Hphys & Hhi).
  intros a Hin. destruct (W a Hin) as [Ht Hc].
  destruct (rom_invalidate_frame v (Z.of_nat n) m) as (F & T & _).
  assert (translate (rom_cache_invalidate_addr v (Z.of_nat n) m) a = translate m a) as Et
    by by apply translate_mmu.
  split; [by eapply maps_to_mmu|]. intros _. destruct Ht as [Hf Ht]. intros _. rewrite F, Et.
  destruct (rom_invalidate_seen v (Z.of_nat n) m a Hf) as [E|[Hout E]]; [exact E|].
  rewrite E. apply Hc; [|done]. intros Hr. apply Hout.
  destruct (decide (mp' = mp)) as [->|Hne]; [unfold physical in *; lia|].
  destruct (mappings_disjoint mp mp' a (v + (physical mp a - address)) Hmp Hmp') as [_ Hd];
    [done|done|unfold in_window; lia|]. unfold physical in *. lia.
Qed.

Lemma invalidate_physical_range_wp address n (d : Device M) :
  0 ≤ address →
  wp (invalidate_physical_range address n) (λ r d', dwithin address (address + Z.of_nat n) d d' ∧
     (flash (dv_rom d') = flash (dv_rom d) ∧ erased (dv_rom d') = erased (dv_rom d)) ∧
     ∀ mp, mp ∈ MAPPINGS → r = Ok tt →
       window_upto (dv_rom d) mp address (address + Z.of_nat n) → window_ok (dv_rom d') mp) d.
Proof.
  intros Ha. unfold invalidate_physical_range.
  apply wp_bind, wp_ok_or; [|split; [apply dwithin_refl|done]]. intros v Hv.
  apply wp_bind, wp_ok_or; [|split; [apply dwithin_refl|done]]. intros [] _.
  apply wp_on_rom. intros [] m [= <-]. split; [apply invalidate_within|].
  split; [split; apply rom_invalidate_frame|].
  intros mp Hmp _. by apply invalidate_range.
Qed.

(** What a mutation of [lo, hi) leaves behind. *)
Record mutated (lo hi : Z) (d d' : Device M) (invalidated : Prop) : Prop := {
  mu_within : dwithin lo hi d d';
  mu_windows : invalidated → ∀ mp, mp ∈ MAPPINGS →
    window_ok (dv_rom d) mp → window_ok (dv_rom d') mp;
}.

Lemma mutated_apart lo hi d d' P mp :
  mutated lo hi d d' P → apart mp lo hi → window_ok (dv_rom d) mp → window_ok (dv_rom d') mp.
Proof.
  intros [[_ W] _] Hap Hw. apply (window_apart _ _ lo hi Hap).
  eapply window_within; [exact W|by apply window_ok_upto].
Qed.

Lemma mutated_here lo hi d d' : dwithin lo hi d d' → mutated lo hi d d' False.
Proof. by split. Qed.

Lemma write_inner_any address data inv (d : Device M) :
  0 ≤ address → address + Z.of_nat (length data) ≤ U32_MAX →
  let hi := address + Z.of_nat (length data) in
  wp (write_inner address data inv) (λ r d',
     mutated address hi d d' (inv = true ∧ r = Ok tt) ∧
     (r = Ok tt → dv_initialized d = true ∧
        (Forall is_byte data → all_erased (dv_rom d) address hi → mem_read (flash (dv_rom d')) address (length data) = data)))
     d.
Proof.
  intros Ha Hend. cbv zeta. unfold write_inner.
  assert (∀ d', dwithin address (address + Z.of_nat (length data)) d d' → ∀ e : FlashEncryptionError,
    mutated address (address + Z.of_nat (length data)) d d' (inv = true ∧ @Err _ unit e = Ok tt)) as Herr
    by (intros d' W e; split; [done|intros [_ [=]]]).
  apply wp_bind, wp_require_initialized; intros Hi; [|split; [apply Herr, dwithin_refl|done]].
  apply wp_bind, wp_return_if; intros Hal; [split; [apply Herr, dwithin_refl|done]|].
  apply negb_false_iff, andb_true_iff in Hal as [_ Hlen]. apply is_multiple_of_spec in Hlen.
  apply wp_bind, wp_result_or; [|intros c m E; split; [by eapply Herr, unlock_within|done]].
  intros m E. pose proof (unlock_within address (address + Z.of_nat (length data)) _ _ _ E) as W0.
  destruct (rom_unlock_frame _ _ _ E) as (F & T & S & Er).
  pose proof (Z.div_mod (Z.of_nat (length data)) 32 ltac:(lia)) as Hd. rewrite Hlen in Hd.
  pose proof (Nat2Z.inj_div (length data) 32) as Hd'. change (Z.of_nat 32) with 32 in Hd'.
  assert (32 * Z.of_nat (0 + length data / 32) = Z.of_nat (length data)) as Hn by lia.
  apply wp_bind. eapply wp_mono; [apply write_blocks_wp; [done|lia|lia]|].
  rewrite Hn, Z.mul_0_r, Z.add_0_r. intros [[]|e] d1 [W1 K1];
    [|split; [eapply Herr, dwithin_trans; done|done]].
  pose proof (dwithin_trans _ _ _ _ _ W0 W1) as W.
  assert (Forall is_byte data → all_erased (dv_rom d) address (address + Z.of_nat (length data)) →
    holds (dv_rom d1) address data 0 (Z.of_nat (length data))) as K
    by (intros Hb Hall; apply K1; [done|done|]; intros a Hin; simpl; rewrite Er; by apply Hall).
  assert (∀ m', flash m' = flash (dv_rom d1) → Forall is_byte data →
    all_erased (dv_rom d) address (address + Z.of_nat (length data)) →
    mem_read (flash m') address (length data) = data) as Hread.
  { intros m' Fm Hb Hall. apply list_eq. intros i. destruct (decide (i < length data)%nat) as [Hi'|].
    - rewrite lookup_mem_read, Fm, K by (done || lia). rewrite Nat2Z.id.
      destruct (lookup_lt_is_Some_2 data i Hi') as [x Hx]. by rewrite (byte_at_lookup _ _ _ Hx).
    - rewrite !lookup_ge_None_2; rewrite ?length_mem_read; auto with lia. }
  destruct inv; [|apply wp_ret; split; [split; [done|intros [[=] _]]|auto]].
  eapply wp_mono; [by apply invalidate_physical_range_wp|]. intros r d' (W2 & [F2 E2] & K2).
  split.
  - split; [by eapply dwithin_trans|]. intros [_ ->] mp Hmp Hw. apply K2; [done..|].
    eapply window_within; [apply W|by apply window_ok_upto].
  - auto.
Qed.

(** Most callers write something. *)
Lemma write_inner_wp address data inv (d : Device M) :
  0 ≤ address → address + Z.of_nat (length data) ≤ U32_MAX → (0 < length data)%nat →
  let hi := address + Z.of_nat (length data) in
  wp (write_inner address data inv) (λ r d',
     mutated address hi d d' (inv = true ∧ r = Ok tt) ∧
     (r = Ok tt → dv_initialized d = true ∧
        (Forall is_byte data → all_erased (dv_rom d) address hi → mem_read (flash (dv_rom d')) address (length data) = data)))
     d.
Proof. intros Ha Hend _. by apply write_inner_any. Qed.

(** ** Erasing *)

Definition sector_base (a : Z) : Z := a / 0x1000 * 0x1000.

(** A successful erase leaves the sector erased and what was erased erased. *)
Lemma rom_erase_all sector (m m' : M) a :
  rom_spiflash_erase_sector sector m = (None, m') →
  erased m a ∨ sector * 0x1000 ≤ a < sector * 0x1000 + 0x1000 → erased m' a.
Proof.
  intros E Ha. destruct (rom_erase_frame _ _ _ _ E) as (_ & K & _).
  destruct (decide (sector * 0x1000 ≤ a < sector * 0x1000 + 0x1000)) as [|Hout];
    [by eapply rom_erase_ok|].
  destruct Ha as [Her|]; [|done]. by apply K.
Qed.

Lemma erase_sectors_wp lo hi sectors (d : Device M) :
  Forall (λ s, lo ≤ sector_base s ∧ sector_base s + 0x1000 ≤ hi) sectors →
  wp (erase_sectors sectors) (λ r d', dwithin lo hi d d' ∧
     (r = Ok tt → ∀ a, erased (dv_rom d) a ∨
          (∃ s, s ∈ sectors ∧ sector_base s ≤ a < sector_base s + 0x1000) →
        erased (dv_rom d') a)) d.
Proof.
  revert d. induction sectors as [|s sectors IH]; intros d Hs; cbn [erase_sectors].
  { apply wp_ret. split; [apply dwithin_refl|]. intros _ a [|(s & Hin & _)]; [done|].
    by apply elem_of_nil in Hin. }
  inversion_clear Hs as [|? ? [Hlo Hhi] Hs'].
  assert (∀ r m, rom_spiflash_erase_sector (s / 0x1000) (dv_rom d) = (r, m) →
    dwithin lo hi d (mkDevice m (dv_initialized d))) as W0.
  { intros r m E. eapply dwithin_weaken; [exact Hlo|exact Hhi|]. split; [done|]. by eapply erase_within. }
  apply wp_bind, wp_result_or; [|intros c m E; split; [by eapply W0|done]].
  intros m E. eapply wp_mono; [by apply IH|]. intros r d' [W K].
  split; [eapply dwithin_trans; [by eapply W0|done]|].
  intros Hr a Ha. apply K; [done|]. cbn [dv_rom].
  destruct Ha as [Her|(s' & Hin & Ha)]; [left; eapply rom_erase_all; eauto|].
  apply elem_of_cons in Hin as [->|Hin]; [left; eapply rom_erase_all; eauto|right; eauto].
Qed.

Lemma elem_of_step_by first last stride s :
  0 < stride → s ∈ step_by first last stride →
  ∃ i, 0 ≤ i ∧ s = first + stride * i ∧ i < (last - first + stride - 1) / stride.
Proof.
  intros Hs Hin. unfold step_by in Hin. apply list_elem_of_fmap in Hin as (i & -> & Hi).
  apply elem_of_seq in Hi. exists (Z.of_nat i). lia.
Qed.

Lemma step_by_elem first last stride i :
  0 ≤ i → i < (last - first + stride - 1) / stride → first + stride * i ∈ step_by first last stride.
Proof.
  intros Hi Hlt. unfold step_by. apply list_elem_of_fmap. exists (Z.to_nat i). split; [by rewrite Z2Nat.id|].
  apply elem_of_seq. lia.
Qed.

Lemma erase_inner_any address n inv (d : Device M) :
  0 ≤ address → address + Z.of_nat n ≤ U32_MAX →
  let hi := address + Z.of_nat n in
  wp (erase_inner address n inv) (λ r d',
     mutated address hi d d' (inv = true ∧ r = Ok tt) ∧
     (r = Ok tt → dv_initialized d = true ∧ all_erased (dv_rom d') address hi)) d.
Proof.
  intros Ha Hend. cbv zeta. unfold erase_inner.
  assert (∀ d', dwithin address (address + Z.of_nat n) d d' → ∀ e : FlashEncryptionError,
    mutated address (address + Z.of_nat n) d d' (inv = true ∧ @Err _ unit e = Ok tt)) as Herr
    by (intros d' W e; split; [done|intros [_ [=]]]).
  apply wp_bind, wp_require_initialized; intros Hi; [|split; [apply Herr, dwithin_refl|done]].
  apply wp_bind, wp_return_if; intros Hal; [split; [apply Herr, dwithin_refl|done]|].
  bool_to_prop. repeat match goal with H : is_multiple_of _ _ = true |- _ =>
    apply is_multiple_of_spec in H end.
  apply wp_bind, wp_result_or; [|intros c m E; split; [by eapply Herr, unlock_within|done]].
  intros m E. pose proof (unlock_within address (address + Z.of_nat n) _ _ _ E) as W0.
  destruct (rom_unlock_frame _ _ _ E) as (F & T & S & Er).
  apply wp_bind, wp_ok_or; [|split; [by apply Herr|done]]. intros [] _.
  apply wp_bind, wp_ok_or; [|split; [by apply Herr|done]]. intros fin Hfin.
  apply u32_add_Some in Hfin as [-> _].
  pose proof (Z.div_mod (Z.of_nat n) 4096 ltac:(lia)). pose proof (Z.div_mod address 4096 ltac:(lia)).
  set (k := Z.of_nat n / 4096) in *. set (p := address / 4096) in *.
  assert ((address + Z.of_nat n - address + 0x1000 - 1) / 0x1000 = k) as Hk.
  { symmetry. apply (Z.div_unique _ 4096 k 4095); lia. }
  assert (∀ i, sector_base (address + 0x1000 * i) = address + 0x1000 * i) as Hbase.
  { intros i. unfold sector_base. replace (address + 0x1000 * i) with ((p + i) * 4096) by lia.
    by rewrite Z.div_mul. }
  apply wp_bind. eapply wp_mono.
  { apply (erase_sectors_wp address (address + Z.of_nat n)). apply Forall_forall. intros s Hs.
    apply list_elem_of_In, elem_of_step_by in Hs as (i & Hi0 & -> & Hik); [|done]. rewrite Hk in Hik. rewrite Hbase. lia. }
  intros [[]|e] d1 [W1 K1]; [|split; [by eapply Herr, dwithin_trans|done]].
  pose proof (dwithin_trans _ _ _ _ _ W0 W1) as W.
  assert (all_erased (dv_rom d1) address (address + Z.of_nat n)) as Hall.
  { intros a Hin. apply K1; [done|]. right.
    exists (address + 0x1000 * ((a - address) / 0x1000)).
    pose proof (Z.div_mod (a - address) 4096 ltac:(lia)).
    pose proof (Z.mod_pos_bound (a - address) 4096 ltac:(lia)).
    split; [apply step_by_elem; [apply Z.div_pos; lia|rewrite Hk; nia]|]. rewrite Hbase. lia. }
  destruct inv.
  - eapply wp_mono; [by apply invalidate_physical_range_wp|]. intros r d' (W2 & [F2 E2] & K2). split.
    + split; [by eapply dwithin_trans|]. intros [_ ->] mp Hmp Hw. apply K2; [done..|].
      eapply window_within; [apply W|by apply window_ok_upto].
    + intros ->. split; [done|]. intros a Hin. rewrite E2. by apply Hall.
  - apply wp_ret. split; [split; [done|intros [[=] _]]|]. by intros _.
Qed.

Lemma erase_inner_wp address n inv (d : Device M) :
  0 ≤ address → address + Z.of_nat n ≤ U32_MAX → (0 < n)%nat →
  let hi := address + Z.of_nat n in
  wp (erase_inner address n inv) (λ r d',
     mutated address hi d d' (inv = true ∧ r = Ok tt) ∧
     (r = Ok tt → dv_initialized d = true ∧ all_erased (dv_rom d') address hi)) d.
Proof. intros Ha Hend _. by apply erase_inner_any. Qed.
End operations.
