(* ===== verification/Ota.v ===== *)
(** * A/B boot selection

    [src/src/platform/ota.rs] in the release configuration: the two [otadata]
    records, which of them is active, which slot runs, and the two operations that
    rewrite a record: activating an update and confirming the running image. *)

From stdpp Require Import base tactics numbers list option.
From S2P Require Import Prelude Interfaces SignedImage Rom FlashEncryption.

Definition OTADATA_OFFSET : Z := 0xF000.
Definition OTA_SECTOR_SIZE : Z := 0x1000.
Definition OTA_ENTRY_SIZE : nat := 32.
Definition OTA_SLOT_COUNT : Z := 2.
Definition OTA_0_OFFSET : Z := 0x20000.
Definition OTA_1_OFFSET : Z := 0x200000.
Definition OTA_APP_DESCRIPTOR_OFFSET : Z := 32.
Definition APP_DESCRIPTOR_SIZE : nat := 256.
Definition APP_DESCRIPTOR_MAGIC : Z := 0xABCD5432.
Definition OTA_APP_VERSION_OFFSET : nat := 16.
Definition APP_VERSION_SIZE : nat := 32.
Definition DROM_START : Z := 0x3f000000.
Definition DROM_APP_END : Z := 0x3f390000.
Definition MMU_FLASH : Z := Z.shiftl 1 15.
Definition MMU_PAGE_MASK : Z := 0x3fff.
Definition OTA_STATE_PENDING_VERIFY : Z := 1.
Definition OTA_STATE_VALID : Z := 2.
Definition OTA_STATE_INVALID : Z := 3.
Definition OTA_STATE_ABORTED : Z := 4.

(** ** Records *)

Record OtaEntry := mkOtaEntry {
  sequence : Z;
  state : Z;
  crc : Z;
}.

#[export] Instance OtaEntry_eq_dec : EqDecision OtaEntry.
Proof. solve_decision. Defined.

Definition ota_crc (sequence : Z) : Z := u32_not (foldl crc_byte 0 (le_encode 4 sequence)).

Definition decode (b : bytes) : OtaEntry :=
  mkOtaEntry (le_decode (slice b 0 4)) (le_decode (slice b 24 28)) (le_decode (slice b 28 32)).

Definition is_selectable (e : OtaEntry) : bool :=
  negb (sequence e =? U32_MAX)
  && negb (state e =? OTA_STATE_INVALID)
  && negb (state e =? OTA_STATE_ABORTED)
  && (crc e =? ota_crc (sequence e)).

Definition encode_with_state (e : OtaEntry) (state : Z) : bytes :=
  let b := replicate OTA_ENTRY_SIZE 0xff in
  let b := put b 0 (le_encode 4 (sequence e)) in
  let b := put b 24 (le_encode 4 state) in
  put b 28 (le_encode 4 (ota_crc (sequence e))).

(** [[OtaEntry; 2]], indexed by 0 and 1. *)
Definition Entries : Type := OtaEntry * OtaEntry.
Definition entry_at (entries : Entries) (i : Z) : OtaEntry := if i =? 0 then entries.1 else entries.2.

Definition active_entry (entries : Entries) : option Z :=
  match is_selectable entries.1, is_selectable entries.2 with
  | true, true => if sequence entries.2 <=? sequence entries.1 then Some 0 else Some 1
  | true, false => Some 0
  | false, true => Some 1
  | false, false => None
  end.

Definition slot_offset (sequence : Z) : option Z :=
  value ← u32_sub sequence 1;
  match value mod OTA_SLOT_COUNT with
  | 0 => Some OTA_0_OFFSET
  | 1 => Some OTA_1_OFFSET
  | _ => None
  end.

Definition update_layout_from_entries (entries : Entries) (running_offset : Z) : option (Z * Z * Z) :=
  active ← active_entry entries;
  if negb (state (entry_at entries active) =? OTA_STATE_VALID) then None
  else
    let sequence := sequence (entry_at entries active) in
    offset ← slot_offset sequence;
    if negb (offset =? running_offset) then None
    else
      value ← u32_sub sequence 1;
      Some (value mod OTA_SLOT_COUNT, sequence, 1 - active).

Record QualifiedLayout := mkQualifiedLayout {
  running_slot : Z;
  sequences : Z * Z;
}.

Definition sequence_of (s : Z * Z) (slot : Z) : Z := if slot =? 0 then s.1 else s.2.
Definition set_sequence (s : Z * Z) (slot v : Z) : Z * Z := if slot =? 0 then (v, s.2) else (s.1, v).

(** One round of the loop over the entries. *)
Definition qualify_entry (entry : OtaEntry) (sequences : Z * Z) : option (Z * Z) :=
  if negb (is_selectable entry) || negb (state entry =? OTA_STATE_VALID) then None
  else
    offset ← slot_offset (sequence entry);
    slot ← (if offset =? OTA_0_OFFSET then Some 0
            else if offset =? OTA_1_OFFSET then Some 1 else None);
    if negb (sequence_of sequences slot =? 0) then None
    else Some (set_sequence sequences slot (sequence entry)).

Definition qualified_layout_from_entries (entries : Entries) (running_offset : Z)
  : option QualifiedLayout :=
  active ← active_entry entries;
  sequences ← qualify_entry entries.1 (0, 0);
  sequences ← qualify_entry entries.2 sequences;
  offset ← slot_offset (sequence (entry_at entries active));
  if negb (offset =? running_offset) then None
  else
    value ← u32_sub (sequence (entry_at entries active)) 1;
    Some (mkQualifiedLayout (value mod OTA_SLOT_COUNT) sequences).

Definition activation_is_valid (active_slot active_sequence expected_entry target_slot sequence
    activation_entry : Z) : bool :=
  (target_slot <=? 1) && (activation_entry <=? 1)
  && negb (target_slot =? active_slot)
  && (activation_entry =? expected_entry)
  && bool_decide ((λ value, value mod OTA_SLOT_COUNT) <$> u32_sub sequence 1 = Some target_slot)
  && (active_sequence <? sequence).

Definition descriptor_matches_version (descriptor version : bytes) : bool :=
  if negb (le_decode (slice descriptor 0 4) =? APP_DESCRIPTOR_MAGIC) then false
  else if (length version =? 0)%nat || (APP_VERSION_SIZE <=? length version)%nat then false
  else
    let field := slice descriptor OTA_APP_VERSION_OFFSET (OTA_APP_VERSION_OFFSET + APP_VERSION_SIZE) in
    bytes_eqb (take (length version) field) version && (byte_at field (length version) =? 0).

Definition running_offset_from_mapping (descriptor_address mmu_entry : Z) : option Z :=
  if negb ((DROM_START <=? descriptor_address) && (descriptor_address <? DROM_APP_END))
     || negb (Z.land descriptor_address 0xffff =? 32)
     || negb (Z.land mmu_entry (u32_not MMU_PAGE_MASK) =? MMU_FLASH)
  then None
  else
    let offset := Z.shiftl (Z.land mmu_entry MMU_PAGE_MASK) 16 in
    if (offset =? OTA_0_OFFSET) || (offset =? OTA_1_OFFSET) then Some offset else None.

Definition confirmation_matches_running_image (entry : OtaEntry) (running_offset : Z)
    (descriptor version : bytes) (secure_version : Z) : bool :=
  (state entry =? OTA_STATE_PENDING_VERIFY)
  && bool_decide (slot_offset (sequence entry) = Some running_offset)
  && descriptor_matches_version descriptor version
  && (le_decode (slice descriptor 4 8) =? secure_version).

Definition update_slot_offset (slot : Z) : option Z :=
  match slot with
  | 0 => Some OTA_0_OFFSET
  | 1 => Some OTA_1_OFFSET
  | _ => None
  end.

(** ** On the device *)

Inductive ConfirmError :=
  | CE_FlashRead | CE_FlashUnlock | CE_FlashErase | CE_FlashWrite | CE_ReadbackMismatch
  | CE_InvalidLayout.

Section device.
Context {M : Type} `{Rom M}.

Definition ota_step : Type → Type := step (Device M) ConfirmError.

Definition running_app_offset (descriptor_address : Z) : ota_step Z :=
  return_if (negb ((DROM_START <=? descriptor_address) && (descriptor_address <? DROM_APP_END)))
    CE_InvalidLayout;;
  let entry_index := 0x80 + Z.shiftr (Z.land descriptor_address 0x3fffff) 16 in
  let entry_address := 0x61801000 + entry_index * 4 in
  d ← get_state;
  let entry := rom_read_volatile (dv_rom d) entry_address in
  ok_or (running_offset_from_mapping descriptor_address entry) CE_InvalidLayout.

Definition read_flash (address : Z) (length : nat) : ota_step bytes :=
  map_err (read address length) CE_FlashRead.

Definition replace_entry (address : Z) (replacement : bytes) : ota_step unit :=
  map_err (erase address (Z.to_nat OTA_SECTOR_SIZE)) CE_FlashErase;;
  map_err (write address replacement) CE_FlashWrite.

Definition entry_address (index : Z) : Z := OTADATA_OFFSET + index * OTA_SECTOR_SIZE.

(** Both records, in order. *)
Definition read_records : ota_step Entries :=
  raw0 ← read_flash (entry_address 0) OTA_ENTRY_SIZE;
  raw1 ← read_flash (entry_address 1) OTA_ENTRY_SIZE;
  mret (decode raw0, decode raw1).

Definition read_entries : ota_step (Entries * Z) :=
  entries ← read_records;
  active ← ok_or (active_entry entries) CE_InvalidLayout;
  mret (entries, active).

Definition update_layout (descriptor_address : Z) : ota_step UpdateLayout :=
  running_offset ← running_app_offset descriptor_address;
  '(entries, active) ← read_entries;
  '(slot, sequence, activation_entry) ←
    ok_or (update_layout_from_entries entries running_offset) CE_InvalidLayout;
  mret (mkUpdateLayout slot sequence activation_entry).

Definition qualified_layout (descriptor_address : Z) : ota_step QualifiedLayout :=
  running_offset ← running_app_offset descriptor_address;
  '(entries, _) ← read_entries;
  ok_or (qualified_layout_from_entries entries running_offset) CE_InvalidLayout.

(** Replace a record and read it back. *)
Definition replace_and_verify (address : Z) (replacement : bytes) : ota_step unit :=
  replace_entry address replacement;;
  readback ← read_flash address OTA_ENTRY_SIZE;
  return_if (negb (bytes_eqb readback replacement)) CE_ReadbackMismatch.

Definition activate_update (target_slot sequence activation_entry descriptor_address : Z)
  : ota_step unit :=
  layout ← update_layout descriptor_address;
  return_if (negb (activation_is_valid (active_slot layout) (active_sequence layout)
                     (Interfaces.activation_entry layout) target_slot sequence activation_entry))
    CE_InvalidLayout;;
  let replacement := encode_with_state (mkOtaEntry sequence 0 (ota_crc sequence)) 0 in
  replace_and_verify (entry_address activation_entry) replacement.

Definition confirm_running_image (version : bytes) (secure_version descriptor_address : Z)
  : ota_step bool :=
  running_offset ← running_app_offset descriptor_address;
  entries ← read_records;
  match active_entry entries with
  | None => mret false
  | Some active =>
      let entry := entry_at entries active in
      if negb (state entry =? OTA_STATE_PENDING_VERIFY) then mret false
      else match slot_offset (sequence entry) with
      | None => mret false
      | Some app_offset =>
          descriptor ← read_flash (app_offset + OTA_APP_DESCRIPTOR_OFFSET) APP_DESCRIPTOR_SIZE;
          if negb (confirmation_matches_running_image entry running_offset descriptor version
                     secure_version)
          then mret false
          else
            replace_and_verify (entry_address active) (encode_with_state entry OTA_STATE_VALID);;
            mret true
      end
  end.
End device.
