(* ===== verification/OtaRecords.v ===== *)
(** * The boot records

    Properties of the [otadata] records of [Ota]: encoding, the CRC, the choice of
    the active record, and what a completed or an interrupted activation makes of
    that choice. *)

From stdpp Require Import base tactics numbers list option.
From S2P Require Import Prelude Interfaces SignedImage Rom FlashEncryption Ota.

(** ** The CRC of a sequence number *)

Lemma ota_crc_register z : is_u32 z → ota_crc z = u32_not (Nat.iter 32 crc_bit z).
Proof.
  unfold is_u32. intros Hz. unfold ota_crc.
  rewrite crc_le_encode by (change (256 ^ Z.of_nat 4) with (2 ^ 32); lia). by rewrite Z.lxor_0_l.
Qed.

Lemma ota_crc_u32 z : is_u32 z → is_u32 (ota_crc z).
Proof.
  intros. apply u32_not_u32, crc_fold_u32; [by vm_compute|apply le_encode_bytes].
Qed.

Lemma ota_crc_inj x y : is_u32 x → is_u32 y → ota_crc x = ota_crc y → x = y.
Proof.
  intros Hx Hy E. rewrite !ota_crc_register in E by done.
  by apply u32_not_inj, iter_crc_bit_inj in E.
Qed.

Lemma ota_crc_erased z : is_u32 z → ota_crc z = U32_MAX → z = 0.
Proof. intros Hz E. apply ota_crc_inj; [done|by vm_compute|]. rewrite E. by vm_compute. Qed.

(** ** Encoding *)

Lemma length_encode_with_state e st : length (encode_with_state e st) = OTA_ENTRY_SIZE.
Proof.
  unfold encode_with_state. rewrite !length_put; rewrite ?length_put;
    rewrite ?length_le_encode, ?length_replicate; unfold OTA_ENTRY_SIZE; simpl; lia.
Qed.

(** The record as its four parts: sequence, label, state, CRC. *)
Lemma encode_with_state_parts e st :
  encode_with_state e st =
    le_encode 4 (sequence e) ++ replicate 20 255 ++ le_encode 4 st ++ le_encode 4 (ota_crc (sequence e)).
Proof. reflexivity. Qed.

Lemma decode_parts s st c (label : bytes) :
  is_u32 s → is_u32 st → is_u32 c → length label = 20%nat →
  decode (le_encode 4 s ++ label ++ le_encode 4 st ++ le_encode 4 c) = mkOtaEntry s st c.
Proof.
  intros Hs Hst Hc Hl. unfold decode.
  assert (slice (le_encode 4 s ++ label ++ le_encode 4 st ++ le_encode 4 c) 0 4 = le_encode 4 s) as ->
    by (apply (slice_app_mid [] (le_encode 4 s)); rewrite ?length_le_encode; done).
  assert (slice (le_encode 4 s ++ label ++ le_encode 4 st ++ le_encode 4 c) 24 28 = le_encode 4 st) as ->.
  { rewrite (app_assoc (le_encode 4 s)). apply slice_app_mid;
      rewrite ?length_app, ?length_le_encode, ?Hl; done. }
  assert (slice (le_encode 4 s ++ label ++ le_encode 4 st ++ le_encode 4 c) 28 32 = le_encode 4 c) as ->.
  { rewrite (app_assoc (le_encode 4 s)), (app_assoc (le_encode 4 s ++ label)).
    rewrite <- (app_nil_r (le_encode 4 c)) at 1. apply slice_app_mid;
      rewrite ?length_app, ?length_le_encode, ?Hl; done. }
  rewrite !le_decode_encode by done. done.
Qed.

Lemma decode_encode e st :
  is_u32 (sequence e) → is_u32 st →
  decode (encode_with_state e st) = mkOtaEntry (sequence e) st (ota_crc (sequence e)).
Proof.
  intros Hs Hst. rewrite encode_with_state_parts. apply decode_parts; [done..|by apply ota_crc_u32|done].
Qed.

Lemma decode_u32 b : Forall is_byte b → length b = OTA_ENTRY_SIZE →
  is_u32 (sequence (decode b)) ∧ is_u32 (state (decode b)) ∧ is_u32 (crc (decode b)).
Proof.
  intros Hb Hl. unfold OTA_ENTRY_SIZE in Hl. repeat split; simpl;
    try (apply le_decode_slice_u32; [done|lia]).
Qed.

(** ** An interrupted write *)

Lemma le_decode_slice4 b a : (a + 4 ≤ length b)%nat →
  le_decode (slice b a (a + 4)) =
    byte_at b a + 256 * (byte_at b (a + 1) + 256 * (byte_at b (a + 2) + 256 * byte_at b (a + 3))).
Proof.
  intros Ha. unfold slice, byte_at. replace (a + 4 - a)%nat with 4%nat by lia.
  pose proof (length_drop b a) as Hl. rewrite !nth_lookup.
  rewrite <- (Nat.add_0_r a) at 2. rewrite <- !lookup_drop.
  destruct (drop a b) as [|x0 [|x1 [|x2 [|x3 rest]]]]; simpl in *; lia.
Qed.

(** The first [k] bytes of a record programmed into an erased sector. *)
Definition torn (k : nat) (record : bytes) : bytes :=
  take k record ++ replicate (OTA_ENTRY_SIZE - k) 255.

Lemma length_torn k record :
  (k ≤ OTA_ENTRY_SIZE)%nat → length record = OTA_ENTRY_SIZE → length (torn k record) = OTA_ENTRY_SIZE.
Proof. intros. unfold torn. rewrite length_app, length_take, length_replicate. lia. Qed.

Lemma byte_at_torn k record i :
  (k ≤ OTA_ENTRY_SIZE)%nat → length record = OTA_ENTRY_SIZE → (i < OTA_ENTRY_SIZE)%nat →
  byte_at (torn k record) i = if decide (i < k)%nat then byte_at record i else 255.
Proof.
  intros Hk Hr Hi. unfold byte_at, torn. rewrite !nth_lookup. case_decide.
  - rewrite lookup_app_l, lookup_take_lt by (rewrite ?length_take; lia). done.
  - rewrite lookup_app_r, lookup_replicate_2 by (rewrite length_take; lia). done.
Qed.

(** A field of a torn record: whole, erased, or partly erased from the top. *)
Lemma torn_field k record a :
  (k ≤ OTA_ENTRY_SIZE)%nat → length record = OTA_ENTRY_SIZE → (a + 4 ≤ OTA_ENTRY_SIZE)%nat →
  Forall is_byte record →
  let v := le_decode (slice (torn k record) a (a + 4)) in
  ((a + 4 ≤ k)%nat → v = le_decode (slice record a (a + 4))) ∧
  ((k ≤ a)%nat → v = U32_MAX) ∧ ((k < a + 4)%nat → 255 * 2 ^ 24 ≤ v).
Proof.
  intros Hk Hr Ha Hb. cbv zeta. rewrite !le_decode_slice4 by (rewrite ?length_torn; lia).
  rewrite !byte_at_torn by lia.
  pose proof (byte_at_byte record a Hb). pose proof (byte_at_byte record (a + 1) Hb).
  pose proof (byte_at_byte record (a + 2) Hb).
  unfold is_byte in *. unfold_max. repeat case_decide; repeat split; intros; lia.
Qed.

Lemma torn_decode k record :
  (k ≤ OTA_ENTRY_SIZE)%nat → length record = OTA_ENTRY_SIZE → Forall is_byte record →
  let t := decode (torn k record) in let r := decode record in
  ((4 ≤ k)%nat → sequence t = sequence r) ∧ ((k < 4)%nat → sequence t ≠ 0) ∧
  ((28 ≤ k)%nat → state t = state r) ∧ ((k ≤ 28)%nat → crc t = U32_MAX) ∧ is_u32 (sequence t).
Proof.
  intros Hk Hl Hb. cbv zeta. unfold decode, sequence, state, crc.
  destruct (torn_field k record 0 Hk Hl ltac:(unfold OTA_ENTRY_SIZE; lia) Hb) as (S1 & _ & S3).
  destruct (torn_field k record 24 Hk Hl ltac:(unfold OTA_ENTRY_SIZE; lia) Hb) as (T1 & _).
  destruct (torn_field k record 28 Hk Hl ltac:(unfold OTA_ENTRY_SIZE; lia) Hb) as (C1 & C2 & _).
  split; [exact S1|]. split; [intros Hk4 E; specialize (S3 Hk4); change (0 + 4)%nat with 4%nat in S3; lia|].
  split; [exact T1|]. split; [exact C2|].
  apply (le_decode_slice_u32 _ 0); [|rewrite length_torn by done; unfold OTA_ENTRY_SIZE; lia].
  apply Forall_app_2; [by apply Forall_take|apply Forall_replicate; unfold is_byte; lia].
Qed.

Lemma encode_bytes e st : Forall is_byte (encode_with_state e st).
Proof.
  rewrite encode_with_state_parts. repeat apply Forall_app_2; try apply le_encode_bytes.
  apply Forall_replicate. unfold is_byte. lia.
Qed.

Lemma selectable_inv e : is_selectable e = true →
  sequence e ≠ U32_MAX ∧ state e ≠ OTA_STATE_INVALID ∧ state e ≠ OTA_STATE_ABORTED ∧
  crc e = ota_crc (sequence e).
Proof. unfold is_selectable. intros. by bool_to_prop. Qed.

(** While a record is being programmed into an erased sector, it is either not
    selectable or already complete: the CRC is the last field, and the only
    sequence an erased CRC would accept is 0. *)
Lemma torn_record e st k :
  is_u32 (sequence e) → 0 < sequence e → is_u32 st → (k ≤ OTA_ENTRY_SIZE)%nat →
  is_selectable (decode (torn k (encode_with_state e st))) = false ∨
  decode (torn k (encode_with_state e st)) = decode (encode_with_state e st).
Proof.
  intros Hs Hpos Hst Hk.
  destruct (torn_decode k (encode_with_state e st) Hk (length_encode_with_state e st) (encode_bytes e st))
    as (S1 & S2 & T1 & C1 & Hu).
  rewrite decode_encode in * by done. cbn [sequence state] in S1, T1.
  destruct (decode (torn k (encode_with_state e st))) as [s' st' c'] eqn:E.
  cbn [sequence state crc] in *.
  destruct (is_selectable (mkOtaEntry s' st' c')) eqn:Sel; [right|by left].
  apply selectable_inv in Sel as (_ & _ & _ & Hc). cbn [sequence crc] in Hc.
  destruct (decide (k ≤ 28)%nat) as [Hk28|]; [exfalso|].
  - rewrite C1 in Hc by done. symmetry in Hc. apply ota_crc_erased in Hc; [|done].
    destruct (decide (4 ≤ k)%nat); [rewrite S1 in Hc by done; lia|apply S2; [lia|done]].
  - rewrite S1 in * by lia. rewrite T1, Hc by lia. done.
Qed.

(** ** Which record is active *)

Definition replace_at (entries : Entries) (i : Z) (e : OtaEntry) : Entries :=
  if i =? 0 then (e, entries.2) else (entries.1, e).

(** The flash offset of the application the bootloader selects. *)
Definition boots (entries : Entries) : option Z :=
  active ← active_entry entries; slot_offset (sequence (entry_at entries active)).

Lemma slot_offset_spec s off : slot_offset s = Some off →
  1 ≤ s ∧ update_slot_offset ((s - 1) mod 2) = Some off ∧ 0 ≤ (s - 1) mod 2 ≤ 1 ∧
  ((s - 1) mod 2 = 0 ∧ off = OTA_0_OFFSET ∨ (s - 1) mod 2 = 1 ∧ off = OTA_1_OFFSET).
Proof.
  unfold slot_offset, OTA_SLOT_COUNT. intros E. apply bind_Some in E as (v & Ev & E).
  apply u32_sub_Some in Ev as [-> ?]. pose proof (Z.mod_pos_bound (s - 1) 2 ltac:(lia)) as Hm.
  assert ((s - 1) mod 2 = 0 ∨ (s - 1) mod 2 = 1) as [Hv|Hv] by lia; rewrite Hv in *;
    simplify_eq; repeat split; auto; lia.
Qed.

Lemma slot_offset_mod s : 1 ≤ s → slot_offset s = update_slot_offset ((s - 1) mod 2).
Proof.
  intros Hs. unfold slot_offset, OTA_SLOT_COUNT. rewrite u32_sub_ok by done. cbn [mbind option_bind].
  pose proof (Z.mod_pos_bound (s - 1) 2 ltac:(lia)).
  assert ((s - 1) mod 2 = 0 ∨ (s - 1) mod 2 = 1) as [-> | ->] by lia; done.
Qed.

(** The active record is selectable and no selectable record has a greater
    sequence. *)
Lemma active_entry_spec entries a : active_entry entries = Some a →
  (a = 0 ∨ a = 1) ∧ is_selectable (entry_at entries a) = true ∧
  (is_selectable (entry_at entries (1 - a)) = true →
     sequence (entry_at entries (1 - a)) ≤ sequence (entry_at entries a)).
Proof.
  unfold active_entry. destruct entries as [e0 e1]. simpl. intros E.
  destruct (is_selectable e0) eqn:S0, (is_selectable e1) eqn:S1; simplify_eq;
    try destruct (_ <=? _) eqn:L; bool_to_prop; simplify_eq; unfold entry_at; simpl;
    rewrite ?S0, ?S1; repeat split; auto; intros; try done; lia.
Qed.

Lemma active_entry_other entries a e : active_entry entries = Some a →
  active_entry (replace_at entries (1 - a) e) =
    (if is_selectable e && (sequence (entry_at entries a) <? sequence e) then Some (1 - a)
     else if is_selectable e && (sequence (entry_at entries a) =? sequence e) then Some 0
     else Some a).
Proof.
  intros E. destruct (active_entry_spec _ _ E) as ([-> | ->] & Sel & _); clear E;
    destruct entries as [e0 e1]; unfold entry_at, replace_at, active_entry in *; simpl in *; rewrite Sel;
    destruct (is_selectable e); simpl; try done.
  - destruct (Z.leb_spec (sequence e) (sequence e0)), (Z.ltb_spec (sequence e0) (sequence e)); try lia;
      try done. by destruct (_ =? _).
  - destruct (Z.leb_spec (sequence e1) (sequence e)), (Z.ltb_spec (sequence e1) (sequence e)),
      (Z.eqb_spec (sequence e1) (sequence e)); try lia; try done.
Qed.

Lemma update_layout_spec entries off slot seq ae :
  update_layout_from_entries entries off = Some (slot, seq, ae) →
  ∃ a, active_entry entries = Some a ∧ ae = 1 - a ∧ (a = 0 ∨ a = 1) ∧
    sequence (entry_at entries a) = seq ∧ state (entry_at entries a) = OTA_STATE_VALID ∧
    slot_offset seq = Some off ∧ slot = (seq - 1) mod 2.
Proof.
  unfold update_layout_from_entries. intros E. apply bind_Some in E as (a & Ea & E).
  destruct (active_entry_spec _ _ Ea) as (Ha & _).
  destruct (negb _) eqn:Es; [done|]. apply bind_Some in E as (o & Eo & E).
  destruct (negb (o =? off)) eqn:Ef; [done|]. apply bind_Some in E as (v & Ev & E).
  apply u32_sub_Some in Ev as [-> ?]. bool_to_prop. simplify_eq. exists a. unfold OTA_SLOT_COUNT. done.
Qed.

Lemma activation_is_valid_spec aslot aseq expected target seq ae :
  activation_is_valid aslot aseq expected target seq ae = true →
  ae = expected ∧ ae ≤ 1 ∧ target ≠ aslot ∧ target = (seq - 1) mod 2 ∧ aseq < seq ∧ 1 ≤ seq.
Proof.
  unfold activation_is_valid, OTA_SLOT_COUNT. intros E. bool_to_prop.
  destruct (u32_sub seq 1) as [v|] eqn:Hv; simplify_eq/=.
  apply u32_sub_Some in Hv as [-> ?]. repeat split; auto.
Qed.

(** Replacing the inactive record: the selection moves to the new record exactly
    when it is selectable and its sequence is greater. *)
Lemma boots_replace entries off slot seq ae target seq' e :
  update_layout_from_entries entries off = Some (slot, seq, ae) →
  activation_is_valid slot seq ae target seq' ae = true → sequence e = seq' →
  boots (replace_at entries ae e) =
    if is_selectable e then update_slot_offset target else Some off.
Proof.
  intros L V He. apply update_layout_spec in L as (a & Ha & -> & Hcase & Hseq & _ & Hoff & _).
  apply activation_is_valid_spec in V as (_ & _ & _ & -> & Hlt & Hpos).
  unfold boots. rewrite (active_entry_other _ _ e Ha), Hseq, He.
  assert (seq <? seq' = true) as -> by by apply Z.ltb_lt.
  assert (seq =? seq' = false) as -> by (apply Z.eqb_neq; lia).
  rewrite andb_true_r, andb_false_r. destruct (is_selectable e); cbn [mbind option_bind].
  - rewrite <- slot_offset_mod by done. f_equal.
    destruct Hcase as [-> | ->]; unfold entry_at, replace_at; simpl; done.
  - rewrite <- Hoff. f_equal. rewrite <- Hseq.
    destruct Hcase as [-> | ->]; unfold entry_at, replace_at; simpl; done.
Qed.

(** Rewriting the active record with the same sequence keeps the selection. *)
Lemma boots_confirm entries i e :
  active_entry entries = Some i → is_selectable e = true →
  sequence e = sequence (entry_at entries i) → boots (replace_at entries i e) = boots entries.
Proof.
  intros Ha Sel Hs. destruct entries as [e0 e1]. unfold boots. rewrite Ha.
  destruct (active_entry_spec _ _ Ha) as (Hcase & Sel' & _).
  unfold active_entry in *. destruct Hcase as [-> | ->]; cbn in *; rewrite Sel, ?Hs.
  - destruct (is_selectable e0), (is_selectable e1); try done; simpl in *.
    destruct (_ <=? _); [|done]. cbn. by rewrite Hs.
    cbn. by rewrite Hs.
  - destruct (is_selectable e0), (is_selectable e1); try done; simpl in *.
    destruct (_ <=? _); [done|]. cbn. by rewrite Hs.
    cbn. by rewrite Hs.
Qed.
