(* ===== verification/OtaTheorems.v ===== *)
(** * Theorems on the boot records

    The pure half of [src/src/platform/ota.rs]: records survive a round trip, an
    activation cut short at any byte boots the old image or the new one, the
    sequence computed at Begin activates, and the layouts reported describe the
    executing image. *)

From stdpp Require Import base tactics numbers list option.
From S2P Require Import Prelude Interfaces SignedImage UsbUpdate Rom FlashEncryption Ota OtaRecords.

(** C21: a record written with any state decodes to its sequence, that state and
    the CRC of the sequence; it is selectable unless the sequence is the erased
    pattern or the state is invalid or aborted; and the CRC identifies the
    sequence. *)
Theorem ota_record_roundtrip e st :
  is_u32 (sequence e) → is_u32 st →
  decode (encode_with_state e st) = mkOtaEntry (sequence e) st (ota_crc (sequence e)) ∧
  length (encode_with_state e st) = 32%nat ∧
  is_selectable (decode (encode_with_state e st)) =
    negb ((sequence e =? U32_MAX) || (st =? OTA_STATE_INVALID) || (st =? OTA_STATE_ABORTED)) ∧
  (∀ s', is_u32 s' → ota_crc s' = ota_crc (sequence e) → s' = sequence e).
Proof.
  intros Hs Hst. rewrite decode_encode by done. split; [done|].
  split; [apply length_encode_with_state|]. split; [|intros s' Hs' E; by apply ota_crc_inj].
  unfold is_selectable. cbn [sequence state crc]. rewrite Z.eqb_refl, andb_true_r.
  by rewrite !negb_orb.
Qed.

(** C20: activating an update is safe against power loss at the record: when the
    new record has been programmed up to any byte into the erased inactive
    sector, the bootloader selects the slot that was running or the target of the
    update, and once every byte is there it selects the target, unless the
    sequence numbers are exhausted. *)
Theorem activation_power_safe entries off slot seq ae target seq' k :
  update_layout_from_entries entries off = Some (slot, seq, ae) →
  activation_is_valid slot seq ae target seq' ae = true → is_u32 seq' → (k ≤ 32)%nat →
  let record := torn k (encode_with_state (mkOtaEntry seq' 0 (ota_crc seq')) 0) in
  let booted := boots (replace_at entries ae (decode record)) in
  (booted = Some off ∨ booted = update_slot_offset target) ∧
  (k = 32%nat → seq' ≠ U32_MAX → booted = update_slot_offset target).
Proof.
  intros L V Hu Hk. cbv zeta. pose proof (activation_is_valid_spec _ _ _ _ _ _ V) as (_ & _ & _ & _ & Hlt & Hpos).
  set (e := mkOtaEntry seq' 0 (ota_crc seq')).
  assert (is_u32 0) as H0 by by vm_compute.
  assert (∀ r, decode r = decode (encode_with_state e 0) →
    boots (replace_at entries ae (decode r)) =
      if is_selectable (decode r) then update_slot_offset target else Some off) as Hb.
  { intros r E. apply (boots_replace _ _ slot seq _ _ seq'); [done..|].
    rewrite E, (decode_encode e 0 Hu H0). reflexivity. }
  split.
  - destruct (torn_record e 0 k Hu ltac:(simpl; lia) H0 Hk) as [Sel|E].
    + left. apply update_layout_spec in L as (a & Ha & -> & Hcase & Hseq & _ & Hoff & _).
      unfold boots. rewrite (active_entry_other _ _ _ Ha), Sel. cbn [andb mbind option_bind].
      rewrite <- Hoff, <- Hseq. f_equal.
      destruct Hcase as [-> | ->]; unfold entry_at, replace_at; simpl; done.
    + rewrite (Hb _ E). destruct (is_selectable _); auto.
  - intros -> Hmax.
    assert (torn 32 (encode_with_state e 0) = encode_with_state e 0) as ->.
    { unfold torn. rewrite take_ge by (rewrite length_encode_with_state; done).
      by rewrite app_nil_r. }
    rewrite (Hb _ eq_refl), (decode_encode e 0 Hu H0). unfold is_selectable, e. cbn [sequence state crc].
    rewrite Z.eqb_refl. apply Z.eqb_neq in Hmax. by rewrite Hmax.
Qed.

(** the sequence Begin computes for the inactive slot is accepted by the
    activation it is later handed to, for either record, as long as the sequence
    numbers last. *)
Theorem next_sequence_activates current ae :
  1 ≤ current ≤ U32_MAX → ae = 0 ∨ ae = 1 →
  let active := (current - 1) mod 2 in
  UsbUpdate.next_sequence current (1 - active) =
    (if current =? U32_MAX then None else Some (current + 1)) ∧
  activation_is_valid active current ae (1 - active) (current + 1) ae = true.
Proof.
  intros Hc Hae. cbv zeta. pose proof (Z.mod_pos_bound (current - 1) 2 ltac:(lia)).
  assert (current mod 2 = 1 - (current - 1) mod 2) as Hm.
  { pose proof (Z.div_mod (current - 1) 2 ltac:(lia)).
    assert ((current - 1) mod 2 = 0 ∨ (current - 1) mod 2 = 1) as [E|E] by lia; rewrite E in *;
      symmetry; [apply (Z.mod_unique _ _ ((current - 1) / 2))|apply (Z.mod_unique _ _ ((current - 1) / 2 + 1))];
      lia. }
  assert ((current - 1) mod 2 = 0 ∨ (current - 1) mod 2 = 1) as Hcase by lia.
  split.
  - unfold UsbUpdate.next_sequence. rewrite Hm.
    rewrite (proj2 (Z.eqb_neq current 0)), (proj2 (Z.ltb_ge 1 _)) by lia. cbn [orb].
    destruct Hcase as [-> | ->]; cbv zeta;
      (lazymatch goal with |- context [if ?c then 2 else 1] => replace c with false by reflexivity end);
      unfold u32_add;
      destruct (Z.leb_spec (current + 1) U32_MAX), (Z.eqb_spec current U32_MAX); try lia; done.
  - unfold activation_is_valid, OTA_SLOT_COUNT. rewrite u32_sub_ok by lia.
    replace (current + 1 - 1) with current by lia.
    rewrite (proj2 (Z.ltb_lt current (current + 1))) by lia. rewrite bool_decide_eq_true_2.
    + destruct Hcase as [-> | ->], Hae as [-> | ->]; reflexivity.
    + simpl. by rewrite Hm.
Qed.

(** a layout offered to an update describes the executing image: its slot is
    the one the running code is mapped from, its record is the active one, marked
    valid, and the record it offers for activation is the other one. *)
Theorem update_layout_sound entries off slot seq ae :
  update_layout_from_entries entries off = Some (slot, seq, ae) →
  update_slot_offset slot = Some off ∧ boots entries = Some off ∧
  active_entry entries = Some (1 - ae) ∧ (ae = 0 ∨ ae = 1) ∧
  state (entry_at entries (1 - ae)) = OTA_STATE_VALID ∧
  sequence (entry_at entries (1 - ae)) = seq ∧ slot = (seq - 1) mod 2 ∧
  (is_selectable (entry_at entries ae) = true → sequence (entry_at entries ae) ≤ seq).
Proof.
  intros E. destruct (update_layout_spec _ _ _ _ _ E) as (a & Ha & -> & Hcase & Hseq & Hst & Hoff & ->).
  destruct (active_entry_spec _ _ Ha) as (_ & _ & Hmax).
  destruct (slot_offset_spec _ _ Hoff) as (_ & Hslot & _).
  replace (1 - (1 - a)) with a by lia. repeat split; auto.
  - unfold boots. rewrite Ha. cbn [mbind option_bind]. by rewrite Hseq.
  - lia.
  - intros Hsel. rewrite <- Hseq. auto.
Qed.

(** a qualified layout names two valid records for the two different slots,
    with the sequence of each slot, and the slot the running code is mapped from
    is the one the bootloader selects. *)
Theorem qualified_layout_sound entries off q :
  qualified_layout_from_entries entries off = Some q →
  (∀ i, i = 0 ∨ i = 1 →
     is_selectable (entry_at entries i) = true ∧ state (entry_at entries i) = OTA_STATE_VALID ∧
     sequence_of (sequences q) ((sequence (entry_at entries i) - 1) mod 2) = sequence (entry_at entries i)) ∧
  (sequence (entry_at entries 0) - 1) mod 2 ≠ (sequence (entry_at entries 1) - 1) mod 2 ∧
  update_slot_offset (running_slot q) = Some off ∧ boots entries = Some off.
Proof.
  unfold qualified_layout_from_entries. intros E. apply bind_Some in E as (a & Ha & E).
  apply bind_Some in E as (s1 & E1 & E). apply bind_Some in E as (s2 & E2 & E).
  apply bind_Some in E as (o & Eo & E). destruct (negb (o =? off)) eqn:Ef; [done|].
  apply bind_Some in E as (v & Ev & E). apply u32_sub_Some in Ev as [-> _]. bool_to_prop.
  injection E as <-. subst o. destruct entries as [e0 e1]. cbn [fst snd] in E1, E2.
  assert (∀ e s s', qualify_entry e s = Some s' → is_selectable e = true ∧ state e = OTA_STATE_VALID ∧
    sequence e ≠ 0 ∧ let p := (sequence e - 1) mod 2 in (p = 0 ∨ p = 1) ∧
    sequence_of s p = 0 ∧ s' = set_sequence s p (sequence e)) as Hq.
  { clear. unfold qualify_entry. intros e s s' E. destruct (_ || _)%bool eqn:Ev; [done|]. bool_to_prop.
    apply bind_Some in E as (o & Eo & E). apply bind_Some in E as (slot & Es & E).
    apply slot_offset_spec in Eo as (Hpos & _ & _ & Ho).
    destruct (negb _) eqn:Ez; [done|]. bool_to_prop. injection E as <-.
    split; [done|]. split; [done|]. split; [lia|]. cbv zeta.
    destruct Ho as [[Hp ->]|[Hp ->]]; rewrite Hp in *; simpl in Es; injection Es as <-; auto. }
  apply Hq in E1 as (S0 & V0 & N0 & P0 & _ & ->). apply Hq in E2 as (S1 & V1 & N1 & P1 & Hfree & ->).
  destruct (slot_offset_spec _ _ Eo) as (_ & Hslot & _).
  assert ((sequence e0 - 1) mod 2 ≠ (sequence e1 - 1) mod 2) as Hne.
  { intros Heq. rewrite Heq in Hfree. apply N0. revert Hfree. clear.
    unfold sequence_of, set_sequence. by destruct (_ =? 0). }
  split; [|split; [exact Hne|split; [exact Hslot|unfold boots; by rewrite Ha]]].
  intros i [-> | ->]; unfold entry_at; simpl; repeat split; auto;
    unfold sequence_of, set_sequence;
    destruct P0 as [P0|P0], P1 as [P1|P1]; rewrite P0, P1 in *; done.
Qed.

(** the running offset is read from the cache mapping alone: it is reported
    only when the descriptor's page is mapped, with the plain flash flag, to the
    first page of an application slot, and then the descriptor is at byte 32 of
    that slot. *)
Theorem running_offset_sound descriptor_address mmu_entry off :
  is_u32 mmu_entry →
  running_offset_from_mapping descriptor_address mmu_entry = Some off →
  (off = OTA_0_OFFSET ∨ off = OTA_1_OFFSET) ∧
  DROM_START ≤ descriptor_address < DROM_APP_END ∧
  Z.land mmu_entry MMU_PAGE_MASK * PAGE + descriptor_address mod PAGE = off + 32 ∧
  mmu_entry = MMU_FLASH + Z.land mmu_entry MMU_PAGE_MASK.
Proof.
  unfold running_offset_from_mapping. intros Hu E. destruct (_ || _)%bool eqn:Eg; [done|].
  cbv zeta in E. destruct (_ || _)%bool eqn:Eo in E; [|done]. injection E as <-. bool_to_prop.
  split. { destruct Eo as [Eo|Eo]; apply Z.eqb_eq in Eo; auto. }
  split; [lia|].
  assert (descriptor_address mod PAGE = 32) as ->.
  { change PAGE with (2 ^ 16). rewrite <- Z.land_ones by lia. done. }
  split; [by rewrite Z.shiftl_mul_pow2|].
  match goal with H : Z.land mmu_entry (u32_not _) = _ |- _ => rewrite <- H end.
  unfold MMU_PAGE_MASK, u32_not. change 0x3fff with (Z.ones 14). change U32_MAX with (Z.ones 32).
  rewrite (Z.land_ones mmu_entry 14) by lia. unfold is_u32 in Hu.
  rewrite land_high_mask by lia. pose proof (Z.div_mod mmu_entry (2 ^ 14) ltac:(lia)). lia.
Qed.

(** ** Witnesses *)

(** Slot 0 runs with sequence 1 in record 0; record 1 is erased. *)
Definition record_of (seq st : Z) : OtaEntry := mkOtaEntry seq st (ota_crc seq).
Definition erased_record : OtaEntry := mkOtaEntry U32_MAX U32_MAX U32_MAX.

Lemma ota_record_roundtrip_witness :
  decode (encode_with_state (record_of 7 0) 2) = mkOtaEntry 7 2 (ota_crc 7).
Proof.
  apply (ota_record_roundtrip (record_of 7 0) 2); unfold is_u32; simpl; lia.
Defined.

Lemma activation_power_safe_witness :
  boots (replace_at (record_of 1 2, erased_record) 1
    (decode (torn 32 (encode_with_state (mkOtaEntry 2 0 (ota_crc 2)) 0)))) = Some OTA_1_OFFSET.
Proof.
  destruct (activation_power_safe (record_of 1 2, erased_record) OTA_0_OFFSET 0 1 1 1 2 32)
    as [_ Hk]; [vm_compute; reflexivity|vm_compute; reflexivity|unfold is_u32; lia|lia|].
  apply Hk; [reflexivity|discriminate].
Defined.

Lemma next_sequence_activates_witness :
  UsbUpdate.next_sequence 5 1 = Some 6 ∧ activation_is_valid 0 5 1 1 6 1 = true.
Proof. apply (next_sequence_activates 5 1); [unfold_max; lia|auto]. Defined.

Lemma update_layout_sound_witness :
  update_layout_from_entries (record_of 1 2, erased_record) OTA_0_OFFSET = Some (0, 1, 1) ∧
  boots (record_of 1 2, erased_record) = Some OTA_0_OFFSET.
Proof.
  assert (E : update_layout_from_entries (record_of 1 2, erased_record) OTA_0_OFFSET = Some (0, 1, 1))
    by (vm_compute; reflexivity).
  split; [exact E|]. apply (update_layout_sound _ _ _ _ _ E).
Defined.

Lemma qualified_layout_sound_witness :
  boots (record_of 3 2, record_of 2 2) = Some OTA_0_OFFSET.
Proof.
  apply (qualified_layout_sound (record_of 3 2, record_of 2 2) OTA_0_OFFSET (mkQualifiedLayout 0 (3, 2))).
  vm_compute. reflexivity.
Defined.

Lemma running_offset_sound_witness :
  Z.land 0x8002 MMU_PAGE_MASK * PAGE + 0x3f000020 mod PAGE = OTA_0_OFFSET + 32.
Proof.
  apply (running_offset_sound 0x3f000020 0x8002 OTA_0_OFFSET); [unfold is_u32; lia|reflexivity].
Defined.
