(* ===== verification/OtaDevice.v ===== *)
(** * The boot records on the device

    The operations of [Ota] that read and rewrite [otadata] through the encrypted
    flash of [FlashEncryption]: reading the layout changes nothing, a rewrite
    stays in the sector of the record it replaces, and a rewrite reported as
    successful is what flash holds. *)

From stdpp Require Import base tactics numbers list option.
From S2P Require Import Prelude Interfaces SignedImage Rom FlashEncryption FlashWindows FlashOperations Ota OtaRecords.

Section device.
Context {M : Type} `{RomView M}.
Implicit Types d : Device M.

(** ** What the device holds *)

Definition record_bytes (m : M) (i : Z) : bytes := mem_read (flash m) (entry_address i) OTA_ENTRY_SIZE.
Definition records_of d : Entries :=
  (decode (record_bytes (dv_rom d) 0), decode (record_bytes (dv_rom d) 1)).
Definition running_of (m : M) (descriptor_address : Z) : option Z :=
  if (DROM_START <=? descriptor_address) && (descriptor_address <? DROM_APP_END)
  then running_offset_from_mapping descriptor_address (mmu m (descriptor_address / PAGE))
  else None.

Definition otadata_ok d : Prop := dv_initialized d = true → window_ok (dv_rom d) OTADATA_MAPPING.

Lemma fixed_otadata d : fixed_ok d → otadata_ok d.
Proof. intros F Hi. specialize (F Hi). by inversion F. Qed.

(** ** Rules *)

Lemma read_uninitialized address n d :
  dv_initialized d = false → read address n d = Some (Err FE_Disabled, d).
Proof. intros Hi. unfold read, require_initialized, mbind, step_bind, get_state. by rewrite Hi. Qed.

(** A read through a fixed window fails, or yields the bytes of flash. *)
Lemma wp_read_flash mp address n (Q : result ConfirmError bytes → Device M → Prop) d :
  mp ∈ MAPPINGS → physical_start mp ≤ address → (0 < n)%nat →
  address + Z.of_nat n ≤ physical_start mp + size mp →
  (dv_initialized d = true → window_ok (dv_rom d) mp) →
  (dv_initialized d = true → Q (Ok (mem_read (flash (dv_rom d)) address n)) d) →
  (dv_initialized d = false → Q (Err CE_FlashRead) d) →
  wp (read_flash address n) Q d.
Proof.
  intros Hm Ha Hn Hend W Hok Herr. apply wp_map_err. unfold wp.
  destruct (dv_initialized d) eqn:Hi.
  - rewrite (read_spec mp) by auto. auto.
  - rewrite read_uninitialized by done. auto.
Qed.

Lemma otadata_in : OTADATA_MAPPING ∈ MAPPINGS.
Proof. left. Qed.

Lemma wp_read_record i (Q : result ConfirmError bytes → Device M → Prop) d :
  i = 0 ∨ i = 1 → otadata_ok d →
  (dv_initialized d = true → Q (Ok (record_bytes (dv_rom d) i)) d) →
  (dv_initialized d = false → Q (Err CE_FlashRead) d) →
  wp (read_flash (entry_address i) OTA_ENTRY_SIZE) Q d.
Proof.
  intros Hcase W Hok Herr.
  apply (wp_read_flash OTADATA_MAPPING); auto using otadata_in;
    destruct Hcase as [-> | ->]; unfold entry_address, OTADATA_OFFSET, OTA_SECTOR_SIZE, OTA_ENTRY_SIZE;
    simpl; lia.
Qed.

Lemma wp_read_records (Q : result ConfirmError Entries → Device M → Prop) d :
  otadata_ok d → (dv_initialized d = true → Q (Ok (records_of d)) d) →
  (dv_initialized d = false → Q (Err CE_FlashRead) d) → wp read_records Q d.
Proof.
  intros W Hok Herr. apply wp_bind, wp_read_record; [auto..| |auto]. intros Hi.
  apply wp_bind, wp_read_record; [auto..| |auto]. intros _. apply wp_ret. by apply Hok.
Qed.

Lemma drom_index a :
  DROM_START ≤ a < DROM_APP_END →
  0x61801000 + (0x80 + Z.shiftr (Z.land a 0x3fffff) 16) * 4 = DROM_TABLE + (a / PAGE - DROM_BASE_PAGE) * 4 ∧
  0 ≤ a / PAGE - DROM_BASE_PAGE < 64.
Proof.
  unfold DROM_START, DROM_APP_END, DROM_TABLE, DROM_BASE_PAGE, PAGE. intros Ha.
  change 0x3fffff with (Z.ones 22). rewrite Z.land_ones, Z.shiftr_div_pow2 by lia.
  change (2 ^ 22) with 4194304. change (2 ^ 16) with 65536.
  assert (a mod 4194304 = a - 0x3f000000) as ->
    by (symmetry; apply (Z.mod_unique a _ 252); lia).
  pose proof (Z.div_mod a 65536 ltac:(lia)). pose proof (Z.mod_pos_bound a 65536 ltac:(lia)).
  assert ((a - 0x3f000000) / 65536 = a / 65536 - 16128) as ->
    by (symmetry; apply (Z.div_unique _ _ _ (a mod 65536)); lia).
  lia.
Qed.

Lemma wp_running_app_offset desc (Q : result ConfirmError Z → Device M → Prop) d :
  (∀ off, running_of (dv_rom d) desc = Some off → Q (Ok off) d) → Q (Err CE_InvalidLayout) d →
  wp (running_app_offset desc) Q d.
Proof.
  intros Hok Herr. unfold running_app_offset, running_of in *.
  apply wp_bind, wp_return_if; intros Hr; [done|]. apply negb_false_iff in Hr. rewrite Hr in Hok.
  bool_to_prop. destruct (drom_index desc ltac:(lia)) as [E Hk].
  apply wp_bind, wp_get. rewrite E, rom_read_mmu by done.
  replace (DROM_BASE_PAGE + (desc / PAGE - DROM_BASE_PAGE)) with (desc / PAGE) by lia.
  apply wp_ok_or; auto.
Qed.

Definition layout_is (d : Device M) (desc : Z) (l : UpdateLayout) : Prop :=
  ∃ off, running_of (dv_rom d) desc = Some off ∧
    update_layout_from_entries (records_of d) off = Some (active_slot l, active_sequence l, activation_entry l).

Lemma wp_update_layout desc (Q : result ConfirmError UpdateLayout → Device M → Prop) d :
  otadata_ok d → (∀ l, dv_initialized d = true → layout_is d desc l → Q (Ok l) d) →
  (∀ e, Q (Err e) d) → wp (update_layout desc) Q d.
Proof.
  intros W Hok Herr. apply wp_bind, wp_running_app_offset; [|done]. intros off Hoff.
  apply wp_bind, wp_bind, wp_read_records; [done| |done]. intros Hi.
  apply wp_bind, wp_ok_or; [|done]. intros a Ha. apply wp_ret.
  apply wp_bind, wp_ok_or; [|done]. intros [[slot seq] ae] HL. apply wp_ret.
  apply Hok; [done|]. by exists off.
Qed.

Lemma wp_qualified_layout desc (Q : result ConfirmError QualifiedLayout → Device M → Prop) d :
  otadata_ok d →
  (∀ q off, dv_initialized d = true → running_of (dv_rom d) desc = Some off →
     qualified_layout_from_entries (records_of d) off = Some q → Q (Ok q) d) →
  (∀ e, Q (Err e) d) → wp (qualified_layout desc) Q d.
Proof.
  intros W Hok Herr. apply wp_bind, wp_running_app_offset; [|done]. intros off Hoff.
  apply wp_bind, wp_bind, wp_read_records; [done| |done]. intros Hi.
  apply wp_bind, wp_ok_or; [|done]. intros a Ha. apply wp_ret. apply wp_ok_or; eauto.
Qed.

(** ** Rewriting a record *)

Definition sector_of (i lo hi : Z) : Prop := lo = entry_address i ∧ hi = entry_address i + OTA_SECTOR_SIZE.

Lemma wp_replace_and_verify i replacement (Q : result ConfirmError unit → Device M → Prop) d :
  i = 0 ∨ i = 1 → otadata_ok d → length replacement = OTA_ENTRY_SIZE →
  (∀ d' r, dwithin (entry_address i) (entry_address i + OTA_SECTOR_SIZE) d d' →
     (r = Ok tt → window_ok (dv_rom d') OTADATA_MAPPING ∧ record_bytes (dv_rom d') i = replacement ∧
        (∀ mp, mp ∈ MAPPINGS → window_ok (dv_rom d) mp → window_ok (dv_rom d') mp)) → Q r d') →
  wp (replace_and_verify (entry_address i) replacement) Q d.
Proof.
  intros Hcase W Hl HQ.
  assert (0 ≤ entry_address i ∧ entry_address i + OTA_SECTOR_SIZE ≤ 0x20000) as [Hpos Hend].
  { destruct Hcase as [-> | ->]; unfold entry_address, OTADATA_OFFSET, OTA_SECTOR_SIZE; lia. }
  assert (0 < OTA_SECTOR_SIZE ∧ Z.of_nat OTA_ENTRY_SIZE ≤ OTA_SECTOR_SIZE) as [HS HE]
    by (unfold OTA_SECTOR_SIZE, OTA_ENTRY_SIZE; lia).
  unfold replace_and_verify, replace_entry. apply wp_bind, wp_bind, wp_map_err.
  pose proof (erase_inner_wp (entry_address i) (Z.to_nat OTA_SECTOR_SIZE) true d Hpos) as He.
  cbv zeta in He. rewrite Z2Nat.id in He by lia.
  eapply wp_mono; [apply He; [unfold_max; lia|lia]|]. clear He.
  intros [[]|e] d1 [Mu1 H1]; [|apply HQ; [apply Mu1|done]].
  apply wp_map_err.
  pose proof (write_inner_wp (entry_address i) replacement true d1 Hpos) as Hw. cbv zeta in Hw.
  rewrite Hl in Hw.
  eapply wp_mono; [apply Hw; [unfold_max; lia|unfold OTA_ENTRY_SIZE; lia]|]. clear Hw.
  intros r d2 [Mu2 H2].
  assert (dwithin (entry_address i) (entry_address i + OTA_SECTOR_SIZE) d d2) as W2.
  { eapply dwithin_trans; [apply Mu1|]. eapply dwithin_weaken; [| |apply Mu2]; lia. }
  destruct r as [[]|e]; [|apply HQ; [exact W2|done]].
  assert (∀ mp, mp ∈ MAPPINGS → window_ok (dv_rom d) mp → window_ok (dv_rom d2) mp) as Hwin.
  { intros mp Hmp Hw. apply (mu_windows _ _ _ _ _ Mu2); [done..|].
    by apply (mu_windows _ _ _ _ _ Mu1). }
  destruct H1 as [Hi _]; [done|].
  assert (window_ok (dv_rom d2) OTADATA_MAPPING) as Hota by (apply Hwin; auto using otadata_in).
  apply wp_bind, wp_read_record; [done|by intros ?| |intros _; apply HQ; done].
  intros _. apply wp_return_if; intros Hcmp; [by apply HQ|].
  apply negb_false_iff, bytes_eqb_true in Hcmp. apply HQ; auto.
Qed.
End device.
