(* ===== verification/ModelRom.v ===== *)
(** * A concrete ROM

    Flash as a function, an MMU table, a cache that is always up to date, and an
    RSA check that accepts a signature which is the digest followed by padding.
    It discharges the laws of [RomView]. *)

From stdpp Require Import base tactics numbers list option.
From S2P Require Import Prelude Rom FlashEncryption FlashWindows.

Record model_rom := mkModelRom {
  mr_flash : memory;
  mr_mmu : Z → Z;
  mr_on : bool;
  mr_clock : Z;
}.

Definition mr_byte (m : model_rom) : memory := λ a, mr_flash m a mod 256.
(** A load through a page that is not mapped to flash yields zeros. *)
Definition mr_seen (m : model_rom) : memory :=
  λ a, if flash_entry (mr_mmu m (a / PAGE))
       then mr_byte m (Z.land (mr_mmu m (a / PAGE)) 0x3fff * PAGE + a mod PAGE) else 0.
Definition mr_with_flash (m : model_rom) (f : memory) : model_rom :=
  mkModelRom f (mr_mmu m) (mr_on m) (mr_clock m).
Definition mr_with_on (m : model_rom) (b : bool) : model_rom :=
  mkModelRom (mr_flash m) (mr_mmu m) b (mr_clock m).

#[export] Instance model_rom_ops : Rom model_rom := {|
  rom_flash_encryption _ := true;
  rom_now_ms m := (mr_clock m mod 0x10000000000000000,
                   mkModelRom (mr_flash m) (mr_mmu m) (mr_on m) (mr_clock m + 1));
  rom_cache_disable_icache m := (0, mr_with_on m false);
  rom_cache_enable_icache _ m := mr_with_on m true;
  rom_cache_ibus_mmu_set e v p _ n _ m :=
    (0, mkModelRom (mr_flash m)
          (λ q, if (v / PAGE <=? q) && (q <? v / PAGE + n)
                then Z.lor e (p / PAGE + (q - v / PAGE)) else mr_mmu m q)
          (mr_on m) (mr_clock m));
  rom_cache_invalidate_addr _ _ m := m;
  rom_load m a n := mem_read (mr_seen m) a n;
  rom_read_volatile m a := mr_mmu m (DROM_BASE_PAGE + (a - DROM_TABLE) / 4);
  rom_spiflash_unlock m := (None, m);
  rom_spiflash_erase_sector s m :=
    (None, mr_with_flash m (mem_fill (mr_flash m) (s * 0x1000) 0x1000 255));
  rom_spiflash_write_encrypted a b m := (0, mr_with_flash m (mem_write (mr_flash m) a b));
  rom_rsa_pss_verify _ s d := (bytes_eqb (take 32 s) d, take 32 s);
|}.

Lemma mr_seen_flash m a : flash_entry (mr_mmu m (a / PAGE)) = true →
  mr_seen m a = mr_byte m (Z.land (mr_mmu m (a / PAGE)) 0x3fff * PAGE + a mod PAGE).
Proof. intros Hf. unfold mr_seen. by rewrite Hf. Qed.

#[export] Instance model_rom_view : RomView model_rom.
Proof.
  refine {| flash := mr_byte; mmu := mr_mmu; seen := mr_seen; icache_on := mr_on;
            erased := λ m a, mr_byte m a = 255 |}.
  - intros. unfold mr_byte, is_byte. pose proof (Z.mod_pos_bound (mr_flash m a) 256). lia.
  - intros. unfold mr_seen, mr_byte, is_byte. destruct (flash_entry _); [apply Z.mod_pos_bound|]; lia.
  - done.
  - intros m k Hk. simpl. f_equal. unfold DROM_TABLE.
    rewrite (Z.add_comm _ (k * 4)), Z.add_simpl_r, Z.div_mul; lia.
  - intros * [= <- <-]. apply Z.mod_pos_bound. lia.
  - by intros * [= <- <-].
  - by intros * [= <- <-].
  - done.
  - intros m r a _ Hf. exact (mr_seen_flash (mr_with_on m true) a Hf).
  - intros * [= <- <-]. repeat split. intros q Hq. simpl.
    destruct (_ && _)%bool eqn:E; [|done]. bool_to_prop. lia.
  - intros * [= <-] i Hi. simpl.
    rewrite (proj2 (Z.leb_le _ _)), (proj2 (Z.ltb_lt _ _)) by lia. simpl. do 2 f_equal. lia.
  - done.
  - intros v n m a Hf. left. by apply mr_seen_flash.
  - by intros * [= <- <-].
  - intros * [= <- <-]. split; [done|]. split; [|intros a Hf; right; by apply (mr_seen_flash (mr_with_flash m _))].
    intros a Ha. unfold mr_byte. simpl. by rewrite mem_fill_outside.
  - intros * [= <-] a Ha. unfold mr_byte. simpl. rewrite mem_fill_inside by lia. done.
  - intros * [= <- <-]. split; [done|]. split; [|intros a Hf; right; by apply (mr_seen_flash (mr_with_flash m _))].
    intros a Ha. unfold mr_byte. simpl. by rewrite mem_write_outside.
  - intros addr block m m' [= <-] _ Hb. apply list_eq. intros i.
    destruct (decide (i < length block)%nat) as [Hi|Hi].
    + rewrite lookup_mem_read by done. unfold mr_byte. simpl. rewrite mem_write_inside by done.
      destruct (lookup_lt_is_Some_2 block i Hi) as [x Hx]. rewrite (byte_at_lookup _ _ _ Hx), Hx.
      eapply Forall_lookup_1 in Hx; [|done]. unfold is_byte in Hx. by rewrite Z.mod_small.
    + rewrite !lookup_ge_None_2; rewrite ?length_mem_read; auto with lia.
Defined.

(** A window of pages that are mapped to flash is coherent: there is no stale line. *)
Lemma table_window f table on now mp page k :
  virtual_start mp = page * PAGE → size mp = k * PAGE → physical_start mp mod PAGE = 0 →
  (∀ i, 0 ≤ i < k → flash_entry (table (page + i)) = true ∧
     Z.land (table (page + i)) 0x3fff = physical_start mp / PAGE + i) →
  window_ok (mkModelRom f table on now) mp.
Proof.
  intros Hv Hs Hp Hm a Ha. unfold in_window in Ha. rewrite Hv, Hs in Ha.
  split; [|intros _ Hf; cbn [seen model_rom_view]; unfold mr_seen, maps_flash in *; cbn [mmu model_rom_view] in Hf; by rewrite Hf].
  unfold maps_to, maps_flash, translate, physical. simpl. unfold PAGE in *.
  pose proof (Z.div_mod a 65536 ltac:(lia)). pose proof (Z.mod_pos_bound a 65536 ltac:(lia)).
  pose proof (Z.div_mod (physical_start mp) 65536 ltac:(lia)).
  replace (a / 65536) with (page + (a / 65536 - page)) by lia.
  destruct (Hm (a / 65536 - page) ltac:(lia)) as [Hf ->]. split; [done|lia].
Qed.

(** The release mappings, with the running image mapped from slot 0 at the start
    of the DROM. *)
Definition release_mmu : Z → Z := λ q,
  if q =? 0x3f00 then 0x8002
  else if q =? 0x3f39 then 0x8000 else if q =? 0x3f3a then 0x8001
  else if q =? 0x3f3b then 0x8002 else if q =? 0x3f3c then 0x8020
  else if q =? 0x3f3d then 0x803e else if q =? 0x3f3e then 0x803f else 0.
Definition release_device (f : memory) : Device model_rom :=
  mkDevice (mkModelRom f release_mmu true 2000) true.

Lemma table_windows f table on now b :
  (∀ q, q ∈ [0x3f39; 0x3f3a; 0x3f3b; 0x3f3c; 0x3f3d; 0x3f3e] → table q = release_mmu q) →
  windows_ok (mkDevice (mkModelRom f table on now) b).
Proof.
  intros Ht _. unfold MAPPINGS.
  assert (∀ page k p, 0 ≤ k ≤ 2 → (∀ i, 0 ≤ i < k → page + i ∈ [0x3f39; 0x3f3a; 0x3f3b; 0x3f3c; 0x3f3d; 0x3f3e]) →
    (∀ i, i = 0 ∨ i = 1 → i < k → flash_entry (release_mmu (page + i)) = true ∧ Z.land (release_mmu (page + i)) 0x3fff = p + i) →
    ∀ i, 0 ≤ i < k → flash_entry (table (page + i)) = true ∧ Z.land (table (page + i)) 0x3fff = p + i) as Hp.
  { intros page k p Hk Hin Hm i Hi. rewrite Ht by by apply Hin. apply Hm; lia. }
  repeat apply List.Forall_cons; [..|apply List.Forall_nil].
  - apply (table_window _ _ _ _ _ 0x3f39 2); [done..|]. apply Hp; [lia| |by intros i [-> | ->]].
    intros i Hi. assert (i = 0 ∨ i = 1) as [-> | ->] by lia; apply (bool_decide_unpack _); by vm_compute.
  - apply (table_window _ _ _ _ _ 0x3f3b 1); [done..|]. apply Hp; [lia| |by intros i [-> | ->]].
    intros i Hi. assert (i = 0) as -> by lia; apply (bool_decide_unpack _); by vm_compute.
  - apply (table_window _ _ _ _ _ 0x3f3c 1); [done..|]. apply Hp; [lia| |by intros i [-> | ->]].
    intros i Hi. assert (i = 0) as -> by lia; apply (bool_decide_unpack _); by vm_compute.
  - apply (table_window _ _ _ _ _ 0x3f3d 2); [done..|]. apply Hp; [lia| |by intros i [-> | ->]].
    intros i Hi. assert (i = 0 ∨ i = 1) as [-> | ->] by lia; apply (bool_decide_unpack _); by vm_compute.
Qed.

Lemma release_windows f : windows_ok (release_device f).
Proof. by apply table_windows. Qed.
