(* ===== verification/FlashInitialize.v ===== *)
(** * Opening encrypted flash

    [initialize] of [src/src/platform/flash_encryption.rs]: the mapping of the four
    windows, after which every fixed range of flash can be read. *)

From stdpp Require Import base tactics numbers list option.
From S2P Require Import Prelude Rom FlashEncryption FlashWindows FlashOperations ModelRom.

Section initialize.
Context {M : Type} `{RomView M}.

(** A mapping of whole pages the MMU can express. *)
Definition page_aligned (mp : Mapping) : bool :=
  is_multiple_of (virtual_start mp) PAGE && is_multiple_of (physical_start mp) PAGE
  && is_multiple_of (size mp) PAGE && (0 <=? physical_start mp)
  && (physical_start mp + size mp <=? 2 ^ 14 * PAGE).

Lemma mappings_aligned mp : mp ∈ MAPPINGS → page_aligned mp = true.
Proof. by intros [->|[->|[->| ->]]]%in_mappings. Qed.

Lemma mapped_window mp m m' : page_aligned mp = true →
  map_drom (virtual_start mp) (physical_start mp) (size mp / MMU_PAGE_SIZE) m = (0, m') → window_ok m' mp.
Proof.
  unfold page_aligned. intros Hal E a Ha. bool_to_prop.
  repeat match goal with K : is_multiple_of _ _ = true |- _ => apply is_multiple_of_spec in K end.
  destruct (map_drom_spec _ _ _ _ _ _ E) as (_ & _ & Hc & _ & Hm). split; [|auto].
  unfold in_window, maps_to, maps_flash, translate, physical in *. unfold PAGE, MMU_PAGE_SIZE in *.
  set (v := virtual_start mp) in *. set (p := physical_start mp) in *. set (s := size mp) in *.
  pose proof (Z.div_mod a 65536 ltac:(lia)). pose proof (Z.mod_pos_bound a 65536 ltac:(lia)).
  pose proof (Z.div_mod v 65536 ltac:(lia)). pose proof (Z.div_mod p 65536 ltac:(lia)).
  pose proof (Z.div_mod s 65536 ltac:(lia)).
  specialize (Hm eq_refl (a / 65536 - v / 65536) ltac:(lia)).
  replace (v / 65536 + (a / 65536 - v / 65536)) with (a / 65536) in Hm by lia.
  rewrite Hm, page_entry by lia. split; [apply page_entry_flash|lia].
Qed.

Lemma map_release_regions_wp mappings done_before (d : Device M) :
  mappings ⊆ MAPPINGS → (∀ mp, mp ∈ done_before → mp ∈ MAPPINGS) →
  NoDup (mappings ++ done_before) →
  (∀ mp, mp ∈ done_before → window_ok (dv_rom d) mp) →
  wp (map_release_regions mappings) (λ r d',
    flash (dv_rom d') = flash (dv_rom d) ∧ erased (dv_rom d') = erased (dv_rom d) ∧
    dv_initialized d' = dv_initialized d ∧
    (r = Ok tt → ∀ mp, mp ∈ mappings ∨ mp ∈ done_before → window_ok (dv_rom d') mp)) d.
Proof.
  revert done_before d. induction mappings as [|mp mappings IH]; intros before d Hs Hb Hnd Hw.
  { apply wp_ret. split; [done|]. split; [done|]. split; [done|]. intros _ mp [Hm|Hm]; [by apply elem_of_nil in Hm|auto]. }
  assert (mp ∈ MAPPINGS) as Hmp by (apply Hs; by left).
  apply wp_bind, wp_zero_or.
  2: { intros c m E. destruct (map_drom_spec _ _ _ _ _ _ E) as (F & Er & _). simpl. by rewrite F, Er. }
  intros m E. destruct (map_drom_spec _ _ _ _ _ _ E) as (F & Er & _).
  cbn [app] in Hnd. pose proof (NoDup_cons_1_1 _ _ Hnd) as Hnot. pose proof (NoDup_cons_1_2 _ _ Hnd) as Hnd'.
  eapply wp_mono; [apply (IH (mp :: before))|].
  - intros x Hx. apply Hs. by right.
  - intros x [->|Hx]%elem_of_cons; auto.
  - by rewrite <- (Permutation_middle mappings before mp).
  - simpl. intros x [->|Hx]%elem_of_cons; [by eapply mapped_window; [apply mappings_aligned|]|].
    eapply window_remap; [exact E|by apply Hw|]. intros a Ha Hin.
    assert (x ≠ mp) as Hne by (intros ->; apply Hnot, elem_of_app; auto).
    pose proof (mappings_aligned mp Hmp) as Hal. unfold page_aligned in Hal. bool_to_prop.
    repeat match goal with K : is_multiple_of _ _ = true |- _ => apply is_multiple_of_spec in K end.
    unfold PAGE, MMU_PAGE_SIZE in *.
    pose proof (Z.div_mod a 65536 ltac:(lia)). pose proof (Z.mod_pos_bound a 65536 ltac:(lia)).
    pose proof (Z.div_mod (virtual_start mp) 65536 ltac:(lia)). pose proof (Z.div_mod (size mp) 65536 ltac:(lia)).
    assert (in_window mp a) as Ha' by (unfold in_window; lia).
    destruct (mappings_disjoint x mp a a) as [Hd _]; auto.
  - simpl. intros r d' (F' & Er' & Hi & Hok). split; [congruence|]. split; [congruence|]. split; [done|].
    intros -> x Hx. apply Hok; [done|]. destruct Hx as [[->|Hx]%elem_of_cons|Hx]; [right; by left|by left|right; by right].
Qed.

Lemma initialize_wp (d : Device M) : windows_ok d →
  wp initialize (λ r d',
    flash (dv_rom d') = flash (dv_rom d) ∧ erased (dv_rom d') = erased (dv_rom d) ∧
    (r = Ok tt → dv_initialized d' = true ∧ windows_ok d') ∧
    (r ≠ Ok tt → dv_initialized d' = dv_initialized d) ∧
    (rom_flash_encryption (dv_rom d) = false → r = Err FE_Disabled ∧ d' = d) ∧
    (dv_initialized d = true → d' = d)) d.
Proof.
  intros W. unfold initialize. apply wp_bind, wp_get, wp_bind, wp_return_if; intros E;
    [apply negb_true_iff in E|apply negb_false_iff in E]; [by repeat split|].
  destruct (dv_initialized d) eqn:Hi; [apply wp_ret; repeat split; try done; congruence|].
  apply wp_bind. eapply wp_mono.
  { apply (map_release_regions_wp MAPPINGS []); [done|by intros ? ?%elem_of_nil| |by intros ? ?%elem_of_nil].
    by apply (bool_decide_eq_true_1 _). }
  intros [[]|e] d' (F & Er & Hi' & Hok).
  - apply wp_modify. split; [done|]. split; [done|]. split; [|split; [done|split; congruence]]. intros _. split; [done|]. intros _.
    apply List.Forall_forall. intros mp Hmp%list_elem_of_In. apply Hok; auto.
  - split; [done|]. split; [done|]. split; [done|]. split; [congruence|split; congruence].
Qed.

(** Opening encrypted flash returns and changes no byte of it; it is refused, with nothing
    mapped, on a device without flash encryption; once it succeeds, a read of any range of
    the four fixed windows returns the bytes of flash. *)
Theorem initialize_opens_flash d : windows_ok d →
  ∃ r d', initialize d = Some (r, d') ∧
    flash (dv_rom d') = flash (dv_rom d) ∧ erased (dv_rom d') = erased (dv_rom d) ∧
    (rom_flash_encryption (dv_rom d) = false → r = Err FE_Disabled ∧ d' = d) ∧
    (r = Ok tt → ∀ mp address n, mp ∈ MAPPINGS → physical_start mp ≤ address → (0 < n)%nat →
       address + Z.of_nat n ≤ physical_start mp + size mp →
       read address n d' = Some (Ok (mem_read (flash (dv_rom d)) address n), d')).
Proof.
  intros W. destruct (wp_elim _ _ _ (initialize_wp d W)) as (r & d' & E & F & Er & Hok & _ & Hoff & _).
  exists r, d'. repeat (split; [done|]). intros -> mp address n Hm Ha Hn Hend.
  destruct (Hok eq_refl) as [Hi W']. rewrite <- F. apply (read_spec mp); try done. by apply windows_in.
Qed.
End initialize.

(** A device at reset: nothing is mapped. *)
Definition reset_device (f : memory) : Device model_rom := mkDevice (mkModelRom f (λ _, 0) true 0) false.

Lemma reset_windows f : windows_ok (reset_device f).
Proof. done. Qed.

Lemma initialize_opens_flash_witness :
  ∃ r d', initialize (reset_device (λ a, a)) = Some (r, d') ∧
    flash (dv_rom d') = flash (dv_rom (reset_device (λ a, a))).
Proof.
  destruct (initialize_opens_flash (reset_device (λ a, a)) (reset_windows _)) as (r & d' & E & F & _).
  by exists r, d'.
Defined.

Example reset_then_read :
  option_map fst ((initialize;; read 0x3e0010 4) (reset_device (λ a, a))) = Some (Ok [0x10; 0x11; 0x12; 0x13]).
Proof. vm_compute. reflexivity. Qed.
