(* ===== verification/OtaActivation.v ===== *)
(** * Activating an update and confirming an image

    The two operations of [src/src/platform/ota.rs] that change what boots, run on
    a device: what they change on every path, what they have established when they
    report success, and the one activation that reports success without effect: the
    one that takes the last sequence number. *)

From stdpp Require Import base tactics numbers list option.
From S2P Require Import Prelude Interfaces SignedImage UsbUpdate Rom FlashEncryption FlashWindows FlashOperations Ota OtaRecords.
From S2P Require Import OtaDevice ModelRom.

Section activation.
Context {M : Type} `{RomView M}.
Implicit Types d : Device M.

(** Flash of [d'] differs from [d] only inside the sector of record [i]. *)
Definition only_record (i : Z) d d' : Prop :=
  dwithin (entry_address i) (entry_address i + OTA_SECTOR_SIZE) d d'.

(** A rewrite of one record leaves the other record and the slots alone. *)
Lemma only_record_other i d d' :
  i = 0 ∨ i = 1 → only_record i d d' →
  record_bytes (dv_rom d') (1 - i) = record_bytes (dv_rom d) (1 - i).
Proof.
  intros Hi [_ W]. unfold record_bytes. apply mem_read_ext. intros a Ha.
  apply (wi_flash _ _ _ _ W). unfold entry_address, OTADATA_OFFSET, OTA_SECTOR_SIZE, OTA_ENTRY_SIZE in *.
  destruct Hi as [-> | ->]; simpl in *; lia.
Qed.

Lemma only_record_records i d d' record :
  i = 0 ∨ i = 1 → only_record i d d' → record_bytes (dv_rom d') i = record →
  records_of d' = replace_at (records_of d) i (decode record).
Proof.
  intros Hi W E. pose proof (only_record_other i d d' Hi W) as Ho.
  unfold records_of, replace_at. destruct Hi as [-> | ->].
  - change (1 - 0) with 1 in Ho. change (0 =? 0) with true. cbn [fst snd]. by rewrite Ho, E.
  - change (1 - 1) with 0 in Ho. change (1 =? 0) with false. cbn [fst snd]. by rewrite Ho, E.
Qed.

Definition activation_post target seq ae desc d (r : result ConfirmError unit) d' : Prop :=
  (d' = d ∨ ∃ l, layout_is d desc l ∧ activation_entry l = ae ∧ only_record ae d d') ∧
  (r = Ok tt → window_ok (dv_rom d') OTADATA_MAPPING) ∧
  (r = Ok tt → is_u32 seq → ∃ l, layout_is d desc l ∧
     activation_is_valid (active_slot l) (active_sequence l) (activation_entry l) target seq ae = true ∧
     records_of d' = replace_at (records_of d) ae (mkOtaEntry seq 0 (ota_crc seq))).

Lemma activate_update_wp target seq ae desc d :
  otadata_ok d →
  wp (activate_update target seq ae desc) (activation_post target seq ae desc d) d.
Proof.
  intros W. apply wp_bind, wp_update_layout; [done| |by intros; split; [left|]; split].
  intros l Hi HL. apply wp_bind, wp_return_if; intros V; [by split; [left|]; split|].
  apply negb_false_iff in V.
  pose proof (activation_is_valid_spec _ _ _ _ _ _ V) as (Hae & _).
  assert (ae = 0 ∨ ae = 1) as Hcase.
  { destruct HL as (off & _ & HL). apply update_layout_spec in HL as (a & _ & Ha & Hcase & _). lia. }
  apply wp_replace_and_verify; [done|done|apply length_encode_with_state|].
  intros d' r Wd Hr. split; [right; by exists l|]. split; [by intros Hok; destruct (Hr Hok)|].
  intros -> Hs. destruct (Hr eq_refl) as (Hw & Hrec & _). exists l. split; [done|]. split; [done|].
  rewrite (only_record_records ae d d' _ Hcase Wd Hrec).
  rewrite decode_encode by (done || by vm_compute). done.
Qed.

(** C19: activating an update always returns. Whatever it reports, it changes at
    most the sector of the record the layout offered, which is not the active
    record, so the image that was selected stays described. When it reports
    success the executing image was the selected one, and now the bootloader
    selects the target slot, which is the other one (unless the sequence numbers
    are exhausted). *)
Theorem activation_on_device target seq ae desc d :
  fixed_ok d → is_u32 seq →
  ∃ r d', activate_update target seq ae desc d = Some (r, d') ∧
    (∀ a, flash (dv_rom d') a ≠ flash (dv_rom d) a →
       entry_address ae ≤ a < entry_address ae + OTA_SECTOR_SIZE) ∧
    (flash (dv_rom d') = flash (dv_rom d) ∨
       active_entry (records_of d) = Some (1 - ae) ∧
       record_bytes (dv_rom d') (1 - ae) = record_bytes (dv_rom d) (1 - ae)) ∧
    (r = Ok tt → ∃ off, running_of (dv_rom d) desc = Some off ∧ boots (records_of d) = Some off ∧
       (seq ≠ U32_MAX → boots (records_of d') = update_slot_offset target ∧
                         boots (records_of d') ≠ Some off)).
Proof.
  intros F Hs. destruct (wp_elim _ _ _ (activate_update_wp target seq ae desc d (fixed_otadata d F)))
    as (r & d' & E & Hframe & _ & Hok).
  exists r, d'. split; [done|]. split; [|split].
  - intros a Hne. destruct (decide (entry_address ae ≤ a < entry_address ae + OTA_SECTOR_SIZE)) as [|Hout];
      [done|]. destruct Hframe as [->|(l & _ & _ & [_ W])]; [done|].
    by rewrite (wi_flash _ _ _ _ W) in Hne.
  - destruct Hframe as [->|(l & (off & _ & HL) & <- & W)]; [by left|right].
    apply update_layout_spec in HL as (a & Ha & Hae & Hcase & _). rewrite Hae in *.
    replace (1 - (1 - a)) with a by lia. split; [done|].
    pose proof (only_record_other (1 - a) d d' ltac:(lia) W) as Ho.
    by replace (1 - (1 - a)) with a in Ho by lia.
  - intros ->. destruct (Hok eq_refl Hs) as (l & (off & Hoff & HL) & V & Hrec).
    pose proof (activation_is_valid_spec _ _ _ _ _ _ V) as (Hae & _ & Htgt & Ht & _).
    rewrite <- Hae in HL, V. exists off. split; [done|].
    pose proof (update_layout_spec _ _ _ _ _ HL) as (a & Ha & _ & _ & Hseq & _ & Hso & Hslot).
    split; [unfold boots; rewrite Ha; cbn [mbind option_bind]; by rewrite Hseq|].
    intros Hmax. rewrite Hrec, (boots_replace _ _ _ _ _ _ _ _ HL V) by done.
    assert (is_selectable (mkOtaEntry seq 0 (ota_crc seq)) = true) as ->.
    { unfold is_selectable. cbn [sequence state crc]. rewrite Z.eqb_refl.
      apply Z.eqb_neq in Hmax. by rewrite Hmax. }
    split; [done|]. apply slot_offset_spec in Hso as (_ & Hslo & Hr0 & _). rewrite <- Hslot in Hslo, Hr0.
    pose proof (Z.mod_pos_bound (seq - 1) 2 ltac:(lia)).
    rewrite <- Hslo. assert (target = 0 ∨ target = 1) as [Ht'|Ht'] by lia; rewrite Ht';
      assert (active_slot l = 0 ∨ active_slot l = 1) as [Hl|Hl] by lia; rewrite Hl in *;
      try lia; done.
Qed.

(** An initialised device whose layout can be offered offers it. *)
Lemma update_layout_run desc d l : dv_initialized d = true → otadata_ok d → layout_is d desc l →
  update_layout desc d = Some (Ok l, d).
Proof.
  intros Hi Wo (off & Hoff & HU). pose proof (update_layout_spec _ _ _ _ _ HU) as (a & Ha & _).
  assert (running_app_offset desc d = Some (Ok off, d)) as E1.
  { unfold running_of in Hoff. destruct (_ && _) eqn:Hr; [|done]. unfold running_app_offset. rewrite Hr.
    bool_to_prop. destruct (drom_index desc ltac:(lia)) as [E Hk].
    unfold return_if, ok_or, get_state, mbind, step_bind. cbv beta iota zeta delta [negb mret step_ret throw].
    rewrite E, rom_read_mmu by done.
    replace (DROM_BASE_PAGE + (desc / PAGE - DROM_BASE_PAGE)) with (desc / PAGE) by lia. by rewrite Hoff. }
  assert (read_records d = Some (Ok (records_of d), d)) as E2.
  { destruct (wp_elim read_records (λ r d', r = Ok (records_of d) ∧ d' = d) d) as (r & d' & E & -> & ->); [|done].
    by apply wp_read_records; [..|congruence]. }
  unfold update_layout, read_entries, mbind, step_bind. rewrite E1, E2. unfold ok_or. rewrite Ha.
  unfold mret, step_ret. rewrite HU. by destruct l.
Qed.

(** A rewrite that fails does not blame the layout. *)
Lemma replace_not_layout address record d d' :
  replace_and_verify address record d ≠ Some (Err CE_InvalidLayout, d').
Proof.
  unfold replace_and_verify, replace_entry, read_flash, map_err, return_if, mbind, step_bind.
  intros E. repeat (case_match; simplify_eq).
Qed.

(** The layout of a device whose sequence numbers are used up. *)
Definition exhausted d desc (l : UpdateLayout) : Prop :=
  layout_is d desc l ∧ active_sequence l = U32_MAX - 1.

(** The record the last activation writes. *)
Definition last_record : OtaEntry := mkOtaEntry U32_MAX 0 (ota_crc U32_MAX).

(** C22: with the sequence numbers exhausted an update is accepted and has no effect.  On
    every device whose active record holds the sequence 4294967294, the sequence computed at
    Begin for the other slot is 4294967295, and activating it is not refused as invalid: the
    activation fails in flash, or reports success with that record written and read back.
    The record is the erased pattern of the sequence field, so it is not selectable: the
    device offers the layout it offered before and boots the slot it booted before. *)
Theorem exhausted_activation_is_ignored desc d l :
  fixed_ok d → exhausted d desc l →
  let target := 1 - active_slot l in let ae := activation_entry l in
  next_sequence (active_sequence l) target = Some U32_MAX ∧
  ∃ r d', activate_update target U32_MAX ae desc d = Some (r, d') ∧
    (dv_initialized d = true → r ≠ Err CE_InvalidLayout) ∧
    (r = Ok tt → entry_at (records_of d') ae = last_record ∧ is_selectable last_record = false ∧
       layout_is d' desc l ∧ active_entry (records_of d') = active_entry (records_of d) ∧
       boots (records_of d') = update_slot_offset (active_slot l)).
Proof.
  intros F [HL Hs]. cbv zeta. pose proof HL as (off & Hoff & HU).
  pose proof (update_layout_spec _ _ _ _ _ HU) as (a & Ha & Hae & Hcase & Hseq & Hst & Hso & Hslot).
  rewrite Hs in *. assert (active_slot l = 1) as Ht by (rewrite Hslot; reflexivity). rewrite Ht in *.
  split; [reflexivity|]. pose proof (fixed_otadata d F) as Wo.
  assert (is_selectable last_record = false) as Hsel by (vm_compute; reflexivity).
  destruct (wp_elim _ _ _ (activate_update_wp 0 U32_MAX (activation_entry l) desc d Wo))
    as (r & d' & E & Hframe & _ & Hok).
  exists r, d'. split; [done|]. split.
  - intros Hi ->. revert E. unfold activate_update, mbind, step_bind.
    rewrite (update_layout_run _ _ _ Hi Wo HL), Ht, Hs, Hae.
    assert (activation_is_valid 1 (U32_MAX - 1) (1 - a) 0 U32_MAX (1 - a) = true) as ->
      by (destruct Hcase as [-> | ->]; reflexivity).
    apply replace_not_layout.
  - intros ->. destruct (Hok eq_refl) as (l' & (off' & Hoff' & HU') & _ & Hrec); [by vm_compute|].
    assert (mmu (dv_rom d') = mmu (dv_rom d)) as Hm.
    { destruct Hframe as [->|(_ & _ & _ & _ & W)]; [done|apply W]. }
    fold last_record in Hrec. rewrite Hae in Hrec.
    assert (active_entry (records_of d') = active_entry (records_of d)) as Hact.
    { rewrite Hrec, (active_entry_other _ _ _ Ha), Hsel. done. }
    assert (entry_at (records_of d') a = entry_at (records_of d) a) as Hkeep.
    { rewrite Hrec. by destruct Hcase as [-> | ->]. }
    split_and!; [|done| |done|].
    + rewrite Hae, Hrec. by destruct Hcase as [-> | ->].
    + exists off. split; [by unfold running_of; rewrite Hm|].
      rewrite Ht, Hs. revert HU. unfold update_layout_from_entries. rewrite Hact, Ha. cbn [mbind option_bind]. by rewrite Hkeep.
    + unfold boots. rewrite Hact, Ha. cbn [mbind option_bind]. by rewrite Hkeep, Hseq.
Qed.

(** The application descriptor of the slot at [off]. *)
Definition descriptor_of d (off : Z) : bytes :=
  mem_read (flash (dv_rom d)) (off + OTA_APP_DESCRIPTOR_OFFSET) APP_DESCRIPTOR_SIZE.

Lemma wp_read_descriptor s off (Q : result ConfirmError bytes → Device M → Prop) d :
  slot_offset s = Some off → windows_ok d →
  (dv_initialized d = true → Q (Ok (descriptor_of d off)) d) → Q (Err CE_FlashRead) d →
  wp (read_flash (off + OTA_APP_DESCRIPTOR_OFFSET) APP_DESCRIPTOR_SIZE) Q d.
Proof.
  intros Hs W Hok Herr. apply slot_offset_spec in Hs as (_ & _ & _ & Hcase).
  assert (∃ mp, mp ∈ MAPPINGS ∧ physical_start mp = off ∧ size mp = 0x10000) as (mp & Hmp & Hp & Hsz).
  { destruct Hcase as [[_ ->]|[_ ->]];
      [exists OTA0_DESCRIPTOR_MAPPING|exists OTA1_DESCRIPTOR_MAPPING];
      unfold MAPPINGS; rewrite !elem_of_cons; auto 6. }
  apply (wp_read_flash mp); rewrite ?Hp, ?Hsz; auto;
    unfold OTA_APP_DESCRIPTOR_OFFSET, APP_DESCRIPTOR_SIZE; try lia.
  intros Hi. by apply windows_in.
Qed.

(** confirming the running image always returns; it changes at most the sector
    of the active record, and only when it reports success or a flash error.  When
    it reports that it confirmed, the active record was pending verification, its
    slot is the one the running code is mapped from and holds exactly the given
    version and secure version, and the record now has the same sequence and the
    state valid, so the same slot boots. A report of [false] changes nothing. *)
Theorem confirmation_on_device version secure_version desc d :
  windows_ok d →
  ∃ r d', confirm_running_image version secure_version desc d = Some (r, d') ∧
    (∀ a, flash (dv_rom d') a ≠ flash (dv_rom d) a → ∃ i, active_entry (records_of d) = Some i ∧
       entry_address i ≤ a < entry_address i + OTA_SECTOR_SIZE) ∧
    (r = Ok false → d' = d) ∧
    (r = Ok true → ∃ i off, active_entry (records_of d) = Some i ∧
       let e := entry_at (records_of d) i in
       state e = OTA_STATE_PENDING_VERIFY ∧ slot_offset (sequence e) = Some off ∧
       running_of (dv_rom d) desc = Some off ∧
       descriptor_matches_version (descriptor_of d off) version = true ∧
       le_decode (slice (descriptor_of d off) 4 8) = secure_version ∧
       records_of d' =
         replace_at (records_of d) i (mkOtaEntry (sequence e) OTA_STATE_VALID (ota_crc (sequence e))) ∧
       boots (records_of d') = boots (records_of d)).
Proof.
  intros W. pose proof (fixed_otadata d (windows_fixed d W)) as Wo.
  apply (wp_elim (confirm_running_image version secure_version desc)
    (λ r d', _ ∧ _ ∧ _)). unfold confirm_running_image.
  assert (∀ r : result ConfirmError bool, r ≠ Ok true →
    (∀ a, flash (dv_rom d) a ≠ flash (dv_rom d) a → ∃ i, active_entry (records_of d) = Some i ∧
       entry_address i ≤ a < entry_address i + OTA_SECTOR_SIZE) ∧ (r = Ok false → d = d)) as Hsame by done.
  apply wp_bind, wp_running_app_offset; [|repeat split; done]. intros run Hrun.
  apply wp_bind, wp_read_records; [done| |repeat split; done]. intros Hi.
  destruct (active_entry (records_of d)) as [i|] eqn:Ha; [|apply wp_ret; repeat split; done].
  cbv zeta. destruct (negb _) eqn:Hst; [apply wp_ret; repeat split; done|].
  apply negb_false_iff, Z.eqb_eq in Hst.
  destruct (slot_offset _) as [off|] eqn:Hoff; [|apply wp_ret; repeat split; done].
  apply wp_bind, (wp_read_descriptor _ _ _ _ Hoff W); [|repeat split; done]. intros _.
  destruct (negb (confirmation_matches_running_image _ _ _ _ _)) eqn:Hm; [apply wp_ret; repeat split; done|].
  apply negb_false_iff in Hm. unfold confirmation_matches_running_image in Hm. bool_to_prop.
  assert (run = off) as -> by congruence.
  destruct (active_entry_spec _ _ Ha) as (Hcase & Sel & Hmax).
  apply wp_bind, wp_replace_and_verify; [done|done|apply length_encode_with_state|].
  intros d' r Wd Hr.
  assert (∀ a, flash (dv_rom d') a ≠ flash (dv_rom d) a → ∃ i', Some i = Some i' ∧
    entry_address i' ≤ a < entry_address i' + OTA_SECTOR_SIZE) as Hframe.
  { intros a Hne. exists i. split; [done|].
    destruct (decide (entry_address i ≤ a < entry_address i + OTA_SECTOR_SIZE)) as [|Hout]; [done|].
    by rewrite (wi_flash _ _ _ _ (proj2 Wd)) in Hne. }
  destruct r as [[]|e]; [apply wp_ret|repeat split; done].
  split; [done|]. split; [done|]. intros _. exists i, off. split; [done|].
  destruct (Hr eq_refl) as (_ & Hrec & _).
  set (e := entry_at (records_of d) i) in *.
  assert (is_u32 (sequence e)) as Hu.
  { assert (∀ j, is_u32 (sequence (decode (record_bytes (dv_rom d) j)))) as Hdec
      by (intros j; apply decode_u32; [apply mem_read_bytes; intros; apply flash_byte|apply length_mem_read]).
    unfold e. destruct Hcase as [-> | ->]; apply Hdec. }
  assert (records_of d' =
    replace_at (records_of d) i (mkOtaEntry (sequence e) OTA_STATE_VALID (ota_crc (sequence e)))) as Erec.
  { rewrite (only_record_records i d d' _ Hcase Wd Hrec). by rewrite decode_encode by (done || by vm_compute). }
  repeat (split; [done|]). rewrite Erec. apply boots_confirm; [done| |done].
  apply selectable_inv in Sel as (Hmax' & _). unfold is_selectable. cbn [sequence state crc].
  apply Z.eqb_neq in Hmax'. by rewrite Hmax', Z.eqb_refl.
Qed.
End activation.

(** ** Witnesses on the concrete ROM *)

(** Record 0 holds sequence 1 in the given state, record 1 is erased, and slot 0
    begins with a descriptor of version "0" and secure version 3. *)
Definition model_descriptor : bytes :=
  le_encode 4 APP_DESCRIPTOR_MAGIC ++ le_encode 4 3 ++ zeros 8 ++ [48] ++ zeros 239.
Definition ota_flash (st : Z) : memory :=
  mem_write
    (mem_write (λ _, 255) (entry_address 0) (encode_with_state (mkOtaEntry 1 st (ota_crc 1)) st))
    (OTA_0_OFFSET + OTA_APP_DESCRIPTOR_OFFSET) model_descriptor.

Definition result_of {S E A} (o : option (result E A * S)) : option (result E A) := option_map fst o.

Lemma activation_on_device_witness :
  ∃ r d', activate_update 1 2 1 0x3f000020 (release_device (ota_flash 2)) = Some (r, d') ∧
    r = Ok tt ∧ boots (records_of d') = update_slot_offset 1.
Proof.
  assert (F : fixed_ok (release_device (ota_flash 2))) by apply windows_fixed, release_windows.
  destruct (activation_on_device 1 2 1 0x3f000020 _ F) as (r & d' & E & _ & _ & Hok);
    [unfold is_u32; lia|].
  assert (Hr : result_of (activate_update 1 2 1 0x3f000020 (release_device (ota_flash 2))) = Some (Ok tt))
    by (vm_compute; reflexivity).
  rewrite E in Hr. injection Hr as Hr. exists r, d'. split; [done|]. split; [exact Hr|].
  destruct (Hok Hr) as (off & _ & _ & Hb). by apply Hb.
Defined.

(** Slot 1 runs the last sequence but one: record 0 holds it, record 1 is erased. *)
Definition exhausted_device : Device model_rom :=
  mkDevice (mkModelRom
    (mem_write (λ _, 255) (entry_address 0) (encode_with_state (mkOtaEntry (U32_MAX - 1) 2 (ota_crc (U32_MAX - 1))) 2))
    (λ q, if q =? 0x3f00 then 0x8020 else release_mmu q) true 2000) true.
Definition exhausted_layout : UpdateLayout := mkUpdateLayout 1 (U32_MAX - 1) 1.

Lemma exhausted_windows : fixed_ok exhausted_device.
Proof.
  apply windows_fixed, table_windows. intros q Hq. destruct (Z.eqb_spec q 0x3f00) as [->|]; [|done].
  exfalso. revert Hq. rewrite !elem_of_cons, elem_of_nil. lia.
Qed.

Lemma exhausted_activation_is_ignored_witness :
  exhausted exhausted_device 0x3f000020 exhausted_layout ∧
  ∃ d', activate_update 0 U32_MAX 1 0x3f000020 exhausted_device = Some (Ok tt, d') ∧
    boots (records_of d') = Some OTA_1_OFFSET.
Proof.
  assert (exhausted exhausted_device 0x3f000020 exhausted_layout) as X.
  { split; [|done]. exists OTA_1_OFFSET. split; vm_compute; reflexivity. }
  split; [done|].
  destruct (exhausted_activation_is_ignored 0x3f000020 exhausted_device exhausted_layout exhausted_windows X)
    as (_ & r & d' & E & _ & Hok).
  assert (Hr : result_of (activate_update 0 U32_MAX 1 0x3f000020 exhausted_device) = Some (Ok tt))
    by (vm_compute; reflexivity).
  change (activate_update 0 U32_MAX 1 0x3f000020 exhausted_device = Some (r, d')) in E.
  rewrite E in Hr. injection Hr as ->. exists d'. split; [done|]. by apply Hok.
Defined.

Lemma confirmation_on_device_witness :
  ∃ r d', confirm_running_image [48] 3 0x3f000020 (release_device (ota_flash 1)) = Some (r, d') ∧
    r = Ok true ∧ boots (records_of d') = boots (records_of (release_device (ota_flash 1))).
Proof.
  destruct (confirmation_on_device [48] 3 0x3f000020 _ (release_windows (ota_flash 1)))
    as (r & d' & E & _ & _ & Hok).
  assert (Hr : result_of (confirm_running_image [48] 3 0x3f000020 (release_device (ota_flash 1)))
    = Some (Ok true)) by (vm_compute; reflexivity).
  rewrite E in Hr. injection Hr as Hr. exists r, d'. split; [done|]. split; [exact Hr|].
  destruct (Hok Hr) as (i & off & _ & H). apply H.
Defined.
