(* ===== verification/EspBackend.v ===== *)
(** * The release update backend

    [src/src/platform/usb_update.rs]: [Esp32S2UpdateBackend] over encrypted flash,
    with its address arithmetic, the call of the ROM signature check and the
    trusted key digest of the build. *)

From stdpp Require Import base tactics numbers list option.
From S2P Require Import Prelude Interfaces SignedImage Rom FlashEncryption Ota.

Inductive EspError := EE_Address | EE_Flash | EE_Ota.

Definition FLASH_SECTOR_SIZE : Z := 0x1000.

(** [Esp32S2UpdateBackend::address]. *)
Definition address (slot offset : Z) (length : nat) : option Z :=
  base ← update_slot_offset slot;
  length ← (if Z.of_nat length <=? U32_MAX then Some (Z.of_nat length) else None);
  fin ← u32_add offset length;
  if OTA_SLOT_SIZE <? fin then None else u32_add base offset.

Section backend.
Context {M : Type} `{Rom M}.

Definition esp_step : Type → Type := step (Device M) EspError.

Definition esp_now_ms : esp_step Z := call (on_rom rom_now_ms).

Definition esp_layout (descriptor_address : Z) : esp_step UpdateLayout :=
  map_err (update_layout descriptor_address) EE_Ota.

Definition esp_erase (slot offset length : Z) : esp_step unit :=
  return_if (negb (is_multiple_of offset FLASH_SECTOR_SIZE)
             || negb (is_multiple_of length FLASH_SECTOR_SIZE) || (length =? 0)) EE_Address;;
  address ← ok_or (address slot offset (Z.to_nat length)) EE_Address;
  map_err (erase_update address (Z.to_nat length)) EE_Flash.

Definition esp_write (slot offset : Z) (data : bytes) : esp_step unit :=
  return_if ((length data =? 0)%nat || negb (is_multiple_of offset 32)
             || negb (is_multiple_of (Z.of_nat (length data)) 32)) EE_Address;;
  address ← ok_or (address slot offset (length data)) EE_Address;
  map_err (write_update address data) EE_Flash.

Definition esp_activate (slot sequence activation_entry descriptor_address : Z) : esp_step unit :=
  map_err (activate_update slot sequence activation_entry descriptor_address) EE_Ota.

Definition esp_read (slot offset : Z) (length : nat) : esp_step bytes :=
  address ← ok_or (address slot offset length) EE_Address;
  map_err (read_update address length) EE_Flash.

Definition rsa_pss_matches (public_key signature image_digest : bytes) : bool :=
  let key := mkRsaPublicKey (slice public_key 0 384) (le_decode (slice public_key 384 388))
               (slice public_key 388 772) (le_decode (slice public_key 772 776)) in
  let '(valid, verified) := rom_rsa_pss_verify key signature image_digest in
  valid && bytes_eqb verified image_digest.

Definition esp_verify_rsa_pss (public_key signature image_digest : bytes) : esp_step bool :=
  mret (rsa_pss_matches public_key signature image_digest).
End backend.

(** ** The trusted key digest *)

(** [None] is the compile-time panic on a character that is not lowercase
    hexadecimal. *)
Definition hex_nibble (value : Z) : option Z :=
  if (48 <=? value) && (value <=? 57) then Some (value - 48)
  else if (97 <=? value) && (value <=? 102) then Some (value - 97 + 10)
  else None.

Definition hex_byte (hex : bytes) (index : nat) : option Z :=
  high ← hex_nibble (byte_at hex (index * 2));
  low ← hex_nibble (byte_at hex (index * 2 + 1));
  Some (Z.lor (Z.shiftl high 4) low).

Definition trusted_update_key_digest (hex : bytes) : option bytes :=
  if negb (length hex =? 64)%nat then None else mapM (hex_byte hex) (seq 0 32).
