(* ===== verification/EspView.v ===== *)
(** * The release backend implements the update interface

    The operations of [EspBackend], with a device as state, discharge the laws of
    [FlashView], [UpdateView] and [WriteView]: every theorem proved about the
    updater against those interfaces holds of the release firmware.

    A failed activation can leave stale cache lines over [otadata]; from then on
    the layout the backend reports is not tied to the record flash holds.  The
    ghost flag [eb_faulted] remembers it. *)

From stdpp Require Import base tactics numbers list option.
From S2P Require Import Prelude Interfaces SignedImage Rom FlashEncryption FlashWindows FlashOperations.
From S2P Require Import Ota OtaRecords OtaDevice OtaActivation EspBackend.

Section esp.
Context {M : Type} `{RomView M}.
Implicit Types d : Device M.

Record esp := mkEsp {
  eb_device : Device M;
  eb_descriptor : Z;
  eb_faulted : bool;
  eb_ok : eb_faulted = false → otadata_ok eb_device;
}.

(** ** Slots of flash *)

Definition slot_flash (m : M) (slot a : Z) : Z :=
  match update_slot_offset slot with
  | Some base => if (0 <=? a) && (a <? OTA_SLOT_SIZE) then flash m (base + a) else 0
  | None => 0
  end.

Lemma slot_base slot base : update_slot_offset slot = Some base →
  slot = 0 ∧ base = OTA_0_OFFSET ∨ slot = 1 ∧ base = OTA_1_OFFSET.
Proof.
  unfold update_slot_offset. destruct slot as [|[| |]|]; intros [=]; auto.
Qed.

Lemma address_Some slot offset n v : address slot offset n = Some v →
  ∃ base, update_slot_offset slot = Some base ∧ v = base + offset ∧
    offset + Z.of_nat n ≤ OTA_SLOT_SIZE.
Proof.
  unfold address. intros E. apply bind_Some in E as (base & Eb & E).
  apply bind_Some in E as (len & El & E). apply bind_Some in E as (fin & Ef & E).
  destruct (_ <=? _); simplify_eq. apply u32_add_Some in Ef as [-> _].
  destruct (_ <? _) eqn:El; [done|]. bool_to_prop. apply u32_add_Some in E as [-> _]. eauto.
Qed.

(** A change of a range inside a slot leaves [otadata], the fixed mappings and
    the other slot alone. *)
Definition slot_change (slot lo hi : Z) d d' : Prop :=
  d' = d ∨ ∃ base, update_slot_offset slot = Some base ∧ 0 ≤ lo ∧ hi ≤ OTA_SLOT_SIZE ∧
    dwithin (base + lo) (base + hi) d d'.

Lemma slot_change_otadata slot lo hi d d' : slot_change slot lo hi d d' → otadata_ok d → otadata_ok d'.
Proof.
  intros [->|(base & Eb & Hlo & Hhi & W)] Ho; [done|]. intros Hi. rewrite (proj1 W) in Hi.
  apply (mutated_apart _ _ _ _ _ _ (mutated_here _ _ _ _ W)); [|by apply Ho].
  right. apply slot_base in Eb. unfold OTA_0_OFFSET, OTA_1_OFFSET in *. simpl. lia.
Qed.

Lemma slot_change_records slot lo hi d d' i :
  i = 0 ∨ i = 1 → slot_change slot lo hi d d' → record_bytes (dv_rom d') i = record_bytes (dv_rom d) i.
Proof.
  intros Hi [->|(base & Eb & Hlo & Hhi & [_ W])]; [done|]. apply mem_read_ext. intros a Ha.
  apply (wi_flash _ _ _ _ W). apply slot_base in Eb.
  unfold entry_address, OTADATA_OFFSET, OTA_SECTOR_SIZE, OTA_ENTRY_SIZE, OTA_0_OFFSET, OTA_1_OFFSET in *.
  destruct Hi as [-> | ->]; simpl in *; lia.
Qed.

Lemma slot_change_flash slot lo hi d d' slot' a :
  slot_change slot lo hi d d' → slot' ≠ slot ∨ ¬ (lo ≤ a < hi) →
  slot_flash (dv_rom d') slot' a = slot_flash (dv_rom d) slot' a.
Proof.
  intros [->|(base & Eb & Hlo & Hhi & [_ W])] Hout; [done|]. unfold slot_flash.
  destruct (update_slot_offset slot') as [base'|] eqn:Eb'; [|done].
  destruct (_ && _) eqn:Ea; [|done]. bool_to_prop. apply (wi_flash _ _ _ _ W).
  apply slot_base in Eb, Eb'. unfold OTA_0_OFFSET, OTA_1_OFFSET, OTA_SLOT_SIZE in *. lia.
Qed.

Lemma running_of_mmu m m' desc :
  (∀ q, q ≠ 0x3f3b → mmu m' q = mmu m q) → running_of m' desc = running_of m desc.
Proof.
  intros T. unfold running_of. destruct (_ && _) eqn:E; [|done]. bool_to_prop.
  rewrite T; [done|]. unfold DROM_START, DROM_APP_END, PAGE in *.
  pose proof (Z.div_mod desc 65536 ltac:(lia)). pose proof (Z.mod_pos_bound desc 65536 ltac:(lia)). lia.
Qed.

(** ** The operations, on any device *)

Lemma wp_u32_arg {A} (x : Z) (c : step (Device M) EspError A) e Q d :
  (0 ≤ x ≤ U32_MAX → wp c Q d) → Q (Err e) d →
  wp (if (0 <=? x) && (x <=? U32_MAX) then c else throw e) Q d.
Proof. intros Hc He. destruct (_ && _) eqn:E; [|by apply wp_throw]. bool_to_prop. apply Hc. lia. Qed.

Lemma address_wp {A} slot offset n (k : Z → step (Device M) EspError A) Q d :
  0 ≤ offset →
  (∀ base, update_slot_offset slot = Some base → 0 ≤ base → base + offset + Z.of_nat n ≤ 0x3e0000 →
     offset + Z.of_nat n ≤ OTA_SLOT_SIZE → wp (k (base + offset)) Q d) →
  Q (Err EE_Address) d →
  wp (v ← ok_or (address slot offset n) EE_Address; k v) Q d.
Proof.
  intros Ho Hk He. apply wp_bind, wp_ok_or; [|done]. intros v Hv.
  destruct (address_Some _ _ _ _ Hv) as (base & Eb & -> & Hend). pose proof (slot_base _ _ Eb).
  apply Hk; [done|..|done]; unfold OTA_0_OFFSET, OTA_1_OFFSET, OTA_SLOT_SIZE in *; lia.
Qed.

Lemma esp_erase_wp slot offset n d :
  0 ≤ offset → 0 ≤ n →
  wp (esp_erase slot offset n) (λ r d', slot_change slot offset (offset + n) d d' ∧
     (r = Ok tt → ∃ base, update_slot_offset slot = Some base ∧ offset + n ≤ OTA_SLOT_SIZE ∧
        ∀ a, base + offset ≤ a < base + offset + n ∨ erased (dv_rom d) a → erased (dv_rom d') a)) d.
Proof.
  intros Ho Hn. apply wp_bind, wp_return_if; intros Hal; [by split; [left|]|]. bool_to_prop.
  apply address_wp; [done| |by split; [left|]]. intros base Eb Hb Hend Hslot.
  rewrite Z2Nat.id in Hend, Hslot by done. apply wp_map_err. unfold erase_update.
  pose proof (erase_inner_wp (base + offset) (Z.to_nat n) false d ltac:(lia)) as He. cbv zeta in He.
  rewrite Z2Nat.id in He by done.
  eapply wp_mono; [apply He; [unfold_max; lia|lia]|]. intros r d' [[W _] K].
  assert (slot_change slot offset (offset + n) d d') as Hc
    by (right; exists base; rewrite Z.add_assoc; auto).
  destruct r as [[]|e]; split; try done. intros _. exists base. split; [done|]. split; [done|].
  destruct (K eq_refl) as [_ Hall]. intros a Ha.
  destruct (decide (base + offset ≤ a < base + offset + n)); [by apply Hall|].
  apply (wi_erased _ _ _ _ (proj2 W)); [done|]. destruct Ha; done.
Qed.

Lemma esp_write_wp slot offset data d :
  0 ≤ offset → let n := Z.of_nat (length data) in
  wp (esp_write slot offset data) (λ r d', slot_change slot offset (offset + n) d d' ∧
     (r = Ok tt → is_Some (update_slot_offset slot)) ∧
     ∀ base, update_slot_offset slot = Some base →
       (∀ a, ¬ (base + offset ≤ a < base + offset + n) → erased (dv_rom d) a → erased (dv_rom d') a) ∧
       (r = Ok tt → offset + n ≤ OTA_SLOT_SIZE ∧
        (Forall is_byte data → all_erased (dv_rom d) (base + offset) (base + offset + n) →
         mem_read (flash (dv_rom d')) (base + offset) (length data) = data))) d.
Proof.
  intros Ho. cbv zeta.
  apply wp_bind, wp_return_if; intros Hal.
  { split; [by left|]. split; [done|]. intros base _. by split. }
  bool_to_prop. apply address_wp; [done| |split; [by left|split; [done|intros base _; by split]]].
  intros base Eb Hb Hend Hslot. apply wp_map_err. unfold write_update.
  eapply wp_mono; [apply (write_inner_wp (base + offset) data false d); unfold_max; lia|].
  intros r d' [[W _] K].
  assert (slot_change slot offset (offset + Z.of_nat (length data)) d d') as Hc
    by (right; exists base; rewrite Z.add_assoc; auto).
  destruct r as [[]|e]; (split; [done|]); (split; [by intros; eauto|]); intros base' Eb'; assert (base' = base) as -> by congruence;
    (split; [apply (wi_erased _ _ _ _ (proj2 W))|]); [|done].
  intros _. split; [done|]. by apply (K eq_refl).
Qed.

Lemma slot_read slot base offset n m :
  update_slot_offset slot = Some base → 0 ≤ offset → offset + Z.of_nat n ≤ OTA_SLOT_SIZE →
  mem_read (flash m) (base + offset) n = mem_read (slot_flash m slot) offset n.
Proof.
  intros Eb Ho Hend. apply list_eq. intros i. destruct (decide (i < n)%nat).
  - rewrite !lookup_mem_read by done. f_equal. unfold slot_flash. rewrite Eb.
    rewrite (proj2 (Z.leb_le _ _)), (proj2 (Z.ltb_lt _ _)) by lia. cbn [andb]. f_equal. lia.
  - rewrite !lookup_ge_None_2; rewrite ?length_mem_read; auto with lia.
Qed.

Lemma esp_read_wp slot offset n d :
  0 ≤ offset →
  wp (esp_read slot offset n) (λ r d', remapped d d' ∧
     ∀ out, r = Ok out → out = mem_read (slot_flash (dv_rom d) slot) offset n) d.
Proof.
  intros Ho. unfold esp_read.
  apply address_wp; [done| |split; [apply remapped_refl|done]]. intros base Eb Hb Hend Hslot.
  apply wp_map_err. eapply wp_mono; [apply read_update_wp; lia|].
  intros [out|e] d' [R K]; (split; [done|]); [|done]. intros ? [= <-].
  destruct K as (_ & -> & _). by apply slot_read.
Qed.

(** *** The layout, whatever the cache holds *)

Lemma wp_read_flash_any a n (Q : result ConfirmError bytes → Device M → Prop) d :
  (∀ out, Forall is_byte out → length out = n → Q (Ok out) d) → (∀ e, Q (Err e) d) →
  wp (read_flash a n) Q d.
Proof.
  intros Hok Herr. apply wp_map_err, wp_bind, wp_require_initialized; intros Hi; [|done].
  apply wp_bind, wp_ok_or; [|done]. intros v _. apply wp_bind, wp_get, wp_ret.
  rewrite rom_load_seen. apply Hok; [apply mem_read_bytes; intros; apply seen_byte|apply length_mem_read].
Qed.

Lemma wp_update_layout_any desc (Q : result ConfirmError UpdateLayout → Device M → Prop) d :
  (∀ l, is_u32 (active_sequence l) → 0 ≤ active_slot l ≤ 1 →
     activation_entry l = 0 ∨ activation_entry l = 1 → Q (Ok l) d) →
  (∀ e, Q (Err e) d) → wp (update_layout desc) Q d.
Proof.
  intros Hok Herr. apply wp_bind, wp_running_app_offset; [|done]. intros off _.
  apply wp_bind, wp_bind, wp_bind, wp_read_flash_any; [intros r0 B0 L0|done].
  apply wp_bind, wp_read_flash_any; [intros r1 B1 L1|done]. apply wp_ret.
  apply wp_bind, wp_ok_or; [|done]. intros a _. apply wp_ret.
  apply wp_bind, wp_ok_or; [|done]. intros [[slot seq] ae] HL. apply wp_ret.
  apply update_layout_spec in HL as (a' & _ & -> & Hcase & Hseq & _ & _ & ->).
  apply Hok; cbn [active_slot active_sequence activation_entry].
  - rewrite <- Hseq. destruct Hcase as [-> | ->]; by apply decode_u32.
  - pose proof (Z.mod_pos_bound (seq - 1) 2). lia.
  - lia.
Qed.

Lemma replace_frame i replacement d :
  i = 0 ∨ i = 1 → length replacement = OTA_ENTRY_SIZE →
  wp (replace_and_verify (entry_address i) replacement) (λ _ d', only_record i d d') d.
Proof.
  intros Hcase Hl.
  assert (0 ≤ entry_address i ∧ entry_address i + OTA_SECTOR_SIZE ≤ 0x20000) as [Hpos Hend].
  { destruct Hcase as [-> | ->]; unfold entry_address, OTADATA_OFFSET, OTA_SECTOR_SIZE; lia. }
  assert (0 < OTA_SECTOR_SIZE ∧ Z.of_nat OTA_ENTRY_SIZE ≤ OTA_SECTOR_SIZE) as [HS HE]
    by (unfold OTA_SECTOR_SIZE, OTA_ENTRY_SIZE; lia).
  unfold replace_and_verify, replace_entry. apply wp_bind, wp_bind, wp_map_err.
  pose proof (erase_inner_wp (entry_address i) (Z.to_nat OTA_SECTOR_SIZE) true d Hpos) as He.
  cbv zeta in He. rewrite Z2Nat.id in He by lia.
  eapply wp_mono; [apply He; [unfold_max; lia|lia]|]. clear He. intros [[]|e] d1 [Mu1 _]; [|apply Mu1].
  apply wp_map_err.
  pose proof (write_inner_wp (entry_address i) replacement true d1 Hpos) as Hw. cbv zeta in Hw.
  rewrite Hl in Hw.
  eapply wp_mono; [apply Hw; [unfold_max; lia|unfold OTA_ENTRY_SIZE; lia]|]. clear Hw.
  intros r d2 [Mu2 _].
  assert (only_record i d d2) as W2.
  { eapply dwithin_trans; [apply Mu1|]. eapply dwithin_weaken; [| |apply Mu2]; lia. }
  destruct r as [[]|e]; [|done].
  apply wp_bind, wp_read_flash_any; [|done]. intros out _ _. by apply wp_return_if.
Qed.

Lemma esp_activate_wp slot seq ae desc d :
  wp (esp_activate slot seq ae desc)
    (λ r d', (d' = d ∨ ∃ i, (i = 0 ∨ i = 1) ∧ only_record i d d') ∧
             (r = Ok tt → otadata_ok d → otadata_ok d')) d.
Proof.
  apply wp_map_err.
  assert (wp (activate_update slot seq ae desc)
    (λ _ d', d' = d ∨ ∃ i, (i = 0 ∨ i = 1) ∧ only_record i d d') d) as Hframe.
  { apply wp_bind, wp_update_layout_any; [|by left]. intros l Hs Hsl Hae.
    apply wp_bind, wp_return_if; intros V; [by left|]. apply negb_false_iff in V.
    apply activation_is_valid_spec in V as (-> & _).
    eapply wp_mono; [by apply replace_frame, length_encode_with_state|]. intros r d' W. right. eauto. }
  destruct (wp_elim _ _ _ Hframe) as (r & d' & E & HF). unfold wp. rewrite E.
  destruct r as [[]|e]; (split; [done|]); [|done]. intros _ Ho _.
  pose proof (wp_run _ _ _ _ _ E (activate_update_wp slot seq ae desc d Ho)) as (_ & Hok & _).
  by apply Hok.
Qed.

(** ** The backend as a state

    An argument that is not a [u32] does not exist in the code; the interface
    rejects it. *)

Definition lift {A} (c : step (Device M) EspError A)
    (keeps_ok : ∀ d, wp c (λ _ d', otadata_ok d → otadata_ok d') d) (b : esp) : option A * esp :=
  match c (eb_device b) as o
    return match o with Some (_, d') => otadata_ok (eb_device b) → otadata_ok d' | None => False end →
           option A * esp with
  | Some (Ok a, d') => λ K, (Some a, mkEsp d' (eb_descriptor b) (eb_faulted b) (λ hf, K (eb_ok b hf)))
  | Some (Err _, d') => λ K, (None, mkEsp d' (eb_descriptor b) (eb_faulted b) (λ hf, K (eb_ok b hf)))
  | None => λ K, False_rect _ K
  end (keeps_ok (eb_device b)).

Lemma lift_spec {A} (c : step (Device M) EspError A) K b r b' Q :
  lift c K b = (r, b') → (wp c Q (eb_device b)) →
  eb_descriptor b' = eb_descriptor b ∧ eb_faulted b' = eb_faulted b ∧
  match r with
  | Some a => Q (Ok a) (eb_device b')
  | None => ∃ e, Q (Err e) (eb_device b')
  end.
Proof.
  unfold lift, wp. generalize (K (eb_device b)). unfold wp. intros k.
  destruct (c (eb_device b)) as [[[a|e] d']|]; intros E Hq; [..|done];
    injection E as <- <-; cbn; eauto.
Qed.

Definition u32_arg {A} (x : Z) (c : step (Device M) EspError A) : step (Device M) EspError A :=
  if (0 <=? x) && (x <=? U32_MAX) then c else throw EE_Address.

Lemma wp_u32 {A} x (c : step (Device M) EspError A) Q d :
  (0 ≤ x → wp c Q d) → Q (Err EE_Address) d → wp (u32_arg x c) Q d.
Proof. intros Hc He. apply wp_u32_arg; [|done]. intros Hx. apply Hc. lia. Qed.

Lemma read_ok slot offset n d :
  wp (u32_arg offset (esp_read slot offset n)) (λ _ d', otadata_ok d → otadata_ok d') d.
Proof.
  apply wp_u32; [|done]. intros Ho. eapply wp_mono; [by apply esp_read_wp|]. intros r d' [R _] Hok Hi.
  apply (re_windows _ _ R); [left|]. apply Hok. by rewrite <- (re_initialized _ _ R).
Qed.

Lemma erase_ok slot offset n d :
  wp (u32_arg offset (u32_arg n (esp_erase slot offset n))) (λ _ d', otadata_ok d → otadata_ok d') d.
Proof.
  apply wp_u32; [|done]. intros Ho. apply wp_u32; [|done]. intros Hn.
  eapply wp_mono; [by apply esp_erase_wp|]. intros r d' [C _]. by eapply slot_change_otadata.
Qed.

Lemma write_ok slot offset data d :
  wp (u32_arg offset (esp_write slot offset data)) (λ _ d', otadata_ok d → otadata_ok d') d.
Proof.
  apply wp_u32; [|done]. intros Ho. eapply wp_mono; [by apply esp_write_wp|]. intros r d' [C _].
  by eapply slot_change_otadata.
Qed.

Lemma layout_ok desc d : wp (esp_layout desc) (λ _ d', otadata_ok d → otadata_ok d') d.
Proof. apply wp_map_err. by apply wp_update_layout_any. Qed.

Lemma now_ok d : wp esp_now_ms (λ _ d', otadata_ok d → otadata_ok d') d.
Proof.
  apply wp_call. unfold on_rom. destruct (rom_now_ms (dv_rom d)) as [t m] eqn:E.
  intros a d' [= <- <-] Ho Hi. destruct (rom_now_frame _ _ _ E) as (F & T & S & _).
  specialize (Ho Hi). intros x Hx. destruct (Ho x Hx) as [Ht Hc]. cbn [dv_rom] in *.
  unfold maps_to, coherent, maps_flash, translate in *. rewrite T, S, F. done.
Qed.

Lemma activate_ok slot seq ae desc d :
  wp (esp_activate slot seq ae desc) (λ r d', r = Ok tt → otadata_ok d → otadata_ok d') d.
Proof. eapply wp_mono; [apply esp_activate_wp|]. by intros r d' [_ ?]. Qed.

(** A failed activation raises the ghost flag; a completed one has refreshed the
    window it wrote through, when it was trusted before. *)
Definition activate (b : esp) (slot seq ae : Z) : option unit * esp :=
  match esp_activate slot seq ae (eb_descriptor b) (eb_device b) as o
    return match o with
           | Some (r, d') => r = Ok tt → otadata_ok (eb_device b) → otadata_ok d'
           | None => False
           end → option unit * esp with
  | Some (Ok tt, d') => λ K, (Some tt, mkEsp d' (eb_descriptor b) (eb_faulted b) (λ hf, K eq_refl (eb_ok b hf)))
  | Some (Err _, d') => λ _, (None, mkEsp d' (eb_descriptor b) true (λ hf, False_rect _ (diff_true_false hf)))
  | None => λ K, False_rect _ K
  end (activate_ok slot seq ae (eb_descriptor b) (eb_device b)).

Lemma activate_spec b slot seq ae r b' :
  activate b slot seq ae = (r, b') →
  eb_device b' = eb_device b ∨ ∃ i, (i = 0 ∨ i = 1) ∧ only_record i (eb_device b) (eb_device b').
Proof.
  unfold activate. generalize (activate_ok slot seq ae (eb_descriptor b) (eb_device b)).
  pose proof (esp_activate_wp slot seq ae (eb_descriptor b) (eb_device b)) as W. revert W. unfold wp.
  destruct (esp_activate _ _ _ _ _) as [[[[]|e] d']|]; intros W K E; [..|done]; injection E as _ <-; apply W.
Qed.

(** ** The interface *)

#[export] Instance esp_reader : ImageReader esp := {|
  ir_read b s o n := lift (u32_arg o (esp_read s o n)) (read_ok s o n) b;
  ir_verify_rsa_pss b k sig h := (Some (rsa_pss_matches (M := M) k sig h), b);
|}.

#[export] Instance esp_backend : UpdateBackend esp := {|
  ub_now_ms b :=
    let '(t, b') := lift esp_now_ms now_ok b in (default 0 t, b');
  ub_layout b := lift (esp_layout (eb_descriptor b)) (layout_ok (eb_descriptor b)) b;
  ub_erase b s o n := lift (u32_arg o (u32_arg n (esp_erase s o n))) (erase_ok s o n) b;
  ub_write b s o data := lift (u32_arg o (esp_write s o data)) (write_ok s o data) b;
  ub_activate := activate;
|}.

Definition slots (b : esp) : Z → memory := slot_flash (dv_rom (eb_device b)).

Lemma slots_flash b b' :
  flash (dv_rom (eb_device b')) = flash (dv_rom (eb_device b)) → slots b' = slots b.
Proof. unfold slots, slot_flash. by intros ->. Qed.

#[export] Instance esp_flash_view : FlashView esp.
Proof.
  refine {| slot_mem := slots; rsa_pss_valid := rsa_pss_matches (M := M) |}.
  - intros b s a. unfold slots, slot_flash. destruct (update_slot_offset s); [|unfold is_byte; lia].
    destruct (_ && _); [apply flash_byte|unfold is_byte; lia].
  - intros b s o n r b' E. apply slots_flash.
    destruct (lift_spec _ _ _ _ _ (λ _ d', remapped (eb_device b) d') E) as (_ & _ & R).
    { apply wp_u32; [|apply remapped_refl]. intros Ho.
      eapply wp_mono; [by apply esp_read_wp|]. by intros ? ? [? _]. }
    destruct r as [a|]; [|destruct R as [_ R]]; apply R.
  - intros b s o n data b' E.
    destruct (lift_spec _ _ _ _ _ (λ r _, ∀ out, r = Ok out → out = mem_read (slots b s) o n) E)
      as (_ & _ & R); [|by apply R].
    apply wp_u32; [|done]. intros Ho. eapply wp_mono; [by apply esp_read_wp|]. by intros ? ? [_ ?].
  - by intros * [= _ <-].
  - by intros * [= <- _].
Defined.

(** What decides which slot boots: both records and the slot the running code is mapped
    from, beside the ghost flag; what the backend reports is tied to them only while no
    activation has failed. *)
Definition esp_boot : Type := bool * (bytes * bytes * option Z).
Definition esp_boot_view (b : esp) : esp_boot :=
  (eb_faulted b,
   (record_bytes (dv_rom (eb_device b)) 0, record_bytes (dv_rom (eb_device b)) 1,
    running_of (dv_rom (eb_device b)) (eb_descriptor b))).
Definition esp_boot_layout (s : esp_boot) : UpdateLayout :=
  match snd s with
  | (r0, r1, Some off) =>
      match update_layout_from_entries (decode r0, decode r1) off with
      | Some (slot, seq, ae) => mkUpdateLayout slot seq ae
      | None => mkUpdateLayout 0 0 0
      end
  | _ => mkUpdateLayout 0 0 0
  end.

Lemma boot_view_frame b b' :
  eb_descriptor b' = eb_descriptor b → eb_faulted b' = eb_faulted b →
  (∀ i, i = 0 ∨ i = 1 → record_bytes (dv_rom (eb_device b')) i = record_bytes (dv_rom (eb_device b)) i) →
  (∀ q, q ≠ 0x3f3b → mmu (dv_rom (eb_device b')) q = mmu (dv_rom (eb_device b)) q) →
  esp_boot_view b' = esp_boot_view b.
Proof.
  intros Hd Hf Hr Hm. unfold esp_boot_view. rewrite Hf, Hd, !Hr, (running_of_mmu _ _ _ Hm) by auto. done.
Qed.

Lemma slot_change_frame slot lo hi b b' :
  eb_descriptor b' = eb_descriptor b → eb_faulted b' = eb_faulted b →
  slot_change slot lo hi (eb_device b) (eb_device b') →
  esp_boot_view b' = esp_boot_view b ∧
  ∀ s' a, s' ≠ slot ∨ ¬ (lo ≤ a < hi) → slots b' s' a = slots b s' a.
Proof.
  intros Hd Hf C. split.
  - apply boot_view_frame; [done..| |]; [intros; by eapply slot_change_records|].
    intros q _. destruct C as [->|(base & _ & _ & _ & [_ W])]; [done|]. by rewrite (wi_mmu _ _ _ _ W).
  - intros s' a. by apply slot_change_flash.
Qed.

Lemma lift_slot_change (c : step (Device M) EspError unit) K slot lo hi b r b' :
  lift c K b = (r, b') → (wp c (λ _ d', slot_change slot lo hi (eb_device b) d') (eb_device b)) →
  esp_boot_view b' = esp_boot_view b ∧
  ∀ s' a, s' ≠ slot ∨ ¬ (lo ≤ a < hi) → slots b' s' a = slots b s' a.
Proof.
  intros E W. destruct (lift_spec _ _ _ _ _ _ E W) as (Hd & Hf & C).
  apply slot_change_frame; [done..|]. destruct r; [done|]. by destruct C.
Qed.

Lemma erase_change s o n b :
  wp (u32_arg o (u32_arg n (esp_erase s o n))) (λ r d', slot_change s o (o + n) (eb_device b) d' ∧
    (r = Ok tt → 0 ≤ o ∧ ∃ base, update_slot_offset s = Some base ∧ o + n ≤ OTA_SLOT_SIZE ∧
       ∀ a, base + o ≤ a < base + o + n ∨ erased (dv_rom (eb_device b)) a → erased (dv_rom d') a))
    (eb_device b).
Proof.
  apply wp_u32; [|by split; [left|]]. intros Ho. apply wp_u32; [|by split; [left|]]. intros Hn.
  eapply wp_mono; [by apply esp_erase_wp|]. intros r d' [C K]. split; [done|]. intros Hr. split; [done|auto].
Qed.

Lemma write_change s o data b :
  let n := Z.of_nat (length data) in
  wp (u32_arg o (esp_write s o data)) (λ r d', slot_change s o (o + n) (eb_device b) d' ∧
    (r = Ok tt → is_Some (update_slot_offset s)) ∧
    ∀ base, update_slot_offset s = Some base →
      (∀ a, ¬ (base + o ≤ a < base + o + n) → erased (dv_rom (eb_device b)) a → erased (dv_rom d') a) ∧
      (r = Ok tt → 0 ≤ o ∧ o + n ≤ OTA_SLOT_SIZE ∧
        (Forall is_byte data → all_erased (dv_rom (eb_device b)) (base + o) (base + o + n) →
         mem_read (flash (dv_rom d')) (base + o) (length data) = data))) (eb_device b).
Proof.
  cbv zeta. apply wp_u32; [|split; [by left|split; [done|intros base _; by split]]]. intros Ho.
  eapply wp_mono; [by apply esp_write_wp|]. intros r d' (C & S & K). split; [done|]. split; [done|]. intros base Eb.
  destruct (K base Eb) as [K1 K2]. split; [done|]. intros Hr. split; [done|auto].
Qed.

Lemma now_frame b t b' :
  ub_now_ms b = (t, b') → is_u64 t ∧ eb_descriptor b' = eb_descriptor b ∧ eb_faulted b' = eb_faulted b ∧
  let m := dv_rom (eb_device b) in let m' := dv_rom (eb_device b') in
  flash m' = flash m ∧ mmu m' = mmu m ∧ erased m' = erased m.
Proof.
  simpl. destruct (lift esp_now_ms now_ok b) as [r b1] eqn:E. intros [= <- <-].
  destruct (lift_spec _ _ _ _ _ (λ r d', (∀ t, r = Ok t → is_u64 t) ∧
     (∀ e, r ≠ Err e) ∧
     flash (dv_rom d') = flash (dv_rom (eb_device b)) ∧ mmu (dv_rom d') = mmu (dv_rom (eb_device b)) ∧
     erased (dv_rom d') = erased (dv_rom (eb_device b))) E) as (Hd & Hf & K).
  { apply wp_call. unfold on_rom. destruct (rom_now_ms (dv_rom (eb_device b))) as [t m] eqn:En.
    intros a d' [= <- <-]. destruct (rom_now_frame _ _ _ En) as (F & T & _ & Er).
    split; [intros ? [= <-]; by eapply rom_now_u64|]. done. }
  destruct r as [t|]; [|destruct K as (e & _ & Hne & _); by destruct (Hne e)].
  destruct K as (Hu & _ & K). split; [by apply Hu|]. done.
Qed.

Lemma layout_frame b r b' :
  ub_layout b = (r, b') → eb_device b' = eb_device b ∧ eb_descriptor b' = eb_descriptor b ∧
  eb_faulted b' = eb_faulted b ∧
  (∀ l, r = Some l → is_u32 (active_sequence l) ∧ 0 ≤ active_slot l ∧
     (eb_faulted b = false → l = esp_boot_layout (esp_boot_view b))).
Proof.
  intros E.
  destruct (lift_spec _ _ _ _ _ (λ r d', d' = eb_device b ∧
    (∀ l, r = Ok l → is_u32 (active_sequence l) ∧ 0 ≤ active_slot l ∧
      (otadata_ok (eb_device b) → layout_is (eb_device b) (eb_descriptor b) l))) E) as (Hd & Hf & K).
  { apply wp_map_err.
    assert (wp (update_layout (eb_descriptor b)) (λ r d', d' = eb_device b ∧
      ∀ l, r = Ok l → is_u32 (active_sequence l) ∧ 0 ≤ active_slot l) (eb_device b)) as W.
    { apply wp_update_layout_any; [|by intros]. intros l Hs Hl _. split; [done|]. intros ? [= <-]. split; [done|lia]. }
    destruct (wp_elim _ _ _ W) as (r0 & d0 & E0 & -> & Hl). unfold wp. rewrite E0.
    destruct r0 as [l|e]; [|done]. split; [done|]. intros ? [= <-]. destruct (Hl l eq_refl) as [Hs Ha].
    split; [done|]. split; [done|]. intros Ho.
    assert (wp (update_layout (eb_descriptor b)) (λ r d', ∀ l, r = Ok l →
      layout_is (eb_device b) (eb_descriptor b) l) (eb_device b)) as W'.
    { apply wp_update_layout; [done| |by intros]. intros l' _ HL ? [= <-]. done. }
    by apply (wp_run _ _ _ _ _ E0 W'). }
  assert (eb_device b' = eb_device b) as Hdev by (destruct r; [apply K|by destruct K as (? & ? & _)]).
  split; [done|]. split; [done|]. split; [done|]. intros l ->. destruct K as [_ K].
  destruct (K l eq_refl) as (Hs & Ha & HL). split; [done|]. split; [done|]. intros Hfl.
  destruct (HL (eb_ok b Hfl)) as (off & Hoff & HE).
  unfold esp_boot_view, esp_boot_layout. cbn [snd]. rewrite Hoff.
  change (decode (record_bytes (dv_rom (eb_device b)) 0), decode (record_bytes (dv_rom (eb_device b)) 1))
    with (records_of (eb_device b)).
  rewrite HE. by destruct l.
Qed.

(** A record is not in a slot. *)
Lemma record_slots b b' i : i = 0 ∨ i = 1 → only_record i (eb_device b) (eb_device b') →
  ∀ s' a, slots b' s' a = slots b s' a.
Proof.
  intros Hi [_ W] s' a.
  unfold slots, slot_flash. destruct (update_slot_offset s') as [base|] eqn:Eb; [|done].
  destruct (_ && _) eqn:Ea; [|done]. bool_to_prop. apply (wi_flash _ _ _ _ W).
  apply slot_base in Eb. unfold entry_address, OTADATA_OFFSET, OTA_SECTOR_SIZE, OTA_0_OFFSET, OTA_1_OFFSET in *.
  lia.
Qed.

Lemma activate_slots b s q e r b' : activate b s q e = (r, b') → ∀ s' a, slots b' s' a = slots b s' a.
Proof.
  intros E. destruct (activate_spec _ _ _ _ _ _ E) as [Hd|(i & Hi & W)];
    [intros; unfold slots; by rewrite Hd|by eapply record_slots].
Qed.

#[export] Instance esp_update_view : UpdateView esp.
Proof.
  refine {| boot_view := esp_boot_view; boot_layout := esp_boot_layout; boot_trusted := λ s, fst s = false |}.
  - intros b t b' E. apply (now_frame _ _ _ E).
  - intros b t b' E. destruct (now_frame _ _ _ E) as (_ & Hd & Hf & F & T & _).
    split; [by apply slots_flash|]. apply boot_view_frame; [done|done| |intros; by rewrite T].
    intros. unfold record_bytes. by rewrite F.
  - intros b r b' E. destruct (layout_frame _ _ _ E) as (Hdev & Hd & Hf & _).
    split; [apply slots_flash|apply boot_view_frame]; intros; by rewrite ?Hdev.
  - intros b l b' E. destruct (layout_frame _ _ _ E) as (_ & _ & _ & K).
    by destruct (K l eq_refl) as (_ & _ & HL).
  - intros b l b' E. destruct (layout_frame _ _ _ E) as (_ & _ & _ & K). by destruct (K l eq_refl) as (? & ? & _).
  - intros b s o n r b' E. eapply lift_slot_change; [exact E|].
    eapply wp_mono; [apply erase_change|]. by intros ? ? [? _].
  - intros b s o d r b' E. eapply lift_slot_change; [exact E|].
    eapply wp_mono; [apply write_change|]. by intros ? ? [? _].
  - intros b s o n r b' E.
    destruct (lift_spec _ _ _ _ _ (λ _ d', remapped (eb_device b) d') E) as (Hd & Hf & R).
    { apply wp_u32; [|apply remapped_refl]. intros Ho.
      eapply wp_mono; [by apply esp_read_wp|]. by intros ? ? [? _]. }
    assert (remapped (eb_device b) (eb_device b')) as R' by (destruct r; [|destruct R]; done).
    apply boot_view_frame; [done|done| |apply R'].
    intros. unfold record_bytes. by rewrite (re_flash _ _ R').
  - by intros * [= _ <-].
  - intros b s q e r b'. apply activate_slots.
Defined.

#[export] Instance esp_write_view : WriteView esp.
Proof.
  refine {| slot_erased := λ b s a, ∀ base, update_slot_offset s = Some base →
              erased (dv_rom (eb_device b)) (base + a) |}.
  - intros b t b' s a E Her base Eb. destruct (now_frame _ _ _ E) as (_ & _ & _ & _ & _ & Er).
    rewrite Er. by apply Her.
  - intros b s o n b' E a Ha base Eb.
    destruct (lift_spec _ _ _ _ _ _ E (erase_change s o n b)) as (_ & _ & _ & K).
    destruct (K eq_refl) as (_ & base' & Eb' & _ & Hall). assert (base' = base) as -> by congruence.
    apply Hall. destruct Ha as [Ha|Ha]; [left; lia|right; by apply Ha].
  - intros b s o data r b' E a Ha Her base Eb.
    destruct (lift_spec _ _ _ _ _ _ E (write_change s o data b)) as (_ & _ & C).
    destruct r as [[]|]; [|destruct C as [e C]]; destruct C as (_ & _ & K);
      destruct (K base Eb) as [K1 _]; apply K1; [lia|by apply Her|lia|by apply Her].
  - intros b s o data b' Hb Her E.
    destruct (lift_spec _ _ _ _ _ _ E (write_change s o data b)) as (_ & _ & _ & S & K).
    destruct (S eq_refl) as [base Eb].
    destruct (K base Eb) as [_ K2]. destruct (K2 eq_refl) as (Ho & Hend & Hread).
    etrans; [|apply Hread; [done|]].
    + symmetry. by apply slot_read.
    + intros a Ha. replace a with (base + (a - base)) by lia. apply Her; [lia|done].
Defined.
End esp.
