(* ===== verification/EspTheorems.v ===== *)
(** * Theorems on encrypted flash and the release backend

    Reads of an update slot return flash and restore the mapping, an encrypted
    write is visible through its fixed window, the trusted key digest is the one
    the build names, and the update session over the real backend rewrites the
    boot records of flash only to activate a verified image. *)

From stdpp Require Import base tactics numbers list option.
From S2P Require Import Prelude Interfaces SignedImage UsbUpdate UsbUpdateSafety ModelBackend.
From S2P Require Import Rom FlashEncryption FlashWindows FlashOperations Ota OtaRecords OtaDevice ModelRom.
From S2P Require Import OtaActivation EspBackend EspView.

Section flash.
Context {M : Type} `{RomView M}.
Implicit Types d : Device M.

(** reading an update slot, whatever its length and alignment, always returns;
    on success the bytes are the flash from the given address on; on every path no
    byte of flash changes, every other fixed window stays coherent, and after a
    successful read the borrowed page is mapped back to slot 0. *)
Theorem update_read_is_flash address n d :
  0 ≤ address → address + Z.of_nat n ≤ 2 ^ 30 → windows_ok d →
  ∃ r d', read_update address n d = Some (r, d') ∧
    flash (dv_rom d') = flash (dv_rom d) ∧ fixed_ok d' ∧
    (∀ out, r = Ok out → out = mem_read (flash (dv_rom d)) address n ∧ windows_ok d').
Proof.
  intros Ha Hn W.
  destruct (wp_elim _ _ _ (read_update_wp address n d Ha Hn)) as (r & d' & E & R & K).
  assert (dv_initialized d' = dv_initialized d) as Hi by apply R.
  assert (fixed_ok d') as F.
  { intros Hi'. rewrite Hi in Hi'. pose proof (windows_fixed d W Hi') as Fd.
    rewrite Forall_forall in Fd |- *. intros mp Hmp. apply (re_windows _ _ R);
      [by apply list_elem_of_In|by apply Fd]. }
  exists r, d'. split; [done|]. split; [apply R|]. split; [done|].
  intros out ->. destruct K as (Hd & Hout & [->|Hw]); [done|]. split; [done|].
  intros Hi'. specialize (F Hi'). unfold fixed_windows in F. unfold MAPPINGS.
  do 3 (inversion_clear F as [|? ? ? F']; rename F' into F).
  repeat (apply List.Forall_cons; [done|]). apply List.Forall_nil.
Qed.

(** an encrypted write to erased flash inside a fixed window is coherent: when
    it reports success, a read of the same range through the window returns the
    data written, and every fixed window still returns flash. *)
Theorem encrypted_write_reads_back mp address data d d' :
  mp ∈ MAPPINGS → physical_start mp ≤ address →
  address + Z.of_nat (length data) ≤ physical_start mp + size mp →
  (0 < length data)%nat → Forall is_byte data →
  all_erased (dv_rom d) address (address + Z.of_nat (length data)) →
  windows_ok d → FlashEncryption.write address data d = Some (Ok tt, d') →
  FlashEncryption.read address (length data) d' = Some (Ok data, d') ∧ windows_ok d'.
Proof.
  intros Hm Ha Hend Hpos Hb Her W E. unfold FlashEncryption.write in E.
  assert (0 ≤ physical_start mp ∧ physical_start mp + size mp ≤ 0x400000) as Hmp
    by (apply in_mappings in Hm as [->|[->|[->| ->]]]; simpl; unfold MMU_PAGE_SIZE; lia).
  pose proof (write_inner_wp address data true d ltac:(lia)) as K. cbv zeta in K.
  specialize (K ltac:(unfold_max; lia) Hpos).
  pose proof (wp_run _ _ _ _ _ E K) as [Mu K']. destruct (K' eq_refl) as [Hi Hread]. clear K K'.
  assert (dv_initialized d' = dv_initialized d) as Hi' by apply (mu_within _ _ _ _ _ Mu).
  assert (windows_ok d') as W'.
  { intros _. specialize (W Hi). rewrite Forall_forall in W |- *. intros mp' Hmp'.
    apply (mu_windows _ _ _ _ _ Mu); [done|by apply list_elem_of_In|by apply W]. }
  split; [|done]. rewrite (read_spec mp); [|done..|congruence|apply windows_in; [done|done|congruence]].
  by rewrite Hread.
Qed.
End flash.

(** ** The trusted key digest *)

Definition hex_digit (n : Z) : Z := if n <? 10 then 48 + n else 87 + n.
Definition hex_of (digest : bytes) : bytes :=
  concat ((λ b, [hex_digit (b / 16); hex_digit (b mod 16)]) <$> digest).

Lemma hex_nibble_digit n : 0 ≤ n < 16 → hex_nibble (hex_digit n) = Some n.
Proof.
  intros Hn. unfold hex_nibble, hex_digit. destruct (Z.ltb_spec n 10).
  - rewrite (proj2 (Z.leb_le _ _)), (proj2 (Z.leb_le _ _)) by lia. simpl. f_equal. lia.
  - rewrite (proj2 (Z.leb_le 48 _)), (proj2 (Z.leb_gt _ 57)) by lia. cbn [andb].
    rewrite (proj2 (Z.leb_le _ _)), (proj2 (Z.leb_le _ _)) by lia. simpl. f_equal. lia.
Qed.

Lemma hex_byte_cons h l hex i : hex_byte (h :: l :: hex) (S i) = hex_byte hex i.
Proof. reflexivity. Qed.

Lemma nibbles b : is_byte b → Z.lor (Z.shiftl (b / 16) 4) (b mod 16) = b.
Proof.
  unfold is_byte. intros Hb. change (b mod 16) with (b mod 2 ^ 4). rewrite <- Z.land_ones by lia.
  change 16 with (2 ^ 4). rewrite <- Z.shiftr_div_pow2 by lia.
  apply Z.bits_inj'. intros k Hk. rewrite Z.lor_spec, Z.land_spec, Z.shiftl_spec by lia.
  destruct (Z.ltb_spec k 4).
  - rewrite Z.testbit_neg_r, Z.ones_spec_low by lia. by rewrite andb_true_r.
  - rewrite Z.shiftr_spec, Z.ones_spec_high by lia. rewrite andb_false_r, orb_false_r. f_equal. lia.
Qed.

Lemma hex_nibble_Some v n : hex_nibble v = Some n → 0 ≤ n < 16 ∧ v = hex_digit n.
Proof.
  unfold hex_nibble, hex_digit. intros E. run_hyp E; bool_to_prop.
  - split; [lia|]. rewrite (proj2 (Z.ltb_lt _ _)) by lia. lia.
  - split; [lia|]. rewrite (proj2 (Z.ltb_ge _ _)) by lia. lia.
Qed.

Lemma hex_byte_Some h l hex b : hex_byte (h :: l :: hex) 0 = Some b →
  is_byte b ∧ h = hex_digit (b / 16) ∧ l = hex_digit (b mod 16).
Proof.
  unfold hex_byte. intros E. apply bind_Some in E as (x & Ex & E). apply bind_Some in E as (y & Ey & E).
  apply hex_nibble_Some in Ex as [Hx Ex], Ey as [Hy Ey]. cbn in Ex, Ey. injection E as <-.
  assert (Z.lor (Z.shiftl x 4) y = 16 * x + y) as ->.
  { assert (is_byte (16 * x + y)) as Hb by (unfold is_byte; lia). rewrite <- (nibbles _ Hb).
    rewrite <- (Z.div_unique (16 * x + y) 16 x y), <- (Z.mod_unique (16 * x + y) 16 x y) by lia. done. }
  rewrite <- (Z.div_unique (16 * x + y) 16 x y), <- (Z.mod_unique (16 * x + y) 16 x y) by lia.
  split; [unfold is_byte; lia|done].
Qed.

Lemma hex_pointwise digest hex :
  length hex = (2 * length digest)%nat →
  (∀ i b, digest !! i = Some b → hex_byte hex i = Some b) ↔ hex = hex_of digest ∧ Forall is_byte digest.
Proof.
  revert hex. induction digest as [|b digest IH]; intros hex Hl.
  { destruct hex; [|done]. split; [done|]. intros _ i b Hi. by rewrite lookup_nil in Hi. }
  destruct hex as [|h [|l hex]]; simpl in Hl; [lia..|]. specialize (IH hex ltac:(lia)).
  change (hex_of (b :: digest)) with (hex_digit (b / 16) :: hex_digit (b mod 16) :: hex_of digest).
  split.
  - intros K. destruct (hex_byte_Some _ _ _ _ (K 0%nat b eq_refl)) as (Hb & -> & ->).
    destruct (proj1 IH (λ i x E, K (S i) x E)) as [-> Hd]. split; [done|by constructor].
  - intros [[= -> -> ->] Hf]. inversion_clear Hf as [|? ? Hb Hd]. intros [|i] x E.
    + injection E as <-. unfold hex_byte. change (0 * 2 + 1)%nat with 1%nat. cbn [byte_at nth].
      unfold byte_at. cbn [nth Nat.mul]. unfold is_byte in Hb.
      rewrite !hex_nibble_digit by first [apply Z.mod_pos_bound; lia
        |split; [apply Z.div_pos|apply Z.div_lt_upper_bound]; lia].
      cbn [mbind option_bind]. by rewrite nibbles.
    + by apply (proj2 IH).
Qed.

(** the digest built into the firmware is exactly the one the environment
    spells: a string is accepted when it is the lowercase hexadecimal form of 32
    bytes, and then the digest is those bytes. *)
Theorem trusted_digest_iff hex digest :
  trusted_update_key_digest hex = Some digest ↔
    hex = hex_of digest ∧ length digest = 32%nat ∧ Forall is_byte digest.
Proof.
  assert (∀ dg : bytes, length (hex_of dg) = (2 * length dg)%nat) as Hlen.
  { intros dg. induction dg as [|b dg IH]; [done|].
    change (hex_of (b :: dg)) with (hex_digit (b / 16) :: hex_digit (b mod 16) :: hex_of dg). simpl. lia. }
  unfold trusted_update_key_digest. destruct (Nat.eqb_spec (length hex) 64) as [Hl|Hl]; cbn [negb].
  - rewrite mapM_Some. split.
    + intros F. pose proof (Forall2_length F) as Hd. rewrite length_seq in Hd.
      destruct (proj1 (hex_pointwise digest hex ltac:(lia))); [|done].
      intros i b E. destruct (Forall2_lookup_r _ _ _ _ _ F E) as (j & Hj & K).
      by apply lookup_seq in Hj as [-> _].
    + intros (-> & Hd & Hb). apply Forall2_same_length_lookup_2; [by rewrite length_seq|].
      intros i j b Hj E. apply lookup_seq in Hj as [-> _].
      by apply (proj2 (hex_pointwise digest _ (Hlen digest))).
  - split; [done|]. intros (-> & Hd & _). rewrite Hlen in Hl. lia.
Qed.

(** ** The update session on the release backend *)

Section release.
Context `{Sha256} {M : Type} `{RomView M}.

(** C18: on the release backend, whatever the host sends and whatever failed before, a byte
    of a boot record in flash changes only when the session has read back and verified the
    whole image of the target slot; the slots themselves change only as the session
    allows, and the reply is always produced.  The updater is again well formed, so this
    holds of every request after the first. *)
Theorem release_boot_records (u : UsbUpdater (esp (M := M))) request present response i :
  updater_ok u → (52 ≤ length response)%nat → i = 0 ∨ i = 1 →
  ∃ n response' u', handle u request present response = Some (n, response', u') ∧ updater_ok u' ∧
    (record_bytes (dv_rom (eb_device (uu_backend u'))) i ≠
       record_bytes (dv_rom (eb_device (uu_backend u))) i →
     activation_authorised u') ∧
    (∀ slot base a, update_slot_offset slot = Some base → 0 ≤ a < OTA_SLOT_SIZE →
       flash (dv_rom (eb_device (uu_backend u'))) (base + a) ≠
         flash (dv_rom (eb_device (uu_backend u))) (base + a) →
       ∃ s, uu_session u = Some s ∧ slot = ss_target_slot s ∧ slot ≠ ss_active_slot s ∧ a < ss_total s).
Proof.
  intros Hu Hl Hi. destruct (uo_version _ Hu) as [Hv1 Hv2]. unfold MAX_VERSION_LENGTH in *.
  destruct (handle_safe u request present response Hu) as (n & response' & u' & E & Hs);
    [unfold RESPONSE_FIXED; lia|].
  destruct (poll_quiet u) as [(Hm & Hb & _) _].
  exists n, response', u'. split; [done|]. split; [apply Hs|]. split.
  - intros Hne. apply (st_boot _ _ Hs). intros Heq. apply Hne.
    assert (esp_boot_view (uu_backend u') = esp_boot_view (uu_backend u)) as Hv.
    { etrans; [exact Heq|exact Hb]. }
    destruct Hi as [-> | ->];
      [exact (f_equal (λ x, x.2.1.1) Hv)|exact (f_equal (λ x, x.2.1.2) Hv)].
  - intros slot base a Eb Ha Hne.
    assert (∀ b : esp (M := M), slot_mem b slot a = flash (dv_rom (eb_device b)) (base + a)) as Hslot.
    { intros b. simpl. unfold slots, slot_flash. rewrite Eb.
      by rewrite (proj2 (Z.leb_le _ _)), (proj2 (Z.ltb_lt _ _)) by lia. }
    rewrite <- !Hslot, <- Hm in Hne.
    destruct (st_flash _ _ Hs _ _ Hne) as (s & Hsp & -> & Hra & Hph).
    destruct (poll_live u s Hsp) as (s0 & Hs0 & Ht & Htot & _); [by destruct Hph as [-> | ->]|].
    exists s0. split; [done|].
    destruct (sh_slots _ (proj1 (uo_session _ Hu _ Hs0))). split; [done|]. lia.
Qed.
End release.

(** ** Witnesses on the concrete ROM *)

(** Slot 0 runs version "0.1" as sequence 1; slot 1 holds the model image. *)
Definition release_flash : memory :=
  λ a, if (OTA_1_OFFSET <=? a) && (a <? OTA_1_OFFSET + OTA_SLOT_SIZE)
       then model_image_mem (a - OTA_1_OFFSET) else ota_flash 2 a.
Lemma release_ok f : false = false → otadata_ok (release_device f).
Proof. intros _. apply fixed_otadata, windows_fixed, release_windows. Qed.
Definition release_esp (f : memory) : esp (M := model_rom) :=
  mkEsp (release_device f) 0x3f000020 false (release_ok f).
Definition release_updater (f : memory) (s : option Session) : UsbUpdater (esp (M := model_rom)) :=
  mkUsbUpdater (release_esp f) model_key (pad_version [48; 46; 49]) 3 2 2 s.
Definition release_ready : UsbUpdater (esp (M := model_rom)) :=
  release_updater release_flash (Some (model_session model_total)).

Lemma release_ready_ok : updater_ok release_ready.
Proof.
  split; [|by vm_compute; intuition lia|by vm_compute].
  intros s [= <-]. split; [|done].
  split; simpl; unfold is_u32, SIGNATURE_SECTOR_SIZE, OTA_SLOT_SIZE, model_total; try done; lia.
Qed.

Lemma option_map_inv {A B} (f : A → B) o x y : o = Some x → option_map f o = Some y → f x = y.
Proof. by intros -> [= ->]. Qed.

Lemma release_boot_records_witness :
  ∃ n response' u', handle release_ready (advance_request 1) false (zeros 64) = Some (n, response', u') ∧
    boots (records_of (eb_device (uu_backend u'))) = Some OTA_1_OFFSET ∧ activation_authorised u'.
Proof.
  destruct (release_boot_records release_ready (advance_request 1) false (zeros 64) 1 release_ready_ok)
    as (n & r & u' & E & _ & Hrec & _); [vm_compute; lia|auto|].
  assert (Hb1 : option_map (λ x, boots (records_of (eb_device (uu_backend x.2))))
    (handle release_ready (advance_request 1) false (zeros 64)) =
    Some (Some OTA_1_OFFSET)) by (vm_compute; reflexivity).
  assert (Hb2 : option_map (λ x, record_bytes (dv_rom (eb_device (uu_backend x.2))) 1)
    (handle release_ready (advance_request 1) false (zeros 64)) =
    Some (encode_with_state (mkOtaEntry 2 0 (ota_crc 2)) 0)) by (vm_compute; reflexivity).
  exists n, r, u'. split; [exact E|]. split; [exact (option_map_inv _ _ (n, r, u') _ E Hb1)|].
  apply Hrec. pose proof (option_map_inv _ _ (n, r, u') _ E Hb2) as Hb3. cbn [snd] in Hb3.
  intros Heq. rewrite Heq in Hb3. revert Hb3. vm_compute. discriminate.
Defined.

Lemma update_read_is_flash_witness :
  ∃ r d', read_update 0x20ffff 5 (release_device (λ a, a mod 256)) = Some (r, d') ∧
    r = Ok [255; 0; 1; 2; 3] ∧ windows_ok d'.
Proof.
  destruct (update_read_is_flash 0x20ffff 5 _ ltac:(lia) ltac:(lia) (release_windows (λ a, a mod 256)))
    as (r & d' & E & _ & _ & K).
  assert (Hr : result_of (read_update 0x20ffff 5 (release_device (λ a, a mod 256))) =
    Some (Ok [255; 0; 1; 2; 3])) by (vm_compute; reflexivity).
  rewrite E in Hr. injection Hr as Hr. exists r, d'. split; [done|]. split; [exact Hr|]. by apply (K _ Hr).
Defined.

Lemma encrypted_write_reads_back_witness :
  ∃ d', FlashEncryption.write 0x3e0000 (replicate 32 7) (release_device (λ _, 255)) = Some (Ok tt, d') ∧
    FlashEncryption.read 0x3e0000 32 d' = Some (Ok (replicate 32 7), d').
Proof.
  assert (Hr : result_of (FlashEncryption.write 0x3e0000 (replicate 32 7) (release_device (λ _, 255))) =
    Some (Ok tt)) by (vm_compute; reflexivity).
  destruct (FlashEncryption.write 0x3e0000 (replicate 32 7) (release_device (λ _, 255)))
    as [[r d']|] eqn:E; [|discriminate Hr].
  injection Hr as ->. exists d'. split; [reflexivity|].
  refine (proj1 (encrypted_write_reads_back FIDO_STORE_MAPPING 0x3e0000 (replicate 32 7)
    (release_device (λ _, 255)) d' _ _ _ _ _ _ (release_windows _) E)).
  - unfold MAPPINGS. rewrite !elem_of_cons. auto 6.
  - simpl. lia.
  - simpl. lia.
  - simpl. lia.
  - repeat constructor; discriminate.
  - intros a Ha. reflexivity.
Defined.
