(* ===== verification/CtapHid.v ===== *)
(** * CTAPHID framing

    [src/src/ctaphid.rs] and [src/src/request_completion.rs]: the transport engine
    that reassembles requests from 64-byte reports, fragments replies, and keeps
    one transaction at a time.  A slice out of range is a panic. *)

From stdpp Require Import base tactics numbers list option.
From S2P Require Import Prelude.

Definition PACKET_SIZE : nat := 64.
Definition MAX_MESSAGE_SIZE : nat := 1024.
Definition INIT_PAYLOAD_SIZE : nat := 57.
Definition CONT_PAYLOAD_SIZE : nat := 59.
Definition MAX_CTAPHID_MESSAGE_SIZE : nat := INIT_PAYLOAD_SIZE + 128 * CONT_PAYLOAD_SIZE.
Definition BROADCAST_CHANNEL : Z := 0xffffffff.
Definition RESERVED_CHANNEL : Z := 0.
Definition RECEIVE_TIMEOUT_MS : Z := 550.
Definition CAPABILITY_WINK : Z := 0x01.
Definition CAPABILITY_CBOR : Z := 0x04.
Definition CAPABILITY_NMSG : Z := 0x08.
Definition ERROR_CAPACITY : nat := 8.

Inductive Command :=
  | Ping | Msg | Lock | Init | Wink | Cbor | Cancel | Keepalive | Error | Update.

#[export] Instance Command_eq_dec : EqDecision Command.
Proof. solve_decision. Defined.

(** [command as u8] and [Command::from_number]. *)
Definition command_number (c : Command) : Z :=
  match c with
  | Ping => 0x01 | Msg => 0x03 | Lock => 0x04 | Init => 0x06 | Wink => 0x08
  | Cbor => 0x10 | Cancel => 0x11 | Keepalive => 0x3b | Error => 0x3f | Update => 0x51
  end.
Definition from_number (value : Z) : option Command :=
  match value with
  | 0x01 => Some Ping | 0x03 => Some Msg | 0x04 => Some Lock | 0x06 => Some Init
  | 0x08 => Some Wink | 0x10 => Some Cbor | 0x11 => Some Cancel | 0x3b => Some Keepalive
  | 0x3f => Some Error | 0x51 => Some Update | _ => None
  end.

Inductive TransportError :=
  | InvalidCommand | InvalidLength | InvalidSequence | Timeout | ChannelBusy | InvalidChannel.
Definition transport_code (e : TransportError) : Z :=
  match e with
  | InvalidCommand => 0x01 | InvalidLength => 0x03 | InvalidSequence => 0x04
  | Timeout => 0x05 | ChannelBusy => 0x06 | InvalidChannel => 0x0b
  end.

Inductive KeepaliveStatus := Processing | UserPresenceNeeded.
Definition keepalive_code (s : KeepaliveStatus) : Z :=
  match s with Processing => 0x01 | UserPresenceNeeded => 0x02 end.

Record DeviceVersion := mkDeviceVersion { major : Z; minor : Z; build : Z }.

Inductive Event :=
  | EvNone
  | EvCbor (channel : Z) (length : nat)
  | EvUpdate (channel : Z) (length : nat)
  | EvCancelled (channel : Z).

Record ReceiveState := mkReceiveState {
  rs_channel : Z;
  rs_command : Command;
  rs_length : nat;
  rs_received : nat;
  rs_next_sequence : Z;
  rs_last_activity_ms : Z;
}.

Record AppRequest := mkAppRequest {
  ar_channel : Z;
  ar_command : Command;
  ar_length : nat;
}.

Record TransmitState := mkTransmitState {
  ts_channel : Z;
  ts_command : Command;
  ts_length : nat;
  ts_offset : nat;
  ts_next_sequence : Z;
}.

Record PendingError := mkPendingError { pe_channel : Z; pe_error : TransportError }.

(** [CtapHid<N>]; [N] is the length of the two buffers. *)
Record CtapHid := mkCtapHid {
  request : bytes;
  response : bytes;
  receive : option ReceiveState;
  app_request : option AppRequest;
  transmit : option TransmitState;
  keepalive_slot : option (Z * KeepaliveStatus);
  errors : list (option PendingError);
  last_channel : Z;
  version : DeviceVersion;
  capabilities : Z;
}.

Definition with_request v h := mkCtapHid v (response h) (receive h) (app_request h) (transmit h)
  (keepalive_slot h) (errors h) (last_channel h) (version h) (capabilities h).
Definition with_response v h := mkCtapHid (request h) v (receive h) (app_request h) (transmit h)
  (keepalive_slot h) (errors h) (last_channel h) (version h) (capabilities h).
Definition with_receive v h := mkCtapHid (request h) (response h) v (app_request h) (transmit h)
  (keepalive_slot h) (errors h) (last_channel h) (version h) (capabilities h).
Definition with_app_request v h := mkCtapHid (request h) (response h) (receive h) v (transmit h)
  (keepalive_slot h) (errors h) (last_channel h) (version h) (capabilities h).
Definition with_transmit v h := mkCtapHid (request h) (response h) (receive h) (app_request h) v
  (keepalive_slot h) (errors h) (last_channel h) (version h) (capabilities h).
Definition with_keepalive v h := mkCtapHid (request h) (response h) (receive h) (app_request h)
  (transmit h) v (errors h) (last_channel h) (version h) (capabilities h).
Definition with_errors v h := mkCtapHid (request h) (response h) (receive h) (app_request h)
  (transmit h) (keepalive_slot h) v (last_channel h) (version h) (capabilities h).
Definition with_last_channel v h := mkCtapHid (request h) (response h) (receive h) (app_request h)
  (transmit h) (keepalive_slot h) (errors h) v (version h) (capabilities h).

Definition zeroize (b : bytes) : bytes := zeros (length b).
Definition zeroize_request (h : CtapHid) : CtapHid := with_request (zeroize (request h)) h.
Definition zeroize_response (h : CtapHid) : CtapHid := with_response (zeroize (response h)) h.

(** [buffer[off..off + data.len()].copy_from_slice(data)] and [&buffer[a..b]]. *)
Definition copy_at (buffer : bytes) (off : nat) (data : bytes) : option bytes :=
  if (off + length data <=? length buffer)%nat then Some (put buffer off data) else None.
Definition subslice (buffer : bytes) (a b : nat) : option bytes :=
  if (a <=? b)%nat && (b <=? length buffer)%nat then Some (slice buffer a b) else None.

Definition new_hid (N : nat) (v : DeviceVersion) (caps : Z) : option CtapHid :=
  if (17 <=? N)%nat && (N <=? MAX_CTAPHID_MESSAGE_SIZE)%nat
  then Some (mkCtapHid (zeros N) (zeros N) None None None None
               (replicate ERROR_CAPACITY None) RESERVED_CHANNEL v caps)
  else None.

(** ** Helpers on the state *)

Definition abort_transaction (h : CtapHid) : CtapHid :=
  with_keepalive None (with_transmit None (with_app_request None (with_receive None
    (zeroize_response (zeroize_request h))))).

Definition transport_error (h : CtapHid) : CtapHid :=
  let h := abort_transaction h in
  with_errors (replicate (length (errors h)) None) h.

Fixpoint insert_error (slots : list (option PendingError)) (e : PendingError)
  : list (option PendingError) :=
  match slots with
  | [] => []
  | None :: slots => Some e :: slots
  | Some e' :: slots => Some e' :: insert_error slots e
  end.
Definition pending_on (channel : Z) (slot : option PendingError) : bool :=
  match slot with Some e => pe_channel e =? channel | None => false end.
Definition queue_error (channel : Z) (error : TransportError) (h : CtapHid) : CtapHid :=
  if existsb (pending_on channel) (errors h) then h
  else with_errors (insert_error (errors h) (mkPendingError channel error)) h.

Definition start_transmit (channel : Z) (command : Command) (length : nat) (h : CtapHid) : CtapHid :=
  with_transmit (Some (mkTransmitState channel command length 0 0)) h.

Definition is_allocated (h : CtapHid) (channel : Z) : bool :=
  negb (channel =? RESERVED_CHANNEL) && negb (channel =? BROADCAST_CHANNEL)
  && (channel <=? last_channel h).

Definition active_channel (h : CtapHid) : option Z :=
  match receive h, app_request h, transmit h with
  | Some s, _, _ => Some (rs_channel s)
  | None, Some r, _ => Some (ar_channel r)
  | None, None, Some s => Some (ts_channel s)
  | None, None, None => None
  end.

Definition cancel_application_request (h : CtapHid) : bool * CtapHid :=
  match app_request h with
  | None => (false, h)
  | Some _ => (true, with_keepalive None h)
  end.

(** The loop of [allocate_channel]: two channels in a row are skipped at most. *)
Fixpoint allocate_loop (fuel : nat) (last : Z) : option Z :=
  match fuel with
  | O => None
  | S fuel =>
      let last := u32_wrapping_add last 1 in
      if negb (last =? RESERVED_CHANNEL) && negb (last =? BROADCAST_CHANNEL)
      then Some last else allocate_loop fuel last
  end.

(** ** Receiving *)

Definition hid_step : Type → Type := step CtapHid Event.

Definition allocate_channel : hid_step Z :=
  h ← get_state;
  last ← checked (allocate_loop 3 (last_channel h));
  modify (with_last_channel last);;
  mret last.

(** Zeroize the request, queue an error and return [Event::None]. *)
Definition refuse {A} (channel : Z) (error : TransportError) : hid_step A :=
  modify zeroize_request;;
  modify (queue_error channel error);;
  throw EvNone.

Definition write_response (off : nat) (data : bytes) : hid_step unit :=
  h ← get_state;
  r ← checked (copy_at (response h) off data);
  modify (with_response r).

Definition dispatch_init (channel : Z) (length : nat) : hid_step Event :=
  if channel =? RESERVED_CHANNEL then refuse channel InvalidChannel
  else if negb (length =? 8)%nat then refuse channel InvalidLength
  else
    h ← get_state;
    assigned ← (if channel =? BROADCAST_CHANNEL then allocate_channel
                else if is_allocated h channel then mret channel
                else refuse channel InvalidChannel);
    modify zeroize_response;;
    h ← get_state;
    nonce ← checked (subslice (request h) 0 8);
    write_response 0 nonce;;
    write_response 8 (be_encode 4 assigned);;
    write_response 12 [2; major (version h); minor (version h); build (version h); capabilities h];;
    modify zeroize_request;;
    modify (start_transmit channel Init 17);;
    mret EvNone.

Definition dispatch (channel : Z) (command : Command) (length : nat) : hid_step Event :=
  if bool_decide (command = Init) then dispatch_init channel length
  else
    h ← get_state;
    if (channel =? RESERVED_CHANNEL) || (channel =? BROADCAST_CHANNEL)
       || negb (is_allocated h channel)
    then refuse channel InvalidChannel
    else match command with
    | Ping =>
        modify zeroize_response;;
        payload ← checked (subslice (request h) 0 length);
        write_response 0 payload;;
        modify zeroize_request;;
        modify (start_transmit channel command length);;
        mret EvNone
    | Cbor =>
        modify (with_app_request (Some (mkAppRequest channel command length)));;
        mret (EvCbor channel length)
    | Update =>
        modify (with_app_request (Some (mkAppRequest channel command length)));;
        mret (EvUpdate channel length)
    | Cancel => modify zeroize_request;; mret EvNone
    | Init => panic
    | Msg | Lock | Wink | Keepalive | Error => refuse channel InvalidCommand
    end.

Definition write_request_buffer (off : nat) (data : bytes) : hid_step unit :=
  h ← get_state;
  r ← checked (copy_at (request h) off data);
  modify (with_request r).

Definition ingest_continuation (channel : Z) (packet : bytes) (now_ms : Z) : hid_step Event :=
  h ← get_state;
  match receive h with
  | None => mret EvNone
  | Some r =>
      if negb (channel =? rs_channel r) then mret EvNone
      else if negb (byte_at packet 4 =? rs_next_sequence r) then
        modify (with_receive None);;
        refuse channel InvalidSequence
      else
        count ← checked (if (rs_received r <=? rs_length r)%nat
                         then Some (Nat.min (rs_length r - rs_received r) CONT_PAYLOAD_SIZE) else None);
        data ← checked (subslice packet 5 (5 + count));
        write_request_buffer (rs_received r) data;;
        let received := (rs_received r + count)%nat in
        if (received =? rs_length r)%nat then
          modify (with_receive None);;
          dispatch (rs_channel r) (rs_command r) (rs_length r)
        else
          modify (with_receive (Some (mkReceiveState (rs_channel r) (rs_command r) (rs_length r)
                    received ((rs_next_sequence r + 1) mod 256) now_ms)));;
          mret EvNone
  end.

(** What [ingest] does about the transaction in progress; it returns when the
    packet is an initialization packet to be handled as a new request. *)
Definition ingest_active (channel number : Z) (length : nat) : hid_step unit :=
  h ← get_state;
  match active_channel h with
  | None => mret tt
  | Some active =>
      let is_cancel := number =? command_number Cancel in
      if is_cancel && negb (channel =? active) then throw EvNone
      else if negb (channel =? active) then
        modify (queue_error channel ChannelBusy);; throw EvNone
      else if number =? command_number Init then modify abort_transaction
      else if is_cancel then
        if negb (length =? 0)%nat then
          modify (queue_error channel InvalidLength);; throw EvNone
        else
          cancelled ← call cancel_application_request;
          throw (match cancelled with true => EvCancelled channel | false => EvNone end)
      else
        modify abort_transaction;;
        modify (queue_error channel InvalidSequence);;
        throw EvNone
  end.

Definition packet_channel (packet : bytes) : Z := be_decode (slice packet 0 4).
Definition packet_length (packet : bytes) : nat := Z.to_nat (be_decode (slice packet 5 7)).

Definition ingest_new (channel number : Z) (length : nat) (packet : bytes) (now_ms : Z)
  : hid_step Event :=
  modify zeroize_request;;
  match from_number number with
  | None => modify (queue_error channel InvalidCommand);; mret EvNone
  | Some command =>
      h ← get_state;
      if (List.length (request h) <? length)%nat then
        modify (queue_error channel InvalidLength);; mret EvNone
      else if (bool_decide (command = Init) && negb (length =? 8)%nat)
              || (bool_decide (command = Cancel) && negb (length =? 0)%nat) then
        modify (queue_error channel InvalidLength);; mret EvNone
      else
        let copied := Nat.min length INIT_PAYLOAD_SIZE in
        data ← checked (subslice packet 7 (7 + copied));
        write_request_buffer 0 data;;
        if (INIT_PAYLOAD_SIZE <? length)%nat then
          modify (with_receive (Some (mkReceiveState channel command length INIT_PAYLOAD_SIZE 0 now_ms)));;
          mret EvNone
        else dispatch channel command length
  end.

Definition ingest_step (packet : bytes) (now_ms : Z) : hid_step Event :=
  let channel := packet_channel packet in
  if Z.land (byte_at packet 4) 0x80 =? 0 then ingest_continuation channel packet now_ms
  else
    let number := Z.land (byte_at packet 4) 0x7f in
    let length := packet_length packet in
    ingest_active channel number length;;
    ingest_new channel number length packet now_ms.

Definition ingest (packet : bytes) (now_ms : Z) (h : CtapHid) : option (Event * CtapHid) :=
  finish (ingest_step packet now_ms) h.

Definition is_cancelled (e : Event) : bool :=
  match e with EvCancelled _ => true | _ => false end.
Definition is_some {A} (o : option A) : bool := match o with Some _ => true | None => false end.

Definition ingest_with_interruption (packet : bytes) (now_ms : Z) (h : CtapHid)
  : option (Event * bool * CtapHid) :=
  let application_was_running := is_some (app_request h) in
  '(event, h) ← ingest packet now_ms h;
  Some (event, (application_was_running && negb (is_some (app_request h))) || is_cancelled event, h).

Definition ingest_report (report : bytes) (now_ms : Z) (h : CtapHid)
  : option (Event * bool * CtapHid) :=
  if (length report =? PACKET_SIZE)%nat then ingest_with_interruption report now_ms h
  else Some (EvNone, true, transport_error h).

(** ** Replying *)

Inductive ReplyError := NoPendingRequest | ResponseTooLong.

Definition reply (payload : bytes) : step CtapHid ReplyError unit :=
  h ← get_state;
  match app_request h with
  | None => throw NoPendingRequest
  | Some r =>
      modify (with_app_request None);;
      modify zeroize_request;;
      if (length (request h) <? length payload)%nat then
        modify (queue_error (ar_channel r) InvalidLength);;
        throw ResponseTooLong
      else
        modify zeroize_response;;
        h ← get_state;
        out ← checked (copy_at (response h) 0 payload);
        modify (with_response out);;
        modify (start_transmit (ar_channel r) (ar_command r) (length payload))
  end.

Definition request_payload (h : CtapHid) : option (option bytes) :=
  (λ r, subslice (request h) 0 (ar_length r)) <$> app_request h.

Definition keepalive (status : KeepaliveStatus) (h : CtapHid) : bool * CtapHid :=
  match app_request h with
  | None => (false, h)
  | Some r => (true, with_keepalive (Some (ar_channel r, status)) h)
  end.

Definition expire_receive (now_ms : Z) (h : CtapHid) : CtapHid :=
  match receive h with
  | None => h
  | Some r =>
      if RECEIVE_TIMEOUT_MS <? u32_wrapping_sub now_ms (rs_last_activity_ms r) then
        queue_error (rs_channel r) Timeout (zeroize_request (with_receive None h))
      else h
  end.

(** ** Transmitting *)

Definition initial_packet (channel : Z) (command : Command) (length : nat) : bytes :=
  put (put (put (zeros PACKET_SIZE) 0 (be_encode 4 channel)) 4
         [Z.lor (command_number command) 0x80]) 5 (be_encode 2 (Z.of_nat length mod 0x10000)).

Definition transmit_count (t : TransmitState) : option nat :=
  if (ts_offset t =? 0)%nat then Some (Nat.min (ts_length t) INIT_PAYLOAD_SIZE)
  else if (ts_offset t <=? ts_length t)%nat
       then Some (Nat.min (ts_length t - ts_offset t) CONT_PAYLOAD_SIZE) else None.

(** The outer [option] is the panic, the inner one the result. *)
Definition next_packet (h : CtapHid) : option (option bytes) :=
  match nth 0 (errors h) None with
  | Some e => Some (Some (put (initial_packet (pe_channel e) Error 1) 7 [transport_code (pe_error e)]))
  | None =>
  match keepalive_slot h with
  | Some (channel, status) =>
      Some (Some (put (initial_packet channel Keepalive 1) 7 [keepalive_code status]))
  | None =>
  match transmit h with
  | None => Some None
  | Some t =>
      count ← transmit_count t;
      data ← subslice (response h) (ts_offset t) (ts_offset t + count);
      if (ts_offset t =? 0)%nat
      then Some (Some (put (initial_packet (ts_channel t) (ts_command t) (ts_length t)) 7 data))
      else Some (Some (put (put (put (zeros PACKET_SIZE) 0 (be_encode 4 (ts_channel t))) 4
                              [ts_next_sequence t]) 5 data))
  end end end.

Definition packet_sent (h : CtapHid) : option CtapHid :=
  match errors h with
  | Some _ :: rest => Some (with_errors (rest ++ [None]) h)
  | _ =>
  match keepalive_slot h with
  | Some _ => Some (with_keepalive None h)
  | None =>
  match transmit h with
  | None => Some h
  | Some t =>
      count ← transmit_count t;
      let offset := (ts_offset t + count)%nat in
      if (ts_length t <=? offset)%nat
      then Some (zeroize_response (with_transmit None h))
      else
        let next := if (INIT_PAYLOAD_SIZE <? offset)%nat
                    then (ts_next_sequence t + 1) mod 256 else ts_next_sequence t in
        Some (with_transmit (Some (mkTransmitState (ts_channel t) (ts_command t) (ts_length t) offset next)) h)
  end end end.

(** ** Completing a request: [src/src/request_completion.rs] *)

Inductive ReplyDisposition := Queued | Discarded.
Inductive CborCompletion := Succeeded | Failed | Interrupted.

Definition disposition (r : result ReplyError unit) : result ReplyError ReplyDisposition :=
  match r with
  | Ok _ => Ok Queued
  | Err NoPendingRequest => Ok Discarded
  | Err e => Err e
  end.

(** [reply] is the closure handed in; it is called once.  The third component is
    the response buffer, cleared whatever the outcome. *)
Definition complete_cbor {S} (dispatch_succeeded : bool) (response : bytes)
    (reply : bytes → S → option (result ReplyError unit * S)) (s : S)
  : option (result ReplyError CborCompletion * bytes * S) :=
  let ctap_succeeded := dispatch_succeeded && bool_decide (head response = Some 0) in
  '(r, s) ← (if dispatch_succeeded && negb (length response =? 0)%nat
             then reply response s else reply [0x7f] s);
  let response := zeroize response in
  Some (match disposition r with
        | Err e => Err e
        | Ok Queued => Ok (if ctap_succeeded then Succeeded else Failed)
        | Ok Discarded => Ok Interrupted
        end, response, s).

Definition complete_update {S} (response : bytes)
    (reply : bytes → S → option (result ReplyError unit * S)) (s : S)
  : option (result ReplyError ReplyDisposition * bytes * S) :=
  '(r, s) ← reply response s;
  Some (disposition r, zeroize response, s).
