(* ===== verification/CtapHidSafety.v ===== *)
(** * The transport engine keeps its invariant

    One transaction at a time, buffers within bounds and cleared when idle, at most
    one pending error per channel; every operation preserves it and none panics. *)

From stdpp Require Import base tactics numbers list option.
From S2P Require Import Prelude CtapHid.

Definition buffer_size (h : CtapHid) : nat := length (request h).

(** Pending errors: a prefix of the slots, on distinct channels. *)
Definition errors_are (slots : list (option PendingError)) (es : list PendingError) : Prop :=
  slots = (Some <$> es) ++ replicate (ERROR_CAPACITY - length es) None ∧
  (length es ≤ ERROR_CAPACITY)%nat ∧ NoDup (pe_channel <$> es).
Definition errors_ok (slots : list (option PendingError)) : Prop := ∃ es, errors_are slots es.

Definition receive_ok (N : nat) (r : ReceiveState) : Prop :=
  (rs_length r ≤ N)%nat ∧ (rs_received r < rs_length r)%nat ∧
  ∃ k : nat, rs_received r = (INIT_PAYLOAD_SIZE + CONT_PAYLOAD_SIZE * k)%nat ∧ rs_next_sequence r = Z.of_nat k.
Definition transmit_ok (N : nat) (t : TransmitState) : Prop :=
  (ts_length t ≤ N)%nat ∧
  (ts_offset t = 0%nat ∧ ts_next_sequence t = 0 ∨
   (ts_offset t < ts_length t)%nat ∧
   ∃ k : nat, ts_offset t = (INIT_PAYLOAD_SIZE + CONT_PAYLOAD_SIZE * k)%nat ∧ ts_next_sequence t = Z.of_nat k).
Definition app_ok (h : CtapHid) (a : AppRequest) : Prop :=
  (ar_length a ≤ buffer_size h)%nat ∧ is_allocated h (ar_channel a) = true ∧
  (ar_command a = Cbor ∨ ar_command a = Update).

(** Everything but the clearing of the request buffer. *)
Record base_ok (h : CtapHid) : Prop := {
  bo_size : (17 ≤ buffer_size h ≤ MAX_CTAPHID_MESSAGE_SIZE)%nat;
  bo_response : length (response h) = buffer_size h;
  bo_errors : errors_ok (errors h);
  bo_last : 0 ≤ last_channel h < BROADCAST_CHANNEL;
  bo_receive : ∀ r, receive h = Some r →
    receive_ok (buffer_size h) r ∧ app_request h = None ∧ transmit h = None;
  bo_app : ∀ a, app_request h = Some a → app_ok h a ∧ transmit h = None;
  bo_transmit : ∀ t, transmit h = Some t → transmit_ok (buffer_size h) t;
  bo_response_clear : transmit h = None → response h = zeros (buffer_size h);
}.

Record hid_ok (h : CtapHid) : Prop := {
  hid_base : base_ok h;
  hid_request_clear : receive h = None → app_request h = None → request h = zeros (buffer_size h);
}.

Definition idle (h : CtapHid) : Prop := receive h = None ∧ app_request h = None ∧ transmit h = None.

(** ** Errors *)

Lemma insert_error_spec es n e :
  insert_error ((Some <$> es) ++ replicate n None) e =
    (Some <$> es) ++ match n with O => [] | S n => Some e :: replicate n None end.
Proof. induction es as [|x es IH]; simpl; [by destruct n|]. f_equal. apply IH. Qed.

Lemma existsb_pending channel es n :
  existsb (pending_on channel) ((Some <$> es) ++ replicate n None) = false →
  channel ∉ (pe_channel <$> es).
Proof.
  induction es as [|x es IH]; simpl; [intros _; apply not_elem_of_nil|].
  intros E. apply orb_false_iff in E as [Ex E]. apply Z.eqb_neq in Ex.
  apply not_elem_of_cons. split; [done|by apply IH].
Qed.

Lemma queue_errors channel error h es :
  errors_are (errors h) es →
  errors_are (errors (queue_error channel error h)) es ∨
  (channel ∉ (pe_channel <$> es) ∧ (length es < ERROR_CAPACITY)%nat ∧
   errors_are (errors (queue_error channel error h)) (es ++ [mkPendingError channel error])).
Proof.
  intros (Hs & Hl & Hn). unfold queue_error. destruct (existsb _ _) eqn:E; [by left|].
  rewrite Hs in E |- *. apply existsb_pending in E. cbn [errors with_errors].
  rewrite insert_error_spec.
  destruct (ERROR_CAPACITY - length es)%nat as [|n] eqn:En; [left|right].
  - rewrite app_nil_r. split; [|done]. by rewrite En, app_nil_r.
  - split; [done|]. split; [lia|]. split; [|split].
    + rewrite fmap_app, <- app_assoc, length_app. simpl.
      replace (ERROR_CAPACITY - (length es + 1))%nat with n by lia. done.
    + rewrite length_app. simpl. lia.
    + rewrite fmap_app. apply list.NoDup_app. split; [done|]. split; [|apply NoDup_singleton].
      intros x Hx Hin. apply list_elem_of_singleton in Hin. by subst.
Qed.

Lemma queue_error_frame channel error h :
  ∃ slots, queue_error channel error h = with_errors slots h ∧ (errors_ok (errors h) → errors_ok slots).
Proof.
  unfold queue_error. destruct (existsb _ _) eqn:E.
  - exists (errors h). split; [by destruct h|done].
  - eexists. split; [done|]. intros [es Hes].
    pose proof (queue_errors channel error h es Hes) as K. unfold queue_error in K. rewrite E in K.
    destruct K as [K|(_ & _ & K)]; by eexists.
Qed.

Lemma length_zeroize b : length (zeroize b) = length b.
Proof. apply length_zeros. Qed.

Lemma zeroize_zeros n : zeroize (zeros n) = zeros n.
Proof. unfold zeroize. by rewrite length_zeros. Qed.

(** ** State updates *)

Ltac hid_solve :=
  repeat match goal with H : ∃ _, _ |- _ => destruct H end;
  simpl in *; unfold buffer_size in *; simpl in *;
  rewrite ?length_zeroize, ?zeroize_zeros in *; auto.

Lemma base_errors slots h : errors_ok slots → base_ok h → base_ok (with_errors slots h).
Proof. intros He []. by split. Qed.

Lemma hid_queue channel error h : hid_ok h → hid_ok (queue_error channel error h).
Proof.
  intros [Hb Hc]. destruct (queue_error_frame channel error h) as (slots & -> & He).
  split; [apply base_errors; [apply He, Hb|done]|exact Hc].
Qed.

Lemma base_zeroize_request h : base_ok h → base_ok (zeroize_request h).
Proof.
  intros []. split; unfold app_ok, is_allocated, buffer_size in *; simpl; rewrite ?length_zeroize; auto.
Qed.

(** With no request held, clearing the buffer is all that is missing. *)
Lemma hid_zeroize h : base_ok h → hid_ok (zeroize_request h).
Proof.
  intros Hb. split; [by apply base_zeroize_request|]. intros _ _. unfold zeroize_request, buffer_size. simpl.
  by rewrite length_zeroize.
Qed.

Lemma hid_abort h : base_ok h → hid_ok (abort_transaction h).
Proof.
  intros [Hs Hr He Hl _ _ _ _].
  assert (length (request (abort_transaction h)) = length (request h)) as Hlen by apply length_zeroize.
  split; [split|]; unfold buffer_size in *; rewrite ?Hlen; try done.
  - simpl. by rewrite length_zeroize.
  - intros _. simpl. unfold zeroize. by rewrite Hr.
Qed.

Lemma base_request v h : length v = buffer_size h → base_ok h → base_ok (with_request v h).
Proof.
  intros Hl []. split; unfold app_ok, is_allocated, buffer_size in *; simpl; rewrite ?Hl; auto.
Qed.

Lemma base_drop_receive h : base_ok h → base_ok (with_receive None h).
Proof. intros []. split; auto; done. Qed.

Lemma base_drop_app h : base_ok h → base_ok (with_app_request None h).
Proof. intros []. split; simpl; auto; try done. intros r Hr.
  destruct (bo_receive0 r Hr) as (? & ? & ?). split; [done|split; done].
Qed.

Lemma base_keepalive k h : base_ok h → base_ok (with_keepalive k h).
Proof. intros []. by split. Qed.

(** ** Buffers *)

Lemma copy_at_Some buffer off data : (off + length data ≤ length buffer)%nat →
  copy_at buffer off data = Some (put buffer off data) ∧ length (put buffer off data) = length buffer.
Proof.
  intros Hl. unfold copy_at. apply Nat.leb_le in Hl as Hl'. rewrite Hl'. split; [done|].
  rewrite length_put; lia.
Qed.

Lemma subslice_Some buffer a b : (a ≤ b ≤ length buffer)%nat →
  subslice buffer a b = Some (slice buffer a b) ∧ length (slice buffer a b) = (b - a)%nat.
Proof.
  intros [Ha Hb]. unfold subslice. apply Nat.leb_le in Ha as Ha', Hb as Hb'. rewrite Ha', Hb'.
  split; [done|]. rewrite length_slice; lia.
Qed.

Definition event_of (r : result Event Event) : Event := match r with Ok e | Err e => e end.

(** An event announces the request the engine holds. *)
Definition announced (e : Event) (h : CtapHid) : Prop :=
  match e with
  | EvCbor channel n => app_request h = Some (mkAppRequest channel Cbor n)
  | EvUpdate channel n => app_request h = Some (mkAppRequest channel Update n)
  | EvNone | EvCancelled _ => True
  end.

(** Every way out of [ingest]. *)
Definition ingested (Q : Event → CtapHid → Prop) (r : result Event Event) (h : CtapHid) : Prop :=
  Q (event_of r) h.

Lemma wp_refuse {A} channel error (Q : result Event A → CtapHid → Prop) h :
  Q (Err EvNone) (queue_error channel error (zeroize_request h)) → wp (refuse channel error) Q h.
Proof. intros HQ. by apply wp_bind, wp_modify, wp_bind, wp_modify, wp_throw. Qed.

Lemma wp_write_response off data (Q : result Event unit → CtapHid → Prop) h :
  (off + length data ≤ length (response h))%nat →
  Q (Ok tt) (with_response (put (response h) off data) h) → wp (write_response off data) Q h.
Proof.
  intros Hl HQ. destruct (copy_at_Some _ _ _ Hl) as [E _].
  by apply wp_bind, wp_get, wp_bind; eapply wp_checked; [exact E|apply wp_modify].
Qed.

Lemma wp_write_request off data (Q : result Event unit → CtapHid → Prop) h :
  (off + length data ≤ length (request h))%nat →
  Q (Ok tt) (with_request (put (request h) off data) h) → wp (write_request_buffer off data) Q h.
Proof.
  intros Hl HQ. destruct (copy_at_Some _ _ _ Hl) as [E _].
  by apply wp_bind, wp_get, wp_bind; eapply wp_checked; [exact E|apply wp_modify].
Qed.

(** ** Channels *)

(** The loop skips at most the two reserved numbers: fuel 3 is enough. *)
Lemma allocate_loop_spec last : 0 ≤ last ≤ BROADCAST_CHANNEL → allocate_loop 3 last =
  Some (if last <? BROADCAST_CHANNEL - 1 then last + 1 else 1).
Proof.
  unfold BROADCAST_CHANNEL. intros Hl. unfold allocate_loop, u32_wrapping_add, RESERVED_CHANNEL, BROADCAST_CHANNEL.
  destruct (Z.ltb_spec last (0xffffffff - 1)).
  - rewrite Z.mod_small by lia.
    rewrite (proj2 (Z.eqb_neq _ 0)), (proj2 (Z.eqb_neq _ 0xffffffff)) by lia. done.
  - assert (last = 0xfffffffe ∨ last = 0xffffffff) as [-> | ->] by lia; reflexivity.
Qed.

Lemma allocate_next last n : 0 ≤ last < BROADCAST_CHANNEL → allocate_loop 3 last = Some n →
  0 < n < BROADCAST_CHANNEL.
Proof.
  intros Hl. rewrite allocate_loop_spec by lia. intros [= <-].
  unfold BROADCAST_CHANNEL in *. destruct (Z.ltb_spec last (0xffffffff - 1)); lia.
Qed.

Lemma wp_allocate (Q : result Event Z → CtapHid → Prop) h :
  0 ≤ last_channel h < BROADCAST_CHANNEL →
  (∀ n, 0 < n < BROADCAST_CHANNEL → allocate_loop 3 (last_channel h) = Some n →
     Q (Ok n) (with_last_channel n h)) →
  wp allocate_channel Q h.
Proof.
  intros Hl HQ. destruct (allocate_loop 3 (last_channel h)) as [n|] eqn:E;
    [|by rewrite allocate_loop_spec in E by lia].
  apply wp_bind, wp_get, wp_bind. eapply wp_checked; [exact E|].
  apply wp_bind, wp_modify, wp_ret. apply HQ; [by eapply allocate_next|done].
Qed.

(** ** Dispatching a complete request *)

Lemma hid_start channel command n h :
  (17 ≤ buffer_size h ≤ MAX_CTAPHID_MESSAGE_SIZE)%nat → length (response h) = buffer_size h →
  errors_ok (errors h) → 0 ≤ last_channel h < BROADCAST_CHANNEL →
  receive h = None → app_request h = None → (n ≤ buffer_size h)%nat →
  hid_ok (start_transmit channel command n (zeroize_request h)).
Proof.
  intros Hs Hr He Hl Hrx Happ Hn.
  split; [split|]; unfold buffer_size in *; simpl; rewrite ?length_zeroize, ?Hrx, ?Happ; auto; try done.
  intros t [= <-]. split; [done|]. by left.
Qed.

Lemma hid_app channel command n h :
  base_ok h → idle h → (n ≤ buffer_size h)%nat → is_allocated h channel = true →
  command = Cbor ∨ command = Update →
  hid_ok (with_app_request (Some (mkAppRequest channel command n)) h).
Proof.
  intros [Hs Hr He Hl _ _ _ Hc] (Hrx & Happ & Htx) Hn Ha Hcmd.
  split; [split|]; unfold buffer_size in *; simpl; rewrite ?Hrx, ?Htx; auto; try done.
  intros a [= <-]. done.
Qed.

Lemma hid_refuse channel error h : base_ok h → hid_ok (queue_error channel error (zeroize_request h)).
Proof. intros. by apply hid_queue, hid_zeroize. Qed.

Lemma app_queue_error channel error h : app_request (queue_error channel error h) = app_request h.
Proof. by destruct (queue_error_frame channel error h) as (slots & -> & _). Qed.

(** Nothing but an answer to INIT on [channel] is in progress. *)
Definition init_only (channel : Z) (h : CtapHid) : Prop :=
  app_request h = None ∧ ∀ t, transmit h = Some t → ts_channel t = channel ∧ ts_command t = Init.

Lemma init_only_idle channel h : idle h → init_only channel h.
Proof. intros (_ & Happ & Htx). split; [done|]. by rewrite Htx. Qed.

Lemma init_only_queue channel channel' error h : init_only channel h → init_only channel (queue_error channel' error h).
Proof. by destruct (queue_error_frame channel' error h) as (slots & -> & _). Qed.

Lemma dispatch_init_wp channel n h :
  base_ok h → idle h →
  wp (dispatch_init channel n)
     (λ r h', hid_ok h' ∧ event_of r = EvNone ∧ init_only channel h') h.
Proof.
  intros Hb (Hrx & Happ & Htx). unfold dispatch_init.
  assert (∀ e, hid_ok (queue_error channel e (zeroize_request h)) ∧ EvNone = EvNone ∧
               init_only channel (queue_error channel e (zeroize_request h))) as Href
    by (intros e; split; [by apply hid_refuse|split; [done|]]; by apply init_only_queue, init_only_idle).
  destruct (_ =? _); [by apply wp_refuse|].
  destruct (negb _); [by apply wp_refuse|].
  apply wp_bind, wp_get, wp_bind.
  assert (∀ n (Q : result Event Event → CtapHid → Prop) assigned, 0 ≤ n < BROADCAST_CHANNEL →
    (∀ h', hid_ok h' → init_only channel h' → Q (Ok EvNone) h') →
    wp (modify zeroize_response;;
        h ← get_state;
        nonce ← checked (subslice (request h) 0 8);
        write_response 0 nonce;; write_response 8 (be_encode 4 assigned);;
        write_response 12 [2; major (version h); minor (version h); build (version h); capabilities h];;
        modify zeroize_request;; modify (start_transmit channel Init 17);; mret EvNone)
       Q (with_last_channel n h)) as Hrest.
  { clear n. intros n Q assigned Hn HQ. destruct Hb as [Hs Hr He Hl _ _ _ _].
    unfold buffer_size in *. set (h0 := with_last_channel n h).
    apply wp_bind, wp_modify, wp_bind, wp_get, wp_bind.
    eapply wp_checked; [apply subslice_Some; simpl; lia|].
    assert (length (zeroize (response h)) = length (request h)) as Hz by (by rewrite length_zeroize).
    apply wp_bind, wp_write_response; [rewrite length_slice; simpl; lia|].
    apply wp_bind, wp_write_response;
      [cbn [response with_response with_last_channel zeroize_response h0]; rewrite length_put;
       rewrite ?length_be_encode, ?length_slice; simpl; lia|].
    apply wp_bind, wp_write_response;
      [cbn [response with_response with_last_channel zeroize_response h0]; rewrite !length_put;
       rewrite ?length_be_encode, ?length_slice; rewrite ?length_put; rewrite ?length_slice; simpl; lia|].
    apply wp_bind, wp_modify, wp_bind, wp_modify, wp_ret, HQ; [|split; [exact Happ|by intros t [= <-]]].
    apply hid_start; unfold buffer_size; simpl; auto; [|lia].
    rewrite !length_put; rewrite ?length_be_encode, ?length_slice; rewrite ?length_put;
      rewrite ?length_be_encode, ?length_slice; rewrite ?length_put; rewrite ?length_slice; simpl; lia. }
  destruct (channel =? BROADCAST_CHANNEL).
  - apply wp_allocate; [apply Hb|]. intros m Hm _. apply Hrest; [lia|]. by intros.
  - destruct (is_allocated h channel); [|by apply wp_refuse].
    apply wp_ret. replace h with (with_last_channel (last_channel h) h) by (by destruct h).
    apply Hrest; [apply Hb|]. by intros.
Qed.

Lemma dispatch_wp channel command n h :
  base_ok h → idle h → (n ≤ buffer_size h)%nat →
  wp (dispatch channel command n)
     (λ r h', hid_ok h' ∧ announced (event_of r) h' ∧
              (command = Init → event_of r = EvNone ∧ init_only channel h')) h.
Proof.
  intros Hb Hi Hn. unfold dispatch. destruct (bool_decide _) eqn:Ec.
  { eapply wp_mono; [by apply dispatch_init_wp|]. intros r h' (Hok & -> & Happ). done. }
  apply bool_decide_eq_false in Ec.
  apply wp_bind, wp_get. destruct (_ || _) eqn:Ea; [apply wp_refuse; split; [by apply hid_refuse|done]|].
  apply orb_false_iff in Ea as [_ Ea]. apply negb_false_iff in Ea.
  destruct command; try done; try (apply wp_refuse; split; [by apply hid_refuse|done]).
  - destruct Hi as (Hrx & Happ & Htx). destruct Hb as [Hs Hr He Hl _ _ _ _]. unfold buffer_size in *.
    apply wp_bind, wp_modify, wp_bind. eapply wp_checked; [apply subslice_Some; lia|].
    apply wp_bind, wp_write_response;
      [cbn [response with_response zeroize_response]; rewrite length_zeroize, length_slice; lia|].
    apply wp_bind, wp_modify, wp_bind, wp_modify, wp_ret. split; [|done].
    apply hid_start; unfold buffer_size; simpl; auto.
    rewrite length_put; rewrite ?length_zeroize, ?length_slice; lia.
  - apply wp_bind, wp_modify, wp_ret. split; [|done]. apply hid_app; auto.
  - apply wp_bind, wp_modify, wp_ret. split; [by apply hid_zeroize|done].
  - apply wp_bind, wp_modify, wp_ret. split; [|done]. apply hid_app; auto.
Qed.

Lemma idle_fields h h' : receive h' = receive h → app_request h' = app_request h →
  transmit h' = transmit h → idle h → idle h'.
Proof. unfold idle. by intros -> -> ->. Qed.

Lemma hid_receive N r h :
  base_ok h → idle h → buffer_size h = N → receive_ok N r → hid_ok (with_receive (Some r) h).
Proof.
  intros [Hs Hr He Hl _ _ _ Hc] (Hrx & Happ & Htx) HN Hrk.
  split; [split|]; unfold buffer_size in *; simpl; rewrite ?Happ, ?Htx; auto; try done.
  intros r' [= <-]. rewrite HN. done.
Qed.

Lemma ingest_continuation_wp channel packet now h :
  hid_ok h → length packet = PACKET_SIZE →
  wp (ingest_continuation channel packet now)
     (λ r h', hid_ok h' ∧ announced (event_of r) h' ∧ (receive h = None → h' = h)) h.
Proof.
  intros Hok Hp. unfold ingest_continuation. apply wp_bind, wp_get.
  destruct (receive h) as [r|] eqn:Hr; [|by apply wp_ret].
  destruct (negb _); [by apply wp_ret|].
  destruct (bo_receive _ (hid_base _ Hok) _ Hr) as ((Hlen & Hrec & k & Hk & Hseq) & Happ & Htx).
  pose proof (base_drop_receive _ (hid_base _ Hok)) as Hb.
  assert (idle (with_receive None h)) as Hid by done.
  destruct (negb _) eqn:Hs.
  { apply wp_bind, wp_modify, wp_refuse. split; [|done]. by apply hid_refuse. }
  pose proof (bo_size _ Hb) as Hsize. unfold buffer_size in *. cbn [request with_receive] in Hsize.
  apply wp_bind. eapply wp_checked; [by rewrite (proj2 (Nat.leb_le _ _)) by lia|].
  set (count := Nat.min (rs_length r - rs_received r) CONT_PAYLOAD_SIZE).
  assert (count ≤ 59)%nat as Hc by (unfold count, CONT_PAYLOAD_SIZE; lia).
  unfold PACKET_SIZE in Hp.
  destruct (subslice_Some packet 5 (5 + count) ltac:(lia)) as [Esub Lsub].
  apply wp_bind. eapply wp_checked; [exact Esub|].
  apply wp_bind, wp_write_request; [rewrite Lsub; unfold count; lia|].
  set (h1 := with_request _ h).
  assert (length (request h1) = length (request h)) as Hl1
    by (unfold h1; cbn [request with_request]; rewrite length_put; rewrite ?Lsub; unfold count; lia).
  assert (base_ok (with_receive None h1)) as Hb1.
  { apply (base_request (request h1) (with_receive None h)); [|done]. done. }
  destruct (Nat.eqb_spec (rs_received r + count) (rs_length r)) as [Hdone|Hmore].
  - apply wp_bind, wp_modify. eapply wp_mono;
      [apply dispatch_wp; [exact Hb1|done|unfold buffer_size; simpl in *; lia]|].
    intros r' h' (Hok' & He & _). by split.
  - apply wp_bind, wp_modify, wp_ret. split; [|done].
    apply (hid_receive (length (request h)) _ (with_receive None h1)); [done..|].
    split; [done|]. cbn [rs_received rs_length rs_next_sequence].
    assert (count = CONT_PAYLOAD_SIZE) as Hc' by (unfold count in *; lia).
    split; [unfold count in *; lia|]. exists (S k). rewrite Hc', Hk. split; [lia|].
    rewrite Hseq, Z.mod_small; [lia|].
    unfold MAX_CTAPHID_MESSAGE_SIZE, INIT_PAYLOAD_SIZE, CONT_PAYLOAD_SIZE in *. lia.
Qed.

(** A packet that starts a request, on an engine with nothing in progress. *)
Lemma ingest_new_wp channel number n packet now h :
  hid_ok h → idle h → length packet = PACKET_SIZE →
  wp (ingest_new channel number n packet now)
     (λ r h', hid_ok h' ∧ announced (event_of r) h' ∧
              (number = command_number Init → event_of r = EvNone ∧ init_only channel h')) h.
Proof.
  intros Hok Hi Hp. unfold ingest_new. apply wp_bind, wp_modify.
  pose proof (hid_zeroize _ (hid_base _ Hok)) as Hz. set (h0 := zeroize_request h) in *.
  assert (idle h0) as Hi0 by by destruct Hi as (? & ? & ?).
  assert (∀ e, hid_ok (queue_error channel e h0) ∧ True ∧
    (number = command_number Init → EvNone = EvNone ∧ init_only channel (queue_error channel e h0))) as Hq.
  { intros e. split; [by apply hid_queue|]. split; [done|]. intros _. split; [done|]. by apply init_only_queue, init_only_idle. }
  destruct (from_number number) as [command|] eqn:Ecmd; [|by apply wp_bind, wp_modify, wp_ret].
  apply wp_bind, wp_get. destruct (_ <? _)%nat eqn:Hn; [by apply wp_bind, wp_modify, wp_ret|].
  apply Nat.ltb_ge in Hn. change (n ≤ length (request h0))%nat in Hn.
  destruct (_ || _) eqn:El; [by apply wp_bind, wp_modify, wp_ret|].
  apply orb_false_iff in El as [El _].
  unfold PACKET_SIZE in Hp. set (copied := Nat.min n INIT_PAYLOAD_SIZE).
  assert (copied ≤ 57)%nat as Hc by (unfold copied, INIT_PAYLOAD_SIZE; lia).
  destruct (subslice_Some packet 7 (7 + copied) ltac:(lia)) as [Esub Lsub].
  apply wp_bind. eapply wp_checked; [exact Esub|].
  apply wp_bind, wp_write_request; [rewrite Lsub; unfold copied; lia|].
  set (h1 := with_request _ h0).
  assert (length (request h1) = length (request h0)) as Hl1
    by (unfold h1; cbn [request with_request]; rewrite length_put; rewrite ?Lsub; unfold copied; lia).
  assert (base_ok h1) as Hb1 by (apply base_request; [exact Hl1|apply Hz]).
  assert (idle h1) as Hi1 by by destruct Hi0 as (? & ? & ?).
  destruct (Nat.ltb_spec INIT_PAYLOAD_SIZE n).
  - apply wp_bind, wp_modify, wp_ret. split; [|split; [done|intros _; split; [done|]; exact (init_only_idle channel h1 Hi1)]].
    apply (hid_receive (length (request h1))); [done..|].
    split; [cbn [rs_length]; lia|]. split; [cbn [rs_received rs_length]; lia|]. exists 0%nat. done.
  - eapply wp_mono; [apply dispatch_wp; [done..|unfold buffer_size; lia]|].
    intros r h' (Hok' & He & Hinit). split; [done|]. split; [done|]. intros ->. apply Hinit. by injection Ecmd.
Qed.

(** ** One report *)

Lemma active_channel_None h : active_channel h = None → idle h.
Proof. unfold active_channel, idle. destruct (receive h), (app_request h), (transmit h); done. Qed.

Lemma abort_idle h : idle (abort_transaction h).
Proof. done. Qed.

Lemma hid_cancel h : hid_ok h → hid_ok (cancel_application_request h).2.
Proof.
  intros Hok. unfold cancel_application_request. destruct (app_request h); [|done].
  split; [apply base_keepalive, Hok|apply Hok].
Qed.

Lemma ingest_active_wp channel number n h :
  hid_ok h →
  wp (ingest_active channel number n)
     (λ r h', hid_ok h' ∧ match r with Ok _ => idle h' | Err e => announced e h' end) h.
Proof.
  intros Hok. unfold ingest_active. apply wp_bind, wp_get.
  destruct (active_channel h) as [active|] eqn:Ea;
    [|apply wp_ret; split; [exact Hok|]; by apply active_channel_None].
  repeat case_match; repeat first [apply wp_bind | apply wp_modify]; try apply wp_throw;
    try (split; [|done]); auto using hid_queue.
  - by apply hid_abort, Hok.
  - apply wp_call. intros a h' Ec. apply wp_throw. split; [|by destruct a].
    replace h' with (cancel_application_request h).2 by (by rewrite Ec). by apply hid_cancel.
  - apply hid_queue, hid_abort, Hok.
Qed.

Lemma ingest_step_wp packet now h :
  hid_ok h → length packet = PACKET_SIZE →
  wp (ingest_step packet now) (λ r h', hid_ok h' ∧ announced (event_of r) h') h.
Proof.
  intros Hok Hp. unfold ingest_step. destruct (_ =? 0).
  { eapply wp_mono; [by apply ingest_continuation_wp|]. intros r h' (H & Hd & _). by split. }
  apply wp_bind. eapply wp_mono; [by apply ingest_active_wp|].
  intros [[]|e] h' [Hok' Hi]; [|done].
  eapply wp_mono; [by apply ingest_new_wp|]. intros r h2 (H & Hd & _). by split.
Qed.

Lemma ingest_ok packet now h :
  hid_ok h → length packet = PACKET_SIZE → ∃ e h', ingest packet now h = Some (e, h') ∧ hid_ok h' ∧ announced e h'.
Proof.
  intros Hok Hp. apply (wp_finish _ (λ e h', hid_ok h' ∧ announced e h')).
  eapply wp_mono; [by apply ingest_step_wp|]. by intros [|].
Qed.

Lemma hid_transport_error h : hid_ok h → hid_ok (transport_error h).
Proof.
  intros Hok. unfold transport_error. pose proof (hid_abort _ (hid_base _ Hok)) as [Hb Hc].
  split; [|exact Hc]. apply base_errors; [|done]. exists [].
  destruct (bo_errors _ (hid_base _ Hok)) as (es & Hs & Hl & _). cbn [errors abort_transaction].
  change (errors (abort_transaction h)) with (errors h). rewrite Hs.
  split; [|split; [simpl; lia|apply NoDup_nil_2]].
  rewrite length_app, length_fmap, length_replicate.
  by replace (length es + (ERROR_CAPACITY - length es))%nat with ERROR_CAPACITY by lia.
Qed.

Lemma ingest_report_ok report now h :
  hid_ok h → ∃ e i h', ingest_report report now h = Some (e, i, h') ∧ hid_ok h' ∧ announced e h'.
Proof.
  intros Hok. unfold ingest_report. destruct (Nat.eqb_spec (length report) PACKET_SIZE).
  - destruct (ingest_ok report now h Hok) as (ev & h' & E & Hok'); [done|].
    unfold ingest_with_interruption. rewrite E. eauto 6.
  - exists EvNone, true, (transport_error h). split; [done|]. split; [by apply hid_transport_error|done].
Qed.

(** ** Replies *)

Lemma reply_wp payload h :
  hid_ok h → wp (reply payload) (λ r h', hid_ok h' ∧
    match app_request h with
    | None => r = Err NoPendingRequest ∧ h' = h
    | Some a =>
        app_request h' = None ∧
        if (buffer_size h <? length payload)%nat
        then r = Err ResponseTooLong ∧ transmit h' = None
        else r = Ok tt ∧ transmit h' = Some (mkTransmitState (ar_channel a) (ar_command a) (length payload) 0 0) ∧
             response h' = put (zeros (buffer_size h)) 0 payload ∧ errors h' = errors h ∧
             keepalive_slot h' = keepalive_slot h ∧ last_channel h' = last_channel h
    end) h.
Proof.
  intros Hok. unfold reply. apply wp_bind, wp_get.
  destruct (app_request h) as [a|] eqn:Ea; [|by apply wp_throw].
  destruct (bo_app _ (hid_base _ Hok) _ Ea) as (Ha & Htx).
  assert (receive h = None) as Hrx.
  { destruct (receive h) as [r|] eqn:Er; [|done].
    destruct (bo_receive _ (hid_base _ Hok) _ Er) as (_ & Hc & _). congruence. }
  assert (base_ok (with_app_request None h)) as Hb by apply base_drop_app, Hok.
  apply wp_bind, wp_modify, wp_bind, wp_modify.
  change (length (request h)) with (buffer_size h). destruct (Nat.ltb_spec (buffer_size h) (length payload)) as [Hlt|Hle].
  - apply wp_bind, wp_modify, wp_throw. split; [by apply hid_queue, hid_zeroize|].
    destruct (queue_error_frame (ar_channel a) InvalidLength
                (zeroize_request (with_app_request None h))) as (slots & E & _).
    rewrite E. done.
  - pose proof (bo_response _ Hb) as Hr. cbn [response with_app_request] in Hr.
    change (buffer_size (with_app_request None h)) with (buffer_size h) in Hr.
    apply wp_bind, wp_modify, wp_bind, wp_get, wp_bind.
    eapply wp_checked; [apply copy_at_Some; simpl; rewrite length_zeroize, Hr; done|].
    apply wp_bind, wp_modify, wp_modify. cbn [response with_response zeroize_response zeroize_request
      with_request with_app_request]. split; [|unfold zeroize; rewrite Hr; done].
    destruct Hb as [Hs _ He Hlast _ _ _ _]. unfold buffer_size in *.
    split; [split|]; unfold buffer_size; simpl; rewrite ?length_zeroize, ?Hrx; auto; try done.
    + rewrite length_put; rewrite ?length_zeroize, ?Hr; lia.
    + intros t [= <-]. split; [done|]. by left.
Qed.

Lemma hid_keepalive status h : hid_ok h → hid_ok (keepalive status h).2.
Proof.
  intros Hok. unfold keepalive. destruct (app_request h); [|done].
  split; [apply base_keepalive, Hok|apply Hok].
Qed.

Lemma hid_expire now h : hid_ok h → hid_ok (expire_receive now h).
Proof.
  intros Hok. unfold expire_receive. destruct (receive h); [|done].
  destruct (_ <? _); [|done]. apply hid_refuse, base_drop_receive, Hok.
Qed.

Lemma request_payload_ok h : hid_ok h → request_payload h ≠ Some None.
Proof.
  intros Hok. unfold request_payload. destruct (app_request h) as [a|] eqn:Ea; [|done].
  destruct (bo_app _ (hid_base _ Hok) _ Ea) as ((Ha & _) & _). unfold buffer_size in Ha.
  simpl. by destruct (subslice_Some (request h) 0 (ar_length a)) as [-> _]; [lia|].
Qed.

(** ** Transmission *)

Lemma transmit_count_Some N t : transmit_ok N t →
  ∃ count, transmit_count t = Some count ∧ (ts_offset t + count ≤ ts_length t)%nat ∧
    (count = 0 → ts_length t = ts_offset t)%nat ∧ (count ≤ 59)%nat ∧
    ((ts_offset t + count < ts_length t)%nat →
       ∃ k : nat, (ts_offset t + count)%nat = (INIT_PAYLOAD_SIZE + CONT_PAYLOAD_SIZE * k)%nat ∧
         (if (INIT_PAYLOAD_SIZE <? ts_offset t + count)%nat then ts_next_sequence t + 1
          else ts_next_sequence t) = Z.of_nat k).
Proof.
  intros (Hl & Ht). unfold transmit_count. destruct (Nat.eqb_spec (ts_offset t) 0) as [E|E].
  - eexists. split; [done|]. unfold INIT_PAYLOAD_SIZE. split_and!; [lia|lia|lia|].
    intros. exists 0%nat. destruct Ht as [[_ Hn]|(_ & k & Hk & Hn)].
    + destruct (Nat.ltb_spec 57 (ts_offset t + ts_length t `min` 57)); lia.
    + unfold INIT_PAYLOAD_SIZE in Hk. lia.
  - destruct Ht as [[? _]|(Ho & k & Hk & Hn)]; [done|].
    rewrite (proj2 (Nat.leb_le _ _)) by lia. eexists. split; [done|].
    unfold INIT_PAYLOAD_SIZE, CONT_PAYLOAD_SIZE in *. split_and!; [lia|lia|lia|].
    intros. exists (S k).
    destruct (Nat.ltb_spec 57 (ts_offset t + (ts_length t - ts_offset t) `min` 59)); lia.
Qed.

Lemma next_packet_ok h : hid_ok h → ∃ p, next_packet h = Some p.
Proof.
  intros Hok. unfold next_packet. destruct (nth 0 (errors h) None); [by eexists|].
  destruct (keepalive_slot h) as [[]|]; [by eexists|].
  destruct (transmit h) as [t|] eqn:Et; [|by eexists].
  pose proof (bo_transmit _ (hid_base _ Hok) _ Et) as Ht.
  pose proof (bo_response _ (hid_base _ Hok)) as Hr.
  destruct (transmit_count_Some _ _ Ht) as (count & -> & Hc & _). destruct Ht as [Hl _].
  simpl. destruct (subslice_Some (response h) (ts_offset t) (ts_offset t + count)) as [-> _]; [lia|].
  simpl. case_match; by eexists.
Qed.

Lemma errors_pop e rest : errors_ok (Some e :: rest) → errors_ok (rest ++ [None]).
Proof.
  intros ([|x es] & Hs & Hl & Hn); [done|]. simpl in *. injection Hs as -> ->. exists es.
  apply list.NoDup_cons in Hn as [_ Hn]. split; [|split; [lia|done]].
  rewrite <- app_assoc. f_equal.
  replace (ERROR_CAPACITY - length es)%nat with (S (ERROR_CAPACITY - S (length es))) by lia.
  by rewrite replicate_S_end.
Qed.

Lemma packet_sent_ok h : hid_ok h → ∃ h', packet_sent h = Some h' ∧ hid_ok h'.
Proof.
  intros Hok. unfold packet_sent.
  assert (∃ h', match keepalive_slot h with
     | Some _ => Some (with_keepalive None h)
     | None => match transmit h with
       | None => Some h
       | Some t =>
           count ← transmit_count t;
           let offset := (ts_offset t + count)%nat in
           if (ts_length t <=? offset)%nat
           then Some (zeroize_response (with_transmit None h))
           else
             let next := if (INIT_PAYLOAD_SIZE <? offset)%nat
                         then (ts_next_sequence t + 1) mod 256 else ts_next_sequence t in
             Some (with_transmit (Some (mkTransmitState (ts_channel t) (ts_command t)
                                          (ts_length t) offset next)) h)
       end end = Some h' ∧ hid_ok h') as Hrest.
  { destruct (keepalive_slot h).
    { eexists. split; [done|]. split; [apply base_keepalive, Hok|apply Hok]. }
    destruct (transmit h) as [t|] eqn:Et; [|by eexists].
    destruct Hok as [[Hs Hr He Hl Hrx Happ Htx Hc] Hz]. pose proof (Htx _ Et) as Ht.
    destruct (transmit_count_Some _ _ Ht) as (count & -> & Hb & Hpos & Hmax & Hk).
    cbn [mbind option_bind]. cbv zeta.
    assert (receive h = None ∧ app_request h = None) as [Hrn Han].
    { split; [destruct (receive h) as [r|] eqn:E; [|done]; destruct (Hrx _ eq_refl) as (_ & _ & ?); congruence|].
      destruct (app_request h) as [a|] eqn:E; [|done]. destruct (Happ _ eq_refl) as (_ & ?); congruence. }
    destruct (Nat.leb_spec (ts_length t) (ts_offset t + count)).
    - eexists. split; [done|]. split; [split|]; unfold buffer_size in *; simpl; rewrite ?Hrn, ?Han;
        rewrite ?length_zeroize; auto; try done. intros _. unfold zeroize. by rewrite Hr.
    - eexists. split; [done|]. split; [split|]; unfold buffer_size in *; simpl; rewrite ?Hrn, ?Han; auto; try done.
      intros t' [= <-]. destruct Ht as [Hlen Hseq]. split; [done|]. right. split; [cbn [ts_length ts_offset]; lia|].
      destruct (Hk ltac:(lia)) as (k & Hk1 & Hk2). exists k. split; [done|]. cbn [ts_next_sequence].
      destruct (Nat.ltb_spec INIT_PAYLOAD_SIZE (ts_offset t + count)); [|lia].
      rewrite Z.mod_small; [lia|].
      unfold MAX_CTAPHID_MESSAGE_SIZE, INIT_PAYLOAD_SIZE, CONT_PAYLOAD_SIZE in *. lia. }
  destruct (errors h) as [|[e|] rest] eqn:Ee; [exact Hrest| |exact Hrest].
  eexists. split; [done|]. destruct Hok as [Hb Hz]. split; [|exact Hz].
  apply base_errors; [|done]. eapply errors_pop. rewrite <- Ee. apply Hb.
Qed.

Lemma hid_new N v caps h : new_hid N v caps = Some h → hid_ok h.
Proof.
  unfold new_hid. destruct (_ && _) eqn:E; [|done]. bool_to_prop. intros [= <-].
  split; [split|]; unfold buffer_size; simpl; rewrite ?length_zeros; auto; try done.
  - exists []. split; [done|]. split; [simpl; lia|apply NoDup_nil_2].
Qed.

Lemma hid_allocated last h :
  0 ≤ last < BROADCAST_CHANNEL → idle h → hid_ok h → hid_ok (with_last_channel last h).
Proof.
  intros Hlast (Hrx & Happ & Htx) [[] Hc]. split; [split|]; unfold buffer_size in *; simpl; auto.
  intros a Ha. simpl in Ha. congruence.
Qed.
