(* ===== verification/CtapHidWire.v ===== *)
(** * The wire format, and the engine against it

    The reports the CTAPHID protocol prescribes for a message, defined on their own,
    and what feeding them to the engine or draining it does. *)

From stdpp Require Import base tactics numbers list option.
From S2P Require Import Prelude CtapHid CtapHidSafety.

(** ** The reference format *)

Definition init_report (channel command : Z) (n : nat) (data : bytes) : bytes :=
  be_encode 4 channel ++ [Z.lor command 0x80] ++ be_encode 2 (Z.of_nat n)
  ++ data ++ zeros (INIT_PAYLOAD_SIZE - length data).
Definition cont_report (channel sequence : Z) (data : bytes) : bytes :=
  be_encode 4 channel ++ [sequence] ++ data ++ zeros (CONT_PAYLOAD_SIZE - length data).

(** The continuation reports of what is left of a message; [fuel] bounds their number. *)
Fixpoint continuations (fuel : nat) (channel sequence : Z) (rest : bytes) : list bytes :=
  match fuel with
  | O => []
  | S fuel =>
      if (length rest =? 0)%nat then []
      else cont_report channel sequence (take CONT_PAYLOAD_SIZE rest)
           :: continuations fuel channel (sequence + 1) (drop CONT_PAYLOAD_SIZE rest)
  end.
Definition fragment (channel : Z) (command : Command) (payload : bytes) : list bytes :=
  init_report channel (command_number command) (length payload) (take INIT_PAYLOAD_SIZE payload)
  :: continuations (length payload) channel 0 (drop INIT_PAYLOAD_SIZE payload).

(** Feed reports, each with the time it arrived at, and collect the events. *)
Fixpoint feed (reports : list (bytes * Z)) (h : CtapHid) : option (list Event * CtapHid) :=
  match reports with
  | [] => Some ([], h)
  | (r, now) :: reports =>
      '(e, h) ← ingest r now h;
      '(es, h) ← feed reports h;
      Some (e :: es, h)
  end.

(** Send reports until there is nothing left to send. *)
Fixpoint drain (fuel : nat) (h : CtapHid) : option (list bytes * CtapHid) :=
  match fuel with
  | O => None
  | S fuel =>
      p ← next_packet h;
      match p with
      | None => Some ([], h)
      | Some p => h ← packet_sent h; '(ps, h) ← drain fuel h; Some (p :: ps, h)
      end
  end.

(** ** Reading a report back *)

Lemma slice_app (a b c : bytes) i j :
  i = length a → j = (length a + length b)%nat → slice (a ++ b ++ c) i j = b.
Proof.
  intros -> ->. unfold slice. rewrite drop_app_ge, Nat.sub_diag, drop_0 by lia.
  rewrite take_app_le by lia. by rewrite take_ge by lia.
Qed.

Section reports.
Context (channel : Z) (Hchannel : is_u32 channel).

Lemma channel_header rest : packet_channel (be_encode 4 channel ++ rest) = channel.
Proof.
  unfold packet_channel. rewrite (slice_app [] (be_encode 4 channel) rest); [|done|done].
  by apply be_decode_encode.
Qed.

Lemma command_header b rest : byte_at (be_encode 4 channel ++ b :: rest) 4 = b.
Proof. done. Qed.

Lemma init_length c n data : Z.of_nat n < 65536 → packet_length (init_report channel c n data) = n.
Proof.
  intros Hn. unfold packet_length, init_report. rewrite app_assoc.
  rewrite slice_app; [|done|done]. rewrite be_decode_encode; [lia|].
  change (256 ^ Z.of_nat 2) with 65536. lia.
Qed.

Lemma init_data c n data :
  slice (init_report channel c n data) 7 (7 + length data) = data.
Proof.
  unfold init_report. rewrite !app_assoc. rewrite <- (app_assoc _ data). by apply slice_app.
Qed.

Lemma cont_data s data : slice (cont_report channel s data) 5 (5 + length data) = data.
Proof. unfold cont_report. rewrite app_assoc. by apply slice_app. Qed.

Lemma length_init c n data :
  (length data ≤ INIT_PAYLOAD_SIZE)%nat → length (init_report channel c n data) = PACKET_SIZE.
Proof.
  intros Hd. unfold init_report. rewrite !length_app, !length_be_encode, length_zeros.
  unfold INIT_PAYLOAD_SIZE, PACKET_SIZE in *. simpl. lia.
Qed.

Lemma length_cont s data :
  (length data ≤ CONT_PAYLOAD_SIZE)%nat → length (cont_report channel s data) = PACKET_SIZE.
Proof.
  intros Hd. unfold cont_report. rewrite !length_app, !length_be_encode, length_zeros.
  unfold CONT_PAYLOAD_SIZE, PACKET_SIZE in *. simpl. lia.
Qed.

End reports.

Lemma from_command_number c : from_number (command_number c) = Some c.
Proof. by destruct c. Qed.

Lemma ingest_step_init channel c n data now : is_u32 channel → Z.of_nat n < 65536 →
  ingest_step (init_report channel (command_number c) n data) now =
  (ingest_active channel (command_number c) n;;
   ingest_new channel (command_number c) n (init_report channel (command_number c) n data) now).
Proof.
  intros Hch Hn. unfold ingest_step. rewrite init_length by done.
  assert (packet_channel (init_report channel (command_number c) n data) = channel) as ->
    by (by apply channel_header).
  change (byte_at (init_report channel (command_number c) n data) 4) with (Z.lor (command_number c) 0x80).
  assert (Z.land (Z.lor (command_number c) 0x80) 0x80 =? 0 = false) as -> by (by destruct c).
  by assert (Z.land (Z.lor (command_number c) 0x80) 0x7f = command_number c) as -> by (by destruct c).
Qed.

Lemma ingest_step_cont channel s data now : is_u32 channel → 0 ≤ s < 128 →
  ingest_step (cont_report channel s data) now =
  ingest_continuation channel (cont_report channel s data) now.
Proof.
  intros Hch Hs. unfold ingest_step.
  assert (packet_channel (cont_report channel s data) = channel) as -> by (by apply channel_header).
  change (byte_at (cont_report channel s data) 4) with s.
  assert (Z.land s 0x80 = 0) as ->; [|done].
  change 0x80 with (2 ^ 7). apply Z.bits_inj'. intros k Hk.
  rewrite Z.land_spec, Z.pow2_bits_eqb, Z.bits_0 by lia.
  destruct (Z.eqb_spec 7 k); [|apply andb_false_r]. rewrite (testbit_above 7) by lia. done.
Qed.

Lemma finish_exact {S E : Type} (x : step S E E) s p :
  wp x (λ r s', match r with Ok e | Err e => (e, s') = p end) s → finish x s = Some p.
Proof. intros K. by destruct (wp_finish x (λ e s', (e, s') = p) s K) as (? & ? & -> & <-). Qed.

(** ** Reassembly *)

Definition app_event (c : Command) (channel : Z) (n : nat) : Event :=
  if bool_decide (c = Update) then EvUpdate channel n else EvCbor channel n.

(** The first [k] bytes of the message are in the request buffer. *)
Definition holding (payload : bytes) (k : nat) (h : CtapHid) : CtapHid :=
  with_request (take k payload ++ zeros (buffer_size h - k)) h.
Definition receiving (channel : Z) (c : Command) (payload : bytes) (k : nat) (sequence now : Z)
    (h : CtapHid) : CtapHid :=
  with_receive (Some (mkReceiveState channel c (length payload) k sequence now)) (holding payload k h).
Definition delivered (channel : Z) (c : Command) (payload : bytes) (h : CtapHid) : CtapHid :=
  with_app_request (Some (mkAppRequest channel c (length payload)))
    (with_receive None (holding payload (length payload) h)).

Section reassembly.
Context (channel : Z) (c : Command) (payload : bytes) (h0 : CtapHid).
Context (Hh0 : hid_ok h0) (Hidle : idle h0).
Context (Hchannel : is_u32 channel) (Hallocated : is_allocated h0 channel = true).
Context (Hc : c = Cbor ∨ c = Update) (Hfits : (length payload ≤ buffer_size h0)%nat).

Lemma put_holding k d : (k + length d ≤ length payload)%nat → take (length d) (drop k payload) = d →
  put (take k payload ++ zeros (buffer_size h0 - k)) k d =
  take (k + length d) payload ++ zeros (buffer_size h0 - (k + length d)).
Proof.
  intros Hk Hd. rewrite put_app by (rewrite length_take; lia). rewrite drop_zeros.
  rewrite <- (take_take_drop payload k (length d)), Hd, <- app_assoc. do 2 f_equal.
  f_equal. lia.
Qed.

Lemma buffer_holding k : (k ≤ length payload)%nat → buffer_size (holding payload k h0) = buffer_size h0.
Proof.
  intros Hk. unfold buffer_size at 1, holding. cbn [request with_request].
  rewrite length_app, length_take, length_zeros. lia.
Qed.

(** The dispatch of the complete message. *)
Lemma dispatch_app h n :
  is_allocated h channel = true →
  dispatch channel c n h =
  Some (Ok (app_event c channel n), with_app_request (Some (mkAppRequest channel c n)) h).
Proof.
  intros Ha. unfold dispatch. destruct (bool_decide (c = Init)) eqn:E; bool_to_prop; [naive_solver|].
  unfold mbind, step_bind, get_state. rewrite Ha.
  assert ((channel =? RESERVED_CHANNEL) || (channel =? BROADCAST_CHANNEL) = false) as ->.
  { unfold is_allocated in Ha. apply andb_true_iff in Ha as [Ha _]. apply andb_true_iff in Ha as [H1 H2].
    apply negb_true_iff in H1, H2. by rewrite H1, H2. }
  by destruct Hc as [-> | ->].
Qed.

Definition reassembling (k : nat) (sequence now : Z) : Event * CtapHid :=
  if (k <? length payload)%nat
  then (EvNone, receiving channel c payload k sequence now h0)
  else (app_event c channel (length payload), delivered channel c payload h0).

Lemma dispatch_progress h n :
  h = holding payload (length payload) h0 → n = length payload →
  wp (dispatch channel c n) (λ r h', match r with Ok e | Err e =>
    (e, h') = (app_event c channel (length payload), delivered channel c payload h0) end) h.
Proof.
  intros -> ->. unfold wp. rewrite dispatch_app by done. f_equal.
  unfold delivered, holding. destruct Hidle as (Hrx & _ & _). destruct h0; simpl in *. by subst.
Qed.

Lemma ingest_first now :
  ingest (init_report channel (command_number c) (length payload) (take INIT_PAYLOAD_SIZE payload)) now h0 =
  Some (reassembling INIT_PAYLOAD_SIZE 0 now).
Proof.
  set (data := take INIT_PAYLOAD_SIZE payload).
  assert (length data = Nat.min (length payload) INIT_PAYLOAD_SIZE) as Hdata
    by (unfold data; rewrite length_take; lia).
  pose proof (bo_size _ (hid_base _ Hh0)) as Hs.
  assert (Z.of_nat (length payload) < 65536) as Hn
    by (unfold MAX_CTAPHID_MESSAGE_SIZE, INIT_PAYLOAD_SIZE, CONT_PAYLOAD_SIZE in *; lia).
  destruct Hidle as (Hrx & Happ & Htx).
  unfold ingest. rewrite ingest_step_init by done.
  apply finish_exact. apply wp_bind. unfold ingest_active. apply wp_bind, wp_get.
  assert (active_channel h0 = None) as -> by (unfold active_channel; by rewrite Hrx, Happ, Htx).
  apply wp_ret. unfold ingest_new. apply wp_bind, wp_modify.
  rewrite from_command_number. apply wp_bind, wp_get.
  assert (zeroize_request h0 = h0) as ->.
  { unfold zeroize_request. rewrite (hid_request_clear _ Hh0), zeroize_zeros by done.
    rewrite <- (hid_request_clear _ Hh0) by done. by destruct h0. }
  change (length (request h0)) with (buffer_size h0).
  rewrite (proj2 (Nat.ltb_ge _ _)) by done.
  assert (bool_decide (c = Init) = false ∧ bool_decide (c = Cancel) = false) as [-> ->]
    by (split; apply bool_decide_eq_false; naive_solver).
  cbn [andb orb]. rewrite <- Hdata. apply wp_bind. eapply wp_checked.
  { apply subslice_Some. rewrite length_init by (rewrite Hdata; lia).
    unfold PACKET_SIZE, INIT_PAYLOAD_SIZE in *. lia. }
  rewrite init_data. apply wp_bind, wp_write_request.
  { rewrite Hdata. unfold buffer_size in *. lia. }
  assert (put (request h0) 0 data = take (length data) payload ++ zeros (buffer_size h0 - length data)) as ->.
  { rewrite (hid_request_clear _ Hh0), put_zeros by done. f_equal. unfold data.
    by rewrite length_take, <- take_take, (take_ge payload (length payload)). }
  fold (holding payload (length data) h0). unfold reassembling.
  destruct (Nat.ltb_spec INIT_PAYLOAD_SIZE (length payload)).
  - apply wp_bind, wp_modify, wp_ret. by replace (length data) with INIT_PAYLOAD_SIZE by lia.
  - apply dispatch_progress; [|done]. by replace (length data) with (length payload) by lia.
Qed.

Lemma ingest_next k sequence last now :
  (k < length payload)%nat → k = (INIT_PAYLOAD_SIZE + CONT_PAYLOAD_SIZE * Z.to_nat sequence)%nat → 0 ≤ sequence →
  ingest (cont_report channel sequence (take CONT_PAYLOAD_SIZE (drop k payload))) now
    (receiving channel c payload k sequence last h0) =
  Some (reassembling (k + CONT_PAYLOAD_SIZE) (sequence + 1) now).
Proof.
  intros Hk Hseq Hpos. set (data := take CONT_PAYLOAD_SIZE (drop k payload)).
  assert (length data = Nat.min (length payload - k) CONT_PAYLOAD_SIZE) as Hdata
    by (unfold data; rewrite length_take, length_drop; lia).
  pose proof (bo_size _ (hid_base _ Hh0)) as Hs.
  assert (sequence < 128) as Hlt
    by (unfold MAX_CTAPHID_MESSAGE_SIZE, INIT_PAYLOAD_SIZE, CONT_PAYLOAD_SIZE in *; lia).
  unfold ingest. rewrite ingest_step_cont by lia || done.
  apply finish_exact. unfold ingest_continuation. apply wp_bind, wp_get.
  cbn [receive receiving with_receive rs_channel rs_next_sequence rs_received rs_length rs_command].
  change (byte_at (cont_report channel sequence data) 4) with sequence.
  rewrite !Z.eqb_refl. cbn [negb].
  rewrite (proj2 (Nat.leb_le _ _)) by lia. apply wp_bind. eapply wp_checked; [done|].
  rewrite <- Hdata. apply wp_bind. eapply wp_checked.
  { apply subslice_Some. rewrite length_cont by (rewrite Hdata; lia).
    unfold PACKET_SIZE, CONT_PAYLOAD_SIZE in *. lia. }
  rewrite cont_data. apply wp_bind, wp_write_request.
  { pose proof (buffer_holding k ltac:(lia)) as Hb. unfold buffer_size at 1 in Hb.
    change (request (receiving channel c payload k sequence last h0)) with (request (holding payload k h0)).
    rewrite Hb, Hdata. lia. }
  assert (put (request (receiving channel c payload k sequence last h0)) k data =
          take (k + length data) payload ++ zeros (buffer_size h0 - (k + length data))) as ->.
  { apply put_holding; [lia|]. unfold data. rewrite length_take, length_drop.
    rewrite Nat.min_comm. destruct (Nat.min_spec (length payload - k) CONT_PAYLOAD_SIZE) as [[? ->]|[? ->]]; [|done].
    rewrite !take_ge; rewrite ?length_drop; lia || done. }
  unfold reassembling. destruct (Nat.eqb_spec (k + length data) (length payload)) as [He|He].
  - rewrite (proj2 (Nat.ltb_ge _ _)) by lia. apply wp_bind, wp_modify.
    apply dispatch_progress; [|done]. rewrite He. unfold holding, receiving.
    destruct Hidle as (Hrx & _ & _). destruct h0; simpl in *. by subst.
  - rewrite (proj2 (Nat.ltb_lt _ _)) by lia. apply wp_bind, wp_modify, wp_ret.
    assert (length data = CONT_PAYLOAD_SIZE) as -> by lia.
    rewrite Z.mod_small by lia. done.
Qed.
End reassembly.

(** ** Reports of other channels *)

#[export] Instance Event_eq_dec : EqDecision Event.
Proof. solve_decision. Defined.

(** While a transaction is in progress, a report on another channel changes nothing
    but the pending errors. *)
Lemma ingest_foreign packet now active h :
  active_channel h = Some active → packet_channel packet ≠ active →
  ∃ slots, ingest packet now h = Some (EvNone, with_errors slots h) ∧
           (errors_ok (errors h) → errors_ok slots).
Proof.
  intros Ha Hp. apply Z.eqb_neq in Hp.
  assert (∃ slots, h = with_errors slots h ∧ (errors_ok (errors h) → errors_ok slots)) as Hsame
    by (exists (errors h); by destruct h).
  unfold ingest, ingest_step. destruct (_ =? 0).
  { destruct Hsame as (slots & E & He). exists slots. split; [|done]. rewrite <- E.
    unfold finish, ingest_continuation, mbind, step_bind, get_state.
    destruct (receive h) as [r|] eqn:Hr; [|done].
    assert (rs_channel r = active) as -> by (unfold active_channel in Ha; rewrite Hr in Ha; by simplify_eq).
    by rewrite Hp. }
  unfold finish, ingest_active, mbind, step_bind, get_state. rewrite Ha, Hp. cbn [negb].
  destruct (_ && true).
  { destruct Hsame as (slots & E & He). exists slots. split; [|done]. by rewrite <- E. }
  destruct (queue_error_frame (packet_channel packet) ChannelBusy h) as (slots & E & He).
  exists slots. split; [|done]. by rewrite <- E.
Qed.

Lemma hid_with_errors slots h : errors_ok slots → hid_ok h → hid_ok (with_errors slots h).
Proof. intros He [Hb Hc]. split; [by apply base_errors|exact Hc]. Qed.

Definition own (channel : Z) (r : bytes * Z) : Prop := packet_channel r.1 = channel.
#[export] Instance own_dec channel r : Decision (own channel r).
Proof. unfold own. apply _. Defined.

Section interleaving.
Context (channel : Z) (c : Command) (payload : bytes).
Context (Hchannel : is_u32 channel) (Hc : c = Cbor ∨ c = Update).

Lemma feed_rest (rest : list (bytes * Z)) fuel k sequence last h0 :
  hid_ok h0 → idle h0 → is_allocated h0 channel = true → (length payload ≤ buffer_size h0)%nat →
  k = (INIT_PAYLOAD_SIZE + CONT_PAYLOAD_SIZE * Z.to_nat sequence)%nat → 0 ≤ sequence →
  (length payload - k ≤ fuel)%nat →
  (filter (own channel) rest).*1 = continuations fuel channel sequence (drop k payload) →
  ∃ es slots, feed rest (reassembling channel c payload h0 k sequence last).2 =
                Some (es, delivered channel c payload (with_errors slots h0)) ∧
    filter (λ e, e ≠ EvNone) es =
      (if (k <? length payload)%nat then [app_event c channel (length payload)] else []) ∧
    errors_ok slots.
Proof.
  revert fuel k sequence last h0. induction rest as [|[p now] rest IH];
    intros fuel k sequence last h0 Hok Hi Hal Hfit Hk Hseq Hfuel Hown.
  - simpl in Hown. unfold reassembling. destruct (Nat.ltb_spec k (length payload)).
    + destruct fuel; [lia|]. cbn [continuations] in Hown.
      rewrite (proj2 (Nat.eqb_neq _ _)) in Hown by (rewrite length_drop; lia). done.
    + exists [], (errors h0). split; [simpl; by destruct h0|]. split; [done|]. apply Hok.
  - unfold reassembling. destruct (decide (own channel (p, now))) as [Ho|Ho].
    + rewrite filter_cons_True in Hown by done. cbn [fmap list_fmap fst] in Hown.
      destruct fuel as [|fuel]; [done|]. cbn [continuations] in Hown.
      destruct (Nat.eqb_spec (length (drop k payload)) 0) as [|Hne]; [done|].
      rewrite length_drop in Hne. rewrite (proj2 (Nat.ltb_lt _ _)) by lia.
      injection Hown as -> Hown. cbn [feed snd].
      rewrite ingest_next by (done || lia). cbn [mbind option_bind]. rewrite drop_drop in Hown.
      edestruct (IH fuel (k + CONT_PAYLOAD_SIZE)%nat (sequence + 1) now h0) as (es & slots & E & Hes & He);
        try done; try (unfold CONT_PAYLOAD_SIZE in *; lia).
      destruct (reassembling channel c payload h0 (k + CONT_PAYLOAD_SIZE) (sequence + 1) now) as [e h1] eqn:Ep.
      cbn [snd] in E. rewrite E. exists (e :: es), slots. split; [done|]. split; [|done].
      unfold reassembling in Ep. destruct (k + CONT_PAYLOAD_SIZE <? length payload)%nat; injection Ep as <- <-.
      * rewrite filter_cons_False by naive_solver. done.
      * rewrite filter_cons_True, Hes; [done|]. unfold app_event. by destruct (bool_decide _).
    + rewrite filter_cons_False in Hown by done. cbn [feed].
      set (h1 := (if (k <? length payload)%nat then _ else _).2).
      assert (active_channel h1 = Some channel) as Ha
        by (unfold h1; by destruct (k <? length payload)%nat).
      destruct (ingest_foreign p now channel h1 Ha Ho) as (slots & E & He).
      rewrite E. cbn [mbind option_bind].
      assert (errors_ok slots) as Hes by (apply He; unfold h1; destruct (k <? length payload)%nat; apply Hok).
      assert (with_errors slots h1 = (reassembling channel c payload (with_errors slots h0) k sequence last).2) as ->
        by (unfold h1, reassembling; by destruct (k <? length payload)%nat).
      edestruct (IH fuel k sequence last (with_errors slots h0)) as (es & slots2 & -> & Hf & He2);
        try done; [by apply hid_with_errors|].
      exists (EvNone :: es), slots2. split; [done|]. split; [|done].
      rewrite filter_cons_False by naive_solver. exact Hf.
Qed.
End interleaving.

(** ** Transmission *)

Lemma initial_packet_report channel c n data : (length data ≤ INIT_PAYLOAD_SIZE)%nat → Z.of_nat n < 65536 →
  put (initial_packet channel c n) 7 data = init_report channel (command_number c) n data.
Proof.
  intros Hd Hn. unfold initial_packet, init_report. rewrite Z.mod_small by lia.
  rewrite put_zeros, put_app by (by rewrite length_be_encode). rewrite length_be_encode, drop_zeros.
  rewrite app_assoc, put_app by (by rewrite length_app, length_be_encode). rewrite length_be_encode, drop_zeros.
  rewrite app_assoc, put_app by (by rewrite !length_app, !length_be_encode). rewrite drop_zeros.
  by rewrite <- !app_assoc.
Qed.

Lemma cont_packet_report channel s data : (length data ≤ CONT_PAYLOAD_SIZE)%nat →
  put (put (put (zeros PACKET_SIZE) 0 (be_encode 4 channel)) 4 [s]) 5 data = cont_report channel s data.
Proof.
  intros Hd. unfold cont_report.
  rewrite put_zeros, put_app by (by rewrite length_be_encode). rewrite length_be_encode, drop_zeros.
  rewrite app_assoc, put_app by (by rewrite length_app, length_be_encode). rewrite drop_zeros.
  by rewrite <- !app_assoc.
Qed.

Definition error_report (e : PendingError) : bytes :=
  init_report (pe_channel e) (command_number Error) 1 [transport_code (pe_error e)].
Definition keepalive_report (k : option (Z * KeepaliveStatus)) : list bytes :=
  match k with
  | Some (channel, status) => [init_report channel (command_number Keepalive) 1 [keepalive_code status]]
  | None => []
  end.

Definition no_errors : list (option PendingError) := replicate ERROR_CAPACITY None.

(** The state with the queue, the keepalive and the reply all sent. *)
Definition sent (h : CtapHid) : CtapHid :=
  with_errors no_errors (with_keepalive None (with_transmit None (with_response (zeros (buffer_size h)) h))).

Lemma drain_errors es h fuel ps h' :
  errors_are (errors h) es → drain fuel (with_errors no_errors h) = Some (ps, h') →
  drain (length es + fuel) h = Some ((error_report <$> es) ++ ps, h').
Proof.
  revert h. induction es as [|e es IH]; intros h (Hs & Hl & Hn) Hd.
  - change (errors h = no_errors) in Hs. rewrite <- Hs in Hd. by destruct h.
  - cbn [length Nat.add drain]. unfold next_packet. rewrite Hs. cbn [fmap list_fmap app nth mbind option_bind].
    rewrite initial_packet_report by (unfold INIT_PAYLOAD_SIZE; simpl; lia). unfold packet_sent. rewrite Hs.
    cbn [fmap list_fmap app mbind option_bind].
    apply list.NoDup_cons in Hn as [_ Hn].
    erewrite IH; [|split; [|split; [simpl in Hl; lia|exact Hn]]|exact Hd]; [done|].
    cbn [errors with_errors length] in *. rewrite <- app_assoc. f_equal.
    replace (ERROR_CAPACITY - length es)%nat with (S (ERROR_CAPACITY - S (length es))) by lia.
    by rewrite replicate_S_end.
Qed.

Lemma drain_keepalive h fuel ps h' :
  errors h = no_errors → drain fuel (with_keepalive None h) = Some (ps, h') →
  drain (length (keepalive_report (keepalive_slot h)) + fuel) h =
  Some (keepalive_report (keepalive_slot h) ++ ps, h').
Proof.
  intros He Hd. destruct (keepalive_slot h) as [[channel status]|] eqn:Ek.
  - cbn [keepalive_report length Nat.add drain]. unfold next_packet, packet_sent. rewrite He, Ek.
    cbn [no_errors replicate ERROR_CAPACITY nth mbind option_bind].
    rewrite initial_packet_report by (unfold INIT_PAYLOAD_SIZE; simpl; lia). rewrite Hd. done.
  - simpl. rewrite <- Hd. f_equal. destruct h; simpl in *. by subst.
Qed.

Section transmission.
Context (channel : Z) (c : Command) (payload : bytes) (h0 : CtapHid).
Context (Herrors : errors h0 = no_errors) (Hkeepalive : keepalive_slot h0 = None).
Context (Hresponse : response h0 = payload ++ zeros (buffer_size h0 - length payload)).
Context (Hfits : (length payload ≤ buffer_size h0)%nat) (Hsize : (buffer_size h0 ≤ MAX_CTAPHID_MESSAGE_SIZE)%nat).

Definition sending (k : nat) (sequence : Z) : CtapHid :=
  with_transmit (Some (mkTransmitState channel c (length payload) k sequence)) h0.
Definition sending_after (k : nat) (sequence : Z) : CtapHid :=
  if (k <? length payload)%nat then sending k sequence else sent h0.

Lemma response_slice k n : (k + n ≤ length payload)%nat →
  subslice (response h0) k (k + n) = Some (take n (drop k payload)).
Proof.
  intros Hk. assert (length (response h0) = buffer_size h0) as Hl
    by (rewrite Hresponse, length_app, length_zeros; lia).
  destruct (subslice_Some (response h0) k (k + n)) as [-> _]; [lia|].
  rewrite Hresponse. unfold slice. replace (k + n - k)%nat with n by lia.
  rewrite drop_app_le, take_app_le by (rewrite ?length_drop; lia). done.
Qed.

Lemma sent_done h : with_transmit None h = with_transmit None h0 →
  response h = response h0 → zeroize_response (with_transmit None h) = sent h0.
Proof.
  intros E _. rewrite E. unfold sent, zeroize_response, zeroize, buffer_size in *. simpl.
  rewrite Hresponse, length_app, length_zeros, Nat.add_comm, Nat.sub_add by lia.
  destruct h0; simpl in *. by subst.
Qed.

(** One report of the reply. *)
Lemma send_first :
  next_packet (sending 0 0) =
    Some (Some (init_report channel (command_number c) (length payload) (take INIT_PAYLOAD_SIZE payload))) ∧
  packet_sent (sending 0 0) = Some (sending_after INIT_PAYLOAD_SIZE 0).
Proof.
  unfold next_packet, packet_sent, sending. cbn [errors with_transmit keepalive_slot transmit response].
  rewrite Herrors, Hkeepalive. cbn [no_errors replicate ERROR_CAPACITY nth].
  unfold transmit_count. cbn [ts_offset ts_length ts_command ts_channel ts_next_sequence].
  rewrite Nat.eqb_refl. cbn [mbind option_bind].
  change (0 + ?n)%nat with n. split.
  - pose proof (response_slice 0 (length payload `min` INIT_PAYLOAD_SIZE) ltac:(lia)) as Hr.
    cbn [Nat.add drop] in Hr. rewrite Hr. cbn [mbind option_bind].
    rewrite initial_packet_report.
    + do 3 f_equal. rewrite Nat.min_comm, <- take_take. by rewrite (take_ge payload).
    + rewrite length_take. lia.
    + unfold MAX_CTAPHID_MESSAGE_SIZE, INIT_PAYLOAD_SIZE, CONT_PAYLOAD_SIZE in *. lia.
  - unfold sending_after. destruct (Nat.ltb_spec INIT_PAYLOAD_SIZE (length payload)).
    + rewrite (proj2 (Nat.leb_gt _ _)) by lia. rewrite (proj2 (Nat.ltb_ge _ _)) by lia.
      unfold sending. by replace (length payload `min` INIT_PAYLOAD_SIZE)%nat with INIT_PAYLOAD_SIZE by lia.
    + rewrite (proj2 (Nat.leb_le _ _)) by lia. f_equal. by apply sent_done.
Qed.

Lemma send_next k sequence :
  (k < length payload)%nat → k = (INIT_PAYLOAD_SIZE + CONT_PAYLOAD_SIZE * Z.to_nat sequence)%nat → 0 ≤ sequence →
  next_packet (sending k sequence) =
    Some (Some (cont_report channel sequence (take CONT_PAYLOAD_SIZE (drop k payload)))) ∧
  packet_sent (sending k sequence) = Some (sending_after (k + CONT_PAYLOAD_SIZE) (sequence + 1)).
Proof.
  intros Hk Hseq Hpos.
  assert (sequence < 128) as Hlt
    by (unfold MAX_CTAPHID_MESSAGE_SIZE, INIT_PAYLOAD_SIZE, CONT_PAYLOAD_SIZE in *; lia).
  assert (k ≠ 0)%nat as Hk0 by (unfold INIT_PAYLOAD_SIZE in *; lia).
  unfold next_packet, packet_sent, sending. cbn [errors with_transmit keepalive_slot transmit response].
  rewrite Herrors, Hkeepalive. cbn [no_errors replicate ERROR_CAPACITY nth].
  unfold transmit_count. cbn [ts_offset ts_length ts_command ts_channel ts_next_sequence].
  rewrite (proj2 (Nat.eqb_neq _ _)) by done. rewrite (proj2 (Nat.leb_le _ _)) by lia.
  cbn [mbind option_bind]. split.
  - rewrite response_slice by lia. cbn [mbind option_bind]. rewrite cont_packet_report.
    + do 3 f_equal. rewrite Nat.min_comm, <- take_take.
      by rewrite (take_ge (drop k payload)) by (rewrite length_drop; lia).
    + rewrite length_take. lia.
  - unfold sending_after. destruct (Nat.ltb_spec (k + CONT_PAYLOAD_SIZE) (length payload)).
    + rewrite (proj2 (Nat.leb_gt _ _)) by lia. unfold sending.
      replace ((length payload - k) `min` CONT_PAYLOAD_SIZE)%nat with CONT_PAYLOAD_SIZE by lia.
      rewrite (proj2 (Nat.ltb_lt _ _)) by (unfold INIT_PAYLOAD_SIZE, CONT_PAYLOAD_SIZE in *; lia).
      by rewrite Z.mod_small by lia.
    + rewrite (proj2 (Nat.leb_le _ _)) by lia. f_equal. by apply sent_done.
Qed.

Lemma drain_sent fuel : drain (S fuel) (sent h0) = Some ([], sent h0).
Proof. done. Qed.

Lemma drain_rest n fuel k sequence :
  k = (INIT_PAYLOAD_SIZE + CONT_PAYLOAD_SIZE * Z.to_nat sequence)%nat → 0 ≤ sequence →
  (length payload - k ≤ n)%nat →
  (length (continuations n channel sequence (drop k payload)) < fuel)%nat →
  drain fuel (sending_after k sequence) = Some (continuations n channel sequence (drop k payload), sent h0).
Proof.
  revert fuel k sequence. induction n as [|n IH]; intros fuel k sequence Hk Hseq Hn Hfuel;
    (destruct fuel as [|fuel]; [lia|]); unfold sending_after.
  { rewrite (proj2 (Nat.ltb_ge _ _)) by lia. apply drain_sent. }
  cbn [continuations] in *. rewrite length_drop in *.
  destruct (Nat.eqb_spec (length payload - k) 0).
  { rewrite (proj2 (Nat.ltb_ge _ _)) by lia. apply drain_sent. }
  rewrite (proj2 (Nat.ltb_lt _ _)) by lia. rewrite drop_drop in *. cbn [length] in Hfuel. cbn [drain].
  destruct (send_next k sequence) as [-> ->]; [lia|done..|]. cbn [mbind option_bind].
  rewrite IH; [done|unfold CONT_PAYLOAD_SIZE in *; lia..|lia].
Qed.

Lemma drain_reply fuel :
  (length (fragment channel c payload) < fuel)%nat →
  drain fuel (sending 0 0) = Some (fragment channel c payload, sent h0).
Proof.
  intros Hf. destruct fuel as [|fuel]; [lia|]. unfold fragment in *. cbn [length] in Hf.
  cbn [drain]. destruct send_first as [-> ->]. cbn [mbind option_bind].
  rewrite (drain_rest (length payload)); [done|done|lia|lia|lia].
Qed.
End transmission.

Lemma drain_ok fuel h ps h' : hid_ok h → drain fuel h = Some (ps, h') → hid_ok h'.
Proof.
  revert h ps. induction fuel as [|fuel IH]; intros h ps Hok; [done|]. cbn [drain].
  destruct (next_packet_ok h Hok) as [[p|] ->]; cbn [mbind option_bind]; [|by intros [= <- <-]].
  destruct (packet_sent_ok h Hok) as (h1 & -> & Hok1). cbn [mbind option_bind].
  destruct (drain fuel h1) as [[qs h2]|] eqn:E; [|done]. intros [= <- <-]. by eapply IH.
Qed.
