(* ===== verification/CtapHidTheorems.v ===== *)
(** * What the CTAPHID transport guarantees *)

From stdpp Require Import base tactics numbers list option.
From S2P Require Import Prelude CtapHid CtapHidSafety CtapHidWire.

(** The public operations of the engine, in any order. *)
Inductive hid_op :=
  | OpReport (report : bytes) (now_ms : Z)
  | OpReply (payload : bytes)
  | OpKeepalive (status : KeepaliveStatus)
  | OpExpire (now_ms : Z)
  | OpSend
  | OpTransportError.

Definition run_op (op : hid_op) (h : CtapHid) : option CtapHid :=
  match op with
  | OpReport report now_ms => snd <$> ingest_report report now_ms h
  | OpReply payload => snd <$> reply payload h
  | OpKeepalive status => Some (keepalive status h).2
  | OpExpire now_ms => Some (expire_receive now_ms h)
  | OpSend => next_packet h ≫= λ _, packet_sent h
  | OpTransportError => Some (transport_error h)
  end.
Definition run_ops (ops : list hid_op) (h : CtapHid) : option CtapHid :=
  foldl (λ h op, h ≫= run_op op) (Some h) ops.

Lemma run_op_ok op h : hid_ok h → ∃ h', run_op op h = Some h' ∧ hid_ok h'.
Proof.
  intros Hok. destruct op; simpl.
  - destruct (ingest_report_ok report now_ms h Hok) as (e & i & h' & -> & Hok' & _). by exists h'.
  - destruct (wp_elim _ _ _ (reply_wp payload h Hok)) as (r & h' & -> & Hok' & _). by exists h'.
  - eexists. split; [done|]. by apply hid_keepalive.
  - eexists. split; [done|]. by apply hid_expire.
  - destruct (next_packet_ok h Hok) as [p ->]. by apply packet_sent_ok.
  - eexists. split; [done|]. by apply hid_transport_error.
Qed.

(** C23: Whatever reports the host sends, of any length and at any time, and however
    the firmware interleaves replies, keepalives, expiries and transmissions, the
    engine never panics, and after every operation one transaction at most is in
    progress, its counters are within the buffers, a buffer without a transaction
    is all zeros, and each channel has at most one pending error. *)
Theorem transport_never_panics N v caps h ops :
  new_hid N v caps = Some h → ∃ h', run_ops ops h = Some h' ∧ hid_ok h'.
Proof.
  intros Hn. apply hid_new in Hn. revert h Hn. unfold run_ops.
  induction ops as [|op ops IH]; intros h Hok; [by exists h|].
  destruct (run_op_ok op h Hok) as (h' & E & Hok'). simpl. rewrite E. by apply IH.
Qed.

(** C24: A request fragmented as the protocol prescribes, sent to an idle engine,
    is reassembled exactly, whatever reports of other channels arrive in between:
    one event announces it, [request_payload] is the message, and the rest of the
    engine is unchanged but for the errors queued for the other channels. *)
Theorem request_reassembled channel c payload h first_ms rest :
  hid_ok h → idle h → is_u32 channel → is_allocated h channel = true →
  c = Cbor ∨ c = Update → (length payload ≤ buffer_size h)%nat →
  (filter (own channel) rest).*1 = tail (fragment channel c payload) →
  ∃ es slots, feed ((hd [] (fragment channel c payload), first_ms) :: rest) h =
      Some (es, delivered channel c payload (with_errors slots h)) ∧
    filter (λ e, e ≠ EvNone) es = [app_event c channel (length payload)] ∧
    request_payload (delivered channel c payload (with_errors slots h)) = Some (Some payload).
Proof.
  intros Hok Hi Hch Hal Hc Hfit Hrest. cbn [fragment hd tail] in *. cbn [feed].
  rewrite ingest_first by done. cbn [mbind option_bind].
  destruct (feed_rest channel c payload Hch Hc rest (length payload) INIT_PAYLOAD_SIZE 0 first_ms h)
    as (es & slots & E & Hes & _); try done; [lia|].
  destruct (reassembling channel c payload h INIT_PAYLOAD_SIZE 0 first_ms) as [e h1] eqn:Ep.
  cbn [snd] in E. rewrite E. exists (e :: es), slots. split; [done|]. split.
  - unfold reassembling in Ep. destruct (_ <? _)%nat; injection Ep as <- <-.
    + rewrite filter_cons_False by naive_solver. done.
    + rewrite filter_cons_True, Hes; [done|]. unfold app_event. by destruct (bool_decide _).
  - unfold request_payload, delivered, holding. cbn [app_request with_app_request request with_receive
      with_request fmap option_fmap option_map ar_length]. f_equal.
    rewrite take_ge by lia. unfold subslice. rewrite length_app. simpl.
    rewrite (proj2 (Nat.leb_le _ _)) by lia. f_equal. unfold slice.
    rewrite drop_0, Nat.sub_0_r, take_app_le by lia. by rewrite take_ge.
Qed.

(** C25: A reply the engine accepts reaches the host exactly: after the errors and the
    keepalive that were pending, in order, the engine sends the fragments the
    protocol prescribes for it, under the channel and the command of the request,
    and ends idle with both buffers cleared.  [fuel] is any bound on the number of
    reports. *)
Theorem reply_transmitted h a es payload fuel :
  hid_ok h → app_request h = Some a → errors_are (errors h) es →
  (length payload ≤ buffer_size h)%nat →
  (length es + 1 + length (fragment (ar_channel a) (ar_command a) payload) < fuel)%nat →
  ∃ h1 h2, reply payload h = Some (Ok tt, h1) ∧
    drain fuel h1 = Some ((error_report <$> es) ++ keepalive_report (keepalive_slot h)
                          ++ fragment (ar_channel a) (ar_command a) payload, h2) ∧
    idle h2 ∧ hid_ok h2 ∧ errors h2 = no_errors ∧ last_channel h2 = last_channel h.
Proof.
  intros Hok Ha He Hfit Hfuel.
  destruct (wp_elim _ _ _ (reply_wp payload h Hok)) as (r & h1 & E & Hok1 & Hr).
  rewrite Ha in Hr. destruct Hr as (Happ & Hr).
  rewrite (proj2 (Nat.ltb_ge _ _)) in Hr by done.
  destruct Hr as (-> & Htx & Hresp & Herr & Hka & Hlast).
  assert (receive h1 = None) as Hrx.
  { destruct (receive h1) as [rs|] eqn:Er; [|done].
    destruct (bo_receive _ (hid_base _ Hok1) _ Er) as (_ & _ & ?). congruence. }
  assert (buffer_size h1 = buffer_size h) as Hb.
  { rewrite <- (bo_response _ (hid_base _ Hok1)), Hresp, length_put; rewrite length_zeros; lia. }
  set (h0 := with_keepalive None (with_errors no_errors h1)).
  set (f := (fuel - length es - length (keepalive_report (keepalive_slot h1)))%nat).
  assert (length (keepalive_report (keepalive_slot h1)) ≤ 1)%nat as Hk
    by (destruct (keepalive_slot h1) as [[]|]; simpl; lia).
  assert (drain f h0 = Some (fragment (ar_channel a) (ar_command a) payload, sent h0)) as Hd.
  { replace h0 with (sending (ar_channel a) (ar_command a) payload h0 0 0)
      by (unfold h0, sending; destruct h1; simpl in *; by subst).
    rewrite drain_reply; try done; [| |apply Hok1|unfold f; lia].
    - change (response h0) with (response h1). change (buffer_size h0) with (buffer_size h1).
      by rewrite Hresp, put_zeros, Hb.
    - change (buffer_size h0) with (buffer_size h1). lia. }
  apply drain_keepalive in Hd; [|done].
  apply (drain_errors es) in Hd; [|by rewrite Herr].
  cbn [keepalive_slot with_errors] in Hd.
  replace (length es + (length (keepalive_report (keepalive_slot h1)) + f))%nat with fuel in Hd by lia.
  exists h1, (sent h0). split; [done|]. rewrite Hd, Hka. split; [done|].
  split; [done|]. split; [by eapply drain_ok|]. split; [done|].
  exact Hlast.
Qed.

(** What a report does to a request the application is working on. *)
Definition app_outcome (a : AppRequest) (h : CtapHid) (e : Event) (h' : CtapHid) : Prop :=
  (e = EvNone ∧ ∃ slots, h' = with_errors slots h) ∨
  (e = EvNone ∧ init_only (ar_channel a) h') ∨
  (e = EvCancelled (ar_channel a) ∧ h' = with_keepalive None h).

Lemma active_app h a : hid_ok h → app_request h = Some a →
  receive h = None ∧ active_channel h = Some (ar_channel a).
Proof.
  intros Hok Ha. assert (receive h = None) as Hrx.
  { destruct (receive h) as [r|] eqn:Er; [|done].
    destruct (bo_receive _ (hid_base _ Hok) _ Er) as (_ & ? & _). congruence. }
  split; [done|]. unfold active_channel. by rewrite Hrx, Ha.
Qed.

Lemma errors_outcome a slots h : app_outcome a h EvNone (with_errors slots h).
Proof. left. split; [done|]. by exists slots. Qed.

Lemma queue_outcome a channel error h : app_outcome a h EvNone (queue_error channel error h).
Proof. destruct (queue_error_frame channel error h) as (slots & -> & _). apply errors_outcome. Qed.

Lemma same_outcome a h : app_outcome a h EvNone h.
Proof. left. split; [done|]. exists (errors h). by destruct h. Qed.

Lemma ingest_app packet now h a :
  hid_ok h → app_request h = Some a → length packet = PACKET_SIZE →
  ∃ e h', ingest packet now h = Some (e, h') ∧ app_outcome a h e h'.
Proof.
  intros Hok Ha Hp. destruct (active_app h a Hok Ha) as [Hrx Hact].
  apply (wp_finish _ (app_outcome a h)). unfold ingest_step. destruct (_ =? 0).
  { apply wp_bind, wp_get. rewrite Hrx. apply wp_ret, same_outcome. }
  unfold ingest_active. apply wp_bind, wp_bind, wp_get. rewrite Hact.
  destruct (_ && _); [apply wp_throw, same_outcome|].
  destruct (Z.eqb_spec (packet_channel packet) (ar_channel a)) as [->|]; cbn [negb];
    [|apply wp_bind, wp_modify, wp_throw, queue_outcome].
  destruct (Z.eqb_spec (Z.land (byte_at packet 4) 0x7f) (command_number Init)) as [->|].
  { apply wp_modify. eapply wp_mono.
    - apply ingest_new_wp; [apply hid_abort, Hok|done|done].
    - intros r h' (_ & _ & Hi). destruct (Hi eq_refl) as [He Happ].
      destruct r; right; left; done. }
  destruct (_ =? command_number Cancel).
  - destruct (negb _); [apply wp_bind, wp_modify, wp_throw, queue_outcome|].
    apply wp_bind, wp_call. intros c h' Ec. apply wp_throw.
    unfold cancel_application_request in Ec. rewrite Ha in Ec. injection Ec as <- <-. by right; right.
  - apply wp_bind, wp_modify, wp_bind, wp_modify, wp_throw. right. left. split; [done|].
    by apply init_only_queue, init_only_idle, abort_idle.
Qed.

(** The interruption flag the presence wait relies on is exact: while the
    application works on a request, a report either leaves the request, its payload
    and the transmission alone and reports no interruption, or it reports one
    and the request is gone (resynchronisation, protocol violation, malformed
    report) or cancelled by its own channel.  A request is never replaced by another
    one behind the application's back. *)
Theorem interruption_flag_exact report now h a :
  hid_ok h → app_request h = Some a →
  ∃ e i h', ingest_report report now h = Some (e, i, h') ∧
    ((i = false ∧ e = EvNone ∧ app_request h' = Some a ∧ request_payload h' = request_payload h ∧
      transmit h' = transmit h) ∨
     (i = true ∧ e = EvNone ∧ app_request h' = None) ∨
     (i = true ∧ e = EvCancelled (ar_channel a) ∧ app_request h' = Some a ∧
      request_payload h' = request_payload h)).
Proof.
  intros Hok Ha. unfold ingest_report.
  destruct (Nat.eqb_spec (length report) PACKET_SIZE) as [Hp|Hp]; [|exists EvNone, true, (transport_error h); naive_solver].
  destruct (ingest_app report now h a Hok Ha) as (e & h' & E & Ho); [done|].
  unfold ingest_with_interruption. rewrite E, Ha. cbn [mbind option_bind]. eexists _, _, _. split; [done|].
  destruct Ho as [(-> & slots & ->)|[[-> Hn]|[-> ->]]].
  - left. unfold request_payload. cbn [app_request with_errors]. by rewrite Ha.
  - right. left. by rewrite (proj1 Hn).
  - right. right. unfold request_payload. cbn [app_request with_keepalive]. by rewrite Ha.
Qed.

(** ** Channels *)

(** The reply to INIT that [h'] is about to send, and the channel counter. *)
Definition init_replied (channel assigned : Z) (nonce : bytes) (h h' : CtapHid) : Prop :=
  transmit h' = Some (mkTransmitState channel Init 17 0 0) ∧
  take 17 (response h') = nonce ++ be_encode 4 assigned
    ++ [2; major (version h); minor (version h); build (version h); capabilities h] ∧
  last_channel h' = (if channel =? BROADCAST_CHANNEL then assigned else last_channel h).

(** The answer to INIT, once the channel is chosen. *)
Lemma wp_init_reply channel assigned nonce rest l h (Q : result Event Event → CtapHid → Prop) :
  base_ok h → request h = nonce ++ rest → length nonce = 8%nat →
  (∀ h', transmit h' = Some (mkTransmitState channel Init 17 0 0) →
     take 17 (response h') = nonce ++ be_encode 4 assigned
       ++ [2; major (version h); minor (version h); build (version h); capabilities h] →
     last_channel h' = l → Q (Ok EvNone) h') →
  wp (modify zeroize_response;;
      h ← get_state;
      nonce ← checked (subslice (request h) 0 8);
      write_response 0 nonce;; write_response 8 (be_encode 4 assigned);;
      write_response 12 [2; major (version h); minor (version h); build (version h); capabilities h];;
      modify zeroize_request;; modify (start_transmit channel Init 17);; mret EvNone)
     Q (with_last_channel l h).
Proof.
  intros Hb Hreq Hn HQ. pose proof (bo_size _ Hb) as Hs. pose proof (bo_response _ Hb) as Hr.
  apply wp_bind, wp_modify, wp_bind, wp_get, wp_bind.
  assert (subslice (request h) 0 8 = Some nonce) as Hsub.
  { destruct (subslice_Some (request h) 0 8) as [-> _]; [unfold buffer_size in Hs; lia|].
    rewrite Hreq. f_equal. unfold slice. rewrite drop_0, take_app_le, take_ge by lia. done. }
  eapply wp_checked; [exact Hsub|].
  set (N := buffer_size h) in *.
  assert (response (zeroize_response (with_last_channel l h)) = zeros N) as Hz
    by (cbn; unfold zeroize; by rewrite Hr).
  assert (zeros N = zeros 17 ++ zeros (N - 17)) as HN
    by (unfold zeros; rewrite <- replicate_add; f_equal; lia).
  apply wp_bind, wp_write_response; [rewrite Hz, length_zeros; lia|].
  rewrite Hz, put_zeros. apply wp_bind, wp_write_response.
  { cbn [response with_response]. rewrite length_app, length_zeros, length_be_encode. lia. }
  cbn [response with_response]. rewrite put_app, drop_zeros, length_be_encode, Hn by done.
  apply wp_bind, wp_write_response.
  { cbn [response with_response]. rewrite !length_app, length_zeros, length_be_encode. simpl. lia. }
  cbn [response with_response]. rewrite app_assoc, put_app, drop_zeros
    by (rewrite length_app, length_be_encode, Hn; done).
  apply wp_bind, wp_modify, wp_bind, wp_modify, wp_ret. apply HQ; [done| |done].
  cbn [response start_transmit with_transmit zeroize_request with_request with_response version with_last_channel
       zeroize_response capabilities].
  rewrite <- app_assoc, app_assoc, app_assoc, take_app_le, take_ge
    by (rewrite !length_app, length_be_encode, Hn; simpl; lia).
  by rewrite <- !app_assoc.
Qed.

Lemma dispatch_init_answers channel assigned nonce rest h :
  base_ok h → request h = nonce ++ rest → length nonce = 8%nat →
  (channel = BROADCAST_CHANNEL ∧ allocate_loop 3 (last_channel h) = Some assigned ∨
   is_allocated h channel = true ∧ assigned = channel) →
  wp (dispatch_init channel 8) (λ r h', event_of r = EvNone ∧
    init_replied channel assigned nonce h h') h.
Proof.
  intros Hb Hreq Hn Hch. unfold dispatch_init.
  assert (channel =? RESERVED_CHANNEL = false) as ->.
  { destruct Hch as [[-> _]|[Ha _]]; [done|]. unfold is_allocated in Ha.
    apply andb_true_iff in Ha as [Ha _]. apply andb_true_iff in Ha as [Ha _]. by apply negb_true_iff in Ha. }
  cbn [Nat.eqb negb]. apply wp_bind, wp_get, wp_bind.
  set (l := if channel =? BROADCAST_CHANNEL then assigned else last_channel h).
  pose proof (λ Q, wp_init_reply channel assigned nonce rest l h Q Hb Hreq Hn) as Hrest.
  unfold l in *. destruct (Z.eqb_spec channel BROADCAST_CHANNEL) as [->|Hne].
  - destruct Hch as [[_ Hal]|[Ha _]]; [|unfold is_allocated in Ha; by rewrite andb_false_r in Ha].
    apply wp_allocate; [apply Hb|]. intros m _ Hm. rewrite Hal in Hm. injection Hm as <-.
    apply Hrest. done.
  - destruct Hch as [[? _]|[Ha ->]]; [done|]. rewrite Ha. apply wp_ret.
    assert (with_last_channel (last_channel h) h = h) as Eh by (by destruct h).
    rewrite Eh in Hrest. apply Hrest. intros h' ? ? ?. split; [done|]. unfold init_replied.
    by rewrite (proj2 (Z.eqb_neq _ _) Hne).
Qed.

Lemma ingest_new_init channel assigned nonce now h :
  hid_ok h → idle h → is_u32 channel → length nonce = 8%nat →
  (channel = BROADCAST_CHANNEL ∧ allocate_loop 3 (last_channel h) = Some assigned ∨
   is_allocated h channel = true ∧ assigned = channel) →
  wp (ingest_new channel (command_number Init) 8 (init_report channel (command_number Init) 8 nonce) now)
     (λ r h', hid_ok h' ∧ event_of r = EvNone ∧
    init_replied channel assigned nonce h h') h.
Proof.
  intros Hok Hi Hch Hn Ha. pose proof (bo_size _ (hid_base _ Hok)) as Hs.
  set (Q := λ (r : result Event Event) h', event_of r = EvNone ∧ init_replied channel assigned nonce h h').
  enough (wp (ingest_new channel (command_number Init) 8
                (init_report channel (command_number Init) 8 nonce) now) Q h) as HQ.
  { assert (length (init_report channel (command_number Init) 8 nonce) = PACKET_SIZE) as Hl
      by (apply length_init; rewrite Hn; unfold INIT_PAYLOAD_SIZE; lia).
    pose proof (ingest_new_wp channel (command_number Init) 8 _ now h Hok Hi Hl) as Hw.
    destruct (wp_elim _ _ _ HQ) as (r & h' & E & Hq). unfold wp in *. rewrite E in *.
    split; [apply Hw|exact Hq]. }
  unfold ingest_new. apply wp_bind, wp_modify. rewrite from_command_number. apply wp_bind, wp_get.
  unfold buffer_size in Hs. assert (length (request (zeroize_request h)) = length (request h)) as Hlen
    by apply length_zeroize.
  rewrite (proj2 (Nat.ltb_ge _ _)) by lia.
  cbn [bool_decide Command_eq_dec andb orb negb Nat.eqb].
  assert (subslice (init_report channel (command_number Init) 8 nonce) 7 (7 + Nat.min 8 INIT_PAYLOAD_SIZE)
          = Some nonce) as Hsub.
  { change (7 + Nat.min 8 INIT_PAYLOAD_SIZE)%nat with (7 + 8)%nat. rewrite <- Hn.
    destruct (subslice_Some (init_report channel (command_number Init) 8 nonce) 7 (7 + length nonce)) as [E _];
      [|by rewrite Hn in E |- *; rewrite E, <- Hn, init_data].
    rewrite length_init; rewrite Hn; unfold PACKET_SIZE, INIT_PAYLOAD_SIZE; lia. }
  assert (bool_decide (Init = Cancel) = false) as -> by done. cbn [andb orb].
  apply wp_bind. eapply wp_checked; [exact Hsub|].
  apply wp_bind, wp_write_request; [lia|].
  change (INIT_PAYLOAD_SIZE <? 8)%nat with false. cbv iota.
  unfold dispatch. change (bool_decide (Init = Init)) with true. cbv iota.
  eapply (dispatch_init_answers channel assigned nonce); [|done|exact Hn|exact Ha].
  apply base_request; [rewrite length_put; rewrite ?Hlen; unfold buffer_size; lia|].
  apply base_zeroize_request, Hok.
Qed.

(** INIT is answered on every channel that may send it: a broadcast INIT to an idle
    engine is assigned the next channel, never the reserved or the broadcast number and,
    until the counter wraps around, never one in use; INIT on an allocated channel
    that is idle or owns the transaction resynchronises it, whatever was in progress
    is dropped and the channel keeps its number.  The reply echoes the nonce. *)
Theorem init_answered channel nonce now h :
  hid_ok h → length nonce = 8%nat →
  (channel = BROADCAST_CHANNEL ∧ idle h ∨
   is_u32 channel ∧ is_allocated h channel = true ∧ (idle h ∨ active_channel h = Some channel)) →
  ∃ assigned h', ingest (init_report channel (command_number Init) 8 nonce) now h = Some (EvNone, h') ∧
    hid_ok h' ∧ receive h' = None ∧ app_request h' = None ∧
    transmit h' = Some (mkTransmitState channel Init 17 0 0) ∧
    take 17 (response h') = nonce ++ be_encode 4 assigned
      ++ [2; major (version h); minor (version h); build (version h); capabilities h] ∧
    is_allocated h' assigned = true ∧
    (if channel =? BROADCAST_CHANNEL
     then is_allocated h assigned = false ∨ last_channel h = BROADCAST_CHANNEL - 1
     else assigned = channel ∧ last_channel h' = last_channel h).
Proof.
  intros Hok Hn Hch.
  assert (is_u32 channel) as Hu by (destruct Hch as [[-> _]|[? _]]; [done|done]).
  assert (∃ assigned, channel = BROADCAST_CHANNEL ∧ allocate_loop 3 (last_channel h) = Some assigned ∨
            is_allocated h channel = true ∧ assigned = channel) as [assigned Ha].
  { destruct Hch as [[-> _]|(_ & Ha & _)]; [|exists channel; by right].
    rewrite allocate_loop_spec by (pose proof (bo_last _ (hid_base _ Hok)); lia).
    eexists. left. done. }
  destruct (wp_finish (ingest_step (init_report channel (command_number Init) 8 nonce) now)
    (λ e h', hid_ok h' ∧ e = EvNone ∧ init_replied channel assigned nonce h h') h)
    as (e & h' & E & Hok' & -> & Htx & Hresp & Hlast).
  { rewrite ingest_step_init by done. apply wp_bind. unfold ingest_active. apply wp_bind, wp_get.
    destruct (active_channel h) as [active|] eqn:Eact.
    - assert (active = channel) as ->.
      { destruct Hch as [[_ (Hr & Hp & Ht)]|(_ & _ & [(Hr & Hp & Ht)|?])]; [| |congruence];
          unfold active_channel in Eact; by rewrite Hr, Hp, Ht in Eact. }
      rewrite Z.eqb_refl. cbn [negb]. rewrite andb_false_r. change (command_number Init =? command_number Init) with true.
      apply wp_modify. eapply wp_mono.
      + apply (ingest_new_init channel assigned); [apply hid_abort, Hok|apply abort_idle|done..].
      + by intros [|].
    - apply active_channel_None in Eact. apply wp_ret. eapply wp_mono;
        [by apply (ingest_new_init channel assigned)|by intros [|]]. }
  exists assigned, h'. split; [done|]. split; [done|].
  assert (receive h' = None) as Hrx.
  { destruct (receive h') as [r|] eqn:Er; [|done].
    destruct (bo_receive _ (hid_base _ Hok') _ Er) as (_ & _ & ?). congruence. }
  split; [done|]. split.
  { destruct (app_request h') as [a|] eqn:Er; [|done].
    destruct (bo_app _ (hid_base _ Hok') _ Er) as (_ & ?). congruence. }
  split; [done|]. split; [done|].
  pose proof (bo_last _ (hid_base _ Hok)) as Hl.
  destruct Ha as [[-> Ha]|[Ha ->]].
  - rewrite Z.eqb_refl in *. pose proof (allocate_next _ _ Hl Ha) as Hr.
    rewrite allocate_loop_spec in Ha by lia. injection Ha as Ha.
    unfold is_allocated. rewrite Hlast, Z.leb_refl.
    rewrite (proj2 (Z.eqb_neq _ _)), (proj2 (Z.eqb_neq _ _)) by (unfold RESERVED_CHANNEL; lia).
    split; [done|]. cbn [negb andb].
    destruct (Z.ltb_spec (last_channel h) (BROADCAST_CHANNEL - 1)).
    + left. apply Z.leb_gt. lia.
    + right. lia.
  - destruct (Z.eqb_spec channel BROADCAST_CHANNEL) as [->|].
    + unfold is_allocated in Ha. rewrite andb_false_r in Ha. done.
    + unfold is_allocated in *. by rewrite Hlast.
Qed.

(** ** Completion *)

(** A CTAP reply counts as a success of the running image, the one event that
    confirms it, exactly when the dispatcher succeeded, the status byte it wrote is
    zero and the transport accepted the whole reply for a request still pending;
    the reply then being sent is the application's, and its buffer is cleared
    whatever happened. *)
Theorem confirmation_needs_accepted_success dispatched buffer h :
  hid_ok h → ∃ r h', complete_cbor dispatched buffer reply h = Some (r, zeros (length buffer), h') ∧
    hid_ok h' ∧
    (r = Ok Succeeded ↔ dispatched = true ∧ head buffer = Some 0 ∧ is_some (app_request h) = true ∧
                        (length buffer ≤ buffer_size h)%nat) ∧
    (r = Ok Succeeded → ∀ a, app_request h = Some a →
       transmit h' = Some (mkTransmitState (ar_channel a) (ar_command a) (length buffer) 0 0) ∧
       take (length buffer) (response h') = buffer) ∧
    (app_request h = None → r = Ok Interrupted ∧ h' = h).
Proof.
  intros Hok. unfold complete_cbor.
  set (out := if dispatched && negb (length buffer =? 0)%nat then buffer else [0x7f]).
  assert ((if dispatched && negb (length buffer =? 0)%nat then reply buffer h else reply [0x7f] h) = reply out h)
    as -> by (unfold out; by destruct (_ && _)).
  destruct (wp_elim _ _ _ (reply_wp out h Hok)) as (r & h' & -> & Hok' & Hr). cbn [mbind option_bind].
  eexists _, h'. split; [done|]. split; [done|].
  destruct (app_request h) as [a|] eqn:Ea; [|destruct Hr as [-> ->]; naive_solver].
  destruct Hr as [_ Hr]. destruct dispatched; cbn [andb] in *.
  2: { destruct (_ <? _)%nat; destruct Hr as (-> & _); simpl; naive_solver. }
  destruct buffer as [|b buffer].
  { destruct (_ <? _)%nat; destruct Hr as (-> & _); simpl; naive_solver. }
  cbn [length Nat.eqb negb] in out. subst out.
  destruct (Nat.ltb_spec (buffer_size h) (length (b :: buffer))) as [Hlt|Hge].
  { destruct Hr as (-> & _). simpl in *. naive_solver lia. }
  destruct Hr as (-> & Htx & Hresp & _). cbn [disposition head].
  assert (take (length (b :: buffer)) (response h') = b :: buffer) as Ht.
  { rewrite Hresp, put_zeros, take_app_le by done. by rewrite take_ge. }
  destruct (bool_decide_reflect (Some b = Some 0)) as [Hb|Hb]; naive_solver.
Qed.

(** ** Witnesses: a 128-byte engine with one channel *)

Definition fresh_engine : CtapHid :=
  mkCtapHid (zeros 128) (zeros 128) None None None None no_errors 0 (mkDeviceVersion 1 2 3) 0x0c.
Definition small_engine : CtapHid := with_last_channel 1 fresh_engine.
Definition busy_engine : CtapHid := with_app_request (Some (mkAppRequest 1 Cbor 3)) small_engine.

Lemma fresh_ok : hid_ok fresh_engine.
Proof. by apply (hid_new 128 (mkDeviceVersion 1 2 3) 0x0c). Qed.
Lemma small_ok : hid_ok small_engine.
Proof. apply hid_allocated; [by split|done|apply fresh_ok]. Qed.
Lemma busy_ok : hid_ok busy_engine.
Proof.
  apply hid_app; [apply small_ok|done| |done|by left]. unfold buffer_size. simpl. lia.
Qed.

Lemma transport_never_panics_witness :
  ∃ h', run_ops [OpReport (init_report 1 6 8 (zeros 8)) 5; OpSend; OpReport [] 0; OpReply [0]] fresh_engine
        = Some h' ∧ hid_ok h'.
Proof. exact (transport_never_panics 128 (mkDeviceVersion 1 2 3) 0x0c _ _ eq_refl). Defined.

Definition long_payload : bytes := replicate 70 7.
Definition noisy_reports : list (bytes * Z) :=
  [(init_report 9 0x10 4 [1; 2; 3; 4], 5); (cont_report 1 0 (replicate 13 7), 6); (cont_report 9 0 [1], 7)].

Lemma request_reassembled_witness :
  ∃ es slots, feed ((hd [] (fragment 1 Cbor long_payload), 4) :: noisy_reports) small_engine =
      Some (es, delivered 1 Cbor long_payload (with_errors slots small_engine)) ∧
    filter (λ e, e ≠ EvNone) es = [EvCbor 1 70] ∧
    request_payload (delivered 1 Cbor long_payload (with_errors slots small_engine)) = Some (Some long_payload).
Proof.
  refine (request_reassembled 1 Cbor long_payload small_engine 4 noisy_reports small_ok _ _ _ _ _ _);
    [done|unfold is_u32; lia|done|by left|apply Nat.leb_le; vm_compute; done|vm_compute; done].
Defined.

Lemma reply_transmitted_witness :
  ∃ h1 h2, reply long_payload busy_engine = Some (Ok tt, h1) ∧
    drain 9 h1 = Some (fragment 1 Cbor long_payload, h2) ∧
    idle h2 ∧ hid_ok h2 ∧ errors h2 = no_errors ∧ last_channel h2 = 1.
Proof.
  refine (reply_transmitted busy_engine (mkAppRequest 1 Cbor 3) [] long_payload 9 busy_ok eq_refl _ _ _).
  - split; [done|]. split; [apply Nat.leb_le; done|apply NoDup_nil_2].
  - apply Nat.leb_le. vm_compute. done.
  - apply Nat.ltb_lt. vm_compute. done.
Defined.

Lemma interruption_flag_exact_witness :
  ∃ e i h', ingest_report (init_report 1 0x11 0 []) 5 busy_engine = Some (e, i, h') ∧
    ((i = false ∧ e = EvNone ∧ app_request h' = Some (mkAppRequest 1 Cbor 3) ∧
      request_payload h' = request_payload busy_engine ∧ transmit h' = transmit busy_engine) ∨
     (i = true ∧ e = EvNone ∧ app_request h' = None) ∨
     (i = true ∧ e = EvCancelled 1 ∧ app_request h' = Some (mkAppRequest 1 Cbor 3) ∧
      request_payload h' = request_payload busy_engine)).
Proof. exact (interruption_flag_exact _ 5 busy_engine (mkAppRequest 1 Cbor 3) busy_ok eq_refl). Defined.

Lemma init_answered_witness :
  ∃ assigned h', ingest (init_report BROADCAST_CHANNEL 6 8 (replicate 8 9)) 0 fresh_engine = Some (EvNone, h') ∧
    hid_ok h' ∧ receive h' = None ∧ app_request h' = None ∧
    transmit h' = Some (mkTransmitState BROADCAST_CHANNEL Init 17 0 0) ∧
    take 17 (response h') = replicate 8 9 ++ be_encode 4 assigned ++ [2; 1; 2; 3; 0x0c] ∧
    is_allocated h' assigned = true ∧
    (is_allocated fresh_engine assigned = false ∨ 0 = BROADCAST_CHANNEL - 1).
Proof.
  exact (init_answered BROADCAST_CHANNEL (replicate 8 9) 0 fresh_engine fresh_ok eq_refl
           (or_introl (conj eq_refl (conj eq_refl (conj eq_refl eq_refl))))).
Defined.

Lemma confirmation_needs_accepted_success_witness :
  ∃ r h', complete_cbor true [0; 0xa0] reply busy_engine = Some (r, [0; 0], h') ∧
    hid_ok h' ∧
    (r = Ok Succeeded ↔ true = true ∧ head [0; 0xa0] = Some 0 ∧ is_some (app_request busy_engine) = true ∧
                        (2 ≤ buffer_size busy_engine)%nat) ∧
    (r = Ok Succeeded → ∀ a, app_request busy_engine = Some a →
       transmit h' = Some (mkTransmitState (ar_channel a) (ar_command a) 2 0 0) ∧
       take 2 (response h') = [0; 0xa0]) ∧
    (app_request busy_engine = None → r = Ok Interrupted ∧ h' = busy_engine).
Proof. exact (confirmation_needs_accepted_success true [0; 0xa0] busy_engine busy_ok). Defined.
