(* ===== verification/Presence.v ===== *)
(** * Physical consent

    The button gestures: [src/src/platform/presence_gate.rs] (authentication and
    updates), [maintenance_presence.rs] (irreversible maintenance),
    [provisioning.rs] (storage provisioning), and the consent loop and user
    interface of [s2_user_presence.rs] on top of the gate. *)

From stdpp Require Import base tactics numbers list option.
From S2P Require Import Prelude.

Definition u64_sub (a b : Z) : option Z := if b <=? a then Some (a - b) else None.

(** ** [PresenceGate] *)

Inductive Level := Released | Pressed | Uncertain | Fault.
#[export] Instance Level_eq_dec : EqDecision Level.
Proof. solve_decision. Defined.

Inductive Phase := InitialRelease | AwaitPress | FinalRelease | Finished.
#[export] Instance Phase_eq_dec : EqDecision Phase.
Proof. solve_decision. Defined.

Record PresenceGate := mkGate {
  phase : Phase;
  deadline : Z;
  last_poll : Z;
  last_level : Level;
  since : Z;
  release_ms : Z;
  press_ms : Z;
  long_hold : bool;
}.

Definition with_phase p g :=
  mkGate p (deadline g) (last_poll g) (last_level g) (since g) (release_ms g) (press_ms g) (long_hold g).
Definition with_last_poll t g :=
  mkGate (phase g) (deadline g) t (last_level g) (since g) (release_ms g) (press_ms g) (long_hold g).
Definition with_level l t g :=
  mkGate (phase g) (deadline g) (last_poll g) l t (release_ms g) (press_ms g) (long_hold g).

Definition ready_for_action (g : PresenceGate) : bool := bool_decide (phase g = AwaitPress).

Definition new_gate (now timeout_ms : Z) (long : bool) : PresenceGate :=
  mkGate InitialRelease (u64_saturating_add now timeout_ms) now Uncertain now 30
    (if long then 5000 else 30) long.

(** What the phase does with a stable level. *)
Definition advance_phase (level : Level) (stable : Z) (g : PresenceGate) : option bool * PresenceGate :=
  match phase g with
  | InitialRelease =>
      if bool_decide (level = Released) && (release_ms g <=? stable)
      then (None, with_phase AwaitPress g) else (None, g)
  | AwaitPress =>
      if bool_decide (level = Pressed) && (press_ms g <=? stable)
      then if long_hold g then (None, with_phase FinalRelease g)
           else (Some true, with_phase Finished g)
      else (None, g)
  | FinalRelease =>
      if bool_decide (level = Released) && (release_ms g <=? stable)
      then (Some true, with_phase Finished g) else (None, g)
  | Finished => (None, g)
  end.

(** The outer [option] is the overflow panic of [now - self.since]. *)
Definition gate_poll (sample : option Level) (now : Z) (cancelled : bool) (g : PresenceGate)
  : option (option bool * PresenceGate) :=
  if cancelled || (now <? last_poll g) || (deadline g <=? now) || bool_decide (phase g = Finished)
  then Some (Some false, with_phase Finished g)
  else
    let g := with_last_poll now g in
    match sample with
    | None => Some (None, g)
    | Some level =>
        if bool_decide (level = Fault) then Some (Some false, with_phase Finished g) else
        let g := if bool_decide (level = last_level g) then g else with_level level now g in
        if bool_decide (level = Uncertain)
        then Some (None, if bool_decide (phase g = FinalRelease) then with_phase InitialRelease g else g)
        else
          stable ← u64_sub now (since g);
          Some (advance_phase level stable g)
    end.

(** ** [MaintenancePresence] *)

Definition DEBOUNCE_MS : Z := 25.
Definition HOLD_MS : Z := 5000.
Definition TIMEOUT_MS : Z := 30000.

Inductive MaintenanceState := MInitialRelease | MAwaitPress | MHolding | MFinalRelease | MFinished.
#[export] Instance MaintenanceState_eq_dec : EqDecision MaintenanceState.
Proof. solve_decision. Defined.

Record MaintenancePresence := mkMaintenancePresence {
  mp_state : MaintenanceState;
  mp_started : Z;
  mp_changed : Z;
  mp_last_pressed : bool;
}.

Definition new_maintenance_presence (pressed : bool) (now_ms : Z) : MaintenancePresence :=
  mkMaintenancePresence MInitialRelease now_ms now_ms pressed.

Definition mp_with_state s p := mkMaintenancePresence s (mp_started p) (mp_changed p) (mp_last_pressed p).

Definition maintenance_poll (pressed : bool) (now_ms : Z) (cancelled : bool) (p : MaintenancePresence)
  : option bool * MaintenancePresence :=
  if cancelled || (now_ms <? mp_changed p) || (TIMEOUT_MS <=? u64_saturating_sub now_ms (mp_started p))
     || bool_decide (mp_state p = MFinished)
  then (Some false, mp_with_state MFinished p)
  else
    let p := if Bool.eqb pressed (mp_last_pressed p) then p
             else mkMaintenancePresence (mp_state p) (mp_started p) now_ms pressed in
    let stable_ms := u64_saturating_sub now_ms (mp_changed p) in
    match mp_state p with
    | MInitialRelease =>
        (None, if negb pressed && (DEBOUNCE_MS <=? stable_ms) then mp_with_state MAwaitPress p else p)
    | MAwaitPress =>
        (None, if pressed && (DEBOUNCE_MS <=? stable_ms) then mp_with_state MHolding p else p)
    | MHolding =>
        (None, if negb pressed then mp_with_state MInitialRelease p
               else if HOLD_MS <=? stable_ms then mp_with_state MFinalRelease p else p)
    | MFinalRelease =>
        if negb pressed && (DEBOUNCE_MS <=? stable_ms)
        then (Some true, mp_with_state MFinished p) else (None, p)
    | MFinished => (None, p)
    end.

(** ** [ProvisioningGesture] *)

Record ProvisioningGesture := mkProvisioningGesture {
  required_hold_ms : Z;
  release_seen : bool;
  pressed_since_ms : option Z;
}.

Definition new_gesture (hold_ms : Z) : ProvisioningGesture := mkProvisioningGesture hold_ms false None.

Definition gesture_sample (pressed : bool) (now_ms : Z) (g : ProvisioningGesture)
  : bool * ProvisioningGesture :=
  if negb pressed then (false, mkProvisioningGesture (required_hold_ms g) true None)
  else if negb (release_seen g) then (false, g)
  else
    let since := default now_ms (pressed_since_ms g) in
    (required_hold_ms g <=? u64_saturating_sub now_ms since,
     mkProvisioningGesture (required_hold_ms g) true (Some since)).

(** ** The consent loop and the user interface of [s2_user_presence.rs]

    The button level, the clock and the cancellation hook are inputs of each call. *)

Definition UPDATE_USER_PRESENCE_TIMEOUT_MS : Z := 15000.

Record UserHardware := mkUserHardware { led : bool; hw_gate : option PresenceGate }.

Definition new_hardware : UserHardware := mkUserHardware false None.
Definition hw_begin (now timeout_ms : Z) (long : bool) (_ : UserHardware) : UserHardware :=
  mkUserHardware true (Some (new_gate now timeout_ms long)).
Definition hw_end (_ : UserHardware) : UserHardware := mkUserHardware false None.
Definition finish_request (hw : UserHardware) : UserHardware := hw_end hw.

Definition hw_poll (button_low : bool) (now : Z) (cancelled : bool) (hw : UserHardware)
  : option (option bool * UserHardware) :=
  match hw_gate hw with
  | None => Some (None, hw)
  | Some g =>
      '(result, g) ← gate_poll (Some (if button_low then Pressed else Released)) now cancelled g;
      Some (result, mkUserHardware (if ready_for_action g then true else led hw) (Some g))
  end.

(** One turn of the loop sees the button, the clock and the hook. *)
Record Reading := mkReading { rd_button_low : bool; rd_now : Z; rd_cancelled : bool }.

Fixpoint confirm_loop (readings : list Reading) (hw : UserHardware) : option (bool * UserHardware) :=
  match readings with
  | [] => None
  | r :: readings =>
      '(result, hw) ← hw_poll (rd_button_low r) (rd_now r) (rd_cancelled r) hw;
      match result with
      | Some answer => Some (answer, hw)
      | None => confirm_loop readings hw
      end
  end.

(** [None] when the readings run out before the loop ends. *)
Definition confirm (now timeout_ms : Z) (long : bool) (readings : list Reading) (hw : UserHardware)
  : option (bool * UserHardware) :=
  '(confirmed, hw) ← confirm_loop readings (hw_begin now timeout_ms long hw);
  Some (confirmed, hw_end hw).
Definition confirm_update_user_presence (now : Z) := confirm now UPDATE_USER_PRESENCE_TIMEOUT_MS false.
Definition confirm_maintenance_user_presence (now : Z) := confirm now 30000 true.

(** [trussed]'s status, as far as the interface looks at it. *)
Inductive UiStatus := UiIdle | WaitingForUserPresence | UiOther (code : Z).
#[export] Instance UiStatus_eq_dec : EqDecision UiStatus.
Proof. solve_decision. Defined.
Inductive ConsentLevel := ConsentNone | ConsentNormal.

Record UserInterface := mkUserInterface { ui_hardware : UserHardware; ui_status : UiStatus }.

Definition check_user_presence (r : Reading) (u : UserInterface) : option (ConsentLevel * UserInterface) :=
  if bool_decide (ui_status u ≠ WaitingForUserPresence) then Some (ConsentNone, u)
  else
    '(result, hw) ← hw_poll (rd_button_low r) (rd_now r) (rd_cancelled r) (ui_hardware u);
    Some (match result with Some true => ConsentNormal | _ => ConsentNone end,
          mkUserInterface hw (ui_status u)).

Definition set_status (status : UiStatus) (now : Z) (u : UserInterface) : UserInterface :=
  let was_waiting := bool_decide (ui_status u = WaitingForUserPresence) in
  let is_waiting := bool_decide (status = WaitingForUserPresence) in
  let hw := if is_waiting then hw_begin now 30000 false (ui_hardware u)
            else if was_waiting then hw_end (ui_hardware u) else ui_hardware u in
  mkUserInterface hw status.

Definition status (u : UserInterface) : UiStatus :=
  match hw_gate (ui_hardware u) with None => UiIdle | Some _ => ui_status u end.
