(* ===== verification/PresenceTheorems.v ===== *)
(** * What a gesture proves

    An approval of [PresenceGate] implies the full gesture within the window; the
    gate is one-shot, never panics, and the consent loop ends by the deadline. *)

From stdpp Require Import base tactics numbers list option.
From S2P Require Import Prelude Presence.

(** One poll of a gate. *)
Record Sample := mkSample { sm_level : option Level; sm_now : Z; sm_cancelled : bool }.

Definition poll_sample (s : Sample) (g : PresenceGate) : option (option bool * PresenceGate) :=
  gate_poll (sm_level s) (sm_now s) (sm_cancelled s) g.

(** Polls that all answered "not yet". *)
Fixpoint gate_polls (samples : list Sample) (g : PresenceGate) : option PresenceGate :=
  match samples with
  | [] => Some g
  | s :: samples =>
      '(r, g) ← poll_sample s g;
      match r with None => gate_polls samples g | Some _ => None end
  end.

(** From index [i] to index [j] the button was only ever seen at [l], for [ms] at least;
    a poll without a sample does not interrupt. *)
Definition sees (l : Level) (s : Sample) : Prop := sm_level s = None ∨ sm_level s = Some l.
Definition held (tr : list Sample) (l : Level) (ms : Z) (i j : nat) : Prop :=
  (i ≤ j)%nat ∧ ∃ a b, tr !! i = Some a ∧ tr !! j = Some b ∧
    sm_level a = Some l ∧ sm_level b = Some l ∧ sm_now a + ms ≤ sm_now b ∧
    ∀ k s, (i ≤ k ≤ j)%nat → tr !! k = Some s → sees l s.

(** A release, then a press, then for a long hold a release again. *)
Definition gesture (tr : list Sample) (long : bool) : Prop :=
  ∃ i1 j1 i2 j2, held tr Released 30 i1 j1 ∧ (j1 < i2)%nat ∧
    held tr Pressed (if long then 5000 else 30) i2 j2 ∧
    (if long then ∃ i3 j3, (j2 < i3)%nat ∧ held tr Released 30 i3 j3 else True).

Definition in_window (now0 timeout_ms : Z) (s : Sample) : Prop :=
  now0 ≤ sm_now s < u64_saturating_add now0 timeout_ms ∧ sm_cancelled s = false ∧ sm_level s ≠ Some Fault.
Definition clock_forward (tr : list Sample) : Prop :=
  ∀ i j a b, (i ≤ j)%nat → tr !! i = Some a → tr !! j = Some b → sm_now a ≤ sm_now b.

Lemma held_snoc tr s l ms i j : held tr l ms i j → held (tr ++ [s]) l ms i j.
Proof.
  intros (Hij & a & b & Ha & Hb & Hla & Hlb & Ht & Hall). split; [done|].
  pose proof (lookup_lt_Some _ _ _ Hb) as Hj.
  exists a, b. rewrite !lookup_app_l by lia. repeat split; try done.
  intros k x Hk Hx. rewrite lookup_app_l in Hx by lia. by apply (Hall k).
Qed.

(** The level seen now, since when, in the trace. *)
Definition current (tr : list Sample) (l : Level) (t : Z) (i : nat) : Prop :=
  (∃ a, tr !! i = Some a ∧ sm_level a = Some l ∧ sm_now a = t) ∧
  ∀ k s, (i ≤ k)%nat → tr !! k = Some s → sees l s.

Lemma current_snoc tr l t i s : current tr l t i → sees l s → current (tr ++ [s]) l t i.
Proof.
  intros [(a & Ha & Hl & Ht) Hall] Hs. split.
  - exists a. split; [|done]. apply lookup_app_l_Some, Ha.
  - intros k x Hk [Hx|[Hge Hx]]%lookup_app_Some; [by eapply Hall|].
    apply list_lookup_singleton_Some in Hx as [_ <-]. done.
Qed.

Lemma current_new tr l s : sm_level s = Some l → current (tr ++ [s]) l (sm_now s) (length tr).
Proof.
  intros Hl. split.
  - exists s. split; [|done]. by rewrite lookup_app_r, Nat.sub_diag by lia.
  - intros k x Hk [Hx|[Hge Hx]]%lookup_app_Some.
    + apply lookup_lt_Some in Hx. lia.
    + apply list_lookup_singleton_Some in Hx as [_ <-]. by right.
Qed.

Lemma current_held tr s l t i ms :
  current (tr ++ [s]) l t i → sm_level s = Some l → t + ms ≤ sm_now s → (i ≤ length tr)%nat →
  held (tr ++ [s]) l ms i (length tr).
Proof.
  intros [(a & Ha & Hl & Ht) Hall] Hs Hms Hi. split; [done|]. exists a, s.
  rewrite (lookup_app_r _ _ (length tr)), Nat.sub_diag by lia. repeat split; try done; [lia|].
  intros k x [Hk _] Hx. by eapply Hall.
Qed.

(** An earlier hold of another level ends before the current one starts. *)
Lemma held_before tr l l' t i j0 ms i0 :
  current tr l t i → held tr l' ms i0 j0 → l ≠ l' → (j0 < i)%nat.
Proof.
  intros [_ Hall] (_ & a & b & _ & Hb & _ & Hl & _) Hne.
  destruct (le_lt_dec i j0) as [Hle|]; [|done].
  destruct (Hall j0 b Hle Hb); congruence.
Qed.

(** ** The gate's invariant over its trace *)

Section gate.
Context (now0 timeout_ms : Z) (long : bool).

Definition phase_ok (tr : list Sample) (p : Phase) : Prop :=
  match p with
  | InitialRelease => True
  | AwaitPress => ∃ i j, held tr Released 30 i j
  | FinalRelease => long = true ∧ ∃ i1 j1 i2 j2, held tr Released 30 i1 j1 ∧ (j1 < i2)%nat ∧ held tr Pressed 5000 i2 j2
  | Finished => False
  end.

Record gate_inv (tr : list Sample) (g : PresenceGate) : Prop := {
  gi_deadline : deadline g = u64_saturating_add now0 timeout_ms;
  gi_settings : release_ms g = 30 ∧ press_ms g = (if long then 5000 else 30) ∧ long_hold g = long;
  gi_window : Forall (in_window now0 timeout_ms) tr;
  gi_last : now0 ≤ last_poll g ∧ Forall (λ s, sm_now s ≤ last_poll g) tr;
  gi_clock : clock_forward tr;
  gi_since : since g ≤ last_poll g;
  gi_current : last_level g ≠ Uncertain → ∃ i, (i < length tr)%nat ∧ current tr (last_level g) (since g) i;
  gi_phase : phase_ok tr (phase g);
}.

Lemma clock_snoc tr s :
  clock_forward tr → Forall (λ x, sm_now x ≤ sm_now s) tr → clock_forward (tr ++ [s]).
Proof.
  intros Hc Hf i j a b Hij [Ha|[Hi Ha]]%lookup_app_Some [Hb|[Hj Hb]]%lookup_app_Some.
  - by eapply (Hc i j).
  - apply list_lookup_singleton_Some in Hb as [_ <-].
    by apply (Forall_lookup_1 _ _ _ _ Hf Ha).
  - apply lookup_lt_Some in Hb. lia.
  - apply list_lookup_singleton_Some in Ha as [_ <-], Hb as [_ <-]. done.
Qed.

Lemma phase_ok_snoc tr s p : phase_ok tr p → phase_ok (tr ++ [s]) p.
Proof.
  destruct p; simpl; [done|..|done].
  - intros (i & j & H). exists i, j. by apply held_snoc.
  - intros (Hlg & i1 & j1 & i2 & j2 & H1 & H & H2). split; [done|]. exists i1, j1, i2, j2. auto using held_snoc.
Qed.

Lemma gate_inv_new : 0 ≤ now0 → gate_inv [] (new_gate now0 timeout_ms long).
Proof. intros. by split. Qed.

(** What a gate that has seen the samples may answer. *)
Definition answered (tr : list Sample) (r : option bool) (g : PresenceGate) : Prop :=
  match r with
  | None => gate_inv tr g
  | Some false => phase g = Finished
  | Some true => phase g = Finished ∧ gesture tr long ∧ Forall (in_window now0 timeout_ms) tr ∧ clock_forward tr
  end.

(** A level that has been there since sample [i] may complete the phase. *)
Lemma advance_inv tr s l g i :
  release_ms g = 30 → press_ms g = (if long then 5000 else 30) → long_hold g = long →
  (∀ p, phase_ok (tr ++ [s]) p → gate_inv (tr ++ [s]) (with_phase p g)) → phase_ok (tr ++ [s]) (phase g) →
  current (tr ++ [s]) l (since g) i →
  (∀ ms, ms ≤ sm_now s - since g → held (tr ++ [s]) l ms i (length tr)) →
  Forall (in_window now0 timeout_ms) (tr ++ [s]) → clock_forward (tr ++ [s]) →
  let '(r, g') := advance_phase l (sm_now s - since g) g in answered (tr ++ [s]) r g'.
Proof.
  intros Hr2 Hpr2 Hlg2 Hinv Hph2 Hi' Hheld Hw' Hc'.
  assert (gate_inv (tr ++ [s]) g) as Hsame.
  { replace g with (with_phase (phase g) g) by by destruct g. by apply Hinv. }
  unfold advance_phase, answered. rewrite Hr2, Hpr2, Hlg2.
  destruct (phase g); [..|done]; simpl in Hph2;
    (destruct (_ && _) eqn:E2; [|exact Hsame]); bool_to_prop; subst l.
  - apply (Hinv AwaitPress). exists i, (length tr). by apply Hheld.
  - destruct Hph2 as (i1 & j1 & H1'). 
    pose proof (held_before _ _ _ _ _ _ _ _ Hi' H1' ltac:(done)) as Hlt.
    destruct long eqn:Elong.
    + apply (Hinv FinalRelease). split; [done|]. exists i1, j1, i, (length tr). split; [done|]. split; [done|]. by apply Hheld.
    + split; [done|]. split; [|done]. exists i1, j1, i, (length tr). split; [done|]. split; [done|].
      split; [by apply Hheld|done].
  - destruct Hph2 as (Hlg & i1 & j1 & i2 & j2 & H1' & H12 & H2').
    pose proof (held_before _ _ _ _ _ _ _ _ Hi' H2' ltac:(done)) as Hlt.
    split; [done|]. split; [|done]. exists i1, j1, i2, j2. split; [done|]. split; [done|].
    rewrite Hlg. split; [done|]. exists i, (length tr). split; [done|]. by apply Hheld.
Qed.

(** What one poll answers, from a gate that has not answered yet. *)
Lemma poll_inv tr g s : gate_inv tr g →
  ∃ r g', poll_sample s g = Some (r, g') ∧
    answered (tr ++ [s]) r g'.
Proof.
  intros [Hd (Hr & Hp & Hlong) Hw [Hl0 Hl] Hc Hs Hcur Hph]. unfold poll_sample, gate_poll.
  destruct (_ || _) eqn:E; [by eexists _, _|]. bool_to_prop.
  assert (Forall (λ x, sm_now x ≤ sm_now s) tr) as Hf
    by (eapply Forall_impl; [|exact Hl]; simpl; lia).
  assert (Forall (λ x, sm_now x ≤ sm_now s) (tr ++ [s])) as Hf'
    by (apply Forall_app; split; [done|]; apply Forall_singleton; lia).
  pose proof (clock_snoc tr s Hc Hf) as Hc'.
  destruct (sm_level s) as [l|] eqn:El.
  2: { eexists _, _. split; [done|]. split; simpl; try done; try lia.
    - apply Forall_app. split; [done|]. apply Forall_singleton. unfold in_window. rewrite El. naive_solver lia.
    - split; [lia|done].
    - intros Hu. destruct (Hcur Hu) as (i & Hi & Hi'). exists i. rewrite length_app. split; [lia|].
      apply current_snoc; [done|]. by left.
    - by apply phase_ok_snoc. }
  destruct (bool_decide (l = Fault)) eqn:Hnf; [by eexists _, _|]. apply bool_decide_eq_false in Hnf.
  set (g1 := with_last_poll (sm_now s) g).
  set (g2 := if bool_decide (l = last_level g1) then g1 else with_level l (sm_now s) g1).
  assert (Forall (in_window now0 timeout_ms) (tr ++ [s])) as Hw'.
  { apply Forall_app. split; [done|]. apply Forall_singleton. unfold in_window. rewrite El. naive_solver lia. }
  assert (since g2 ≤ sm_now s ∧ last_level g2 = l ∧ phase g2 = phase g ∧ release_ms g2 = 30 ∧
          press_ms g2 = (if long then 5000 else 30) ∧ long_hold g2 = long ∧
          deadline g2 = deadline g ∧ last_poll g2 = sm_now s) as (Hs2 & Hl2 & Hp2 & Hr2 & Hpr2 & Hlg2 & Hd2 & Hlp2).
  { unfold g2, g1. case_bool_decide; simpl in *; repeat split; auto; lia. }
  assert (l ≠ Uncertain → ∃ i, (i ≤ length tr)%nat ∧ current (tr ++ [s]) l (since g2) i) as Hcur2.
  { intros Hu. unfold g2. case_bool_decide as Heq.
    - simpl in Heq. destruct (Hcur ltac:(congruence)) as (i & Hi & Hi'). exists i. split; [lia|].
      rewrite Heq. apply current_snoc; [exact Hi'|]. right. congruence.
    - exists (length tr). split; [done|]. by apply current_new. }
  assert (∀ p, phase_ok (tr ++ [s]) p → gate_inv (tr ++ [s]) (with_phase p g2)) as Hinv.
  { intros p Hpo. split; cbn [with_phase deadline release_ms press_ms long_hold last_poll since last_level phase];
      rewrite ?Hd2, ?Hl2, ?Hlp2; try done; try lia.
    - split; [lia|done].
    - intros Hu. destruct (Hcur2 Hu) as (i & Hi & ?). exists i. rewrite length_app. split; [simpl; lia|done]. }
  assert (phase_ok (tr ++ [s]) (phase g2)) as Hph2 by (rewrite Hp2; by apply phase_ok_snoc).
  assert (g2 = with_phase (phase g2) g2) as Hg2 by (by destruct g2).
  fold g1. fold g2. destruct (bool_decide (l = Uncertain)) eqn:Eu; bool_to_prop.
  { eexists _, _. split; [done|]. cbn beta iota. case_bool_decide; [by apply Hinv|].
    rewrite Hg2. by apply Hinv. }
  destruct (Hcur2 Eu) as (i & Hi & Hi').
  unfold u64_sub. rewrite (proj2 (Z.leb_le _ _)) by done.
  cbn [mbind option_bind]. eexists _, _. split; [apply f_equal, surjective_pairing|].
  assert (∀ ms, ms ≤ sm_now s - since g2 → held (tr ++ [s]) l ms i (length tr)) as Hheld
    by (intros; apply (current_held tr s l (since g2)); auto; lia).
  pose proof (advance_inv tr s l g2 i Hr2 Hpr2 Hlg2 Hinv Hph2 Hi' Hheld Hw' Hc') as K.
  by rewrite (surjective_pairing (advance_phase _ _ _)) in K.
Qed.
End gate.

Lemma polls_inv now0 timeout_ms long samples tr g g' :
  gate_inv now0 timeout_ms long tr g → gate_polls samples g = Some g' →
  gate_inv now0 timeout_ms long (tr ++ samples) g'.
Proof.
  revert tr g. induction samples as [|s samples IH]; intros tr g Hg; cbn [gate_polls].
  { intros [= <-]. by rewrite app_nil_r. }
  destruct (poll_inv _ _ _ tr g s Hg) as (r & g1 & -> & Hr). cbn [mbind option_bind].
  destruct r; [done|]. intros Hrest. rewrite cons_middle, app_assoc. by apply (IH _ g1).
Qed.

Lemma finished_refuses s g : phase g = Finished → ∃ g', poll_sample s g = Some (Some false, g') ∧ phase g' = Finished.
Proof.
  intros Hf. unfold poll_sample, gate_poll. rewrite Hf, orb_true_r. by eexists.
Qed.

(** C29: An approval of the presence gate is a fresh, complete gesture: the last poll is
    the first to approve only if, since the gate was armed, the button was seen released
    for 30 ms, then pressed without a break for 30 ms (five seconds for a long hold, which
    must also end with a 30 ms release), the clock never ran backwards, every poll fell
    before the deadline, none was cancelled and none reported a fault.  The
    approval is consumed: whatever is polled afterwards is refused. *)
Theorem approval_is_fresh_gesture now0 timeout_ms long samples s g g' :
  0 ≤ now0 → gate_polls samples (new_gate now0 timeout_ms long) = Some g →
  poll_sample s g = Some (Some true, g') →
  gesture (samples ++ [s]) long ∧ Forall (in_window now0 timeout_ms) (samples ++ [s]) ∧
  clock_forward (samples ++ [s]) ∧
  ∀ s', ∃ g2, poll_sample s' g' = Some (Some false, g2) ∧ phase g2 = Finished.
Proof.
  intros H0 Hs Hp. pose proof (polls_inv _ _ _ _ [] _ _ (gate_inv_new now0 timeout_ms long H0) Hs) as Hg.
  destruct (poll_inv _ _ _ _ g s Hg) as (r & g2 & E & Hr). rewrite Hp in E. injection E as <- <-.
  destruct Hr as (Hf & Hgest & Hw & Hc). split; [done|]. split; [done|]. split; [done|].
  intros s'. by apply finished_refuses.
Qed.

(** ** The loop *)

Definition reading_sample (r : Reading) : Sample :=
  mkSample (Some (if rd_button_low r then Pressed else Released)) (rd_now r) (rd_cancelled r).

(** A reading that ends the wait: past the deadline, or cancelled. *)
Definition ends (now0 timeout_ms : Z) (r : Reading) : Prop :=
  u64_saturating_add now0 timeout_ms ≤ rd_now r ∨ rd_cancelled r = true.

Lemma confirm_loop_ends now0 timeout_ms long readings tr lit g :
  gate_inv now0 timeout_ms long tr g →
  Exists (ends now0 timeout_ms) readings →
  ∃ b hw pre, confirm_loop readings (mkUserHardware lit (Some g)) = Some (b, hw) ∧ pre `prefix_of` readings ∧
    (b = true → gesture (tr ++ (reading_sample <$> pre)) long ∧
                Forall (in_window now0 timeout_ms) (tr ++ (reading_sample <$> pre))).
Proof.
  revert tr lit g. induction readings as [|r readings IH]; intros tr lit g Hg Hlate; [by inversion Hlate|].
  cbn [confirm_loop]. unfold hw_poll. cbn [hw_gate].
  change (gate_poll (Some (if rd_button_low r then Pressed else Released)) (rd_now r) (rd_cancelled r) g)
    with (poll_sample (reading_sample r) g).
  destruct (poll_inv _ _ _ tr g (reading_sample r) Hg) as (res & g' & E & Hr). rewrite E. cbn [mbind option_bind].
  destruct res as [b|].
  - exists b. eexists _, [r]. split; [done|]. split; [by apply prefix_cons, prefix_nil|].
    intros ->. cbn [fmap list_fmap]. naive_solver.
  - inversion Hlate as [x l Hx|x l Hx]; subst.
    + exfalso. pose proof (gi_window _ _ _ _ _ Hr) as Hw. apply Forall_app in Hw as [_ Hw].
      apply Forall_inv in Hw. destruct Hw as ((_ & Hw) & Hcancel & _). simpl in *.
      destruct Hx; [lia|congruence].
    + edestruct (IH (tr ++ [reading_sample r])) as (b & hw & pre & -> & Hpre & Hb); [done|done|].
      exists b, hw, (r :: pre). split; [done|]. split; [by apply prefix_cons|].
      intros Hbt. rewrite fmap_cons, cons_middle, app_assoc. by apply Hb.
Qed.

(** C30: The consent loop of an update or of maintenance always answers, at the latest at
    the first reading that is cancelled or past its deadline; it approves only a complete gesture made
    within the window, and it always leaves the gate discarded and the LED off. *)
Theorem confirm_terminates now0 timeout_ms long readings hw :
  0 ≤ now0 → Exists (ends now0 timeout_ms) readings →
  ∃ b pre, confirm now0 timeout_ms long readings hw = Some (b, mkUserHardware false None) ∧
    pre `prefix_of` readings ∧
    (b = true → gesture (reading_sample <$> pre) long ∧
                Forall (in_window now0 timeout_ms) (reading_sample <$> pre)).
Proof.
  intros H0 Hlate. unfold confirm, hw_begin.
  destruct (confirm_loop_ends now0 timeout_ms long readings [] true _ (gate_inv_new _ _ _ H0) Hlate)
    as (b & hw' & pre & -> & Hpre & Hb).
  by exists b, pre.
Qed.

(** ** Storage provisioning *)

(** The samples [(pressed, now)] of a provisioning gesture, in order. *)
Fixpoint gesture_run (samples : list (bool * Z)) (g : ProvisioningGesture) : ProvisioningGesture :=
  match samples with
  | [] => g
  | (pressed, now) :: samples => gesture_run samples (gesture_sample pressed now g).2
  end.

Lemma gesture_run_snoc samples s g :
  gesture_run (samples ++ [s]) g = (gesture_sample s.1 s.2 (gesture_run samples g)).2.
Proof. revert g. induction samples as [|[p t] samples IH]; intros g; [by destruct s|apply IH]. Qed.

(** What a gesture remembers of the samples. *)
Definition gesture_inv (hold : Z) (tr : list (bool * Z)) (g : ProvisioningGesture) : Prop :=
  required_hold_ms g = hold ∧
  (release_seen g = true → ∃ i t, tr !! i = Some (false, t) ∧
     match pressed_since_ms g with
     | None => S i = length tr
     | Some since => tr !! S i = Some (true, since) ∧
         ∀ k s, (i < k)%nat → tr !! k = Some s → s.1 = true
     end) ∧
  (release_seen g = false → pressed_since_ms g = None).

Lemma gesture_inv_run hold samples : gesture_inv hold samples (gesture_run samples (new_gesture hold)).
Proof.
  induction samples as [|[pressed now] tr IH] using rev_ind; [by repeat split|].
  rewrite gesture_run_snoc. cbn [fst snd]. set (g := gesture_run tr _) in *.
  destruct IH as (Hh & Hr & Hn). unfold gesture_sample. destruct pressed; cbn [negb].
  2: { repeat split; try done. intros _. exists (length tr), now.
       rewrite lookup_app_r, Nat.sub_diag by lia. split; [done|]. cbn [pressed_since_ms].
       rewrite length_app. simpl. lia. }
  destruct (release_seen g) eqn:Er; cbn [negb snd].
  - repeat split; try done. intros _. destruct (Hr eq_refl) as (i & t & Hi & Hs). exists i, t.
    split; [by apply lookup_app_l_Some|]. cbn [pressed_since_ms]. destruct (pressed_since_ms g) as [since|]; cbn [default].
    + destruct Hs as [Hs Hall]. split; [by apply lookup_app_l_Some|].
      intros k x Hk [Hx|[_ Hx]]%lookup_app_Some; [by eapply Hall|].
      by apply list_lookup_singleton_Some in Hx as [_ <-].
    + split; [by rewrite Hs, lookup_app_r, Nat.sub_diag by lia|].
      intros k x Hk [Hx|[_ Hx]]%lookup_app_Some; [apply lookup_lt_Some in Hx; lia|].
      by apply list_lookup_singleton_Some in Hx as [_ <-].
  - repeat split; try done; [|by rewrite Er]. intros Hc. congruence.
Qed.

(** Destructive provisioning is confirmed only by a fresh continuous hold: when a sample
    confirms, the button was seen released after the gesture was created, and every sample
    since was pressed, over at least the required time; a button held at boot never
    confirms, and any release restarts the hold. *)
Theorem provisioning_needs_fresh_hold hold samples now :
  0 < hold → 0 ≤ now → (gesture_sample true now (gesture_run samples (new_gesture hold))).1 = true →
  ∃ i t since, samples !! i = Some (false, t) ∧ samples !! S i = Some (true, since) ∧
    (∀ k s, (i < k)%nat → samples !! k = Some s → s.1 = true) ∧ hold ≤ now - since.
Proof.
  intros Hpos Hnow. destruct (gesture_inv_run hold samples) as (Hh & Hr & Hn).
  unfold gesture_sample. cbn [negb]. destruct (release_seen _) eqn:Er; cbn [negb fst]; [|done].
  destruct (Hr eq_refl) as (i & t & Hi & Hs). rewrite Hh. unfold u64_saturating_sub.
  destruct (pressed_since_ms _) as [since|]; simpl; intros H; bool_to_prop.
  - exists i, t, since. destruct Hs as [Hs Hall]. split; [done|]. split; [done|]. split; [done|]. lia.
  - lia.
Qed.

(** ** Witnesses *)

Definition tap : list Sample :=
  [mkSample (Some Released) 100 false; mkSample (Some Released) 130 false; mkSample None 140 false;
   mkSample (Some Pressed) 150 false].

Lemma approval_is_fresh_gesture_witness :
  ∃ g g', gate_polls tap (new_gate 100 15000 false) = Some g ∧
    poll_sample (mkSample (Some Pressed) 180 false) g = Some (Some true, g') ∧
    gesture (tap ++ [mkSample (Some Pressed) 180 false]) false ∧
    Forall (in_window 100 15000) (tap ++ [mkSample (Some Pressed) 180 false]) ∧
    clock_forward (tap ++ [mkSample (Some Pressed) 180 false]) ∧
    ∀ s', ∃ g2, poll_sample s' g' = Some (Some false, g2) ∧ phase g2 = Finished.
Proof.
  eexists _, _. split; [vm_compute; reflexivity|]. split; [vm_compute; reflexivity|].
  eapply (approval_is_fresh_gesture 100 15000 false tap (mkSample (Some Pressed) 180 false));
    [lia|vm_compute; reflexivity|vm_compute; reflexivity].
Defined.

Lemma confirm_terminates_witness :
  ∃ b pre, confirm 100 15000 false [mkReading true 200 false; mkReading true 15100 false] new_hardware
           = Some (b, mkUserHardware false None) ∧
    pre `prefix_of` [mkReading true 200 false; mkReading true 15100 false] ∧
    (b = true → gesture (reading_sample <$> pre) false ∧
                Forall (in_window 100 15000) (reading_sample <$> pre)).
Proof.
  apply (confirm_terminates 100 15000 false); [lia|]. right. left. left. vm_compute. done.
Defined.

Lemma provisioning_needs_fresh_hold_witness :
  ∃ i t since, [(true, 5); (false, 10); (true, 20)] !! i = Some (false, t) ∧
    [(true, 5); (false, 10); (true, 20)] !! S i = Some (true, since) ∧
    (∀ k s, (i < k)%nat → [(true, 5); (false, 10); (true, 20)] !! k = Some s → s.1 = true) ∧
    5000 ≤ 5020 - since.
Proof. apply (provisioning_needs_fresh_hold 5000 _ 5020); [lia|lia|reflexivity]. Defined.
