(* ===== verification/Epoch.v ===== *)
(** * The security-epoch policy and its plan

    [src/src/platform/security_epoch.rs]: when the anti-rollback counter of BLOCK0
    may be advanced, and by which bits.  [security_epoch_plan.rs]: the fixed plan
    embedded in a maintenance image, and the requests bound to it.  An array is a
    list of its length. *)

From stdpp Require Import base tactics numbers list option.
From S2P Require Import Prelude.

Definition FIELD_WORD : nat := 4.
Definition FIELD_SHIFT : Z := 11.
Definition FIELD_MASK : Z := Z.shiftl 0xffff FIELD_SHIFT.
Definition SHARED_WRITE_DISABLE : Z := Z.shiftl 1 18.

Record SlotEvidence := mkSlotEvidence {
  signature_verified : bool;
  metadata_valid : bool;
  ev_secure_version : Z;
  ev_signed_content_digest : bytes;
}.

Record ObservedState := mkObservedState {
  ob_device_digest : bytes;
  ob_bootloader_digest : bytes;
  ob_trusted_root_digest : bytes;
  ob_block0 : list Z;
  ob_running_slot : Z;
  ob_slots : list SlotEvidence;
}.

Record ApprovedPlan := mkApprovedPlan {
  ap_device_digest : bytes;
  ap_bootloader_digest : bytes;
  ap_trusted_root_digest : bytes;
  ap_expected_block0 : list Z;
  ap_qualified_image_digests : list bytes;
  ap_target_epoch : Z;
}.

Inductive PlanError :=
  | PE_Identity | PE_Bootloader | PE_TrustRoot | PE_ChangedEfuses | PE_ProtectionDisabled
  | PE_WriteProtected | PE_EpochRange | PE_NoAdvance | PE_RunningSlot | PE_UnqualifiedSlot
  | PE_ChangedImage | PE_IncompatibleSlot | PE_Readback.

Record PreparedChange := mkPreparedChange {
  pc_before : list Z;
  pc_after : list Z;
  pc_delta : Z;
  pc_target_epoch : Z;
}.

Definition target_epoch (c : PreparedChange) : Z := pc_target_epoch c.
Definition bits_to_program (c : PreparedChange) : Z := pc_delta c.
Definition program_words (c : PreparedChange) : list Z :=
  <[FIELD_WORD := Z.shiftl (pc_delta c) FIELD_SHIFT]> (replicate 8 0).
Definition recheck_before (c : PreparedChange) (block0 : list Z) : result PlanError unit :=
  if bytes_eqb block0 (pc_before c) then Ok tt else Err PE_ChangedEfuses.
Definition verify_after (c : PreparedChange) (block0 : list Z) : result PlanError unit :=
  if bytes_eqb block0 (pc_after c) then Ok tt else Err PE_Readback.

(** [block0[i]] of an array. *)
Definition word_at (words : list Z) (i : nat) : Z := nth i words 0.

Definition secure_version_raw (block0 : list Z) : Z :=
  Z.shiftr (Z.land (word_at block0 FIELD_WORD) FIELD_MASK) FIELD_SHIFT mod 0x10000.

(** The loop of [prepare] over the bits below [n]: the delta and what remains. *)
Fixpoint delta_loop (n : nat) (current remaining : Z) : Z * Z :=
  match n with
  | O => (0, remaining)
  | S n =>
      let '(delta, remaining) := delta_loop n current remaining in
      let mask := Z.shiftl 1 (Z.of_nat n) in
      if (Z.land current mask =? 0) && (0 <? remaining)
      then (Z.lor delta mask, remaining - 1) else (delta, remaining)
  end.

Fixpoint check_slots (target : Z) (digests : list bytes) (index : nat) (slots : list SlotEvidence)
  : result PlanError unit :=
  match slots with
  | [] => Ok tt
  | slot :: slots =>
      if negb (signature_verified slot) || negb (metadata_valid slot) then Err PE_UnqualifiedSlot
      else if (ev_secure_version slot <? target) || (16 <? ev_secure_version slot)
      then Err PE_IncompatibleSlot
      else if negb (bytes_eqb (ev_signed_content_digest slot) (nth index digests []))
      then Err PE_ChangedImage
      else check_slots target digests (S index) slots
  end.

Definition prepare (plan : ApprovedPlan) (observed : ObservedState) : result PlanError PreparedChange :=
  if negb (bytes_eqb (ap_device_digest plan) (ob_device_digest observed)) then Err PE_Identity
  else if negb (bytes_eqb (ap_bootloader_digest plan) (ob_bootloader_digest observed)) then Err PE_Bootloader
  else if negb (bytes_eqb (ap_trusted_root_digest plan) (ob_trusted_root_digest observed)) then Err PE_TrustRoot
  else if negb (bytes_eqb (ap_expected_block0 plan) (ob_block0 observed)) then Err PE_ChangedEfuses
  else
    let block0 := ob_block0 observed in
    let secure_boot := negb (Z.land (word_at block0 3) (Z.shiftl 1 20) =? 0) in
    let flash_crypt_count := Z.land (Z.shiftr (word_at block0 2) 18) 7 in
    if negb secure_boot || negb (count_ones 32 flash_crypt_count mod 2 =? 1) then Err PE_ProtectionDisabled
    else if negb (Z.land (word_at block0 0) SHARED_WRITE_DISABLE =? 0) then Err PE_WriteProtected
    else if 16 <? ap_target_epoch plan then Err PE_EpochRange
    else
      let current := secure_version_raw block0 in
      let count := count_ones 16 current in
      if ap_target_epoch plan <=? count then Err PE_NoAdvance
      else if 1 <? ob_running_slot observed then Err PE_RunningSlot
      else match check_slots (ap_target_epoch plan) (ap_qualified_image_digests plan) 0 (ob_slots observed) with
      | Err e => Err e
      | Ok _ =>
          let '(delta, _) := delta_loop 16 current (ap_target_epoch plan - count) in
          let after := <[FIELD_WORD := Z.lor (word_at block0 FIELD_WORD) (Z.shiftl delta FIELD_SHIFT)]> block0 in
          Ok (mkPreparedChange block0 after delta (ap_target_epoch plan))
      end.

(** ** [security_epoch_plan.rs] *)

Definition PLAN_BYTES : nat := 164.

Definition requested_images (request plan_digest : bytes) : option (option (list bytes)) :=
  if bytes_eqb request [0x13] then Some None
  else if negb (length request =? 97)%nat || negb ((byte_at request 0 =? 0x14) || (byte_at request 0 =? 0x15))
          || negb (bytes_eqb (slice request 1 33) plan_digest) then None
  else Some (Some [slice request 33 65; slice request 65 97]).

Record MaintenancePlan := mkMaintenancePlan {
  ml_device_digest : bytes;
  ml_bootloader_digest : bytes;
  ml_trusted_root_digest : bytes;
  ml_expected_block0 : list Z;
  ml_fallback_digest : bytes;
  ml_target_epoch : Z;
  ml_revision_major : Z;
  ml_revision_minor : Z;
}.

(** ["RKMPLAN1"]. *)
Definition PLAN_MAGIC : bytes := [0x52; 0x4b; 0x4d; 0x50; 0x4c; 0x41; 0x4e; 0x31].

Definition decode_plan (bs : bytes) : option MaintenancePlan :=
  if negb (length bs =? PLAN_BYTES)%nat || negb (bytes_eqb (slice bs 0 8) PLAN_MAGIC)
     || negb (byte_at bs 163 =? 0) then None
  else
    let block0 := (λ i, le_decode (slice bs (104 + 4 * i) (108 + 4 * i))) <$> seq 0 6 in
    let plan := mkMaintenancePlan (slice bs 8 40) (slice bs 40 72) (slice bs 72 104) block0
                  (slice bs 128 160) (byte_at bs 160) (byte_at bs 161) (byte_at bs 162) in
    if negb ((1 <=? ml_target_epoch plan) && (ml_target_epoch plan <=? 16))
       || negb (Z.land (word_at block0 0) (Z.shiftl 1 18) =? 0)
       || (ml_target_epoch plan <=? count_ones 16 (secure_version_raw block0))
       || existsb (bytes_eqb (zeros 32))
            [ml_device_digest plan; ml_bootloader_digest plan; ml_trusted_root_digest plan; ml_fallback_digest plan]
    then None else Some plan.

(** The encoding of a plan: the layout [decode] reads. *)
Definition encode_plan (p : MaintenancePlan) : bytes :=
  PLAN_MAGIC ++ ml_device_digest p ++ ml_bootloader_digest p ++ ml_trusted_root_digest p
  ++ concat (le_encode 4 <$> ml_expected_block0 p) ++ ml_fallback_digest p
  ++ [ml_target_epoch p; ml_revision_major p; ml_revision_minor p; 0].
