(* ===== verification/EpochPolicy.v ===== *)
(** * Facts of the epoch policy: the counter field and the delta *)

From stdpp Require Import base tactics numbers list option.
From S2P Require Import Prelude Epoch.

Lemma raw_testbit block0 k : 0 ≤ k →
  Z.testbit (secure_version_raw block0) k = (k <? 16) && Z.testbit (word_at block0 FIELD_WORD) (k + 11).
Proof.
  intros Hk. unfold secure_version_raw, FIELD_MASK, FIELD_SHIFT. change 0x10000 with (2 ^ 16).
  destruct (Z.ltb_spec k 16).
  - rewrite Z.mod_pow2_bits_low, Z.shiftr_spec, Z.land_spec, Z.shiftl_spec by lia.
    change 0xffff with (Z.ones 16). rewrite Z.ones_spec_low by lia. apply andb_true_r.
  - by rewrite Z.mod_pow2_bits_high by lia.
Qed.

Lemma raw_bound block0 : 0 ≤ secure_version_raw block0 < 2 ^ 16.
Proof. unfold secure_version_raw. apply Z.mod_pos_bound. lia. Qed.

Lemma raw_after block0 delta : (FIELD_WORD < length block0)%nat → 0 ≤ delta < 2 ^ 16 →
  secure_version_raw (<[FIELD_WORD := Z.lor (word_at block0 FIELD_WORD) (Z.shiftl delta FIELD_SHIFT)]> block0) =
  Z.lor (secure_version_raw block0) delta.
Proof.
  intros Hl Hd. apply Z.bits_inj'. intros k Hk. rewrite Z.lor_spec, !raw_testbit by done.
  unfold word_at at 1. erewrite nth_lookup_Some by (by apply list_lookup_insert_eq).
  rewrite Z.lor_spec, Z.shiftl_spec by lia. unfold FIELD_SHIFT. replace (k + 11 - 11) with k by lia.
  destruct (Z.ltb_spec k 16); [done|]. simpl. by rewrite (testbit_above 16).
Qed.

Lemma after_other block0 x i : i ≠ FIELD_WORD → word_at (<[FIELD_WORD := x]> block0) i = word_at block0 i.
Proof. intros Hi. unfold word_at. rewrite !nth_lookup, list_lookup_insert_ne by done. done. Qed.

(** ** The loop *)

Lemma land_single current n : Z.land current (Z.shiftl 1 (Z.of_nat n)) = 0 ↔ Z.testbit current (Z.of_nat n) = false.
Proof.
  rewrite Z.shiftl_1_l. split; intros E.
  - rewrite <- (andb_true_r (Z.testbit current (Z.of_nat n))).
    rewrite <- (Z.pow2_bits_true (Z.of_nat n)) by lia. by rewrite <- Z.land_spec, E, Z.bits_0.
  - apply Z.bits_inj'. intros k Hk. rewrite Z.land_spec, Z.bits_0, Z.pow2_bits_eqb by lia.
    destruct (Z.eqb_spec (Z.of_nat n) k) as [<-|]; [by rewrite E|apply andb_false_r].
Qed.

Lemma count_ones_add_bit n m d : (n ≤ m)%nat →
  count_ones n (Z.lor d (Z.shiftl 1 (Z.of_nat m))) = count_ones n d.
Proof.
  induction n as [|n IH]; intros Hn; [done|]. cbn [count_ones]. rewrite IH by lia.
  rewrite Z.lor_spec, Z.shiftl_1_l, Z.pow2_bits_eqb by lia.
  by rewrite (proj2 (Z.eqb_neq _ _)), orb_false_r by lia.
Qed.

(** The delta takes the lowest clear bits, as many as asked for while there are any. *)
Lemma delta_loop_spec n current remaining :
  0 ≤ remaining → let '(d, r) := delta_loop n current remaining in
  0 ≤ d < 2 ^ Z.of_nat n ∧ Z.land current d = 0 ∧ 0 ≤ r ∧
  r = remaining - count_ones n d ∧ (r = 0 ∨ count_ones n d = Z.of_nat n - count_ones n current).
Proof.
  intros Hr. induction n as [|n IH]; cbn [delta_loop].
  { rewrite Z.land_0_r. simpl. lia. }
  destruct (delta_loop n current remaining) as [d r]. destruct IH as (Hd & Hland & Hr0 & Hrem & Hcase).
  assert (2 ^ Z.of_nat (S n) = 2 * 2 ^ Z.of_nat n) as Hpow by (rewrite Nat2Z.inj_succ, Z.pow_succ_r; lia).
  pose proof (testbit_above (Z.of_nat n) d (Z.of_nat n) Hd ltac:(lia)) as Hdn.
  destruct (_ && _) eqn:E.
  - bool_to_prop. match goal with H : Z.land current _ = 0 |- _ => rename H into Hbit end.
    assert (Z.testbit current (Z.of_nat n) = false) as Hcn by (by apply land_single).
    assert (Z.testbit (Z.lor d (Z.shiftl 1 (Z.of_nat n))) (Z.of_nat n) = true) as Hset.
    { rewrite Z.lor_spec, Z.shiftl_1_l, Z.pow2_bits_true by lia. apply orb_true_r. }
    split; [|split; [|split; [lia|]]].
    + apply lor_bound; [lia|lia|]. rewrite Z.shiftl_1_l. lia.
    + by rewrite Z.land_lor_distr_r, Hland, Hbit.
    + cbn [count_ones]. rewrite count_ones_add_bit, Hset, Hcn by lia. simpl Z.b2z. split; [lia|].
      destruct Hcase; lia.
  - split; [lia|]. split; [done|]. split; [done|]. cbn [count_ones]. rewrite Hdn. simpl Z.b2z.
    split; [lia|]. apply andb_false_iff in E as [E|E]; bool_to_prop; [|left; lia].
    rewrite land_single in E. apply not_false_iff_true in E. rewrite E. simpl Z.b2z.
    destruct Hcase; [by left|right; lia].
Qed.

(** ** The policy *)

Definition slot_qualified (target : Z) (digest : bytes) (slot : SlotEvidence) : Prop :=
  signature_verified slot = true ∧ metadata_valid slot = true ∧
  target ≤ ev_secure_version slot ≤ 16 ∧ ev_signed_content_digest slot = digest.

Lemma check_slots_spec target digests index slots :
  check_slots target digests index slots = Ok tt ↔
  ∀ i slot, slots !! i = Some slot → slot_qualified target (nth (index + i) digests []) slot.
Proof.
  revert index. induction slots as [|slot slots IH]; intros index; [split; [done|by intros]|].
  cbn [check_slots]. split.
  - repeat case_match; try done. bool_to_prop. intros Hrest [|i] x Hx.
    + injection Hx as <-. rewrite Nat.add_0_r.
      match goal with H : bytes_eqb _ _ = true |- _ => apply bytes_eqb_true in H end. done.
    + rewrite Nat.add_succ_r. by apply (proj1 (IH (S index)) Hrest).
  - intros Hall. destruct (Hall 0%nat slot eq_refl) as (Hs & Hm & [Hlo Hhi] & Hd).
    rewrite Hs, Hm, (proj2 (Z.ltb_ge _ _) Hlo), (proj2 (Z.ltb_ge _ _) Hhi). cbn [negb orb].
    rewrite Nat.add_0_r in Hd. rewrite Hd, bytes_eqb_refl. cbn [negb].
    apply IH. intros i x Hx. specialize (Hall (S i) x Hx). by rewrite Nat.add_succ_r in Hall.
Qed.

Record approved (plan : ApprovedPlan) (observed : ObservedState) : Prop := {
  apr_device : ap_device_digest plan = ob_device_digest observed;
  apr_bootloader : ap_bootloader_digest plan = ob_bootloader_digest observed;
  apr_root : ap_trusted_root_digest plan = ob_trusted_root_digest observed;
  apr_fuses : ap_expected_block0 plan = ob_block0 observed;
  apr_secure_boot : Z.testbit (word_at (ob_block0 observed) 3) 20 = true;
  apr_encryption : count_ones 32 (Z.land (Z.shiftr (word_at (ob_block0 observed) 2) 18) 7) mod 2 = 1;
  apr_writable : Z.testbit (word_at (ob_block0 observed) 0) 18 = false;
  apr_epoch : count_ones 16 (secure_version_raw (ob_block0 observed)) < ap_target_epoch plan ≤ 16;
  apr_slot : ob_running_slot observed ≤ 1;
  apr_images : ∀ i slot, ob_slots observed !! i = Some slot →
    slot_qualified (ap_target_epoch plan) (nth i (ap_qualified_image_digests plan) []) slot;
}.

Lemma land_bit_eqb w k : 0 ≤ k → (Z.land w (Z.shiftl 1 k) =? 0) = negb (Z.testbit w k).
Proof.
  intros Hk. rewrite <- (Z2Nat.id k) by done. destruct (Z.testbit w _) eqn:E; cbn [negb].
  - apply Z.eqb_neq. rewrite land_single. congruence.
  - apply Z.eqb_eq. by apply land_single.
Qed.

Lemma prepare_approved plan observed c : prepare plan observed = Ok c → approved plan observed.
Proof.
  unfold prepare, SHARED_WRITE_DISABLE. rewrite !land_bit_eqb by lia.
  intros E. repeat (case_match; try done).
  match goal with u : unit, H : check_slots _ _ _ _ = _ |- _ => destruct u; rename H into Es end.
  bool_to_prop. repeat match goal with H : bytes_eqb _ _ = true |- _ => apply bytes_eqb_true in H end.
  split; try done; try lia. by apply (proj1 (check_slots_spec _ _ 0 _)).
Qed.

(** The change an approved plan produces. *)
Definition change_of (plan : ApprovedPlan) (observed : ObservedState) : PreparedChange :=
  let block0 := ob_block0 observed in
  let current := secure_version_raw block0 in
  let delta := (delta_loop 16 current (ap_target_epoch plan - count_ones 16 current)).1 in
  mkPreparedChange block0
    (<[FIELD_WORD := Z.lor (word_at block0 FIELD_WORD) (Z.shiftl delta FIELD_SHIFT)]> block0)
    delta (ap_target_epoch plan).

Lemma approved_prepare plan observed : approved plan observed → prepare plan observed = Ok (change_of plan observed).
Proof.
  intros [Hd Hb Hr Hf Hs He Hw Hep Hslot Hi]. unfold prepare, SHARED_WRITE_DISABLE.
  rewrite Hd, Hb, Hr, Hf, !bytes_eqb_refl. cbn [negb]. rewrite !land_bit_eqb, Hs, Hw, He by lia.
  cbn [negb orb Z.eqb Pos.eqb].
  rewrite (proj2 (Z.ltb_ge _ _)), (proj2 (Z.leb_gt _ _)), (proj2 (Z.ltb_ge _ _)) by lia.
  rewrite (proj2 (check_slots_spec _ _ 0 _)) by done. unfold change_of.
  by destruct (delta_loop _ _ _).
Qed.
