(* ===== verification/EpochTransaction.v ===== *)
(** * One counter-programming attempt

    [src/src/platform/security_epoch_transaction.rs] over the [Backend] trait, whose
    documented behaviour is [EpochView]: eFuse bits are one-way, and programming
    BLOCK0 can only burn bits staged in the data words; the other calls burn
    nothing.  A register read without coding errors returns what the last refresh
    loaded.  Staging is not trusted: the code reads it back.  [s2_epoch_programmer.rs]
    implements the trait with the ROM and the registers. *)

From stdpp Require Import base tactics numbers list option.
From S2P Require Import Prelude Epoch.

Record Snapshot := mkSnapshot { sn_block0 : list Z; sn_repeat_errors : list Z }.

(** [trait Backend].  Reads are volatile, so every call may change the device;
    [bk_stage_counter] may panic. *)
Class EpochBackend (B : Type) := {
  bk_apb_hz : B → Z * B;
  bk_idle : B → bool * B;
  bk_set_timing : B → bool * B;
  bk_refresh : B → bool * B;
  bk_snapshot : B → Snapshot * B;
  bk_clear_staging : B → B;
  bk_staging : B → list Z * B;
  bk_stage_counter : list Z → B → option B;
  bk_program_block0 : B → bool * B;
}.

Inductive TransactionError :=
  | TE_AlreadyAttempted | TE_Clock | TE_Busy | TE_Timing | TE_Refresh | TE_Coding
  | TE_State (e : PlanError) | TE_Staging | TE_Program.

Definition status_code (e : TransactionError) : Z :=
  match e with
  | TE_AlreadyAttempted => 1 | TE_Clock => 2 | TE_Busy => 3 | TE_Timing => 4 | TE_Refresh => 5
  | TE_Coding => 6 | TE_State _ => 7 | TE_Staging => 8 | TE_Program => 9
  end.

(** [read_command] is sampled twice, the second time only after a clear sample. *)
Definition controller_commands_idle {B} (read_command : B → Z * B) (b : B) : bool * B :=
  let '(first, b) := read_command b in
  if Z.land first 3 =? 0
  then let '(second, b) := read_command b in (Z.land second 3 =? 0, b)
  else (false, b).

Record Transaction (B : Type) := mkTransaction { tx_backend : B; tx_attempted : bool }.
Arguments mkTransaction {B}.
Arguments tx_backend {B}.
Arguments tx_attempted {B}.

Definition transaction_new {B} (backend : B) : Transaction B := mkTransaction backend false.

Section transaction.
Context {B : Type} `{EpochBackend B}.

Definition tx_step : Type → Type := step (Transaction B) TransactionError.

(** A call on the backend. *)
Definition on_backend {A} (f : B → A * B) : tx_step A :=
  call (λ t, let '(a, b) := f (tx_backend t) in (a, mkTransaction b (tx_attempted t))).
Definition clear_staging : tx_step unit := on_backend (λ b, (tt, bk_clear_staging b)).

Definition check_before (change : PreparedChange) (snapshot : Snapshot) : result TransactionError unit :=
  if negb (bytes_eqb (sn_repeat_errors snapshot) (zeros 5)) then Err TE_Coding
  else match recheck_before change (sn_block0 snapshot) with
       | Ok _ => Ok tt
       | Err e => Err (TE_State e)
       end.

(** [result?]. *)
Definition lift_result {A} (r : result TransactionError A) : tx_step A :=
  match r with Ok a => mret a | Err e => throw e end.

(** The checks between staging and programming: the value of [staged]. *)
Definition check_staged (change : PreparedChange) (expected : list Z)
  : tx_step (result TransactionError unit) :=
  staged ← on_backend bk_staging;
  if negb (bytes_eqb staged expected) then mret (Err TE_Staging)
  else
    idle ← on_backend bk_idle;
    if negb idle then mret (Err TE_Busy)
    else snapshot ← on_backend bk_snapshot; mret (check_before change snapshot).

(** The part of [attempt] before anything is staged. *)
Definition preflight (change : PreparedChange) : tx_step unit :=
  hz ← on_backend bk_apb_hz;
  return_if (negb (hz =? 80000000)) TE_Clock;;
  idle ← on_backend bk_idle;
  return_if (negb idle) TE_Busy;;
  timing ← on_backend bk_set_timing;
  return_if (negb timing) TE_Timing;;
  refreshed ← on_backend bk_refresh;
  return_if (negb refreshed) TE_Refresh;;
  snapshot ← on_backend bk_snapshot;
  lift_result (check_before change snapshot).

(** The part of [attempt] from the physical call on. *)
Definition program_and_verify (change : PreparedChange) : tx_step unit :=
  programmed ← on_backend bk_program_block0;
  clear_staging;;
  staged ← on_backend bk_staging;
  refreshed ← on_backend bk_refresh;
  snapshot ← on_backend bk_snapshot;
  return_if (negb (bytes_eqb staged (zeros 11))) TE_Staging;;
  return_if (negb refreshed) TE_Refresh;;
  return_if (negb (bytes_eqb (sn_repeat_errors snapshot) (zeros 5))) TE_Coding;;
  lift_result (match verify_after change (sn_block0 snapshot) with
               | Ok _ => Ok tt | Err e => Err (TE_State e) end);;
  return_if (negb programmed) TE_Program.

Definition stage (words : list Z) : tx_step unit :=
  t ← get_state;
  b ← checked (bk_stage_counter words (tx_backend t));
  put_state (mkTransaction b (tx_attempted t)).

Definition attempt (change : PreparedChange) : tx_step unit :=
  t ← get_state;
  return_if (tx_attempted t) TE_AlreadyAttempted;;
  put_state (mkTransaction (tx_backend t) true);;
  preflight change;;
  clear_staging;;
  staged ← on_backend bk_staging;
  return_if (negb (bytes_eqb staged (zeros 11))) TE_Staging;;
  let words := program_words change in
  let expected := words ++ zeros 3 in
  stage words;;
  staged ← check_staged change expected;
  match staged with
  | Err e => clear_staging;; throw e
  | Ok _ => program_and_verify change
  end.
End transaction.

(** ** What the hardware promises *)

(** Every bit of [a] is set in [b]. *)
Definition bits_in (a b : Z) : Prop := ∀ k, Z.testbit a k = true → Z.testbit b k = true.

(** Nothing but bits of [words] is burnt. *)
Definition burnt_at_most (words before after : list Z) : Prop :=
  length after = length before ∧
  ∀ i, bits_in (word_at before i) (word_at after i) ∧
       bits_in (word_at after i) (Z.lor (word_at before i) (word_at words i)).

Class EpochView (B : Type) `{EpochBackend B} := {
  (** The physical fuses of BLOCK0, the registers the last refresh loaded, the staged words. *)
  ev_fuses : B → list Z;
  ev_registers : B → list Z;
  ev_staged : B → list Z;

  ev_apb : ∀ b r b', bk_apb_hz b = (r, b') → ev_fuses b' = ev_fuses b;
  ev_idle : ∀ b r b', bk_idle b = (r, b') →
    ev_fuses b' = ev_fuses b ∧ ev_registers b' = ev_registers b ∧ ev_staged b' = ev_staged b;
  ev_timing : ∀ b r b', bk_set_timing b = (r, b') → ev_fuses b' = ev_fuses b;
  ev_refresh : ∀ b r b', bk_refresh b = (r, b') →
    ev_fuses b' = ev_fuses b ∧ (r = true → ev_registers b' = ev_fuses b);
  ev_snapshot : ∀ b s b', bk_snapshot b = (s, b') →
    ev_fuses b' = ev_fuses b ∧ ev_registers b' = ev_registers b ∧ ev_staged b' = ev_staged b ∧
    (sn_repeat_errors s = zeros 5 → sn_block0 s = ev_registers b);
  ev_clear : ∀ b, ev_fuses (bk_clear_staging b) = ev_fuses b ∧
    ev_registers (bk_clear_staging b) = ev_registers b;
  ev_staging : ∀ b w b', bk_staging b = (w, b') →
    ev_fuses b' = ev_fuses b ∧ ev_registers b' = ev_registers b ∧ ev_staged b' = ev_staged b ∧ w = ev_staged b;
  ev_stage_counter : ∀ words b b', bk_stage_counter words b = Some b' →
    ev_fuses b' = ev_fuses b ∧ ev_registers b' = ev_registers b;
  ev_stage_safe : ∀ words b, (∀ i, i ≠ FIELD_WORD → word_at words i = 0) →
    bits_in (word_at words FIELD_WORD) FIELD_MASK → ∃ b', bk_stage_counter words b = Some b';
  ev_program : ∀ b r b', bk_program_block0 b = (r, b') →
    burnt_at_most (ev_staged b) (ev_fuses b) (ev_fuses b');
}.
