(* ===== verification/EpochProgrammer.v ===== *)
(** * The ESP32-S2 eFuse adapter

    [src/src/platform/s2_epoch_programmer.rs]: [RomBackend] over the registers of the
    eFuse peripheral and the ROM calls ([Efuse]), the per-boot latch, and the proof
    that it implements the interface the transaction is verified against.
    [EfuseView] is the documented behaviour of the peripheral; [efuse_model] is a device
    that has it. *)

From stdpp Require Import base tactics numbers list option.
From S2P Require Import Prelude Epoch EpochTransaction.

(** Volatile registers at an offset from [BASE], and the ROM functions. *)
Class Efuse (D : Type) := {
  ef_read : Z → D → Z * D;
  ef_write : Z → Z → D → D;
  ef_apb_hz : D → Z * D;
  ets_efuse_set_timing : Z → D → Z * D;
  ets_efuse_read : D → Z * D;
  ets_efuse_clear_program_registers : D → D;
  ets_efuse_program : Z → D → Z * D;
}.

Definition ERROR_OFFSETS : list Z := [0x17c; 0x180; 0x184; 0x188; 0x190].

Section programmer.
Context {D : Type} `{Efuse D}.

Fixpoint read_all (offsets : list Z) (d : D) : list Z * D :=
  match offsets with
  | [] => ([], d)
  | o :: offsets =>
      let '(w, d) := ef_read o d in
      let '(ws, d) := read_all offsets d in (w :: ws, d)
  end.

Definition block0_offsets : list Z := (λ i, 0x2c + Z.of_nat i * 4) <$> seq 0 6.
Definition staging_offsets : list Z := (λ i, Z.of_nat i * 4) <$> seq 0 11.

Definition snapshot (d : D) : Snapshot * D :=
  let '(block0, d) := read_all block0_offsets d in
  let '(repeat_errors, d) := read_all ERROR_OFFSETS d in
  (mkSnapshot block0 repeat_errors, d).

(** The two assertions of [stage_counter], then one register write. *)
Definition stage_counter (words : list Z) (d : D) : option D :=
  if forallb (λ i, (i =? 4)%nat || (word_at words i =? 0)) (seq 0 (length words))
     && (Z.land (word_at words 4) (Z.lxor (Z.shiftl 0xffff 11) U32_MAX) =? 0)
  then Some (ef_write 0x10 (word_at words 4) d) else None.

#[export] Instance RomBackend : EpochBackend D := {|
  bk_apb_hz := ef_apb_hz;
  bk_idle := controller_commands_idle (ef_read 0x1d4);
  bk_set_timing := λ d, let '(hz, d) := ef_apb_hz d in
                        let '(r, d) := ets_efuse_set_timing hz d in (r =? 0, d);
  bk_refresh := λ d, let '(r, d) := ets_efuse_read d in (r =? 0, d);
  bk_snapshot := snapshot;
  bk_clear_staging := ets_efuse_clear_program_registers;
  bk_staging := read_all staging_offsets;
  bk_stage_counter := stage_counter;
  bk_program_block0 := λ d, let '(r, d) := ets_efuse_program 0 d in (r =? 0, d);
|}.

(** [attempt] with the latch [ATTEMPTED]; the exclusive section is one step here. *)
Definition programmer_attempt (change : PreparedChange) (attempted : bool) (d : D)
  : option (result TransactionError unit * bool * D) :=
  if attempted then Some (Err TE_AlreadyAttempted, true, d)
  else
    '(r, t) ← attempt change (transaction_new d);
    Some (r, true, tx_backend t).
End programmer.

(** What the peripheral promises: the fuses are burnt by [ets_efuse_program] alone, a
    read returns the register and changes nothing, and without repetition errors the
    BLOCK0 registers hold what the last successful refresh loaded. *)
Class EfuseView (D : Type) `{Efuse D} := {
  ef_fuses : D → list Z;
  ef_loaded : D → list Z;
  ef_words : D → list Z;
  ef_errors : D → list Z;
  ef_staged : D → list Z;

  ef_clean : ∀ d, ef_errors d = zeros 5 → ef_words d = ef_loaded d;
  ef_staged_length : ∀ d, length (ef_staged d) = 11%nat;
  ef_words_length : ∀ d, length (ef_words d) = 6%nat;
  ef_errors_length : ∀ d, length (ef_errors d) = 5%nat;
  ef_read_frame : ∀ o d w d', ef_read o d = (w, d') →
    ef_fuses d' = ef_fuses d ∧ ef_loaded d' = ef_loaded d ∧ ef_words d' = ef_words d ∧
    ef_errors d' = ef_errors d ∧ ef_staged d' = ef_staged d;
  ef_read_word : ∀ i d, (i < 6)%nat → (ef_read (0x2c + Z.of_nat i * 4) d).1 = word_at (ef_words d) i;
  ef_read_staged : ∀ i d, (i < 11)%nat → (ef_read (Z.of_nat i * 4) d).1 = word_at (ef_staged d) i;
  ef_read_error : ∀ i d, (i < 5)%nat → (ef_read (nth i ERROR_OFFSETS 0) d).1 = word_at (ef_errors d) i;
  ef_write_frame : ∀ o w d, ef_fuses (ef_write o w d) = ef_fuses d ∧ ef_loaded (ef_write o w d) = ef_loaded d;
  ef_apb_frame : ∀ d w d', ef_apb_hz d = (w, d') → ef_fuses d' = ef_fuses d;
  ef_timing_frame : ∀ hz d r d', ets_efuse_set_timing hz d = (r, d') → ef_fuses d' = ef_fuses d;
  ef_refresh_law : ∀ d r d', ets_efuse_read d = (r, d') →
    ef_fuses d' = ef_fuses d ∧ (r = 0 → ef_loaded d' = ef_fuses d);
  ef_clear_law : ∀ d, ef_fuses (ets_efuse_clear_program_registers d) = ef_fuses d ∧
    ef_loaded (ets_efuse_clear_program_registers d) = ef_loaded d;
  ef_program_law : ∀ d r d', ets_efuse_program 0 d = (r, d') →
    burnt_at_most (ef_staged d) (ef_fuses d) (ef_fuses d');
}.

Section view.
Context {D : Type} `{EfuseView D}.

Definition same_registers (d d' : D) : Prop :=
  ef_fuses d' = ef_fuses d ∧ ef_loaded d' = ef_loaded d ∧ ef_words d' = ef_words d ∧
  ef_errors d' = ef_errors d ∧ ef_staged d' = ef_staged d.

Lemma read_all_spec offsets (value : D → nat → Z) d e ws d' (k : nat) :
  same_registers d e →
  (∀ i o x, offsets !! i = Some o → same_registers d x → (ef_read o x).1 = value d (k + i)%nat) →
  read_all offsets e = (ws, d') →
  same_registers d d' ∧ ws = (λ i, value d i) <$> seq k (length offsets).
Proof.
  revert e ws k. induction offsets as [|o offsets IH]; intros e ws k Hde Hv; cbn [read_all].
  { by intros [= <- <-]. }
  destruct (ef_read o e) as [w e1] eqn:E. destruct (read_all offsets e1) as [ws1 e2] eqn:E2. intros [= <- <-].
  pose proof (ef_read_frame _ _ _ _ E) as (F1 & F2 & F3 & F4 & F5).
  assert (same_registers d e1) as Hde1 by (unfold same_registers in *; naive_solver congruence).
  destruct (IH e1 ws1 (S k) Hde1) as [Hs ->]; [|done|].
  - intros i o' x Hi Hx. rewrite (Hv (S i) o' x Hi Hx). by rewrite Nat.add_succ_r.
  - split; [done|]. cbn [length seq fmap list_fmap]. f_equal.
    pose proof (Hv 0%nat o e eq_refl Hde) as Hfirst. rewrite E, Nat.add_0_r in Hfirst. exact Hfirst.
Qed.

Lemma words_of_list (l : list Z) n : length l = n → (λ i, word_at l i) <$> seq 0 n = l.
Proof.
  intros <-. apply list_eq. intros i. rewrite list_lookup_fmap.
  destruct (decide (i < length l)%nat) as [Hi|Hi].
  - rewrite lookup_seq_lt by done. cbn. destruct (lookup_lt_is_Some_2 l i Hi) as [x Hx].
    rewrite Hx. unfold word_at. by rewrite (nth_lookup_Some _ _ _ _ Hx).
  - rewrite lookup_seq_ge by lia. symmetry. apply lookup_ge_None_2. lia.
Qed.

Lemma read_staging d ws d' : read_all staging_offsets d = (ws, d') → same_registers d d' ∧ ws = ef_staged d.
Proof.
  intros E. eapply (read_all_spec _ (λ d, word_at (ef_staged d)) d d _ _ 0) in E as [Hs ->]; [|done|].
  - split; [done|]. apply words_of_list, ef_staged_length.
  - intros i o e Hi (_ & _ & _ & _ & He). unfold staging_offsets in Hi.
    apply list_lookup_fmap_Some in Hi as (j & -> & Hj). apply lookup_seq in Hj as [-> Hj].
    rewrite ef_read_staged by lia. by rewrite He.
Qed.

Lemma read_block0 d ws d' : read_all block0_offsets d = (ws, d') → same_registers d d' ∧ ws = ef_words d.
Proof.
  intros E. eapply (read_all_spec _ (λ d, word_at (ef_words d)) d d _ _ 0) in E as [Hs ->]; [|done|].
  - split; [done|]. apply words_of_list, ef_words_length.
  - intros i o e Hi (_ & _ & He & _). unfold block0_offsets in Hi.
    apply list_lookup_fmap_Some in Hi as (j & -> & Hj). apply lookup_seq in Hj as [-> Hj].
    rewrite ef_read_word by lia. by rewrite He.
Qed.

Lemma read_errors d ws d' : read_all ERROR_OFFSETS d = (ws, d') → same_registers d d' ∧ ws = ef_errors d.
Proof.
  intros E. eapply (read_all_spec _ (λ d, word_at (ef_errors d)) d d _ _ 0) in E as [Hs ->]; [|done|].
  - split; [done|]. apply words_of_list, ef_errors_length.
  - intros i o e Hi (_ & _ & _ & He & _). pose proof (lookup_lt_Some _ _ _ Hi) as Hl.
    rewrite <- (nth_lookup_Some _ _ 0 _ Hi), ef_read_error by done. by rewrite He.
Qed.

Lemma snapshot_spec d s d' : snapshot d = (s, d') →
  same_registers d d' ∧ sn_block0 s = ef_words d ∧ sn_repeat_errors s = ef_errors d.
Proof.
  unfold snapshot. destruct (read_all block0_offsets d) as [ws d1] eqn:E1.
  destruct (read_all ERROR_OFFSETS d1) as [es d2] eqn:E2. intros [= <- <-].
  apply read_block0 in E1 as [S1 ->]. apply read_errors in E2 as [S2 ->].
  unfold same_registers in *. cbn [sn_block0 sn_repeat_errors]. naive_solver congruence.
Qed.

Lemma idle_frame d r d' : controller_commands_idle (ef_read 0x1d4) d = (r, d') → same_registers d d'.
Proof.
  unfold controller_commands_idle. destruct (ef_read 0x1d4 d) as [w d1] eqn:E1.
  apply ef_read_frame in E1. destruct (_ =? 0); [|by intros [= _ <-]].
  destruct (ef_read 0x1d4 d1) as [w2 d2] eqn:E2. apply ef_read_frame in E2. intros [= _ <-].
  unfold same_registers. naive_solver congruence.
Qed.

Lemma stage_counter_safe words d :
  (∀ i, i ≠ FIELD_WORD → word_at words i = 0) → bits_in (word_at words FIELD_WORD) FIELD_MASK →
  ∃ d', stage_counter words d = Some d'.
Proof.
  intros Hz Hb. unfold stage_counter.
  assert (forallb (λ i, (i =? 4)%nat || (word_at words i =? 0)) (seq 0 (length words)) = true) as ->.
  { apply forallb_forall. intros i _. destruct (Nat.eqb_spec i 4); [done|]. simpl. apply Z.eqb_eq. by apply Hz. }
  assert (Z.land (word_at words 4) (Z.lxor (Z.shiftl 0xffff 11) U32_MAX) = 0) as ->; [|by eexists].
  apply Z.bits_inj'. intros k Hk. rewrite Z.land_spec, Z.bits_0, Z.lxor_spec.
  destruct (Z.testbit (word_at words 4) k) eqn:E; [|done].
  pose proof (Hb k E) as Hm. unfold FIELD_MASK, FIELD_SHIFT in Hm. rewrite Hm.
  change U32_MAX with (Z.ones 32). rewrite Z.shiftl_spec in Hm by done.
  destruct (Z.ltb_spec k 32); [by rewrite Z.ones_spec_low by lia|].
  change 0xffff with (Z.ones 16) in Hm. rewrite Z.ones_spec_high in Hm by lia. done.
Qed.

#[export] Program Instance rom_epoch_view : EpochView D := {|
  ev_fuses := ef_fuses; ev_registers := ef_loaded; ev_staged := ef_staged;
|}.
Next Obligation. intros d r d' E. by eapply ef_apb_frame. Qed.
Next Obligation. intros d r d' E. apply idle_frame in E. unfold same_registers in E. naive_solver. Qed.
Next Obligation.
  intros d r d' E. cbn in E. destruct (ef_apb_hz d) as [hz d1] eqn:E1. destruct (ets_efuse_set_timing hz d1) as [x d2] eqn:E2.
  injection E as _ <-. apply ef_apb_frame in E1. apply ef_timing_frame in E2. congruence.
Qed.
Next Obligation.
  intros d r d' E. cbn in E. destruct (ets_efuse_read d) as [x d1] eqn:E1. injection E as <- <-.
  apply ef_refresh_law in E1 as [F L]. split; [done|]. intros Hx. by apply L, Z.eqb_eq.
Qed.
Next Obligation.
  intros d s d' E. apply snapshot_spec in E as ((F1 & F2 & F3 & F4 & F5) & Hw & He).
  repeat split; try done. intros Hz. rewrite Hw. apply ef_clean. congruence.
Qed.
Next Obligation. intros d. apply ef_clear_law. Qed.
Next Obligation. intros d w d' E. apply read_staging in E as [(F1 & F2 & F3 & F4 & F5) ->]. done. Qed.
Next Obligation.
  intros words d d' E. cbn in E. unfold stage_counter in E. destruct (_ && _); [|done]. injection E as <-.
  apply ef_write_frame.
Qed.
Next Obligation. intros words d Hz Hb. by apply stage_counter_safe. Qed.
Next Obligation.
  intros d r d' E. cbn in E. destruct (ets_efuse_program 0 d) as [x d1] eqn:E1. injection E as <- <-.
  by apply (ef_program_law d x).
Qed.
End view.

(** ** A device

    Every word of BLOCK0 holds 32 bits; programming burns the staged bits. *)

Record efuse_model := mkEfuseModel { m_fuses : list Z; m_loaded : list Z; m_staged : list Z }.

Definition m_read (o : Z) (d : efuse_model) : Z :=
  if (o <? 0x2c) then word_at (m_staged d) (Z.to_nat (o / 4))
  else if (o <? 0x44) then word_at (m_loaded d) (Z.to_nat ((o - 0x2c) / 4)) else 0.
Definition burn (fuses staged : list Z) : list Z :=
  (λ i, Z.lor (word_at fuses i) (word_at staged i)) <$> seq 0 6.
Definition fit (n : nat) (l : list Z) : list Z := (λ i, word_at l i) <$> seq 0 n.

#[export] Instance efuse : Efuse efuse_model := {|
  ef_read := λ o d, (m_read o d, d);
  ef_write := λ o w d, mkEfuseModel (m_fuses d) (m_loaded d) (<[Z.to_nat (o / 4) := w]> (m_staged d));
  ef_apb_hz := λ d, (80000000, d);
  ets_efuse_set_timing := λ _ d, (0, d);
  ets_efuse_read := λ d, (0, mkEfuseModel (m_fuses d) (m_fuses d) (m_staged d));
  ets_efuse_clear_program_registers := λ d, mkEfuseModel (m_fuses d) (m_loaded d) (zeros 11);
  ets_efuse_program := λ _ d, (0, mkEfuseModel (burn (m_fuses d) (m_staged d)) (m_loaded d) (m_staged d));
|}.

Lemma word_at_fit n l i : (i < n)%nat → word_at (fit n l) i = word_at l i.
Proof.
  intros Hi. unfold word_at at 1, fit.
  by rewrite (nth_lookup_Some _ _ _ (word_at l i)) by (rewrite list_lookup_fmap, lookup_seq_lt by done; done).
Qed.

Lemma word_at_fit_out n l i : (n ≤ i)%nat → word_at (fit n l) i = 0.
Proof. intros Hi. unfold word_at, fit. by rewrite nth_overflow by (rewrite length_fmap, length_seq; done). Qed.

Lemma length_fit n l : length (fit n l) = n.
Proof. unfold fit. by rewrite length_fmap, length_seq. Qed.

Lemma burn_fit fuses staged i : (i < 6)%nat →
  word_at (fit 6 (burn fuses staged)) i = Z.lor (word_at (fit 6 fuses) i) (word_at (fit 11 staged) i).
Proof.
  intros Hi. rewrite !word_at_fit by lia. unfold burn, word_at at 1.
  by rewrite (nth_lookup_Some _ _ _ (Z.lor (word_at fuses i) (word_at staged i)))
    by (rewrite list_lookup_fmap, lookup_seq_lt by done; done).
Qed.

#[export] Program Instance efuse_view : EfuseView efuse_model := {|
  ef_fuses := λ d, fit 6 (m_fuses d); ef_loaded := λ d, fit 6 (m_loaded d);
  ef_words := λ d, fit 6 (m_loaded d); ef_errors := λ _, zeros 5; ef_staged := λ d, fit 11 (m_staged d);
|}.
Next Obligation. done. Qed.
Next Obligation. intros d. apply length_fit. Qed.
Next Obligation. intros d. apply length_fit. Qed.
Next Obligation. done. Qed.
Next Obligation. by intros o d w d' [= _ <-]. Qed.
Next Obligation. intros i d Hi. do 6 (destruct i as [|i]; [done|]). lia. Qed.
Next Obligation. intros i d Hi. do 11 (destruct i as [|i]; [done|]). lia. Qed.
Next Obligation. intros i d Hi. do 5 (destruct i as [|i]; [done|]). lia. Qed.
Next Obligation. done. Qed.
Next Obligation. by intros d w d' [= _ <-]. Qed.
Next Obligation. by intros hz d r d' [= _ <-]. Qed.
Next Obligation. by intros d r d' [= _ <-]. Qed.
Next Obligation. done. Qed.
Next Obligation.
  intros d r d' [= _ <-].
  change (burnt_at_most (fit 11 (m_staged d)) (fit 6 (m_fuses d)) (fit 6 (burn (m_fuses d) (m_staged d)))).
  split; [done|]. intros i. destruct (decide (i < 6)%nat) as [Hi|Hi].
  - rewrite burn_fit by done. split; intros k Hk; [|done]. by rewrite Z.lor_spec, Hk.
  - rewrite !(word_at_fit_out 6) by lia. split; intros k Hk; by rewrite Z.testbit_0_l in Hk.
Qed.
