(* ===== verification/EpochTheorems.v ===== *)
(** * What the epoch change guarantees *)

From stdpp Require Import base tactics numbers list option.
From S2P Require Import Prelude Epoch EpochTransaction EpochPolicy EpochProgrammer.

Lemma change_delta plan observed : approved plan observed →
  let c := change_of plan observed in
  0 ≤ pc_delta c < 2 ^ 16 ∧ Z.land (secure_version_raw (ob_block0 observed)) (pc_delta c) = 0 ∧
  count_ones 16 (secure_version_raw (ob_block0 observed)) + count_ones 16 (pc_delta c) = ap_target_epoch plan.
Proof.
  intros [_ _ _ _ _ _ _ Hep _ _]. set (current := secure_version_raw (ob_block0 observed)) in *.
  unfold change_of. cbn [pc_delta]. fold current.
  pose proof (delta_loop_spec 16 current (ap_target_epoch plan - count_ones 16 current) ltac:(lia)) as Hd.
  destruct (delta_loop 16 current _) as [d r]. cbn [fst].
  destruct Hd as (Hd & Hland & Hr & Hrem & Hcase). split; [exact Hd|]. split; [done|].
  change (Z.of_nat 16) with 16 in Hcase. lia.
Qed.

(** C28: A counter change is prepared exactly when the policy approves it: the plan names this
    device, bootloader, root and BLOCK0, secure boot and flash encryption are on, the
    field is writable, the target is an advance within sixteen, and both slots hold
    the qualified images with a secure version that still boots after the change.
    The change then sets exactly the missing bits of the counter, nothing else in
    BLOCK0, and the counter reads the target afterwards. *)
Theorem prepare_exact plan observed :
  length (ob_block0 observed) = 6%nat →
  ((∃ c, prepare plan observed = Ok c) ↔ approved plan observed) ∧
  ∀ c, prepare plan observed = Ok c →
    pc_before c = ob_block0 observed ∧ length (pc_after c) = 6%nat ∧
    (∀ i, i ≠ FIELD_WORD → word_at (pc_after c) i = word_at (pc_before c) i ∧ word_at (program_words c) i = 0) ∧
    word_at (pc_after c) FIELD_WORD =
      Z.lor (word_at (pc_before c) FIELD_WORD) (word_at (program_words c) FIELD_WORD) ∧
    secure_version_raw (pc_after c) = Z.lor (secure_version_raw (pc_before c)) (bits_to_program c) ∧
    Z.land (secure_version_raw (pc_before c)) (bits_to_program c) = 0 ∧
    count_ones 16 (secure_version_raw (pc_after c)) = target_epoch c ∧
    ∀ i slot, ob_slots observed !! i = Some slot → target_epoch c ≤ ev_secure_version slot ≤ 16.
Proof.
  intros Hlen. split.
  { split; [intros [c Hc]; by eapply prepare_approved|]. intros Ha. eexists. by apply approved_prepare. }
  intros c Hc. pose proof (prepare_approved _ _ _ Hc) as Ha. rewrite (approved_prepare _ _ Ha) in Hc.
  injection Hc as <-. destruct (change_delta plan observed Ha) as (Hd & Hland & Hcount).
  set (c := change_of plan observed) in *. change (pc_before c) with (ob_block0 observed).
  assert (FIELD_WORD < length (ob_block0 observed))%nat as Hw by (rewrite Hlen; unfold FIELD_WORD; lia).
  assert (secure_version_raw (pc_after c) = Z.lor (secure_version_raw (ob_block0 observed)) (pc_delta c)) as Hafter
    by (by apply raw_after).
  split; [done|]. split; [cbn; by rewrite length_insert|]. split; [|split].
  - intros i Hi. split; [by apply after_other|]. unfold program_words. rewrite after_other by done.
    unfold word_at. do 9 (destruct i as [|i]; [done|]). by destruct i.
  - unfold word_at at 1 3. cbn [pc_after c change_of].
    erewrite !nth_lookup_Some by (apply list_lookup_insert_eq; simpl; lia || done). done.
  - split; [done|]. split; [done|]. split.
    + rewrite Hafter, count_ones_lor by done. unfold target_epoch. cbn [c change_of pc_target_epoch]. exact Hcount.
    + intros i slot Hs. by destruct (apr_images _ _ Ha i slot Hs) as (_ & _ & ? & _).
Qed.

(** ** The transaction *)

Section transaction.
Context {B : Type} `{EpochView B}.

Lemma burnt_refl words before : burnt_at_most words before before.
Proof. split; [done|]. intros i. split; [by intros k|]. intros k Hk. by rewrite Z.lor_spec, Hk. Qed.

Definition fuses (t : Transaction B) : list Z := ev_fuses (tx_backend t).

Lemma wp_on_backend {A} (f : B → A * B) (Q : result TransactionError A → Transaction B → Prop) t :
  (∀ a b, f (tx_backend t) = (a, b) → Q (Ok a) (mkTransaction b (tx_attempted t))) →
  wp (on_backend f) Q t.
Proof.
  intros HQ. apply wp_call. intros a t' E. destruct (f (tx_backend t)) as [a' b] eqn:Ef.
  injection E as <- <-. by apply HQ.
Qed.

Definition untouched (r : result TransactionError unit) (f : list Z) (t' : Transaction B) : Prop :=
  tx_attempted t' = true ∧ fuses t' = f.

Lemma check_before_Ok change s : check_before change s = Ok tt →
  sn_repeat_errors s = zeros 5 ∧ sn_block0 s = pc_before change.
Proof.
  unfold check_before, recheck_before. destruct (bytes_eqb (sn_repeat_errors s) (zeros 5)) eqn:E1; [|done].
  destruct (bytes_eqb (sn_block0 s) (pc_before change)) eqn:E2; [|done].
  by apply bytes_eqb_true in E1, E2.
Qed.

Lemma preflight_wp change t : tx_attempted t = true →
  wp (preflight change) (λ r t', untouched r (fuses t) t' ∧
    (r = Ok tt → fuses t = pc_before change)) t.
Proof.
  intros Hat. unfold preflight, untouched, fuses. destruct t as [b at_]. cbn [tx_backend tx_attempted] in *. subst at_.
  apply wp_bind, wp_on_backend. intros hz b1 E1. apply ev_apb in E1. cbn [tx_backend tx_attempted] in *.
  apply wp_bind, wp_return_if; intros _; [cbn; naive_solver|].
  apply wp_bind, wp_on_backend. intros i b2 E2. apply ev_idle in E2 as (E2 & _). cbn [tx_backend tx_attempted] in *.
  apply wp_bind, wp_return_if; intros _; [cbn; naive_solver congruence|].
  apply wp_bind, wp_on_backend. intros i3 b3 E3. apply ev_timing in E3. cbn [tx_backend tx_attempted] in *.
  apply wp_bind, wp_return_if; intros _; [cbn; naive_solver congruence|].
  apply wp_bind, wp_on_backend. intros i4 b4 E4. apply ev_refresh in E4 as (E4 & R4). cbn [tx_backend tx_attempted] in *.
  apply wp_bind, wp_return_if; intros Hr; [cbn; naive_solver congruence|]. apply negb_false_iff in Hr.
  apply wp_bind, wp_on_backend. intros s b5 E5. apply ev_snapshot in E5 as (E5 & _ & _ & S5).
  cbn [tx_backend tx_attempted] in *.
  unfold lift_result. destruct (check_before change s) as [[]|e] eqn:Ec; cbn; (split; [split; [done|congruence]|]); [|done].
  intros _. apply check_before_Ok in Ec as [Er Eb]. rewrite <- Eb, (S5 Er), (R4 Hr). congruence.
Qed.

Lemma check_staged_wp change expected t :
  wp (check_staged change expected) (λ r t', ∃ s, r = Ok s ∧ tx_attempted t' = tx_attempted t ∧ fuses t' = fuses t ∧
    (s = Ok tt → ev_staged (tx_backend t') = expected)) t.
Proof.
  unfold check_staged, fuses. apply wp_bind, wp_on_backend.
  intros w b E. apply ev_staging in E as (E1 & _ & E3 & E4). cbn [tx_backend tx_attempted].
  destruct (bytes_eqb w expected) eqn:Ew; cbn [negb]; [|apply wp_ret; eexists; cbn; split_and!; done].
  apply bytes_eqb_true in Ew. apply wp_bind, wp_on_backend. intros i b2 Ei. cbn [tx_backend tx_attempted] in *.
  apply ev_idle in Ei as (F1 & _ & F3).
  destruct i; cbn [negb]; [|apply wp_ret; eexists; cbn; split_and!; [done..|congruence|done]].
  apply wp_bind, wp_on_backend. intros s b3 Es. cbn [tx_backend tx_attempted] in *.
  apply ev_snapshot in Es as (G1 & _ & G3 & _). apply wp_ret. eexists. cbn. split_and!; [done..|congruence|].
  intros _. congruence.
Qed.

Lemma program_wp change t :
  tx_attempted t = true → ev_staged (tx_backend t) = program_words change ++ zeros 3 →
  wp (program_and_verify change) (λ r t', tx_attempted t' = true ∧
    burnt_at_most (program_words change) (fuses t) (fuses t') ∧
    (r = Ok tt → fuses t' = pc_after change)) t.
Proof.
  intros Hat Hst. unfold program_and_verify, fuses, burnt_at_most. destruct t as [b at_].
  cbn [tx_backend tx_attempted] in *. subst at_.
  apply wp_bind, wp_on_backend. intros p b1 E1. apply ev_program in E1 as [Hlen Hbits]. cbn [tx_backend tx_attempted] in *.
  assert (∀ i, word_at (program_words change ++ zeros 3) i = word_at (program_words change) i) as Hw.
  { intros i. unfold word_at, program_words, FIELD_WORD, zeros.
    do 8 (destruct i as [|i]; [done|]). do 3 (destruct i as [|i]; [done|]). by destruct i. }
  assert (length (ev_fuses b1) = length (ev_fuses b) ∧ ∀ i, bits_in (word_at (ev_fuses b) i) (word_at (ev_fuses b1) i) ∧
    bits_in (word_at (ev_fuses b1) i) (Z.lor (word_at (ev_fuses b) i) (word_at (program_words change) i))) as Hb.
  { split; [done|]. intros i. rewrite <- Hw, <- Hst. apply Hbits. }
  clear Hbits Hlen. apply wp_bind, wp_on_backend. intros u b2 [= _ <-]. cbn [tx_backend tx_attempted].
  destruct (ev_clear b1) as [C1 _]. set (b2 := bk_clear_staging b1) in *.
  apply wp_bind, wp_on_backend. intros w b3 E3. apply ev_staging in E3 as (E3 & _). cbn [tx_backend tx_attempted] in *.
  apply wp_bind, wp_on_backend. intros r b4 E4. apply ev_refresh in E4 as (E4 & R4). cbn [tx_backend tx_attempted] in *.
  apply wp_bind, wp_on_backend. intros s b5 E5. apply ev_snapshot in E5 as (E5 & _ & _ & S5). cbn [tx_backend tx_attempted] in *.
  assert (ev_fuses b5 = ev_fuses b1) as Hf by congruence. rewrite <- Hf in Hb.
  apply wp_bind, wp_return_if; intros _; [cbn; naive_solver|].
  apply wp_bind, wp_return_if; intros Hr; [cbn; naive_solver|]. apply negb_false_iff in Hr.
  apply wp_bind, wp_return_if; intros He; [cbn; naive_solver|]. apply negb_false_iff, bytes_eqb_true in He.
  unfold verify_after. destruct (bytes_eqb (sn_block0 s) (pc_after change)) eqn:Ev; cbn [lift_result].
  - apply wp_bind, wp_ret, wp_return_if; intros _; cbn; (split; [done|]; split; [done|]); [done|].
    intros _. apply bytes_eqb_true in Ev. rewrite <- Ev, (S5 He), (R4 Hr). congruence.
  - apply wp_bind, wp_throw. cbn. naive_solver.
Qed.

Definition counter_words (change : PreparedChange) : Prop :=
  (∀ i, i ≠ FIELD_WORD → word_at (program_words change) i = 0) ∧
  bits_in (word_at (program_words change) FIELD_WORD) FIELD_MASK.

Lemma attempt_spec change t :
  counter_words change →
  ∃ r t', attempt change t = Some (r, t') ∧ tx_attempted t' = true ∧
    burnt_at_most (program_words change) (fuses t) (fuses t') ∧
    (fuses t' ≠ fuses t → tx_attempted t = false ∧ fuses t = pc_before change) ∧
    (r = Ok tt → fuses t = pc_before change ∧ fuses t' = pc_after change) ∧
    (tx_attempted t = true → r = Err TE_AlreadyAttempted ∧ t' = t).
Proof.
  intros [Hzero Hfield].
  set (Q := λ (r : result TransactionError unit) t', tx_attempted t' = true ∧
    burnt_at_most (program_words change) (fuses t) (fuses t') ∧
    (fuses t' ≠ fuses t → tx_attempted t = false ∧ fuses t = pc_before change) ∧
    (r = Ok tt → fuses t = pc_before change ∧ fuses t' = pc_after change) ∧
    (tx_attempted t = true → r = Err TE_AlreadyAttempted ∧ t' = t)).
  enough (wp (attempt change) Q t) as Hw by (destruct (wp_elim _ _ _ Hw) as (r & t' & E & HQ); by exists r, t').
  unfold attempt. apply wp_bind, wp_get, wp_bind, wp_return_if; intros Hat.
  { split; [done|]. split; [apply burnt_refl|]. naive_solver. }
  assert (∀ e t', tx_attempted t' = true → fuses t' = fuses t → Q (Err e) t') as Hsame.
  { intros e t' Ht Hf. unfold Q. rewrite Hf. split; [done|]. split; [apply burnt_refl|]. naive_solver congruence. }
  apply wp_bind, wp_put, wp_bind. eapply wp_mono; [by apply preflight_wp|].
  intros [[]|e] t1 [[Ht1 Hf1] Hpre]; [|by apply Hsame]. specialize (Hpre eq_refl).
  change (fuses (mkTransaction (tx_backend t) true)) with (fuses t) in Hf1, Hpre. rewrite <- Hf1 in Hpre.
  apply wp_bind, wp_on_backend. intros u b [= _ <-]. destruct (ev_clear (tx_backend t1)) as [C1 _].
  apply wp_bind, wp_on_backend. intros w b2 E2. apply ev_staging in E2 as (E2 & _). cbn [tx_backend tx_attempted] in *.
  apply wp_bind, wp_return_if; intros _; [apply Hsame; [done|]; unfold fuses in *; cbn; congruence|].
  destruct (ev_stage_safe (program_words change) b2 Hzero Hfield) as [b3 E3].
  apply wp_bind, wp_bind, wp_get, wp_bind. eapply wp_checked; [exact E3|].
  apply wp_put. apply ev_stage_counter in E3 as (E3 & _). cbn [tx_attempted].
  set (t3 := mkTransaction b3 _). assert (fuses t3 = fuses t) as Hf3 by (unfold fuses in *; cbn; congruence).
  apply wp_bind. eapply wp_mono; [apply check_staged_wp|].
  intros r t4 (s & -> & Ht4 & Hf4 & Hst). rewrite Hf3 in Hf4. cbn in Ht4.
  destruct s as [[]|e].
  - eapply wp_mono; [apply program_wp; [by rewrite Ht4|by apply Hst]|].
    intros r t5 (Ht5 & Hb & Hok). rewrite Hf4 in Hb. split; [done|]. split; [done|]. split; [naive_solver congruence|].
    split; [naive_solver congruence|congruence].
  - apply wp_bind, wp_on_backend. intros u' b5 [= _ <-]. apply wp_throw.
    destruct (ev_clear (tx_backend t4)) as [C5 _]. apply Hsame; [by cbn; rewrite Ht4|]. unfold fuses in *. cbn. congruence.
Qed.

(** C27: One attempt, whatever the hardware answers: it never panics, it never attempts
    twice, and the fuses end as they were or with nothing burnt but bits of the prepared
    delta; they are touched only if BLOCK0 was just read back as the plan
    expected.  It reports success only if BLOCK0 holds exactly the planned value. *)
Theorem attempt_burns_only_delta change t :
  counter_words change →
  ∃ r t', attempt change t = Some (r, t') ∧ tx_attempted t' = true ∧
    burnt_at_most (program_words change) (fuses t) (fuses t') ∧
    (fuses t' ≠ fuses t → tx_attempted t = false ∧ fuses t = pc_before change) ∧
    (r = Ok tt → fuses t = pc_before change ∧ fuses t' = pc_after change) ∧
    (tx_attempted t = true → r = Err TE_AlreadyAttempted ∧ t' = t).
Proof. apply attempt_spec. Qed.
End transaction.

Lemma prepare_counter_words plan observed c :
  length (ob_block0 observed) = 6%nat → prepare plan observed = Ok c → counter_words c.
Proof.
  intros Hlen Hc. pose proof (prepare_approved _ _ _ Hc) as Ha. rewrite (approved_prepare _ _ Ha) in Hc.
  injection Hc as <-. destruct (change_delta plan observed Ha) as (Hd & _ & _).
  split.
  - intros i Hi. unfold program_words. rewrite after_other by done.
    unfold word_at. do 9 (destruct i as [|i]; [done|]). by destruct i.
  - unfold program_words, word_at, FIELD_MASK, FIELD_SHIFT. cbn [replicate FIELD_WORD insert list_insert nth].
    intros k Hk. destruct (Z.ltb_spec k 0); [by rewrite Z.testbit_neg_r in Hk by lia|].
    rewrite Z.shiftl_spec in * by lia. change 0xffff with (Z.ones 16).
    destruct (Z.ltb_spec (k - 11) 0); [by rewrite Z.testbit_neg_r in Hk by lia|].
    destruct (Z.ltb_spec (k - 11) 16); [by apply Z.ones_spec_low|].
    by rewrite (testbit_above 16) in Hk by lia.
Qed.

(** ** Witnesses: a device at epoch 0, and a plan to advance it to 4 *)

Definition sample_block0 : list Z :=
  [0x100; 0xa5; 0x1234 + Z.shiftl 7 18; 0x42 + Z.shiftl 1 20; 0x80000001; 0x5678].
Definition sample_plan : ApprovedPlan :=
  mkApprovedPlan (replicate 32 1) (replicate 32 2) (replicate 32 3) sample_block0
    [replicate 32 4; replicate 32 4] 4.
Definition sample_slot : SlotEvidence := mkSlotEvidence true true 16 (replicate 32 4).
Definition sample_observed : ObservedState :=
  mkObservedState (replicate 32 1) (replicate 32 2) (replicate 32 3) sample_block0 0 [sample_slot; sample_slot].
Definition sample_change : PreparedChange := change_of sample_plan sample_observed.

Example sample_prepared : prepare sample_plan sample_observed = Ok sample_change ∧ bits_to_program sample_change = 0xf.
Proof. split; vm_compute; reflexivity. Qed.

Lemma prepare_exact_witness :
  prepare sample_plan sample_observed = Ok sample_change ∧
  word_at (pc_after sample_change) FIELD_WORD = Z.lor 0x80000001 (word_at (program_words sample_change) FIELD_WORD).
Proof.
  split; [vm_compute; reflexivity|].
  destruct (prepare_exact sample_plan sample_observed eq_refl) as [_ Hall].
  destruct (Hall sample_change) as (_ & _ & _ & Hw & _); [vm_compute; reflexivity|exact Hw].
Defined.

Definition sample_device : efuse_model := mkEfuseModel sample_block0 (zeros 6) (zeros 11).

Lemma attempt_burns_only_delta_witness :
  ∃ r t', attempt sample_change (transaction_new sample_device) = Some (r, t') ∧ tx_attempted t' = true ∧
    burnt_at_most (program_words sample_change) (fuses (transaction_new sample_device)) (fuses t') ∧
    (fuses t' ≠ fuses (transaction_new sample_device) →
       false = false ∧ fuses (transaction_new sample_device) = pc_before sample_change) ∧
    (r = Ok tt → fuses (transaction_new sample_device) = pc_before sample_change ∧ fuses t' = pc_after sample_change) ∧
    (false = true → r = Err TE_AlreadyAttempted ∧ t' = transaction_new sample_device).
Proof.
  apply (attempt_burns_only_delta sample_change (transaction_new sample_device)).
  by apply (prepare_counter_words sample_plan sample_observed); [|vm_compute].
Defined.

(** On this device the attempt succeeds. *)
Example sample_attempt :
  match attempt sample_change (transaction_new sample_device) with
  | Some (Ok _, t) => fuses t = pc_after sample_change
  | _ => False
  end.
Proof. vm_compute. reflexivity. Qed.
