(* ===== verification/EpochMaintenance.v ===== *)
(** * Maintenance requests

    [src/src/platform/security_epoch_maintenance.rs]: inspect, rehearse and program
    a counter change, over the flash of the release backend, the eFuse adapter, the
    presence loop and the embedded plan. *)

From stdpp Require Import base tactics numbers list option.
From S2P Require Import Prelude Interfaces SignedImage Ota Presence Epoch EpochTransaction EpochProgrammer.

Definition INSPECT : Z := 0x13.
Definition PROGRAM : Z := 0x14.
Definition REHEARSE : Z := 0x15.

#[export] Instance QualifiedLayout_eq_dec : EqDecision QualifiedLayout.
Proof. solve_decision. Defined.

(** [Error]; the transaction's status code goes to the response with it. *)
Inductive MaintenanceError :=
  | ME_Request | ME_Busy | ME_Plan | ME_Image | ME_Presence | ME_Transaction (status : Z)
  | ME_Binding | ME_Cancelled.
Definition maintenance_code (e : MaintenanceError) : Z :=
  match e with
  | ME_Request => 1 | ME_Busy => 2 | ME_Plan => 3 | ME_Image => 4 | ME_Presence => 5
  | ME_Transaction _ => 6 | ME_Binding => 7 | ME_Cancelled => 8
  end.

(** What maintenance needs of the flash beside [ImageReader]: [ota::qualified_layout]
    and the raw SPI read of [esp_storage], 256 words at a time. *)
Class MaintenanceFlash (F : Type) := {
  mf_qualified_layout : F → option QualifiedLayout * F;
  mf_spiflash_read : Z → F → option (list Z) * F;
}.

(** Constants of the chip and of the build. *)
Record Platform := mkPlatform {
  pl_scope : bytes;
  pl_root : bytes;
  pl_mac : bytes;
  pl_revision_major : Z;
  pl_revision_minor : Z;
  pl_apb_hz : Z;
}.

Record Qualified := mkQualified {
  qf_change : PreparedChange;
  qf_layout : QualifiedLayout;
  qf_raw : Z;
}.

Section maintenance.
Context `{Sha256} {F D : Type} `{ImageReader F} `{MaintenanceFlash F} `{Efuse D}.

Record World := mkWorld {
  w_flash : F;
  w_efuse : D;
  w_attempted : bool;
  w_hardware : UserHardware;
}.

Definition m_step : Type → Type := step World MaintenanceError.

Definition on_flash {A} (f : F → A * F) (w : World) : A * World :=
  let '(a, s) := f (w_flash w) in (a, mkWorld s (w_efuse w) (w_attempted w) (w_hardware w)).
Definition on_efuse {A} (f : D → A * D) (w : World) : A * World :=
  let '(a, d) := f (w_efuse w) in (a, mkWorld (w_flash w) d (w_attempted w) (w_hardware w)).

(** [call(..).map_err(|_| e)?] for a call that can panic on its own state. *)
Definition flash_step {E A} (c : step F E A) (e : MaintenanceError) : m_step A := λ w,
  match c (w_flash w) with
  | Some (Ok a, s) => Some (Ok a, mkWorld s (w_efuse w) (w_attempted w) (w_hardware w))
  | Some (Err _, s) => Some (Err e, mkWorld s (w_efuse w) (w_attempted w) (w_hardware w))
  | None => None
  end.

Fixpoint hash_bootloader (offsets : list Z) (h : hasher) : m_step hasher :=
  match offsets with
  | [] => mret h
  | offset :: offsets =>
      words ← call_or (on_flash (mf_spiflash_read offset)) ME_Binding;
      hash_bootloader offsets (hasher_update h (concat (le_encode 4 <$> words)))
  end.
(** [(0x1000..0xd000).step_by(1024)]. *)
Definition bootloader_offsets : list Z := (λ i, 0x1000 + 1024 * Z.of_nat i) <$> seq 0 48.
Definition bootloader_ciphertext_digest : m_step bytes :=
  h ← hash_bootloader bootloader_offsets hasher_new;
  mret (hasher_finalize h).

Fixpoint qualify_slots (slots : list Z) (root : bytes) : m_step (list SlotEvidence) :=
  match slots with
  | [] => mret []
  | slot :: slots =>
      image ← flash_step (verify_installed_slot slot root) ME_Image;
      rest ← qualify_slots slots root;
      mret (mkSlotEvidence true true (vi_secure_version image) (vi_signed_content_digest image) :: rest)
  end.

Definition snapshot_eqb (a b : Snapshot) : bool :=
  bytes_eqb (sn_block0 a) (sn_block0 b) && bytes_eqb (sn_repeat_errors a) (sn_repeat_errors b).

Definition qualify (p : Platform) (expected : option (list bytes)) : m_step Qualified :=
  scope ← ok_or (decode_plan (pl_scope p)) ME_Plan;
  return_if (negb (pl_revision_major p =? ml_revision_major scope)
             || negb (pl_revision_minor p =? ml_revision_minor scope)) ME_Binding;;
  before ← call (on_efuse snapshot);
  return_if (negb (bytes_eqb (sn_repeat_errors before) (zeros 5))) ME_Binding;;
  layout ← call_or (on_flash mf_qualified_layout) ME_Image;
  slots ← qualify_slots [0; 1] (pl_root p);
  other ← checked (if running_slot layout <=? 1 then Some (1 - running_slot layout) else None);
  fallback ← checked (slots !! Z.to_nat other);
  return_if (negb (bytes_eqb (ev_signed_content_digest fallback) (ml_fallback_digest scope))) ME_Binding;;
  bootloader_digest ← bootloader_ciphertext_digest;
  let observed := mkObservedState (sha256 (pl_mac p)) bootloader_digest (pl_root p)
                    (sn_block0 before) (running_slot layout) slots in
  let plan := mkApprovedPlan (ml_device_digest scope) (ml_bootloader_digest scope)
                (ml_trusted_root_digest scope) (ml_expected_block0 scope)
                (default (ev_signed_content_digest <$> slots) expected) (ml_target_epoch scope) in
  change ← (match prepare plan observed with Ok c => mret c | Err _ => throw ME_Binding end);
  layout2 ← call_or (on_flash mf_qualified_layout) ME_Image;
  again ← call (on_efuse snapshot);
  return_if (negb (bool_decide (layout2 = layout)) || negb (snapshot_eqb again before)) ME_Binding;;
  mret (mkQualified change layout (secure_version_raw (sn_block0 before))).

(** The physical confirmation: the time it starts, and what the loop reads. *)
Definition confirm_presence (now : Z) (readings : list Reading) : m_step bool := λ w,
  '(answer, hw) ← confirm_maintenance_user_presence now readings (w_hardware w);
  Some (Ok answer, mkWorld (w_flash w) (w_efuse w) (w_attempted w) hw).

Definition program (change : PreparedChange) : m_step (result TransactionError unit) := λ w,
  '(r, attempted, d) ← programmer_attempt change (w_attempted w) (w_efuse w);
  Some (Ok r, mkWorld (w_flash w) d attempted (w_hardware w)).

(** What reaches the handler beside the request: the update session's phase, and the
    physical world during the confirmation. *)
Record Circumstances := mkCircumstances {
  ci_idle : bool;
  ci_now : Z;
  ci_readings : list Reading;
  ci_cancelled : bool;
}.

Definition maintenance_body (p : Platform) (c : Circumstances) (request : bytes) : m_step Qualified :=
  return_if (negb (ci_idle c)) ME_Busy;;
  expected ← ok_or (requested_images request (sha256 (pl_scope p))) ME_Request;
  first ← qualify p expected;
  qualified ← (match expected with
    | Some _ =>
        confirmed ← confirm_presence (ci_now c) (ci_readings c);
        return_if (negb confirmed) ME_Presence;;
        second ← qualify p expected;
        return_if (negb (bool_decide (qf_layout first = qf_layout second))) ME_Binding;;
        return_if (ci_cancelled c) ME_Cancelled;;
        mret second
    | None => mret first
    end);
  (if byte_at request 0 =? PROGRAM then
     attempted ← program (qf_change qualified);
     match attempted with Ok _ => mret tt | Err e => throw (ME_Transaction (status_code e)) end
   else mret tt);;
  mret qualified.

(** The 64-byte response. *)
Definition maintenance_response (p : Platform) (request : bytes) (r : result MaintenanceError Qualified) : bytes :=
  let output := put (zeros 64) 0 [0x52; 0x4b; 0x4d; 0x31] in
  match r with
  | Ok q =>
      let output := put output 5 [target_epoch (qf_change q); running_slot (qf_layout q);
                                  count_ones 16 (qf_raw q)] in
      let output := put output 8 (sha256 (pl_scope p)) in
      let output := put output 40 (le_encode 4 (sequences (qf_layout q)).1) in
      let output := put output 44 (le_encode 4 (sequences (qf_layout q)).2) in
      let output := put output 48 (le_encode 4 (pl_apb_hz p)) in
      let output := put output 52 (le_encode 2 (qf_raw q)) in
      let output := put output 54 (le_encode 2 (bits_to_program (qf_change q))) in
      put output 56 [byte_at request 0]
  | Err e =>
      let output := match e with ME_Transaction status => put output 5 [status] | _ => output end in
      put output 4 [maintenance_code e]
  end.

Definition is_maintenance (request : bytes) : bool :=
  match head request with
  | Some c => (c =? INSPECT) || (c =? PROGRAM) || (c =? REHEARSE)
  | None => false
  end.

Definition maintenance_handle (p : Platform) (c : Circumstances) (request : bytes) (w : World)
  : option (option bytes * World) :=
  if negb (is_maintenance request) then Some (None, w)
  else
    '(r, w) ← maintenance_body p c request w;
    Some (Some (maintenance_response p request r), w).
End maintenance.
