(* ===== verification/EpochMaintenanceTheorems.v ===== *)
(** * What a maintenance request can do to the fuses *)

From stdpp Require Import base tactics numbers list option.
From S2P Require Import Prelude Interfaces SignedImage Ota Presence PresenceTheorems.
From S2P Require Import Epoch EpochTransaction EpochPolicy EpochProgrammer EpochTheorems EpochMaintenance ModelBackend.

(** Reading the boot records or the raw flash changes no slot, and a qualified layout
    runs one of the two slots. *)
Class MaintenanceView (F : Type) `{FlashView F, MaintenanceFlash F} := {
  mv_layout_frame : ∀ s r s', mf_qualified_layout s = (r, s') → slot_mem s' = slot_mem s;
  mv_layout_running : ∀ s q s', mf_qualified_layout s = (Some q, s') → running_slot q = 0 ∨ running_slot q = 1;
  mv_read_frame : ∀ o s r s', mf_spiflash_read o s = (r, s') → slot_mem s' = slot_mem s;
}.

Section maintenance.
Context `{Sha256} {F D : Type} `{MaintenanceView F} `{EfuseView D}.
Notation World := (World (F := F) (D := D)).

(** Nothing but reads of flash and of the eFuse registers. *)
Definition only_read (w w' : World) : Prop :=
  slot_mem (w_flash w') = slot_mem (w_flash w) ∧ ef_fuses (w_efuse w') = ef_fuses (w_efuse w) ∧
  w_attempted w' = w_attempted w.

Lemma only_read_refl w : only_read w w.
Proof. done. Qed.

Lemma only_read_trans w1 w2 w3 : only_read w1 w2 → only_read w2 w3 → only_read w1 w3.
Proof. unfold only_read. naive_solver congruence. Qed.

Lemma wp_layout (Q : result MaintenanceError QualifiedLayout → World → Prop) w :
  (∀ q w', only_read w w' → running_slot q = 0 ∨ running_slot q = 1 → Q (Ok q) w') →
  (∀ w', only_read w w' → Q (Err ME_Image) w') → wp (call_or (on_flash mf_qualified_layout) ME_Image) Q w.
Proof.
  intros Hok Herr. apply wp_call_or; unfold on_flash; destruct (mf_qualified_layout (w_flash w)) as [r s] eqn:E;
    pose proof (mv_layout_frame _ _ _ E) as Hf.
  - intros a w' [= -> <-]. apply Hok; [done|]. by eapply mv_layout_running.
  - intros w' [= _ <-]. by apply Herr.
Qed.

Lemma hash_bootloader_wp offsets h w :
  wp (hash_bootloader offsets h) (λ _ w', only_read w w') w.
Proof.
  revert h w. induction offsets as [|o offsets IH]; intros h w; [by apply wp_ret|].
  apply wp_bind. apply wp_call_or; unfold on_flash; destruct (mf_spiflash_read o (w_flash w)) as [r s] eqn:E;
    pose proof (mv_read_frame _ _ _ _ E) as Hf.
  - intros words w1 [= _ <-]. eapply wp_mono; [apply IH|]. intros r' w2 Hw. by eapply only_read_trans; [|exact Hw].
  - by intros w1 [= _ <-].
Qed.

Definition evidence_of (root : bytes) (mem : Z → memory) (slot : Z) (e : SlotEvidence) : Prop :=
  ∃ v, installed_image rsa_pss_valid root (mem slot) v ∧
       ev_secure_version e = vi_secure_version v ∧ ev_signed_content_digest e = vi_signed_content_digest v.

Lemma qualify_slots_wp slots root w :
  wp (qualify_slots slots root) (λ r w', only_read w w' ∧
    ∀ evs, r = Ok evs → Forall2 (evidence_of root (slot_mem (w_flash w))) slots evs) w.
Proof.
  revert w. induction slots as [|slot slots IH]; intros w.
  { apply wp_ret. split; [done|]. by intros evs [= <-]. }
  apply wp_bind. unfold wp at 1, flash_step.
  destruct (wp_elim _ _ _ (verify_installed_slot_wp slot root (w_flash w))) as (r & s & -> & Hm & Hr).
  destruct r as [v|e]; [|by split].
  apply wp_bind. eapply wp_mono; [apply IH|]. intros [evs|e] w' [Ho He]; cbn [w_flash] in *.
  - apply wp_ret. split; [by eapply only_read_trans; [|exact Ho]|]. intros evs' [= <-]. constructor.
    + exists v. destruct Hr as [Hr _]. by split.
    + rewrite <- Hm. by apply He.
  - split; [by eapply only_read_trans; [|exact Ho]|done].
Qed.

(** What a qualified change rests on. *)
Definition qualified_for (p : Platform) (expected : option (list bytes)) (mem : Z → memory) (q : Qualified) : Prop :=
  ∃ plan v0 v1, decode_plan (pl_scope p) = Some plan ∧
    installed_image rsa_pss_valid (pl_root p) (mem 0) v0 ∧ installed_image rsa_pss_valid (pl_root p) (mem 1) v1 ∧
    ml_target_epoch plan ≤ vi_secure_version v0 ≤ 16 ∧ ml_target_epoch plan ≤ vi_secure_version v1 ≤ 16 ∧
    (∀ ds, expected = Some ds → vi_signed_content_digest v0 = nth 0 ds [] ∧ vi_signed_content_digest v1 = nth 1 ds []) ∧
    ml_fallback_digest plan = vi_signed_content_digest (if running_slot (qf_layout q) =? 0 then v1 else v0) ∧
    ml_device_digest plan = sha256 (pl_mac p) ∧ ml_trusted_root_digest plan = pl_root p ∧
    pc_before (qf_change q) = ml_expected_block0 plan ∧ target_epoch (qf_change q) = ml_target_epoch plan ∧
    counter_words (qf_change q).

Lemma wp_snapshot (Q : result MaintenanceError Snapshot → World → Prop) w :
  (∀ s w', only_read w w' → length (sn_block0 s) = 6%nat → Q (Ok s) w') → wp (call (on_efuse snapshot)) Q w.
Proof.
  intros HQ. apply wp_call. unfold on_efuse. destruct (snapshot (w_efuse w)) as [s d] eqn:E.
  apply snapshot_spec in E as ((Hf & _) & Hw & _). intros a w' [= <- <-].
  apply HQ; [done|]. rewrite Hw. apply ef_words_length.
Qed.

Lemma qualify_wp p expected w :
  wp (qualify p expected) (λ r w', only_read w w' ∧
    ∀ q, r = Ok q → qualified_for p expected (slot_mem (w_flash w)) q) w.
Proof.
  unfold qualify. apply wp_bind, wp_ok_or; [intros plan Hplan|by split].
  apply wp_bind, wp_return_if; intros _; [by split|].
  apply wp_bind, wp_snapshot. intros before w1 W1 Hlen.
  apply wp_bind, wp_return_if; intros _; [by split|].
  apply wp_bind, wp_layout; [|intros w2 W2; split; [by eapply only_read_trans|done]].
  intros layout w2 W2 Hrun. pose proof (only_read_trans _ _ _ W1 W2) as W.
  apply wp_bind. eapply wp_mono; [apply qualify_slots_wp|].
  intros [evs|e] w3 [W3 Hevs]; [|split; [by eapply only_read_trans|done]].
  specialize (Hevs evs eq_refl). rewrite (proj1 W) in Hevs. pose proof (only_read_trans _ _ _ W W3) as W'.
  clear W1 W2 W3 W.
  apply Forall2_cons_inv_l in Hevs as (e0 & evs1 & Hv0 & Hevs & ->).
  apply Forall2_cons_inv_l in Hevs as (e1 & evs2 & Hv1 & Hevs & ->).
  apply Forall2_nil_inv_l in Hevs as ->.
  destruct Hv0 as (v0 & Hi0 & Hs0 & Hd0), Hv1 as (v1 & Hi1 & Hs1 & Hd1).
  apply wp_bind. eapply wp_checked; [by rewrite (proj2 (Z.leb_le _ _)) by lia|].
  assert ([e0; e1] !! Z.to_nat (1 - running_slot layout) = Some (if running_slot layout =? 0 then e1 else e0)) as Hfb
    by (destruct Hrun as [-> | ->]; done).
  apply wp_bind. eapply wp_checked; [exact Hfb|].
  apply wp_bind, wp_return_if; intros Hfd; [by split|]. apply negb_false_iff, bytes_eqb_true in Hfd.
  apply wp_bind. unfold bootloader_ciphertext_digest. apply wp_bind. eapply wp_mono; [apply hash_bootloader_wp|].
  intros [h|e] w4 W4; [|split; [by eapply only_read_trans|done]].
  apply wp_ret. pose proof (only_read_trans _ _ _ W' W4) as W. clear W' W4.
  apply wp_bind. destruct (prepare _ _) as [change|e] eqn:Hprep; [|by apply wp_throw].
  apply wp_ret. apply wp_bind, wp_layout; [|intros w5 W5; split; [by eapply only_read_trans|done]].
  intros layout2 w5 W5 _. pose proof (only_read_trans _ _ _ W W5) as W6.
  apply wp_bind, wp_snapshot. intros again w7 W7 _. pose proof (only_read_trans _ _ _ W6 W7) as W8.
  apply wp_bind, wp_return_if; intros _; [by split|]. apply wp_ret. split; [done|]. intros q [= <-].
  pose proof (prepare_approved _ _ _ Hprep) as [Hdev _ Hroot Hfuses _ _ _ Hep _ Himg].
  assert (counter_words change) as Hwords by (eapply prepare_counter_words; [|exact Hprep]; exact Hlen).
  rewrite (approved_prepare _ _ (prepare_approved _ _ _ Hprep)) in Hprep. injection Hprep as <-.
  destruct (Himg 0%nat e0 eq_refl) as (_ & _ & Hr0 & Hg0), (Himg 1%nat e1 eq_refl) as (_ & _ & Hr1 & Hg1).
  cbn [ap_device_digest ob_device_digest ap_trusted_root_digest ob_trusted_root_digest ap_target_epoch
       ap_expected_block0 ob_block0 ap_qualified_image_digests] in *.
  exists plan, v0, v1. rewrite <- Hs0, <- Hs1, <- Hd0, <- Hd1. cbn [qf_change qf_layout].
  split_and!; try done; try (by intros ds ->); try lia; try (by apply Hr0); try (by apply Hr1).
  rewrite <- Hfd. by destruct (running_slot layout =? 0).
Qed.

(** ** The handler *)

Definition maintenance_effect (p : Platform) (c : Circumstances) (request : bytes) (w : World)
    (r : result MaintenanceError Qualified) (w' : World) : Prop :=
  slot_mem (w_flash w') = slot_mem (w_flash w) ∧
  (w_attempted w = true → ef_fuses (w_efuse w') = ef_fuses (w_efuse w)) ∧
  (ef_fuses (w_efuse w') ≠ ef_fuses (w_efuse w) ∨ w_attempted w' ≠ w_attempted w ∨
   (∃ q, r = Ok q ∧ byte_at request 0 = PROGRAM) →
     ∃ d0 d1 pre q, request = PROGRAM :: sha256 (pl_scope p) ++ d0 ++ d1 ∧ length d0 = 32%nat ∧ length d1 = 32%nat ∧
       ci_idle c = true ∧ ci_cancelled c = false ∧
       pre `prefix_of` ci_readings c ∧ gesture (reading_sample <$> pre) true ∧
       qualified_for p (Some [d0; d1]) (slot_mem (w_flash w)) q ∧
       burnt_at_most (program_words (qf_change q)) (ef_fuses (w_efuse w)) (ef_fuses (w_efuse w')) ∧
       (ef_fuses (w_efuse w') ≠ ef_fuses (w_efuse w) → ef_fuses (w_efuse w) = pc_before (qf_change q)) ∧
       (∀ q', r = Ok q' → q' = q ∧ ef_fuses (w_efuse w') = pc_after (qf_change q))).

Lemma requested_two request digest expected :
  length digest = 32%nat → requested_images request digest = Some (Some expected) →
  ∃ c d0 d1, request = c :: digest ++ d0 ++ d1 ∧ (c = PROGRAM ∨ c = REHEARSE) ∧ expected = [d0; d1] ∧
    length d0 = 32%nat ∧ length d1 = 32%nat.
Proof.
  intros Hd. unfold requested_images. destruct (bytes_eqb request [0x13]); [done|].
  destruct (_ || _) eqn:E; [done|]. bool_to_prop.
  match goal with H : bytes_eqb _ _ = true |- _ => apply bytes_eqb_true in H; rename H into Hs end.
  match goal with H : length request = 97%nat |- _ => rename H into Hl end.
  intros [= <-]. destruct request as [|c rest]; [done|]. cbn [length] in Hl.
  exists c, (slice (c :: rest) 33 65), (slice (c :: rest) 65 97).
  rewrite !length_slice by (cbn [length]; lia). split_and!; try done.
  - f_equal. rewrite <- Hs. unfold slice. cbn [drop Nat.sub].
    rewrite <- (take_drop 32 rest) at 1. f_equal.
    rewrite <- (take_drop 32 (drop 32 rest)) at 1. rewrite drop_drop. f_equal.
    symmetry. apply take_ge. rewrite length_drop. lia.
  - match goal with H : _ ∨ _ |- _ => destruct H as [H|H]; apply Z.eqb_eq in H; [left|right]; exact H end.
Qed.

Lemma requested_inspect request digest :
  requested_images request digest = Some None → request = [INSPECT].
Proof.
  unfold requested_images. destruct (bytes_eqb request [0x13]) eqn:E; [by apply bytes_eqb_true in E|].
  by destruct (_ || _).
Qed.

Lemma confirm_wp now readings w (Q : result MaintenanceError bool → World → Prop) :
  0 ≤ now → Exists (ends now 30000) readings →
  (∀ b w', only_read w w' →
     (b = true → ∃ pre, pre `prefix_of` readings ∧ gesture (reading_sample <$> pre) true) → Q (Ok b) w') →
  wp (confirm_presence now readings) Q w.
Proof.
  intros Hn Hlate HQ. unfold wp, confirm_presence, confirm_maintenance_user_presence, confirm, hw_begin.
  destruct (confirm_loop_ends now 30000 true readings [] true _ (gate_inv_new _ _ _ Hn) Hlate)
    as (b & hw & pre & E & Hpre & Hb). rewrite E. cbn [mbind option_bind]. apply HQ; [done|].
  intros Hbt. exists pre. split; [done|]. by apply Hb.
Qed.

Lemma program_spec change w :
  counter_words change →
  wp (program change) (λ r w', slot_mem (w_flash w') = slot_mem (w_flash w) ∧ w_attempted w' = true ∧
    burnt_at_most (program_words change) (ef_fuses (w_efuse w)) (ef_fuses (w_efuse w')) ∧
    (w_attempted w = true → ef_fuses (w_efuse w') = ef_fuses (w_efuse w)) ∧
    (ef_fuses (w_efuse w') ≠ ef_fuses (w_efuse w) → ef_fuses (w_efuse w) = pc_before change) ∧
    ∃ x, r = Ok x ∧ (x = Ok tt → ef_fuses (w_efuse w') = pc_after change)) w.
Proof.
  intros Hw. unfold wp, program, programmer_attempt. destruct (w_attempted w) eqn:Ea; cbn [mbind option_bind].
  { split; [done|]. split; [done|]. split; [apply burnt_refl|]. split; [done|]. split; [done|]. by eexists. }
  destruct (attempt_spec change (transaction_new (w_efuse w)) Hw) as (r & t & E & _ & Hb & Hc & Hok & _).
  rewrite E. cbn [mbind option_bind]. split; [done|]. split; [done|]. split; [exact Hb|]. split; [done|].
  split; [intros Hne; by apply Hc|]. eexists. split; [done|]. intros ->. by apply Hok.
Qed.

Lemma maintenance_body_wp p c request w :
  0 ≤ ci_now c → Exists (ends (ci_now c) 30000) (ci_readings c) →
  wp (maintenance_body p c request) (λ r w', maintenance_effect p c request w r w') w.
Proof.
  intros Hnow Hlate.
  assert (∀ e w', only_read w w' → maintenance_effect p c request w (Err e) w') as Herr.
  { intros e w' (Hm & Hf & Ha). split; [done|]. split; [done|]. intros [?|[?|(q & ? & _)]]; done. }
  unfold maintenance_body. apply wp_bind, wp_return_if; intros Hidle; [by apply Herr|].
  apply negb_false_iff in Hidle.
  apply wp_bind, wp_ok_or; [intros expected Hexp|by intros; apply Herr].
  apply wp_bind. eapply wp_mono; [apply qualify_wp|]. intros [first|e] w1 [W1 Hfirst]; [|by apply Herr].
  destruct expected as [expected|].
  - apply requested_two in Hexp as (cmd & d0 & d1 & Hreq & Hcmd & -> & Hl0 & Hl1); [|apply sha256_length].
    apply wp_bind, wp_bind, confirm_wp; [done|done|]. intros b w2 W2 Hgest.
    pose proof (only_read_trans _ _ _ W1 W2) as W.
    apply wp_bind, wp_return_if; intros Hb; [by apply Herr|]. apply negb_false_iff in Hb.
    destruct (Hgest Hb) as (pre & Hpre & Hg).
    apply wp_bind. eapply wp_mono; [apply qualify_wp|]. intros [second|e] w3 [W3 Hsecond];
      [|apply Herr; by eapply only_read_trans].
    specialize (Hsecond second eq_refl). rewrite (proj1 W) in Hsecond.
    pose proof (only_read_trans _ _ _ W W3) as W4.
    apply wp_bind, wp_return_if; intros _; [by apply Herr|].
    apply wp_bind, wp_return_if; intros Hcancel; [by apply Herr|].
    apply wp_ret. subst request. cbn [byte_at nth]. change (byte_at (cmd :: ?l) 0) with cmd.
    destruct (Z.eqb_spec cmd PROGRAM) as [->|Hne].
    + pose proof Hsecond as (plan & v0 & v1 & _ & _ & _ & _ & _ & _ & _ & _ & _ & _ & _ & Hwords).
      apply wp_bind, wp_bind. eapply wp_mono; [by apply program_spec|].
      intros r w5 (Hm & Ha & Hburn & Hlatch & Hbefore & x & -> & Hx).
      destruct W4 as (Hm4 & Hf4 & Ha4). rewrite Hf4 in *. rewrite Ha4 in Hlatch.
      assert (∀ r, (∀ q', r = Ok q' → q' = second ∧ ef_fuses (w_efuse w5) = pc_after (qf_change second)) →
        maintenance_effect p c (PROGRAM :: sha256 (pl_scope p) ++ d0 ++ d1) w r w5) as Heff.
      { intros r Hr. split; [congruence|]. split; [done|]. intros _. exists d0, d1, pre, second.
        split_and!; try done. }
      destruct x as [[]|e]; [apply wp_ret, wp_ret|apply wp_throw]; apply Heff; [|done].
      intros q' [= <-]. split; [done|by apply Hx].
    + apply wp_bind, wp_ret, wp_ret. destruct W4 as (Hm4 & Hf4 & Ha4). split; [done|]. split; [done|].
      intros [?|[?|(q & _ & Hb0)]]; done.
  - apply requested_inspect in Hexp as ->. apply wp_bind, wp_ret. change (byte_at [INSPECT] 0 =? PROGRAM) with false.
    apply wp_bind, wp_ret, wp_ret. destruct W1 as (Hm & Hf & Ha). split; [done|]. split; [done|].
    intros [?|[?|(q & _ & Hb0)]]; done.
Qed.

(** C26: Nothing a maintenance request does can change a slot, and it burns a fuse, takes the
    per-boot latch or reports a programmed counter only for an authorised PROGRAM
    request: 97 bytes bound to this plan and to the digests of both images, while no
    update is in progress, after a complete long-hold gesture that was not cancelled,
    with both slots holding authentic images of those digests whose secure versions still
    boot at the target.  Then nothing but bits of the prepared counter change is
    burnt, success means BLOCK0 is exactly the planned value, and a second attempt in
    the same boot burns nothing. *)
Theorem maintenance_authorised p c request w :
  0 ≤ ci_now c → Exists (ends (ci_now c) 30000) (ci_readings c) →
  ∃ out w', maintenance_handle p c request w = Some (out, w') ∧
    match out with
    | None => is_maintenance request = false ∧ w' = w
    | Some response => ∃ r, response = maintenance_response p request r ∧ maintenance_effect p c request w r w'
    end.
Proof.
  intros Hnow Hlate. unfold maintenance_handle. destruct (is_maintenance request); cbn [negb]; [|by eexists _, _].
  destruct (wp_elim _ _ _ (maintenance_body_wp p c request w Hnow Hlate)) as (r & w' & -> & He).
  cbn [mbind option_bind]. eexists _, _. split; [done|]. by exists r.
Qed.
End maintenance.

(** ** Witness: the model flash and the model device *)

#[export] Instance model_maintenance_flash : MaintenanceFlash model := {|
  mf_qualified_layout := λ m, (Some (mkQualifiedLayout 0 (3, 2)), m);
  mf_spiflash_read := λ _ m, (Some (replicate 256 0), m);
|}.

#[export] Instance model_maintenance_view : MaintenanceView model.
Proof.
  split; [by intros s r s' [= _ <-]| |by intros o s r s' [= _ <-]]. intros s q s' [= <- _]. by left.
Qed.

Definition sample_world : World (F := model) (D := efuse_model) :=
  mkWorld (mkModel 0 (λ _ _, 0xff) (mkUpdateLayout 0 1 1)) sample_device false new_hardware.
Definition sample_platform : Platform := mkPlatform (zeros 164) (zeros 32) [] 1 0 80000000.
Definition sample_circumstances : Circumstances :=
  mkCircumstances true 100 [mkReading false 200 false; mkReading false 40000 false] false.

Lemma maintenance_authorised_witness :
  ∃ out w', maintenance_handle sample_platform sample_circumstances [INSPECT] sample_world = Some (out, w') ∧
    match out with
    | None => is_maintenance [INSPECT] = false ∧ w' = sample_world
    | Some response => ∃ r, response = maintenance_response sample_platform [INSPECT] r ∧
        maintenance_effect sample_platform sample_circumstances [INSPECT] sample_world r w'
    end.
Proof.
  apply (maintenance_authorised sample_platform sample_circumstances [INSPECT] sample_world);
    [vm_compute; discriminate|]. right. left. left. vm_compute. discriminate.
Defined.
