(* ===== verification/MemoryProtection.v ===== *)
(** * SRAM permissions

    [src/src/platform/memory_protection.rs]: the policy for the permission
    controller, its installation and locking, and the status report.  The registers
    are the [Registers] trait; [RegistersView] is how the controller's registers
    behave: each holds what was written to it, but a monitor, whose bit 2 latches a
    fault that bit 0 clears, and the registers other than the locks are frozen
    while their lock is set, which only a restart undoes. *)

From stdpp Require Import base tactics numbers list option.
From S2P Require Import Prelude.

Definition SRAM_ALIAS_OFFSET : Z := 0x70000.
Definition MIN_IRAM_SPLIT : Z := 0x40028000.
Definition MAX_IRAM_SPLIT : Z := 0x40050000.

Definition LOCKS : list Z := [0x10; 0x28; 0x3c; 0x5c].
Definition MONITORS : list Z := [0x20; 0x34; 0x54; 0x68].
Definition PERMISSIONS : list (Z * Z) :=
  [(0x14, 0xfff); (0x18, 0x7fffff); (0x1c, 0x1ffff); (0x2c, 0x1fffffff);
   (0x30, 0x7fff); (0x40, 0xfffe); (0x60, 0x1ffff); (0x64, 0x1ffff)].

Inductive ProtectionError := PR_Layout | PR_LockedPolicy | PR_Readback.

Record Policy := mkPolicy { iram_end : Z; data_start : Z; values : list Z }.

Definition policy_values (iram_end data_start : Z) : list Z :=
  [0x6db;
   Z.lor (Z.lor (Z.land (Z.shiftr iram_end 2) 0x1ffff) (Z.shiftl 1 18)) (Z.shiftl 1 17);
   0;
   Z.lor (Z.lor (Z.lor (Z.lor 0x55 (Z.shiftl (Z.land (Z.shiftr data_start 2) 0x1ffff) 8))
     (Z.shiftl 1 25)) (Z.shiftl 1 27)) (Z.shiftl 1 28);
   0x7800;
   0;
   Z.lor (Z.lor (Z.lor (Z.shiftl 1 16) (Z.shiftl 1 15)) (Z.shiftl 1 13)) (Z.shiftl 1 12);
   0].

Definition new_policy (iram_end data_start : Z) : result ProtectionError Policy :=
  if negb ((MIN_IRAM_SPLIT <=? iram_end) && (iram_end <? MAX_IRAM_SPLIT))
     || negb (is_multiple_of iram_end 4)
     || negb (bool_decide (u32_sub iram_end SRAM_ALIAS_OFFSET = Some data_start))
  then Err PR_Layout
  else Ok (mkPolicy iram_end data_start (policy_values iram_end data_start)).

(** [trait Registers]. *)
Class Registers (R : Type) := {
  reg_read : R → Z → Z;
  reg_write : Z → Z → R → R;
}.

Section registers.
Context {R : Type} `{Registers R}.

(** [!mask] of a [u32]. *)
Definition u32_lnot (x : Z) : Z := Z.lxor x U32_MAX.

Definition replace_bits (offset mask value : Z) (r : R) : R :=
  let previous := reg_read r offset in
  reg_write offset (Z.lor (Z.land previous (u32_lnot mask)) (Z.land value mask)) r.

Definition matches_policy (p : Policy) (r : R) : bool :=
  forallb (λ '(om, expected), Z.land (reg_read r (fst om)) (snd om) =? expected) (zip PERMISSIONS (values p))
  && forallb (λ offset, Z.land (reg_read r offset) 7 =? 2) MONITORS.

Definition locked (r : R) (offset : Z) : bool := negb (Z.land (reg_read r offset) 1 =? 0).

(** The loops of [configure], each a fold over its table. *)
Definition clear_monitors (r : R) : R :=
  foldl (λ r offset, replace_bits offset 3 0 (replace_bits offset 3 1 r)) r MONITORS.
Definition set_permissions (p : Policy) (r : R) : R :=
  foldl (λ r '(om, value), replace_bits (fst om) (snd om) value r) r (zip PERMISSIONS (values p)).
Definition enable_monitors (r : R) : R := foldl (λ r offset, replace_bits offset 3 2 r) r MONITORS.
Definition set_locks (r : R) : R := foldl (λ r offset, reg_write offset 1 r) r LOCKS.

Definition configure (p : Policy) (r : R) : result ProtectionError unit * R :=
  if existsb (locked r) LOCKS then
    if forallb (locked r) LOCKS && matches_policy p r then (Ok tt, r) else (Err PR_LockedPolicy, r)
  else
    let r := enable_monitors (set_permissions p (clear_monitors r)) in
    if negb (matches_policy p r) then (Err PR_Readback, r)
    else
      let r := set_locks r in
      if negb (forallb (λ offset, Z.land (reg_read r offset) 1 =? 1) LOCKS) || negb (matches_policy p r)
      then (Err PR_Readback, r) else (Ok tt, r).

(** One bit of each register of a table, packed: the loop body of [encode_status]. *)
Definition packed (r : R) (offsets : list Z) (bit : Z) : Z :=
  foldl (λ acc '(i, offset), Z.lor acc (Z.shiftl (Z.land (Z.shiftr (reg_read r offset) bit) 1) (Z.of_nat i)))
    0 (zip (seq 0 4) offsets).

(** [None] is the failed [assert!] on the output length. *)
Definition encode_status (p : Policy) (r : R) (output : bytes) : option bytes :=
  if (length output <? 64)%nat then None
  else
    let output := put (zeros (length output)) 0 [0x52; 0x4b; 0x4d; 0x50] in
    let output := put output 4 [1; packed r LOCKS 0; packed r MONITORS 1; packed r MONITORS 2] in
    let output := put (put output 8 (le_encode 4 (iram_end p))) 12 (le_encode 4 (data_start p)) in
    Some (foldl (λ output '(i, (offset, mask)),
            put output (16 + i * 4) (le_encode 4 (Z.land (reg_read r offset) mask)))
          output (zip (seq 0 8) PERMISSIONS)).
End registers.

(** What a write leaves in a register. *)
Definition is_monitor (offset : Z) : bool := bool_decide (offset ∈ MONITORS).
Definition written (offset value previous : Z) : Z :=
  if is_monitor offset
  then Z.lor (Z.land value (u32_lnot 4)) (if Z.testbit value 0 then 0 else Z.land previous 4)
  else value.

(** [frozen]: a permission or monitor register under a set lock, or a set lock. *)
Class RegistersView (R : Type) `{Registers R} := {
  frozen : R → Z → bool;
  frozen_unlocked : ∀ r o, forallb (λ l, negb (locked r l)) LOCKS = true → frozen r o = false;
  reg_read_u32 : ∀ r o, is_u32 (reg_read r o);
  reg_write_other : ∀ r o v o', o' ≠ o → reg_read (reg_write o v r) o' = reg_read r o';
  reg_write_same : ∀ r o v, frozen r o = false → is_u32 v →
    reg_read (reg_write o v r) o = written o v (reg_read r o);
  frozen_lock : ∀ r o, o ∈ LOCKS → locked r o = false → frozen r o = false;
}.
