(* ===== verification/MemoryProtectionTheorems.v ===== *)
(** * The installed policy is the linked one, locked *)

From stdpp Require Import base tactics numbers list option sets.
From S2P Require Import Prelude MemoryProtection.

(** ** Masked fields of a word *)

Lemma lnot_testbit m k : 0 ≤ k < 32 → Z.testbit (u32_lnot m) k = negb (Z.testbit m k).
Proof.
  intros Hk. unfold u32_lnot. change U32_MAX with (Z.ones 32).
  rewrite Z.lxor_spec, Z.ones_spec_low by lia. apply xorb_true_r.
Qed.

Lemma u32_land x m : is_u32 x → is_u32 (Z.land x m).
Proof.
  unfold is_u32. intros Hx. assert (0 ≤ Z.land x m) by (apply Z.land_nonneg; lia).
  apply Z.bounded_iff_bits_nonneg'; [lia..|]. intros k Hk. by rewrite Z.land_spec, (testbit_above 32) by lia.
Qed.

(** Replacing a field sets it and keeps the rest. *)
Lemma field_set previous value mask : is_u32 previous → is_u32 mask →
  let w := Z.lor (Z.land previous (u32_lnot mask)) (Z.land value mask) in
  is_u32 w ∧ Z.land w mask = Z.land value mask ∧
  Z.land w (u32_lnot mask) = Z.land previous (u32_lnot mask).
Proof.
  intros Hp Hm w. assert (is_u32 w) as Hw.
  { apply (lor_bound 32); [lia|by apply u32_land|rewrite Z.land_comm; by apply u32_land]. }
  split; [done|]. subst w.
  split; apply Z.bits_inj'; intros k Hk; rewrite !Z.land_spec, Z.lor_spec, !Z.land_spec;
    (destruct (Z.ltb_spec k 32);
      [rewrite lnot_testbit by lia; by destruct (Z.testbit previous k), (Z.testbit value k), (Z.testbit mask k)|]);
    rewrite !(testbit_above 32 previous), !(testbit_above 32 mask) by (unfold is_u32 in *; lia || done);
    by rewrite ?andb_false_r.
Qed.

(** ** The policy's values lie within the fields *)

Lemma land_sub x m n : Z.land m n = m → Z.land (Z.land x m) n = Z.land x m.
Proof. intros E. by rewrite <- Z.land_assoc, E. Qed.

Lemma policy_values_fit ie ds :
  Forall2 (λ om v, Z.land v (snd om) = v ∧ is_u32 v) PERMISSIONS (policy_values ie ds).
Proof.
  assert (∀ x, is_u32 (Z.land x 0x1ffff) ∧ 0 ≤ Z.land x 0x1ffff < 2 ^ 17) as H17.
  { intros x. change 0x1ffff with (Z.ones 17). rewrite Z.land_ones by lia.
    pose proof (Z.mod_pos_bound x (2 ^ 17)). unfold is_u32. lia. }
  assert (∀ x k, 0 ≤ k → is_u32 (Z.shiftl x k) ↔ 0 ≤ x * 2 ^ k < 2 ^ 32) as Hsh
    by (intros; unfold is_u32; by rewrite Z.shiftl_mul_pow2).
  unfold PERMISSIONS, policy_values.
  apply Forall2_cons_2; [by split|]. apply Forall2_cons_2; [|apply Forall2_cons_2; [by split|]].
  { cbn [snd]. split; [by rewrite !Z.land_lor_distr_l, land_sub by reflexivity|].
    apply (lor_bound 32); [lia| |by split]. apply (lor_bound 32); [lia|apply H17|by split]. }
  apply Forall2_cons_2; [|repeat (apply Forall2_cons_2; [by split|]); apply Forall2_nil_2].
  cbn [snd]. split.
  - rewrite !Z.land_lor_distr_l, Z.shiftl_land, land_sub by reflexivity. done.
  - do 3 (apply (lor_bound 32); [lia| |by split]). apply (lor_bound 32); [lia|by split|].
    apply Hsh; [lia|]. destruct (H17 (Z.shiftr ds 2)). lia.
Qed.

Section theorems.
Context {R : Type} `{RegistersView R}.

Definition unlocked (r : R) : Prop := forallb (λ l, negb (locked r l)) LOCKS = true.

(** ** A table of updates at distinct offsets *)

Lemma fold_table {A} (off : A → Z) (upd : A → R → R) (rel : A → Z → Z → Prop) (J : R → Prop) l r :
  NoDup (off <$> l) → J r → (∀ a r1, a ∈ l → J r1 → J (upd a r1)) →
  (∀ a r1 o, a ∈ l → o ≠ off a → reg_read (upd a r1) o = reg_read r1 o) →
  (∀ a r1, a ∈ l → J r1 → reg_read r1 (off a) = reg_read r (off a) →
     rel a (reg_read r (off a)) (reg_read (upd a r1) (off a))) →
  let r' := foldl (λ r a, upd a r) r l in
  J r' ∧ (∀ o, o ∉ off <$> l → reg_read r' o = reg_read r o) ∧
  ∀ a, a ∈ l → rel a (reg_read r (off a)) (reg_read r' (off a)).
Proof.
  revert r. induction l as [|a l IH]; intros r Hnd Hj HJ Hother Hsame.
  { split; [done|]. split; [done|]. intros a Ha. by apply not_elem_of_nil in Ha. }
  rewrite fmap_cons in Hnd. apply list.NoDup_cons in Hnd as [Hna Hnd]. cbn [foldl].
  assert (∀ x, x ∈ l → off x ≠ off a) as Hne.
  { intros x Hx E. apply Hna. rewrite <- E. by apply list_elem_of_fmap_2. }
  assert (a ∈ a :: l) as Hin by by left.
  destruct (IH (upd a r)) as (Hj' & Ho & Hs); try done.
  - by apply HJ.
  - intros x r1 Hx. apply HJ. by right.
  - intros x r1 o Hx. apply Hother. by right.
  - intros x r1 Hx Hjr E. rewrite (Hother a r) in E |- * by auto. apply Hsame; [by right|done|done].
  - split; [done|]. split.
    + intros o Hn. rewrite fmap_cons in Hn. apply not_elem_of_cons in Hn as [Hne' Hn].
      rewrite Ho by done. by apply Hother.
    + intros x Hx. apply elem_of_cons in Hx as [->|Hx].
      * rewrite Ho by done. by apply Hsame.
      * rewrite <- (Hother a r) by auto. by apply Hs.
Qed.

Lemma replace_other offset mask value r o :
  o ≠ offset → reg_read (replace_bits offset mask value r) o = reg_read r o.
Proof. intros. by apply reg_write_other. Qed.

Lemma unlocked_ext r r' : (∀ o, o ∈ LOCKS → reg_read r' o = reg_read r o) → unlocked r → unlocked r'.
Proof.
  unfold unlocked, locked. intros E. rewrite !forallb_forall. intros Hr o Ho.
  rewrite E by (by apply list_elem_of_In). by apply Hr.
Qed.

Lemma replace_unlocked offset mask value r :
  offset ∉ LOCKS → unlocked r → unlocked (replace_bits offset mask value r).
Proof. intros Hn. apply unlocked_ext. intros o Ho. apply replace_other. by intros ->. Qed.

Lemma replace_same offset mask value r :
  unlocked r → is_monitor offset = false → is_u32 mask →
  reg_read (replace_bits offset mask value r) offset =
  Z.lor (Z.land (reg_read r offset) (u32_lnot mask)) (Z.land value mask).
Proof.
  intros Hu Hm Hmask. unfold replace_bits.
  destruct (field_set (reg_read r offset) value mask (reg_read_u32 r offset) Hmask) as (Hw & _).
  rewrite reg_write_same; [|by apply frozen_unlocked|exact Hw]. unfold written. by rewrite Hm.
Qed.

Lemma replace_monitor offset value r :
  unlocked r → is_monitor offset = true → 0 ≤ value < 4 →
  Z.land (reg_read (replace_bits offset 3 value r) offset) 7 =
  if Z.testbit value 0 then value else Z.lor value (Z.land (reg_read r offset) 4).
Proof.
  intros Hu Hm Hv. unfold replace_bits.
  destruct (field_set (reg_read r offset) value 3 (reg_read_u32 r offset) ltac:(unfold is_u32; lia)) as (Hw & _).
  rewrite reg_write_same; [|by apply frozen_unlocked|exact Hw]. unfold written. rewrite Hm.
  rewrite Z.lor_spec, !Z.land_spec. change (Z.testbit (u32_lnot 3) 0) with false. change (Z.testbit 3 0) with true.
  rewrite andb_false_r, andb_true_r, orb_false_l.
  apply Z.bits_inj'. intros k Hk. assert (k = 0 ∨ k = 1 ∨ k = 2 ∨ 3 ≤ k) as Hcase by lia.
  assert (value = 0 ∨ value = 1 ∨ value = 2 ∨ value = 3) as Hval by lia.
  clear Hw. generalize (reg_read r offset). intros w.
  destruct Hval as [->|[->|[->| ->]]]; cbn [Z.testbit Z.odd]; repeat rewrite ?Z.land_spec, ?Z.lor_spec;
    (destruct Hcase as [->|[->|[->|Hk3]]];
      [destruct (Z.testbit w 0), (Z.testbit w 1), (Z.testbit w 2); reflexivity..|]);
    rewrite (testbit_above 3 7), ?andb_false_r by lia; by rewrite ?(testbit_above 3 0), ?(testbit_above 3 1),
      ?(testbit_above 3 2), ?(testbit_above 3 3), ?(testbit_above 3 4), ?andb_false_r by lia.
Qed.

Lemma bits_4 low w : Z.land w 7 = low → Z.land w 4 = Z.land low 4.
Proof. intros <-. by rewrite <- Z.land_assoc. Qed.

Lemma in_monitors o : o ∈ MONITORS → is_monitor o = true ∧ o ∉ LOCKS.
Proof.
  intros Ho. split; [by apply bool_decide_eq_true|].
  unfold MONITORS in Ho. set_unfold. naive_solver lia.
Qed.

Lemma in_permissions om : om ∈ PERMISSIONS → is_monitor om.1 = false ∧ om.1 ∉ LOCKS ∧ is_u32 om.2.
Proof.
  intros Hi. repeat (apply elem_of_cons in Hi as [->|Hi]; [split; [done|split; [|by vm_compute]];
    unfold LOCKS; set_unfold; naive_solver lia|]). by apply not_elem_of_nil in Hi.
Qed.

Definition configured (p : Policy) (r r' : R) : Prop :=
  (∀ om v, (om, v) ∈ zip PERMISSIONS (values p) →
     Z.land (reg_read r' om.1) om.2 = v ∧
     Z.land (reg_read r' om.1) (u32_lnot om.2) = Z.land (reg_read r om.1) (u32_lnot om.2)) ∧
  (∀ o, o ∈ MONITORS → Z.land (reg_read r' o) 7 = 2) ∧
  ∀ o, o ∉ LOCKS → o ∉ MONITORS → o ∉ PERMISSIONS.*1 → reg_read r' o = reg_read r o.

(** ** The three passes, then the locks *)

Lemma clear_monitors_spec r : unlocked r →
  unlocked (clear_monitors r) ∧ (∀ o, o ∉ MONITORS → reg_read (clear_monitors r) o = reg_read r o) ∧
  ∀ o, o ∈ MONITORS → Z.land (reg_read (clear_monitors r) o) 7 = 0.
Proof.
  intros Hu. destruct (fold_table id (λ o r, replace_bits o 3 0 (replace_bits o 3 1 r)) (λ _ _ w, Z.land w 7 = 0) unlocked
    MONITORS r) as (Hj & Ho & Hs); [by apply (bool_decide_eq_true_1 _)|done|..].
  - intros o r1 Ho Hr1. destruct (in_monitors o Ho) as [_ Hl]. by apply replace_unlocked, replace_unlocked.
  - intros o r1 o' _ Hne. by rewrite !replace_other.
  - intros o r1 Ho Hr1 _. destruct (in_monitors o Ho) as [Hm Hl]. unfold id.
    rewrite replace_monitor; [|by apply replace_unlocked|done|lia]. cbn [Z.testbit Z.odd].
    rewrite (bits_4 1); [done|]. by rewrite replace_monitor.
  - rewrite list_fmap_id in Ho. done.
Qed.

Lemma enable_monitors_spec r : unlocked r → (∀ o, o ∈ MONITORS → Z.land (reg_read r o) 7 = 0) →
  unlocked (enable_monitors r) ∧ (∀ o, o ∉ MONITORS → reg_read (enable_monitors r) o = reg_read r o) ∧
  ∀ o, o ∈ MONITORS → Z.land (reg_read (enable_monitors r) o) 7 = 2.
Proof.
  intros Hu H0'. destruct (fold_table id (λ o r, replace_bits o 3 2 r) (λ _ _ w, Z.land w 7 = 2) unlocked
    MONITORS r) as (Hj & Ho & Hs); [by apply (bool_decide_eq_true_1 _)|done|..].
  - intros o r1 Ho Hr1. destruct (in_monitors o Ho) as [_ Hl]. by apply replace_unlocked.
  - intros o r1 o' _ Hne. by rewrite !replace_other.
  - intros o r1 Ho Hr1 E. destruct (in_monitors o Ho) as [Hm Hl]. unfold id in *.
    rewrite replace_monitor, E, (bits_4 0); try done; by apply H0'.
  - rewrite list_fmap_id in Ho. done.
Qed.

Lemma set_permissions_spec p r : length (values p) = 8%nat → unlocked r →
  let r' := set_permissions p r in
  unlocked r' ∧ (∀ o, o ∉ PERMISSIONS.*1 → reg_read r' o = reg_read r o) ∧
  ∀ om v, (om, v) ∈ zip PERMISSIONS (values p) →
    Z.land (reg_read r' om.1) om.2 = Z.land v om.2 ∧
    Z.land (reg_read r' om.1) (u32_lnot om.2) = Z.land (reg_read r om.1) (u32_lnot om.2).
Proof.
  intros Hlen Hu. cbv zeta.
  assert ((λ x, x.1.1) <$> zip PERMISSIONS (values p) = PERMISSIONS.*1) as Hoff.
  { rewrite <- (fst_zip PERMISSIONS (values p)) at 2 by (rewrite Hlen; simpl; lia). by rewrite <- list_fmap_compose. }
  assert (∀ x, x ∈ zip PERMISSIONS (values p) → x.1 ∈ PERMISSIONS) as Hin.
  { intros [om v] Hx. by apply elem_of_zip_l in Hx. }
  destruct (fold_table (λ x, x.1.1) (λ x r, replace_bits x.1.1 x.1.2 x.2 r)
    (λ x w w', w' = Z.lor (Z.land w (u32_lnot x.1.2)) (Z.land x.2 x.1.2)) unlocked
    (zip PERMISSIONS (values p)) r) as (Hj & Ho & Hs); [rewrite Hoff; by apply (bool_decide_eq_true_1 _)|done|..].
  - intros x r1 Hx. destruct (in_permissions _ (Hin _ Hx)) as (_ & Hl & _). by apply replace_unlocked.
  - intros x r1 o _ Hne. by apply replace_other.
  - intros x r1 Hx Hr1 E. destruct (in_permissions _ (Hin _ Hx)) as (Hm & _ & Hmask).
    rewrite replace_same by done. by rewrite E.
  - assert (set_permissions p r = foldl (λ r x, replace_bits x.1.1 x.1.2 x.2 r) r (zip PERMISSIONS (values p))) as ->.
    { unfold set_permissions. generalize r, (zip PERMISSIONS (values p)). intros r0 l. revert r0.
      induction l as [|[om v] l IH]; intros r1; [done|apply IH]. }
    rewrite Hoff in Ho. split; [done|]. split; [done|]. intros om v Hx.
    destruct (in_permissions _ (Hin _ Hx)) as (_ & _ & Hmask).
    specialize (Hs (om, v) Hx). cbn [fst snd] in *. rewrite Hs.
    destruct (field_set (reg_read r om.1) v om.2 (reg_read_u32 r om.1) Hmask) as (_ & A & B). by split.
Qed.

Lemma set_locks_spec r : unlocked r →
  (∀ o, o ∉ LOCKS → reg_read (set_locks r) o = reg_read r o) ∧ ∀ o, o ∈ LOCKS → reg_read (set_locks r) o = 1.
Proof.
  intros Hu. destruct (fold_table id (λ o r, reg_write o 1 r) (λ _ _ w, w = 1) (λ _, True) LOCKS r)
    as (_ & Ho & Hs); [by apply (bool_decide_eq_true_1 _)|done|done|..].
  - intros o r1 o' _ Hne. by apply reg_write_other.
  - intros o r1 Ho _ E. unfold id in *.
    assert (locked r o = false) as Hl.
    { unfold unlocked in Hu. rewrite forallb_forall in Hu. apply negb_true_iff, Hu. by apply list_elem_of_In. }
    rewrite reg_write_same; [|apply frozen_lock; [done|unfold locked in *; by rewrite E]|by vm_compute].
    unfold written. replace (is_monitor o) with false; [done|].
    unfold LOCKS in Ho. set_unfold. naive_solver.
  - rewrite list_fmap_id in Ho. done.
Qed.

Lemma matches_spec p r : length (values p) = 8%nat →
  matches_policy p r = true ↔
  (∀ om v, (om, v) ∈ zip PERMISSIONS (values p) → Z.land (reg_read r om.1) om.2 = v) ∧
  ∀ o, o ∈ MONITORS → Z.land (reg_read r o) 7 = 2.
Proof.
  intros Hlen. unfold matches_policy. rewrite andb_true_iff, !forallb_forall. split.
  - intros [Hp Hm]. split.
    + intros om v Hx. apply list_elem_of_In in Hx. specialize (Hp _ Hx). by apply Z.eqb_eq in Hp.
    + intros o Ho. apply list_elem_of_In in Ho. by apply Z.eqb_eq, Hm.
  - intros [Hp Hm]. split.
    + intros [om v] Hx. apply list_elem_of_In in Hx. by apply Z.eqb_eq, Hp.
    + intros o Ho. apply Z.eqb_eq, Hm. by apply list_elem_of_In.
Qed.

Lemma new_policy_values ie ds p : new_policy ie ds = Ok p →
  p = mkPolicy ie ds (policy_values ie ds) ∧ MIN_IRAM_SPLIT ≤ ie < MAX_IRAM_SPLIT ∧ ie mod 4 = 0 ∧
  ds = ie - SRAM_ALIAS_OFFSET.
Proof.
  unfold new_policy. destruct (_ || _) eqn:E; [done|]. bool_to_prop. intros [= <-].
  repeat match goal with
  | H : is_multiple_of _ _ = true |- _ => apply is_multiple_of_spec in H
  | H : u32_sub _ _ = Some _ |- _ => apply u32_sub_Some in H as [-> _]
  end. done.
Qed.

Lemma policy_values_in ie ds om v : (om, v) ∈ zip PERMISSIONS (policy_values ie ds) → Z.land v om.2 = v.
Proof.
  intros Hx. apply list_elem_of_lookup in Hx as [i Hi].
  apply lookup_zip_with_Some in Hi as (om' & v' & [= <- <-] & Hom & Hv).
  by destruct (Forall2_lookup_lr _ _ _ _ _ _ (policy_values_fit ie ds) Hom Hv).
Qed.

Lemma locks_apart o : o ∈ MONITORS ∨ o ∈ PERMISSIONS.*1 → o ∉ LOCKS.
Proof.
  intros [Ho|Ho]; [by apply in_monitors|].
  apply list_elem_of_fmap in Ho as (om & -> & Hom). by apply in_permissions.
Qed.

Lemma permissions_not_monitors o : o ∈ PERMISSIONS.*1 → o ∉ MONITORS.
Proof.
  intros Ho Hm. apply list_elem_of_fmap in Ho as (om & -> & Hom).
  destruct (in_permissions _ Hom) as (Hf & _). destruct (in_monitors _ Hm) as [Ht _]. congruence.
Qed.

Lemma zip_permission p om v : (om, v) ∈ zip PERMISSIONS (values p) → om.1 ∈ PERMISSIONS.*1.
Proof. intros Hx. apply list_elem_of_fmap_2. by apply elem_of_zip_l in Hx. Qed.

Lemma configure_unlocked ie ds p r : new_policy ie ds = Ok p → unlocked r →
  ∃ r', configure p r = (Ok tt, r') ∧ configured p r r' ∧ (∀ o, o ∈ LOCKS → reg_read r' o = 1) ∧
        matches_policy p r' = true.
Proof.
  intros Hp Hu. apply new_policy_values in Hp as (-> & _). set (p := mkPolicy _ _ _).
  assert (length (values p) = 8%nat) as Hlen by done.
  destruct (clear_monitors_spec r Hu) as (Hu1 & Ho1 & Hm1). set (r1 := clear_monitors r) in *.
  destruct (set_permissions_spec p r1 Hlen Hu1) as (Hu2 & Ho2 & Hs2). set (r2 := set_permissions p r1) in *.
  destruct (enable_monitors_spec r2 Hu2) as (Hu3 & Ho3 & Hm3).
  { intros o Ho. rewrite Ho2; [by apply Hm1|]. intros Hp. by eapply permissions_not_monitors. }
  set (r3 := enable_monitors r2) in *.
  destruct (set_locks_spec r3 Hu3) as (Ho4 & Hl4). set (r4 := set_locks r3) in *.
  assert (∀ om v, (om, v) ∈ zip PERMISSIONS (values p) → Z.land (reg_read r3 om.1) om.2 = v ∧
    Z.land (reg_read r3 om.1) (u32_lnot om.2) = Z.land (reg_read r om.1) (u32_lnot om.2)) as H3.
  { intros om v Hx. pose proof (zip_permission p om v Hx) as Hin.
    pose proof (permissions_not_monitors _ Hin) as Hnm. rewrite Ho3 by done.
    destruct (Hs2 om v Hx) as [A B]. rewrite A, B, Ho1 by done. split; [|done].
    eapply policy_values_in. exact Hx. }
  assert (matches_policy p r3 = true) as Hmatch3.
  { apply matches_spec; [done|]. split; [intros om v Hx; by apply H3|]. intros o Ho. by rewrite Hm3. }
  assert (∀ o, o ∈ MONITORS ∨ o ∈ PERMISSIONS.*1 → reg_read r4 o = reg_read r3 o) as H34
    by (intros o Ho; apply Ho4, locks_apart, Ho).
  assert (matches_policy p r4 = true) as Hmatch4.
  { apply matches_spec; [done|]. split.
    - intros om v Hx. rewrite H34 by (right; by eapply zip_permission). by apply H3.
    - intros o Ho. rewrite H34 by (by left). by rewrite Hm3. }
  exists r4. split; [|split; [split; [|split]|split; [exact Hl4|exact Hmatch4]]].
  - unfold configure. assert (existsb (locked r) LOCKS = false) as ->.
    { destruct (existsb (locked r) LOCKS) eqn:E; [|done]. apply existsb_exists in E as (o & Ho & Hl).
      unfold unlocked in Hu. rewrite forallb_forall in Hu. specialize (Hu o Ho). by rewrite Hl in Hu. }
    fold r1 r2 r3. rewrite Hmatch3. cbn [negb]. fold r4. rewrite Hmatch4.
    assert (forallb (λ o, Z.land (reg_read r4 o) 1 =? 1) LOCKS = true) as ->; [|done].
    apply forallb_forall. intros o Ho. rewrite Hl4 by (by apply list_elem_of_In). done.
  - intros om v Hx. rewrite H34 by (right; by eapply zip_permission). by apply H3.
  - intros o Ho. rewrite H34 by (by left). by apply Hm3.
  - intros o H1 H2 H4. by rewrite Ho4, Ho3, Ho2, Ho1.
Qed.

(** C31: On unlocked registers the configuration always succeeds: every permission field
    holds the policy's value and nothing else in its register has changed, every
    monitor is enabled with no latched fault, all four locks are set, and no other
    register was touched.  With any lock set it writes nothing, and accepts only
    when all four are set over exactly this policy. *)
Theorem protection_installed ie ds p r : new_policy ie ds = Ok p →
  (unlocked r → ∃ r', configure p r = (Ok tt, r') ∧ configured p r r' ∧
     (∀ o, o ∈ LOCKS → reg_read r' o = 1)) ∧
  (¬ unlocked r → (configure p r).2 = r ∧
     ((configure p r).1 = Ok tt ↔ (∀ o, o ∈ LOCKS → locked r o = true) ∧ matches_policy p r = true)).
Proof.
  intros Hp. split.
  { intros Hu. destruct (configure_unlocked ie ds p r Hp Hu) as (r' & A & B & C & _). by exists r'. }
  intros Hn. unfold configure. assert (existsb (locked r) LOCKS = true) as ->.
  { destruct (existsb (locked r) LOCKS) eqn:E; [done|]. exfalso. apply Hn. unfold unlocked.
    apply forallb_forall. intros o Ho. destruct (locked r o) eqn:El; [|done].
    assert (existsb (locked r) LOCKS = true) as E2 by (apply existsb_exists; by exists o). congruence. }
  assert (forallb (locked r) LOCKS = true ↔ ∀ o, o ∈ LOCKS → locked r o = true) as Hall.
  { rewrite forallb_forall. by setoid_rewrite list_elem_of_In. }
  destruct (forallb (locked r) LOCKS), (matches_policy p r); cbn [andb fst snd]; split; try done; naive_solver.
Qed.

(** ** The status report *)

Lemma packed_constant r offsets bit b : length offsets = 4%nat → b = 0 ∨ b = 1 →
  (∀ o, o ∈ offsets → Z.land (Z.shiftr (reg_read r o) bit) 1 = b) → packed r offsets bit = 15 * b.
Proof.
  intros Hl Hb Hall. destruct offsets as [|o0 [|o1 [|o2 [|o3 [|? ?]]]]]; try done.
  unfold packed. cbn [seq zip zip_with foldl]. rewrite !Hall by set_solver. by destruct Hb as [-> | ->].
Qed.

Lemma land_bit w k : 0 ≤ k → Z.land (Z.shiftr w k) 1 = Z.b2z (Z.testbit w k).
Proof.
  intros Hk. change 1 with (Z.ones 1). rewrite Z.land_ones, Zmod_odd by lia.
  rewrite <- Z.bit0_odd, Z.shiftr_spec, Z.add_0_l by lia. by destruct (Z.testbit w k).
Qed.

Lemma monitor_bits w : Z.land w 7 = 2 → Z.testbit w 1 = true ∧ Z.testbit w 2 = false.
Proof.
  intros E. split.
  - assert (Z.testbit (Z.land w 7) 1 = true) as Hb by (by rewrite E).
    rewrite Z.land_spec in Hb. by apply andb_true_iff in Hb as [? _].
  - assert (Z.testbit (Z.land w 7) 2 = false) as Hb by (by rewrite E).
    rewrite Z.land_spec in Hb. change (Z.testbit 7 2) with true in Hb. by rewrite andb_true_r in Hb.
Qed.

(** The report of an installed policy. *)
Definition installed_report (p : Policy) (n : nat) : bytes :=
  [0x52; 0x4b; 0x4d; 0x50; 1; 15; 15; 0] ++ le_encode 4 (iram_end p) ++ le_encode 4 (data_start p)
  ++ concat (le_encode 4 <$> values p) ++ zeros (n - 48).

(** Eight words appended to a buffer. *)
Lemma put_words (out : bytes) ws k rest : length out = (16 + k * 4)%nat →
  foldl (λ output '(i, w), put output (16 + i * 4) (le_encode 4 w)) (out ++ zeros rest) (zip (seq k (length ws)) ws) =
  out ++ concat (le_encode 4 <$> ws) ++ zeros (rest - 4 * length ws).
Proof.
  revert out k rest. induction ws as [|w ws IH]; intros out k rest Hl; cbn [length seq zip zip_with foldl].
  - cbn. by rewrite Nat.sub_0_r.
  - rewrite put_app by done. rewrite length_le_encode, drop_zeros, app_assoc.
    rewrite IH by (rewrite length_app, length_le_encode; lia).
    rewrite <- app_assoc. cbn [fmap list_fmap concat]. rewrite <- !app_assoc. do 4 f_equal. lia.
Qed.

Lemma read_words r k ps vs : length ps = length vs →
  (∀ om v, (om, v) ∈ zip ps vs → Z.land (reg_read r om.1) om.2 = v) →
  (λ x, (x.1, Z.land (reg_read r x.2.1) x.2.2)) <$> zip (seq k (length ps)) ps = zip (seq k (length vs)) vs.
Proof.
  revert k vs. induction ps as [|om ps IH]; intros k [|v vs] Hl Hv; try done.
  cbn [length seq zip zip_with fmap list_fmap fst snd]. rewrite (Hv om v) by (by left). f_equal.
  apply IH; [by injection Hl|]. intros om' v' Hx. apply Hv. by right.
Qed.

(** The status report of a device whose policy is installed says exactly that: all four
    locks set, all monitors on and no fault latched, the split addresses of the linked
    image and the permission words of the policy, whatever other bits the registers
    have. *)
Theorem status_reports_policy ie ds p r output : new_policy ie ds = Ok p →
  (∀ o, o ∈ LOCKS → locked r o = true) → matches_policy p r = true → (64 ≤ length output)%nat →
  encode_status p r output = Some (installed_report p (length output)).
Proof.
  intros Hp Hlocks Hmatch Hlen. apply new_policy_values in Hp as (-> & _). set (p := mkPolicy _ _ _) in *.
  apply matches_spec in Hmatch as [Hperm Hmon]; [|done].
  unfold encode_status. rewrite (proj2 (Nat.ltb_ge _ _)) by lia.
  rewrite (packed_constant r LOCKS 0 1), (packed_constant r MONITORS 1 1), (packed_constant r MONITORS 2 0); auto.
  2: { intros o Ho. rewrite land_bit by lia. destruct (monitor_bits _ (Hmon o Ho)) as [_ ->]. done. }
  2: { intros o Ho. rewrite land_bit by lia. destruct (monitor_bits _ (Hmon o Ho)) as [-> _]. done. }
  2: { intros o Ho. rewrite land_bit by lia. specialize (Hlocks o Ho). unfold locked in Hlocks.
       apply negb_true_iff, Z.eqb_neq in Hlocks. pose proof (land_bit (reg_read r o) 0 ltac:(lia)) as Hl.
       rewrite Z.shiftr_0_r in Hl. rewrite Hl in Hlocks. by destruct (Z.testbit (reg_read r o) 0). }
  f_equal. rewrite put_zeros. rewrite put_app by done. rewrite drop_zeros, app_assoc.
  rewrite put_app by done. rewrite length_le_encode, drop_zeros, app_assoc.
  rewrite put_app by (by rewrite length_app, length_le_encode). rewrite length_le_encode, drop_zeros, app_assoc.
  assert (∀ l acc, l ⊆ zip (seq 0 8) PERMISSIONS →
    foldl (λ output '(i, (offset, mask)), put output (16 + i * 4) (le_encode 4 (Z.land (reg_read r offset) mask))) acc l =
    foldl (λ output '(i, w), put output (16 + i * 4) (le_encode 4 w)) acc
      ((λ x, (x.1, Z.land (reg_read r x.2.1) x.2.2)) <$> l)) as Hmap.
  { induction l as [|[i [o m]] l IH]; intros acc Hl; [done|]. cbn [foldl fmap list_fmap fst snd]. apply IH. set_solver. }
  rewrite Hmap by done.
  pose proof (read_words r 0 PERMISSIONS (values p) eq_refl Hperm) as Hwords.
  change (length PERMISSIONS) with 8%nat in Hwords. rewrite Hwords.
  rewrite put_words; [|rewrite !length_app, !length_le_encode; done].
  unfold installed_report. rewrite <- !app_assoc.
  match goal with |- _ ++ _ ++ _ ++ _ ++ _ ++ zeros ?n = _ =>
    replace n with (length output - 48)%nat by (change (length (values p)) with 8%nat; simpl; lia) end.
  reflexivity.
Qed.
End theorems.

(** ** A register file *)

Record pms := mkPms { pms_words : Z → Z }.

Definition pms_lock (o : Z) : Z := if o <? 0x28 then 0x10 else if o <? 0x3c then 0x28 else if o <? 0x5c then 0x3c else 0x5c.
Definition pms_read (r : pms) (o : Z) : Z := pms_words r o mod 0x100000000.
Definition pms_frozen (r : pms) (o : Z) : bool := negb (Z.land (pms_read r (pms_lock o)) 1 =? 0).

#[export] Instance pms_registers : Registers pms := {|
  reg_read := pms_read;
  reg_write o v r := if pms_frozen r o then r else
    mkPms (λ a, if a =? o then written o v (pms_read r o) else pms_words r a);
|}.

Lemma pms_lock_in o : pms_lock o ∈ LOCKS.
Proof. unfold pms_lock, LOCKS. repeat case_match; set_solver. Qed.

Lemma written_u32 o v w : is_u32 v → is_u32 w → is_u32 (written o v w).
Proof.
  intros Hv Hw. unfold written. destruct (is_monitor o); [|done].
  apply (lor_bound 32); [lia|by apply u32_land|]. destruct (Z.testbit v 0); [by vm_compute|by apply u32_land].
Qed.

#[export] Instance pms_view : RegistersView pms.
Proof.
  refine {| frozen := pms_frozen |}.
  - intros r o Hl. rewrite forallb_forall in Hl. specialize (Hl (pms_lock o) (proj1 (list_elem_of_In _ _) (pms_lock_in o))).
    by apply negb_true_iff in Hl.
  - intros r o. unfold is_u32. cbn. unfold pms_read. apply Z.mod_pos_bound. lia.
  - intros r o v o' Hne. cbn. destruct (pms_frozen r o); [done|]. unfold pms_read. cbn.
    by rewrite (proj2 (Z.eqb_neq _ _)).
  - intros r o v Hf Hv. cbn. rewrite Hf. unfold pms_read at 1. cbn. rewrite Z.eqb_refl.
    apply Z.mod_small, written_u32; [done|]. unfold is_u32, pms_read. apply Z.mod_pos_bound. lia.
  - intros r o Ho Hl. unfold LOCKS in Ho. set_unfold. destruct Ho as [->|[->|[->|[->|[]]]]]; exact Hl.
Qed.

Definition linked_policy : Policy := mkPolicy 0x40030000 0x3ffc0000 (policy_values 0x40030000 0x3ffc0000).
Definition reset_registers : pms := mkPms (λ _, 0xffffff00).

Lemma protection_installed_witness :
  new_policy 0x40030000 0x3ffc0000 = Ok linked_policy ∧
  (unlocked reset_registers → ∃ r', configure linked_policy reset_registers = (Ok tt, r') ∧
     configured linked_policy reset_registers r' ∧ (∀ o, o ∈ LOCKS → reg_read r' o = 1)) ∧
  (¬ unlocked reset_registers → (configure linked_policy reset_registers).2 = reset_registers ∧
     ((configure linked_policy reset_registers).1 = Ok tt ↔
        (∀ o, o ∈ LOCKS → locked reset_registers o = true) ∧ matches_policy linked_policy reset_registers = true)).
Proof. split; [reflexivity|]. apply (protection_installed 0x40030000 0x3ffc0000). reflexivity. Defined.

Definition protected_registers : pms := (configure linked_policy reset_registers).2.

Lemma status_reports_policy_witness :
  encode_status linked_policy protected_registers (zeros 64) = Some (installed_report linked_policy 64).
Proof.
  apply (status_reports_policy 0x40030000 0x3ffc0000); [vm_compute; reflexivity| |vm_compute; reflexivity|apply Nat.leb_le; reflexivity].
  intros o Ho. unfold LOCKS in Ho. set_unfold in Ho. destruct Ho as [->|[->|[->|[->|[]]]]]; vm_compute; reflexivity.
Defined.
