(* ===== verification/Storage.v ===== *)
(** * Credential storage

    [src/src/platform/storage_layout.rs], [storage.rs] in the release configuration
    and [storage_init.rs]: the flash partition of the credential store, the block
    driver littlefs runs on, the format version that normal firmware insists on
    and the tree an identity may be imported into.  littlefs itself is the
    [Filesystem] interface: the calls the firmware makes. *)

From Stdlib Require Import Ascii.
From stdpp Require Import base tactics numbers list option strings.
From S2P Require Import Prelude Rom FlashEncryption.

(** ** The partition *)

Definition FLASH_SIZE : Z := 4 * 1024 * 1024.
Definition FIDO_STORE_SIZE : Z := 128 * 1024.
Definition FIDO_STORE_OFFSET : Z := FLASH_SIZE - FIDO_STORE_SIZE.
Definition ERASE_SIZE : Z := 4096.
Definition FIDO_STORE_BLOCK_COUNT : Z := FIDO_STORE_SIZE / ERASE_SIZE.

(** [usize] is 32 bits wide on the target. *)
Definition checked_absolute_range (offset len : Z) : option (Z * Z) :=
  fin ← u32_add offset len;
  if FIDO_STORE_SIZE <? fin then None
  else
    absolute_start ← u32_add FIDO_STORE_OFFSET offset;
    absolute_end ← u32_add FIDO_STORE_OFFSET fin;
    Some (absolute_start, absolute_end).

(** ** The block driver *)

(** [littlefs2::io::Error], with the codes the firmware names. *)
Inductive FsError := FS_IO | FS_CORRUPTION | FS_DIR_NOT_EMPTY | FS_OTHER (code : Z).

#[export] Instance FsError_eq_dec : EqDecision FsError.
Proof. solve_decision. Defined.

Inductive StorageBackendError := SB_FlashEncryption.

Definition READ_SIZE : Z := 4.
Definition WRITE_SIZE : Z := 32.
Definition BLOCK_SIZE : Z := ERASE_SIZE.
Definition BLOCK_COUNT : Z := FIDO_STORE_BLOCK_COUNT.

Inductive store_op := SO_Read (offset : Z) (len : nat) | SO_Write (offset : Z) (data : bytes) | SO_Erase (offset : Z) (len : nat).
Inductive store_answer := SA_Data (data : bytes) | SA_Count (count : nat).

Section driver.
Context {M : Type} `{Rom M}.

Definition fs_step : Type → Type := step (Device M) FsError.

Definition new_storage : step (Device M) StorageBackendError unit :=
  map_err initialize SB_FlashEncryption.

Definition absolute_range (offset : Z) (len : nat) : fs_step (Z * Z) :=
  ok_or (checked_absolute_range offset (Z.of_nat len)) FS_IO.

Definition store_read (offset : Z) (len : nat) : fs_step bytes :=
  range ← absolute_range offset len;
  map_err (read (fst range) len) FS_IO.

Definition store_write (offset : Z) (data : bytes) : fs_step nat :=
  range ← absolute_range offset (length data);
  map_err (write (fst range) data) FS_IO;;
  mret (length data).

Definition store_erase (offset : Z) (len : nat) : fs_step nat :=
  range ← absolute_range offset len;
  map_err (erase (fst range) len) FS_IO;;
  mret len.

(** [impl Storage for FidoFlashStorage]: the requests littlefs makes of the driver. *)
Definition run_op (op : store_op) : fs_step store_answer :=
  match op with
  | SO_Read o n => d ← store_read o n; mret (SA_Data d)
  | SO_Write o d => n ← store_write o d; mret (SA_Count n)
  | SO_Erase o n => n ← store_erase o n; mret (SA_Count n)
  end.
End driver.

(** ** The filesystem *)

Abbreviation path := string.

(** The components of a path; empty ones are skipped, so a leading slash does not
    matter. *)
Fixpoint parts_from (part : string) (p : path) : list string :=
  match p with
  | EmptyString => if bool_decide (part = EmptyString) then [] else [part]
  | String c p =>
      if Ascii.eqb c (ascii_of_nat 47)
      then (if bool_decide (part = EmptyString) then [] else [part]) ++ parts_from EmptyString p
      else parts_from (part +:+ String c EmptyString) p
  end.
Definition parts (p : path) : list string := parts_from EmptyString p.

(** No component goes up or stays: the components identify the file. *)
Definition plain (p : path) : Prop := "."%string ∉ parts p ∧ ".."%string ∉ parts p.
Definition apart_paths (p q : path) : Prop := plain p ∧ plain q ∧ parts p ≠ parts q.

(** The calls of [littlefs2::fs::Filesystem]; the error codes are those of
    [littlefs2::io::Error].  A directory is read as the file names of its entries. *)
Class Filesystem (F : Type) := {
  fs_mount : F → result FsError unit * F;
  fs_read : path → nat → F → result FsError bytes * F;
  fs_write : path → bytes → F → result FsError unit * F;
  fs_create_dir_all : path → F → result FsError unit * F;
  fs_read_dir : path → F → result FsError (list (result FsError path)) * F;
}.

Definition STORAGE_FORMAT_VERSION : bytes := ascii_bytes "rissokey-fido-store-v1" ++ [10].
Definition PERSISTENT_STATE_INITIALIZATION_MARKER : bytes :=
  ascii_bytes "rissokey-persistent-state-init-v1" ++ [10].
Definition STORAGE_FORMAT_VERSION_PATH : path := "/.rissokey-storage-format".
Definition PERSISTENT_STATE_INITIALIZATION_MARKER_PATH : path := "/fido/dat/persistent-state.init".

Inductive StorageVersionError := SV_Filesystem (error : FsError) | SV_VersionMismatch.
Inductive MountExistingError := ME_Mount (error : FsError) | ME_Version (error : StorageVersionError).

Section filesystem.
Context {F : Type} `{Filesystem F}.

(** A call that returns [Result], with the conversion [?] applies to its error. *)
Definition try_fs {E A} (f : F → result FsError A * F) (into : FsError → E) : step F E A := λ s,
  match f s with
  | (Ok a, s) => Some (Ok a, s)
  | (Err e, s) => Some (Err (into e), s)
  end.

Definition verify_storage_version : step F StorageVersionError unit :=
  stored ← try_fs (fs_read STORAGE_FORMAT_VERSION_PATH 32) SV_Filesystem;
  if bytes_eqb stored STORAGE_FORMAT_VERSION then mret tt else throw SV_VersionMismatch.

Definition write_storage_version : step F StorageVersionError unit :=
  try_fs (fs_write STORAGE_FORMAT_VERSION_PATH STORAGE_FORMAT_VERSION) SV_Filesystem;;
  verify_storage_version.

Definition write_persistent_state_initialization_marker : step F FsError unit :=
  try_fs (fs_create_dir_all "/fido/dat") id;;
  try_fs (fs_write PERSISTENT_STATE_INITIALIZATION_MARKER_PATH
            PERSISTENT_STATE_INITIALIZATION_MARKER) id;;
  stored ← try_fs (fs_read PERSISTENT_STATE_INITIALIZATION_MARKER_PATH 64) id;
  if bytes_eqb stored PERSISTENT_STATE_INITIALIZATION_MARKER then mret tt else throw FS_CORRUPTION.

(** [verify_storage_version(..)?] inside [mount_existing] converts the error. *)
Definition version_step {A} (c : step F StorageVersionError A) : step F MountExistingError A := λ s,
  match c s with
  | Some (Ok a, s) => Some (Ok a, s)
  | Some (Err e, s) => Some (Err (ME_Version e), s)
  | None => None
  end.

Definition mount_existing : step F MountExistingError unit :=
  try_fs fs_mount ME_Mount;;
  version_step verify_storage_version.

(** The closure of [read_dir_and_then]: the loop over the entries, from [count]. *)
Fixpoint count_entries (allowed : list path) (entries : list (result FsError path)) (count : nat)
  : result FsError nat :=
  match entries with
  | [] => Ok count
  | Err e :: _ => Err e
  | Ok name :: entries =>
      if bool_decide (name = "."%string) || bool_decide (name = ".."%string)
      then count_entries allowed entries count
      else if negb (bool_decide (name ∈ allowed)) then Err FS_DIR_NOT_EMPTY
      else count_entries allowed entries (S count)
  end.

Definition directory (dir : path) (allowed : list path) : step F FsError unit :=
  entries ← try_fs (fs_read_dir dir) id;
  match count_entries allowed entries 0 with
  | Err e => throw e
  | Ok count => if (count =? length allowed)%nat then mret tt else throw FS_DIR_NOT_EMPTY
  end.

Definition verify_empty_identity_import_target : step F FsError unit :=
  directory "/" [".rissokey-storage-format"%string; "fido"%string];;
  directory "/fido" ["dat"%string];;
  directory "/fido/dat" ["persistent-state.init"%string];;
  marker ← try_fs (fs_read PERSISTENT_STATE_INITIALIZATION_MARKER_PATH 64) id;
  if bytes_eqb marker PERSISTENT_STATE_INITIALIZATION_MARKER then mret tt else throw FS_CORRUPTION.
End filesystem.

(** The three stores Trussed sees: external credentials live on the internal one. *)
Record FilesystemSet (G : Type) := mkFilesystemSet { internal : G; volatile : G }.
Arguments internal {G}.
Arguments volatile {G}.

Definition ifs {G} (set : FilesystemSet G) : G := internal set.
Definition efs {G} (set : FilesystemSet G) : G := internal set.
Definition vfs {G} (set : FilesystemSet G) : G := volatile set.

(** ** What the firmware relies on

    The tree of a filesystem: the contents of the files and the names in the
    directories.  Reading changes neither; a successful read of at most [n]
    bytes returns the start of the file; a write stores the data and adds the name to its directory; a
    directory lists [.], [..] and each name once. *)
Class FilesystemView (F : Type) `{Filesystem F} := {
  fs_file : F → path → option bytes;
  fs_dir : F → path → option (list path);
  fs_mount_frame : ∀ f r f', fs_mount f = (r, f') → fs_file f' = fs_file f ∧ fs_dir f' = fs_dir f;
  fs_read_frame : ∀ p n f r f', fs_read p n f = (r, f') → fs_file f' = fs_file f ∧ fs_dir f' = fs_dir f;
  fs_read_Ok : ∀ p n f d f', fs_read p n f = (Ok d, f') → ∃ data, fs_file f p = Some data ∧ d = take n data;
  fs_write_Ok : ∀ p d f f', fs_write p d f = (Ok tt, f') → fs_file f' p = Some d;
  fs_write_file : ∀ p d f r f' q, fs_write p d f = (r, f') → apart_paths p q → fs_file f' q = fs_file f q;
  fs_create_dir_file : ∀ p f r f' q, fs_create_dir_all p f = (r, f') → fs_file f' q = fs_file f q;
  fs_read_dir_frame : ∀ p f r f', fs_read_dir p f = (r, f') →
    fs_file f' = fs_file f ∧ fs_dir f' = fs_dir f;
  fs_read_dir_Ok : ∀ p f l f', fs_read_dir p f = (Ok l, f') →
    ∃ names, l = (Ok <$> "."%string :: ".."%string :: names) ∧ fs_dir f p = Some names ∧ NoDup names ∧
             "."%string ∉ names ∧ ".."%string ∉ names;
}.

(** A filesystem on healthy flash: what is there can be read. *)
Class HealthyFilesystem (F : Type) `{FilesystemView F} := {
  fs_healthy : F → Prop;
  fs_healthy_mount : ∀ f, fs_healthy f → ∃ f', fs_mount f = (Ok tt, f') ∧ fs_healthy f';
  fs_healthy_read : ∀ p n f d, fs_healthy f → fs_file f p = Some d →
    ∃ f', fs_read p n f = (Ok (take n d), f') ∧ fs_healthy f';
  fs_healthy_read_dir : ∀ p f names, fs_healthy f → fs_dir f p = Some names →
    ∃ l f', fs_read_dir p f = (Ok l, f') ∧ fs_healthy f';
}.
