(* ===== verification/StorageTheorems.v ===== *)
(** * The credential store is a block device of its own

    The driver implements the NOR device littlefs expects, inside its partition and
    nowhere else; a mount accepts only the format version and writes nothing; what
    the provisioner wrote mounts, and an identity is imported into exactly that
    tree. *)

From stdpp Require Import base tactics numbers list option strings sets gmap.
From S2P Require Import Prelude Rom FlashEncryption FlashWindows FlashOperations ModelRom Storage.

(** ** The device littlefs expects *)

Definition so_offset (op : store_op) : Z :=
  match op with SO_Read o _ | SO_Write o _ | SO_Erase o _ => o end.
Definition so_length (op : store_op) : nat :=
  match op with SO_Read _ n | SO_Erase _ n => n | SO_Write _ d => length d end.

(** The bytes of the partition and which of them are erased. *)
Record nor := mkNor { nor_byte : memory; nor_erased : Z → Prop }.

Definition in_partition (op : store_op) : Prop := so_offset op + Z.of_nat (so_length op) ≤ FIDO_STORE_SIZE.
Definition in_range (op : store_op) (a : Z) : Prop :=
  so_offset op ≤ a < so_offset op + Z.of_nat (so_length op).
Definition kept_outside (op : store_op) (n n' : nor) : Prop := ∀ a, ¬ in_range op a →
  nor_byte n' a = nor_byte n a ∧ (nor_erased n a → nor_erased n' a).

(** What an operation may answer and leave behind. *)
Definition nor_step (op : store_op) (n : nor) (r : result FsError store_answer) (n' : nor) : Prop :=
  match r with
  | Ok answer => in_partition op ∧
      match op with
      | SO_Read o k => answer = SA_Data (mem_read (nor_byte n) o k) ∧ n' = n
      | SO_Write o d => answer = SA_Count (length d) ∧ kept_outside op n n' ∧
          (Forall is_byte d → (∀ a, in_range op a → nor_erased n a) → mem_read (nor_byte n') o (length d) = d)
      | SO_Erase o k => answer = SA_Count k ∧ kept_outside op n n' ∧ ∀ a, in_range op a → nor_erased n' a
      end
  | Err e => e = FS_IO ∧
      match op with
      | SO_Read _ _ => n' = n
      | _ => kept_outside op n n' ∧ (¬ in_partition op → n' = n)
      end
  end.

Lemma checked_absolute_range_spec o n : 0 ≤ o → 0 ≤ n →
  checked_absolute_range o n =
  if FIDO_STORE_SIZE <? o + n then None else Some (FIDO_STORE_OFFSET + o, FIDO_STORE_OFFSET + (o + n)).
Proof.
  intros Ho Hn. unfold checked_absolute_range, u32_add.
  destruct (Z.ltb_spec FIDO_STORE_SIZE (o + n)) as [Hlt|Hle].
  - destruct (o + n <=? U32_MAX); cbn [mbind option_bind]; [|done]. by rewrite (proj2 (Z.ltb_lt _ _)).
  - unfold FIDO_STORE_SIZE, FIDO_STORE_OFFSET, FLASH_SIZE in *. unfold_max.
    rewrite (proj2 (Z.leb_le (o + n) _)) by lia. cbn [mbind option_bind].
    rewrite (proj2 (Z.ltb_ge _ _)) by lia. by rewrite !(proj2 (Z.leb_le _ _)) by (unfold FIDO_STORE_SIZE; lia).
Qed.

Section driver.
Context {M : Type} `{RomView M}.

Definition nor_of (m : M) : nor :=
  mkNor (λ a, flash m (FIDO_STORE_OFFSET + a)) (λ a, erased m (FIDO_STORE_OFFSET + a)).

Lemma mem_read_shift (m : memory) base o n :
  mem_read (λ a, m (base + a)) o n = mem_read m (base + o) n.
Proof.
  revert o. induction n as [|n IH]; intros o; [done|]. simpl. rewrite IH. do 2 f_equal. lia.
Qed.

(** A change of flash inside the range of an operation, seen from the partition. *)
Lemma kept_of op (d d' : Device M) :
  dwithin (FIDO_STORE_OFFSET + so_offset op) (FIDO_STORE_OFFSET + so_offset op + Z.of_nat (so_length op)) d d' →
  kept_outside op (nor_of (dv_rom d)) (nor_of (dv_rom d')).
Proof.
  intros [_ W] a Ha. unfold in_range in Ha. simpl.
  split; [apply (wi_flash _ _ _ _ W)|apply (wi_erased _ _ _ _ W)]; lia.
Qed.

Lemma outside_partition op (d d' : Device M) :
  0 ≤ so_offset op → in_partition op →
  dwithin (FIDO_STORE_OFFSET + so_offset op) (FIDO_STORE_OFFSET + so_offset op + Z.of_nat (so_length op)) d d' →
  ∀ a, ¬ FIDO_STORE_OFFSET ≤ a < FLASH_SIZE → flash (dv_rom d') a = flash (dv_rom d) a.
Proof.
  intros Ho Hp [_ W] a Ha. apply (wi_flash _ _ _ _ W).
  unfold in_partition, FIDO_STORE_OFFSET, FIDO_STORE_SIZE, FLASH_SIZE in *. lia.
Qed.

Definition step_ok op (d : Device M) r d' : Prop :=
  nor_step op (nor_of (dv_rom d)) r (nor_of (dv_rom d')) ∧
  (∀ a, ¬ FIDO_STORE_OFFSET ≤ a < FLASH_SIZE → flash (dv_rom d') a = flash (dv_rom d) a) ∧
  ((∃ answer, r = Ok answer) → windows_ok d') ∧
  (dv_initialized d' = true → ∀ mp, mp ∈ MAPPINGS → mp ≠ FIDO_STORE_MAPPING → window_ok (dv_rom d') mp).

Lemma wp_absolute_range {A} op (k : Z * Z → fs_step A) (Q : result FsError A → Device M → Prop) d :
  0 ≤ so_offset op →
  (in_partition op → wp (k (FIDO_STORE_OFFSET + so_offset op, FIDO_STORE_OFFSET + (so_offset op + Z.of_nat (so_length op)))) Q d) →
  (¬ in_partition op → Q (Err FS_IO) d) →
  wp (absolute_range (so_offset op) (so_length op) ≫= k) Q d.
Proof.
  intros Ho Hin Hout. apply wp_bind. unfold absolute_range. rewrite checked_absolute_range_spec by lia.
  unfold in_partition in *. destruct (Z.ltb_spec FIDO_STORE_SIZE (so_offset op + Z.of_nat (so_length op))).
  - apply Hout. lia.
  - by apply Hin.
Qed.

Lemma apart_store mp op : mp ∈ MAPPINGS → mp ≠ FIDO_STORE_MAPPING → 0 ≤ so_offset op → in_partition op →
  apart mp (FIDO_STORE_OFFSET + so_offset op) (FIDO_STORE_OFFSET + so_offset op + Z.of_nat (so_length op)).
Proof.
  intros Hmp Hne Ho Hp. unfold in_partition, FIDO_STORE_SIZE in *.
  apply in_mappings in Hmp as [->|[->|[->| ->]]]; [..|done]; right; simpl;
    unfold FIDO_STORE_OFFSET, FLASH_SIZE, FIDO_STORE_SIZE, MMU_PAGE_SIZE; lia.
Qed.

Lemma refused op d : windows_ok d → nor_step op (nor_of (dv_rom d)) (Err FS_IO) (nor_of (dv_rom d)) →
  step_ok op d (Err FS_IO) d.
Proof.
  intros W Hn. split; [done|]. split; [done|]. split; [by intros [? [=]]|].
  intros Hi mp Hmp _. by apply windows_in.
Qed.

(** What a write or an erase leaves behind, from what [mutated] says of it. *)
Lemma mutated_step op d d' r P :
  0 ≤ so_offset op → in_partition op → windows_ok d →
  mutated (FIDO_STORE_OFFSET + so_offset op) (FIDO_STORE_OFFSET + so_offset op + Z.of_nat (so_length op)) d d' P →
  ((∃ answer, r = Ok answer) → P) → nor_step op (nor_of (dv_rom d)) r (nor_of (dv_rom d')) →
  step_ok op d r d'.
Proof.
  intros Ho Hp W Mu HP Hn. pose proof (mu_within _ _ _ _ _ Mu) as Hw.
  split; [done|]. split; [by eapply outside_partition|]. split.
  - intros Hr Hi. rewrite (proj1 Hw) in Hi. apply Forall_forall. intros mp Hmp.
    apply list_elem_of_In in Hmp as Hm. apply (mu_windows _ _ _ _ _ Mu); [by apply HP|done|by apply windows_in].
  - intros Hi mp Hmp Hne. rewrite (proj1 Hw) in Hi.
    eapply mutated_apart; [exact Mu|by apply apart_store|by apply windows_in].
Qed.

Lemma partition_end op : in_partition op →
  0 ≤ FIDO_STORE_OFFSET ∧ FIDO_STORE_OFFSET + so_offset op + Z.of_nat (so_length op) ≤ U32_MAX.
Proof. unfold in_partition, FIDO_STORE_OFFSET, FLASH_SIZE, FIDO_STORE_SIZE. unfold_max. lia. Qed.

Lemma run_write_wp o data d : 0 ≤ o → (0 < length data)%nat → windows_ok d →
  wp (run_op (SO_Write o data)) (step_ok (SO_Write o data) d) d.
Proof.
  intros Ho Hpos W. cbn [run_op]. unfold store_write. set (op := SO_Write o data).
  apply wp_bind, (wp_absolute_range op); [done|intros Hp|intros Hp; apply refused; [done|split; [done|]]].
  2: { split; [|done]. by intros a. }
  apply wp_bind, wp_map_err. cbn [fst]. destruct (partition_end op Hp) as [H0' Hend].
  eapply wp_mono; [apply write_inner_wp; [simpl in *; lia|exact Hend|done]|].
  intros r d' [Mu K]. pose proof (kept_of op d d' (mu_within _ _ _ _ _ Mu)) as Hk.
  destruct r as [[]|e]; cbn beta iota.
  - apply wp_ret, wp_ret. eapply mutated_step; [done..|exact Mu|done|]. split; [done|]. split; [done|]. split; [done|].
    intros Hb Her. destruct K as [_ K]; [done|]. rewrite <- (K Hb) at 2.
    + apply mem_read_shift.
    + intros a Ha. assert (in_range op (a - FIDO_STORE_OFFSET)) as Hr by (unfold in_range; simpl in *; lia).
      specialize (Her _ Hr). simpl in Her. by replace (FIDO_STORE_OFFSET + (a - FIDO_STORE_OFFSET)) with a in Her by lia.
  - eapply mutated_step; [done..|exact Mu|by intros [? [=]]|]. split; [done|]. split; [done|]. by intros [].
Qed.

Lemma run_erase_wp o n d : 0 ≤ o → (0 < n)%nat → windows_ok d →
  wp (run_op (SO_Erase o n)) (step_ok (SO_Erase o n) d) d.
Proof.
  intros Ho Hpos W. cbn [run_op]. unfold store_erase. set (op := SO_Erase o n).
  apply wp_bind, (wp_absolute_range op); [done|intros Hp|intros Hp; apply refused; [done|split; [done|]]].
  2: { split; [|done]. by intros a. }
  apply wp_bind, wp_map_err. cbn [fst]. destruct (partition_end op Hp) as [H0' Hend].
  eapply wp_mono; [apply erase_inner_wp; [simpl in *; lia|exact Hend|done]|].
  intros r d' [Mu K]. pose proof (kept_of op d d' (mu_within _ _ _ _ _ Mu)) as Hk.
  destruct r as [[]|e]; cbn beta iota.
  - apply wp_ret, wp_ret. eapply mutated_step; [done..|exact Mu|done|]. split; [done|]. split; [done|]. split; [done|].
    intros a Ha. destruct K as [_ K]; [done|]. apply K. unfold in_range in Ha. cbn [so_offset so_length op] in *. lia.
  - eapply mutated_step; [done..|exact Mu|by intros [? [=]]|]. split; [done|]. split; [done|]. by intros [].
Qed.

Lemma store_window (d : Device M) : windows_ok d → dv_initialized d = true → window_ok (dv_rom d) FIDO_STORE_MAPPING.
Proof. intros W Hi. apply windows_in; [done|by do 3 right; left|done]. Qed.

Lemma store_read_spec o n (d : Device M) : 0 ≤ o → (0 < n)%nat →
  (dv_initialized d = true → window_ok (dv_rom d) FIDO_STORE_MAPPING) →
  store_read o n d = Some (if (o + Z.of_nat n <=? FIDO_STORE_SIZE) && dv_initialized d
    then Ok (mem_read (flash (dv_rom d)) (FIDO_STORE_OFFSET + o) n) else Err FS_IO, d).
Proof.
  intros Ho Hpos W. unfold store_read, absolute_range. rewrite checked_absolute_range_spec by lia.
  unfold mbind, step_bind, ok_or. destruct (Z.ltb_spec FIDO_STORE_SIZE (o + Z.of_nat n)) as [Hlt|Hle].
  { by rewrite (proj2 (Z.leb_gt _ _)). }
  rewrite (proj2 (Z.leb_le _ _)) by done. cbn [andb fst mret step_ret].
  unfold map_err. destruct (dv_initialized d) eqn:Hi.
  - rewrite (read_spec FIDO_STORE_MAPPING);
      [done|by do 3 right; left|simpl; unfold FIDO_STORE_OFFSET, FLASH_SIZE, FIDO_STORE_SIZE in *; simpl; lia|done
       |simpl; unfold FIDO_STORE_OFFSET, FLASH_SIZE, FIDO_STORE_SIZE in *; simpl; lia|done
       |by apply W].
  - unfold FlashEncryption.read, require_initialized, mbind, step_bind, get_state. by rewrite Hi.
Qed.

Lemma run_read o n d : 0 ≤ o → (0 < n)%nat → windows_ok d →
  run_op (SO_Read o n) d = Some (if (o + Z.of_nat n <=? FIDO_STORE_SIZE) && dv_initialized d
    then Ok (SA_Data (mem_read (nor_byte (nor_of (dv_rom d))) o n)) else Err FS_IO, d).
Proof.
  intros Ho Hpos W. cbn [run_op]. unfold mbind, step_bind. rewrite store_read_spec by auto using store_window.
  destruct (_ && _); [|done]. cbn. by rewrite mem_read_shift.
Qed.

(** *** Whatever the window holds *)

(** A write or an erase that fails may leave stale lines in the window of the store. *)
Definition stale_after (op : store_op) (r : result FsError store_answer) : bool :=
  match op, r with
  | SO_Read _ _, _ | _, Ok _ => false
  | _, Err _ => true
  end.

(** What an operation leaves behind, without what a read answers. *)
Definition nor_effect (op : store_op) (n : nor) (r : result FsError store_answer) (n' : nor) : Prop :=
  match op with SO_Read _ _ => n' = n | _ => nor_step op n r n' end.

Record driver_step op (d : Device M) (r : result FsError store_answer) (d' : Device M) : Prop := {
  ds_within : d' = d ∨ in_partition op ∧
    dwithin (FIDO_STORE_OFFSET + so_offset op) (FIDO_STORE_OFFSET + so_offset op + Z.of_nat (so_length op)) d d';
  ds_effect : nor_effect op (nor_of (dv_rom d)) r (nor_of (dv_rom d'));
  ds_answer : (dv_initialized d = true → window_ok (dv_rom d) FIDO_STORE_MAPPING) →
    nor_step op (nor_of (dv_rom d)) r (nor_of (dv_rom d'));
  ds_window : stale_after op r = false →
    window_ok (dv_rom d) FIDO_STORE_MAPPING → window_ok (dv_rom d') FIDO_STORE_MAPPING;
}.

Lemma refused_step op d : driver_step op d (Err FS_IO) d.
Proof.
  assert (nor_step op (nor_of (dv_rom d)) (Err FS_IO) (nor_of (dv_rom d))) as Hn.
  { split; [done|]. by destruct op; [|split..]. }
  split; [by left| |done|done]. by destruct op.
Qed.

Lemma changed_step op d d' r P : 0 ≤ so_offset op → in_partition op → (∀ o n, op ≠ SO_Read o n) →
  mutated (FIDO_STORE_OFFSET + so_offset op) (FIDO_STORE_OFFSET + so_offset op + Z.of_nat (so_length op)) d d' P →
  ((∃ answer, r = Ok answer) → P) → nor_step op (nor_of (dv_rom d)) r (nor_of (dv_rom d')) →
  driver_step op d r d'.
Proof.
  intros Ho Hp Hr Mu HP Hn. split; [right; split; [done|apply (mu_within _ _ _ _ _ Mu)]| |done|].
  - by destruct op; [destruct (Hr offset len)|..].
  - intros Hs Hw. apply (mu_windows _ _ _ _ _ Mu); [|by do 3 right; left|done].
    apply HP. destruct op; [by destruct (Hr offset len)|..]; destruct r; by eauto.
Qed.

Lemma read_any o n d : 0 ≤ o →
  wp (run_op (SO_Read o n)) (driver_step (SO_Read o n) d) d.
Proof.
  intros Ho. set (op := SO_Read o n).
  assert (wp (run_op op) (λ r d', d' = d ∧ match r with
    | Ok answer => in_partition op ∧ ∃ out, answer = SA_Data out ∧ length out = n
    | Err e => e = FS_IO end) d) as W.
  { cbn [run_op op]. unfold store_read.
    apply wp_bind, (wp_absolute_range op); [done|intros Hp|done]. apply wp_map_err. cbn [fst].
    unfold FlashEncryption.read. apply wp_bind, wp_require_initialized; [intros _|done].
    apply wp_bind, wp_ok_or; [intros v _|done]. apply wp_bind, wp_get, wp_ret, wp_ret. split; [done|].
    split; [done|]. eexists. split; [done|]. rewrite rom_load_seen. apply length_mem_read. }
  destruct (wp_elim _ _ _ W) as (r & d' & E & -> & Hr). unfold wp. rewrite E.
  split; [by left|done| |done]. intros Hw. destruct (decide (0 < n)%nat) as [Hpos|].
  - cbn [run_op op] in E. unfold mbind, step_bind in E. rewrite store_read_spec in E by done.
    destruct r as [answer|e]; [destruct Hr as [Hp _]|by split].
    destruct (_ && _); [|done]. injection E as <-. split; [done|]. split; [|done]. cbn [nor_byte nor_of]. by rewrite mem_read_shift.
  - destruct r as [answer|e]; [|by split]. destruct Hr as (Hp & out & -> & Hl). split; [done|]. split; [|done].
    assert (n = 0%nat) as -> by lia. by destruct out.
Qed.

Lemma write_any o data d : 0 ≤ o → wp (run_op (SO_Write o data)) (driver_step (SO_Write o data) d) d.
Proof.
  intros Ho. cbn [run_op]. unfold store_write. set (op := SO_Write o data).
  apply wp_bind, (wp_absolute_range op); [done|intros Hp|intros _; apply refused_step].
  apply wp_bind, wp_map_err. cbn [fst]. destruct (partition_end op Hp) as [H0' Hend].
  eapply wp_mono; [apply write_inner_any; [simpl in *; lia|exact Hend]|].
  intros r d' [Mu K]. pose proof (kept_of op d d' (mu_within _ _ _ _ _ Mu)) as Hk.
  destruct r as [[]|e]; cbn beta iota.
  - apply wp_ret, wp_ret. eapply changed_step; [done..|exact Mu|done|]. split; [done|]. split; [done|]. split; [done|].
    intros Hb Her. destruct K as [_ K]; [done|]. rewrite <- (K Hb) at 2; [apply mem_read_shift|].
    intros a Ha. assert (in_range op (a - FIDO_STORE_OFFSET)) as Hr by (unfold in_range; simpl in *; lia).
    specialize (Her _ Hr). simpl in Her. by replace (FIDO_STORE_OFFSET + (a - FIDO_STORE_OFFSET)) with a in Her by lia.
  - eapply changed_step; [done..|exact Mu|by intros [? [=]]|]. by split.
Qed.

Lemma erase_any o n d : 0 ≤ o → wp (run_op (SO_Erase o n)) (driver_step (SO_Erase o n) d) d.
Proof.
  intros Ho. cbn [run_op]. unfold store_erase. set (op := SO_Erase o n).
  apply wp_bind, (wp_absolute_range op); [done|intros Hp|intros _; apply refused_step].
  apply wp_bind, wp_map_err. cbn [fst]. destruct (partition_end op Hp) as [H0' Hend].
  eapply wp_mono; [apply erase_inner_any; [simpl in *; lia|exact Hend]|].
  intros r d' [Mu K]. pose proof (kept_of op d d' (mu_within _ _ _ _ _ Mu)) as Hk.
  destruct r as [[]|e]; cbn beta iota.
  - apply wp_ret, wp_ret. eapply changed_step; [done..|exact Mu|done|]. split; [done|]. split; [done|]. split; [done|].
    intros a Ha. destruct K as [_ K]; [done|]. apply K. unfold in_range in Ha. cbn [so_offset so_length op] in *. lia.
  - eapply changed_step; [done..|exact Mu|by intros [? [=]]|]. by split.
Qed.

Lemma run_op_any op d : 0 ≤ so_offset op → wp (run_op op) (driver_step op d) d.
Proof. destruct op; [apply read_any|apply write_any|apply erase_any]. Qed.

(** C33: The driver is a NOR device of 128 KiB: every operation returns, a read of the
    partition returns its bytes and changes nothing, a write changes only its range
    and stores the data in erased flash, an erase leaves its range erased, and
    anything past the end is refused with nothing changed.  Whatever happens, no
    byte outside the partition changes and the windows of the firmware partitions
    stay coherent. *)
Theorem fido_store_refines_nor op d :
  0 ≤ so_offset op → (0 < so_length op)%nat → windows_ok d →
  ∃ r d', run_op op d = Some (r, d') ∧ step_ok op d r d' ∧
    (∀ o n, op = SO_Read o n → in_partition op → dv_initialized d = true → ∃ answer, r = Ok answer).
Proof.
  intros Ho Hpos W. destruct op as [o n|o data|o n]; cbn [so_offset so_length] in *.
  - rewrite run_read by done. eexists _, d. split; [done|].
    unfold in_partition. cbn [so_offset so_length].
    destruct (Z.leb_spec (o + Z.of_nat n) FIDO_STORE_SIZE) as [Hle|]; cbn [andb];
      [destruct (dv_initialized d) eqn:Hi|].
    + split; [|by eauto]. split; [done|]. split; [done|]. split; [done|].
      intros _ mp Hmp _. by apply windows_in.
    + split; [by apply refused|done].
    + split; [by apply refused|]. intros ? ? _ Hp. unfold FIDO_STORE_SIZE in *. simpl in *. lia.
  - destruct (wp_elim _ _ _ (run_write_wp o data d Ho Hpos W)) as (r & d' & E & K). by exists r, d'.
  - destruct (wp_elim _ _ _ (run_erase_wp o n d Ho Hpos W)) as (r & d' & E & K). by exists r, d'.
Qed.
End driver.

(** ** The credential filesystem *)

Section filesystem.
Context {F : Type} `{FilesystemView F}.

Definition same_tree (f f' : F) : Prop := fs_file f' = fs_file f ∧ fs_dir f' = fs_dir f.

Lemma wp_try_fs {E A} (c : F → result FsError A * F) into (Q : result E A → F → Prop) f :
  (∀ a f', c f = (Ok a, f') → Q (Ok a) f') → (∀ e f', c f = (Err e, f') → Q (Err (into e)) f') →
  wp (try_fs c into) Q f.
Proof. unfold wp, try_fs. destruct (c f) as [[a|e] f']; auto. Qed.

Lemma same_tree_trans f1 f2 f3 : same_tree f1 f2 → same_tree f2 f3 → same_tree f1 f3.
Proof. intros [A B] [C D]. split; congruence. Qed.

(** A read that returns less than it asked for returns the file. *)
Lemma fs_read_short p n f d f' :
  fs_read p n f = (Ok d, f') → (length d < n)%nat → fs_file f p = Some d.
Proof.
  intros E Hl. destruct (fs_read_Ok _ _ _ _ _ E) as (data & Hd & ->).
  rewrite length_take in Hl. rewrite take_ge by lia. done.
Qed.

(** A read that must equal a constant shorter than the buffer. *)
Lemma wp_verify_version f :
  wp verify_storage_version (λ r f', same_tree f f' ∧
    (r = Ok tt → fs_file f STORAGE_FORMAT_VERSION_PATH = Some STORAGE_FORMAT_VERSION)) f.
Proof.
  apply wp_bind, wp_try_fs; [|intros e f' E; split; [by eapply fs_read_frame|done]].
  intros stored f' E. pose proof (fs_read_frame _ _ _ _ _ E) as Ht.
  destruct (bytes_eqb stored _) eqn:Eq; [apply wp_ret|apply wp_throw]; (split; [done|]); [|done].
  intros _. apply bytes_eqb_true in Eq as ->. apply (fs_read_short _ _ _ _ _ E). by vm_compute; lia.
Qed.

Lemma wp_mount_existing f :
  wp mount_existing (λ r f', same_tree f f' ∧
    (r = Ok tt → fs_file f STORAGE_FORMAT_VERSION_PATH = Some STORAGE_FORMAT_VERSION)) f.
Proof.
  apply wp_bind, wp_try_fs; [intros [] f1 E|intros e f1 E; split; [by eapply fs_mount_frame|done]].
  pose proof (fs_mount_frame _ _ _ E) as H1. pose proof (wp_verify_version f1) as K.
  unfold wp, version_step in *. destruct (verify_storage_version f1) as [[[[]|e] f2]|]; [..|done];
    destruct K as [H2 K]; (split; [by eapply same_tree_trans|]); [|done].
  intros _. destruct H1 as [<- _]. by apply K.
Qed.

(** *** A directory holds exactly the allowed names *)

Lemma count_entries_spec allowed names k : "."%string ∉ names → ".."%string ∉ names →
  count_entries allowed (Ok <$> names) k =
  if bool_decide (Forall (.∈ allowed) names) then Ok (k + length names)%nat else Err FS_DIR_NOT_EMPTY.
Proof.
  revert k. induction names as [|name names IH]; intros k Hd Hdd; cbn [fmap list_fmap count_entries].
  { rewrite bool_decide_eq_true_2 by constructor. f_equal. simpl. lia. }
  apply not_elem_of_cons in Hd as [Hd1 Hd2]. apply not_elem_of_cons in Hdd as [Hdd1 Hdd2].
  rewrite !(bool_decide_eq_false_2 (name = _)) by done. cbn [orb].
  destruct (decide (name ∈ allowed)) as [Hin|Hout].
  - rewrite (bool_decide_eq_true_2 (name ∈ allowed)) by done. cbn [negb]. rewrite IH by done.
    destruct (decide (Forall (.∈ allowed) names)) as [Hf|Hf].
    + rewrite !bool_decide_eq_true_2 by (try constructor; done). f_equal. simpl. lia.
    + rewrite !bool_decide_eq_false_2; [done|by inversion 1|done].
  - rewrite (bool_decide_eq_false_2 (name ∈ allowed)) by done. cbn [negb].
    rewrite bool_decide_eq_false_2; [done|by inversion 1].
Qed.

Lemma exact_names (allowed names : list path) : NoDup allowed → NoDup names →
  Forall (.∈ allowed) names ∧ length names = length allowed ↔ names ≡ₚ allowed.
Proof.
  intros Ha Hn. split.
  - intros [Hf Hl]. apply submseteq_length_Permutation; [|lia].
    apply NoDup_submseteq; [done|]. intros x Hx. rewrite Forall_forall in Hf. by apply Hf.
  - intros Hp. split; [|by apply Permutation_length]. apply Forall_forall. intros x Hx.
    by rewrite <- Hp.
Qed.

Definition holds_exactly (f : F) (dir : path) (allowed : list path) : Prop :=
  ∃ names, fs_dir f dir = Some names ∧ names ≡ₚ allowed.

Lemma wp_directory dir allowed f : NoDup allowed →
  wp (directory dir allowed) (λ r f', same_tree f f' ∧ (r = Ok tt → holds_exactly f dir allowed)) f.
Proof.
  intros Ha. apply wp_bind, wp_try_fs; [|intros e f' E; split; [by eapply fs_read_dir_frame|done]].
  intros l f' E. pose proof (fs_read_dir_frame _ _ _ _ E) as Ht.
  destruct (fs_read_dir_Ok _ _ _ _ E) as (names & -> & Hd & Hnd & H1 & H2).
  cbn [fmap list_fmap count_entries bool_decide]. change (bool_decide _) with true at 1. cbn [orb].
  change (bool_decide (".."%string = "."%string)) with false. change (bool_decide (".."%string = ".."%string)) with true.
  cbn [orb]. rewrite (count_entries_spec allowed names) by done.
  destruct (decide (Forall (.∈ allowed) names)) as [Hf|Hf].
  - rewrite bool_decide_eq_true_2 by done. cbv beta iota.
    destruct (0 + length names =? length allowed)%nat eqn:Hl; [|by split].
    apply Nat.eqb_eq in Hl. split; [done|]. intros _. exists names. split; [done|]. by apply exact_names.
  - rewrite bool_decide_eq_false_2 by done. by split.
Qed.

Definition importable (f : F) : Prop :=
  holds_exactly f "/" [".rissokey-storage-format"; "fido"]%string ∧
  holds_exactly f "/fido" ["dat"%string] ∧
  holds_exactly f "/fido/dat" ["persistent-state.init"%string] ∧
  fs_file f PERSISTENT_STATE_INITIALIZATION_MARKER_PATH = Some PERSISTENT_STATE_INITIALIZATION_MARKER.

Lemma importable_ext f f' : same_tree f f' → importable f' → importable f.
Proof. intros [E1 E2]. unfold importable, holds_exactly. by rewrite E1, E2. Qed.

Ltac next_directory :=
  apply wp_bind; eapply wp_mono; [apply wp_directory; apply (bool_decide_eq_true_1 _); reflexivity|];
  intros [[]|] ? [? ?]; [|split; [by repeat (eapply same_tree_trans; [eassumption|])|done]].

Lemma wp_verify_target f :
  wp verify_empty_identity_import_target (λ r f', same_tree f f' ∧ (r = Ok tt → importable f)) f.
Proof.
  next_directory. next_directory. next_directory.
  apply wp_bind, wp_try_fs; intros x f' E; apply fs_read_frame in E as Ht;
    assert (same_tree f f') as Hs by (by repeat (eapply same_tree_trans; [eassumption|])); [|by split].
  destruct (bytes_eqb x _) eqn:Eq; [|by split]. apply bytes_eqb_true in Eq as ->.
  split; [done|]. intros _. apply fs_read_short in E; [|by vm_compute; lia].
  split_and!.
  - by auto.
  - destruct H1 as [_ D1]. unfold holds_exactly in *. rewrite <- D1. by auto.
  - destruct H1 as [_ D1], H3 as [_ D3]. unfold holds_exactly in *. rewrite <- D1, <- D3. by auto.
  - destruct H1 as [C1 _], H3 as [C3 _], H5 as [C5 _]. by rewrite <- C1, <- C3, <- C5.
Qed.

Context `{!HealthyFilesystem F}.

(** The checks succeed on a healthy filesystem that satisfies them. *)
Lemma run_mount_healthy f : fs_healthy f → fs_file f STORAGE_FORMAT_VERSION_PATH = Some STORAGE_FORMAT_VERSION →
  ∃ f', mount_existing f = Some (Ok tt, f') ∧ fs_healthy f'.
Proof.
  intros Hh Hf. destruct (fs_healthy_mount _ Hh) as (f1 & E1 & H1'). pose proof (fs_mount_frame _ _ _ E1) as [C _].
  destruct (fs_healthy_read STORAGE_FORMAT_VERSION_PATH 32 f1 STORAGE_FORMAT_VERSION H1') as (f2 & E2 & H2'); [by rewrite C|].
  exists f2. split; [|done]. unfold mount_existing, verify_storage_version, mbind, step_bind, try_fs, version_step.
  rewrite E1, E2. by rewrite bytes_eqb_refl.
Qed.

Lemma run_mount f : fs_healthy f →
  fs_file f STORAGE_FORMAT_VERSION_PATH = Some STORAGE_FORMAT_VERSION →
  ∃ f', mount_existing f = Some (Ok tt, f').
Proof. intros Hh Hf. destruct (run_mount_healthy f Hh Hf) as (f' & E & _). by exists f'. Qed.

Lemma run_directory dir allowed f : NoDup allowed → fs_healthy f → holds_exactly f dir allowed →
  ∃ f', directory dir allowed f = Some (Ok tt, f') ∧ fs_healthy f' ∧ same_tree f f'.
Proof.
  intros Ha Hh (names & Hd & Hp). destruct (fs_healthy_read_dir _ _ _ Hh Hd) as (l & f' & E & Hh').
  exists f'. split; [|by split; [|eapply fs_read_dir_frame]].
  pose proof (wp_directory dir allowed f Ha) as K. unfold wp, directory, mbind, step_bind, try_fs in *. rewrite E in *.
  destruct (fs_read_dir_Ok _ _ _ _ E) as (names' & -> & Hd' & Hnd & H1 & H2).
  assert (names' = names) as -> by congruence.
  cbn [fmap list_fmap count_entries] in *. change (bool_decide ("."%string = "."%string)) with true in *.
  change (bool_decide (".."%string = "."%string)) with false. change (bool_decide (".."%string = ".."%string)) with true.
  cbn [orb]. rewrite (count_entries_spec allowed names) by done.
  destruct (proj2 (exact_names allowed names Ha Hnd) Hp) as [Hf Hl].
  rewrite bool_decide_eq_true_2 by done. simpl. by rewrite Hl, Nat.eqb_refl.
Qed.

(** A store the provisioner wrote is one normal firmware mounts: after the version
    and the marker were written, a mount succeeds and the marker is there.  Any mount
    returns without changing a file or a directory, and accepts only a store whose
    version file is exactly the expected one. *)
Theorem provisioned_store_mounts f :
  (∀ f1 f2, write_storage_version f = Some (Ok tt, f1) →
     write_persistent_state_initialization_marker f1 = Some (Ok tt, f2) → fs_healthy f2 →
     (∃ f3, mount_existing f2 = Some (Ok tt, f3) ∧ same_tree f2 f3) ∧
     fs_file f2 PERSISTENT_STATE_INITIALIZATION_MARKER_PATH = Some PERSISTENT_STATE_INITIALIZATION_MARKER) ∧
  ∃ r f', mount_existing f = Some (r, f') ∧ same_tree f f' ∧
    (r = Ok tt → fs_file f STORAGE_FORMAT_VERSION_PATH = Some STORAGE_FORMAT_VERSION).
Proof.
  split.
  2: { destruct (wp_elim _ _ _ (wp_mount_existing f)) as (r & f' & E & K). by exists r, f'. }
  intros f1 f2 E1 E2 Hh.
  assert (fs_file f1 STORAGE_FORMAT_VERSION_PATH = Some STORAGE_FORMAT_VERSION) as H1.
  { unfold write_storage_version in E1. apply bind_Ok in E1 as ([] & fa & Ea & E1).
    destruct (wp_run _ _ _ _ _ E1 (wp_verify_version fa)) as [[C _] K].
    rewrite C. by apply K. }
  unfold write_persistent_state_initialization_marker in E2.
  apply bind_Ok in E2 as ([] & fa & Ea & E2). apply bind_Ok in E2 as ([] & fb & Eb & E2).
  apply bind_Ok in E2 as (d & fc & Ec & E2).
  assert (f2 = fc) as -> by (destruct (bytes_eqb _ _); [by injection E2|done]).
  unfold try_fs in *.
  destruct (fs_create_dir_all _ f1) as [[[]|] f1a] eqn:Ecd; [|done]. simplify_eq.
  destruct (fs_write _ _ fa) as [[[]|] fa'] eqn:Ew; [|done]. simplify_eq.
  destruct (fs_read _ _ fb) as [[|] fb'] eqn:Er; [|done]. simplify_eq.
  pose proof (fs_read_frame _ _ _ _ _ Er) as [Cr _].
  assert (fs_file fc STORAGE_FORMAT_VERSION_PATH = Some STORAGE_FORMAT_VERSION) as Hv.
  { rewrite Cr, (fs_write_file _ _ _ _ _ _ Ew) by by apply (bool_decide_eq_true_1 _). by rewrite (fs_create_dir_file _ _ _ _ _ Ecd). }
  split; [|by rewrite Cr, (fs_write_Ok _ _ _ _ Ew)].
  destruct (run_mount fc Hh Hv) as [f3 E3]. exists f3. split; [done|].
  by destruct (wp_run _ _ _ _ _ E3 (wp_mount_existing fc)).
Qed.

(** An identity is imported only into the provisioner's fresh tree: the check
    returns without changing a file or a directory, it accepts only a root with the
    version file and [fido], a [fido] with [dat] and a [dat] with the marker, whose
    content it compares, and it accepts every such tree on a healthy filesystem. *)
Theorem import_target_exact f :
  ∃ r f', verify_empty_identity_import_target f = Some (r, f') ∧ same_tree f f' ∧
    (r = Ok tt → importable f) ∧ (fs_healthy f → importable f → r = Ok tt).
Proof.
  destruct (wp_elim _ _ _ (wp_verify_target f)) as (r & f' & E & Ht & K).
  exists r, f'. split; [done|]. split; [done|]. split; [done|]. clear K Ht.
  intros Hh (H1 & H2 & H3 & H4). revert E. unfold verify_empty_identity_import_target, mbind, step_bind.
  destruct (run_directory "/" [".rissokey-storage-format"; "fido"]%string f) as (f1 & -> & Hh1 & C1 & D1);
    [by apply (bool_decide_eq_true_1 _)|done|done|].
  destruct (run_directory "/fido" ["dat"]%string f1) as (f2 & -> & Hh2 & C2 & D2);
    [by apply (bool_decide_eq_true_1 _)|done|unfold holds_exactly in *; by rewrite D1|].
  destruct (run_directory "/fido/dat" ["persistent-state.init"]%string f2) as (f3 & -> & Hh3 & C3 & D3);
    [by apply (bool_decide_eq_true_1 _)|done|unfold holds_exactly in *; by rewrite D2, D1|].
  destruct (fs_healthy_read PERSISTENT_STATE_INITIALIZATION_MARKER_PATH 64 f3 PERSISTENT_STATE_INITIALIZATION_MARKER)
    as (f4 & E4 & _); [done|by rewrite C3, C2, C1|].
  unfold try_fs. rewrite E4. rewrite bytes_eqb_refl. by intros [= <- _].
Qed.
End filesystem.

(** ** A filesystem in memory *)

Record model_fs := mkModelFs {
  mf_files : gmap (list string) bytes;
  mf_dirs : gmap (list string) (list string);
}.

Definition add_name (dir : list string) (name : string) (dirs : gmap (list string) (list string))
  : gmap (list string) (list string) :=
  let names := default [] (dirs !! dir) in
  <[dir := if decide (name ∈ names) then names else names ++ [name]]> dirs.
Fixpoint make_dirs (parent names : list string) (dirs : gmap (list string) (list string)) :=
  match names with
  | [] => dirs
  | name :: names =>
      let child := parent ++ [name] in
      let below := if decide (name ∈ default [] (dirs !! parent)) then default [] (dirs !! child) else [] in
      make_dirs child names (<[child := below]> (add_name parent name dirs))
  end.

#[export] Instance model_filesystem : Filesystem model_fs := {|
  fs_mount f := (Ok tt, f);
  fs_read p n f := match mf_files f !! parts p with
    | Some d => (Ok (take n d), f)
    | None => (Err (FS_OTHER (-2)), f)
    end;
  fs_write p d f :=
    (Ok tt, mkModelFs (<[parts p := d]> (mf_files f))
              (add_name (removelast (parts p)) (List.last (parts p) "") (mf_dirs f)));
  fs_create_dir_all p f := (Ok tt, mkModelFs (mf_files f) (make_dirs [] (parts p) (mf_dirs f)));
  fs_read_dir p f := match mf_dirs f !! parts p with
    | Some names => (Ok (Ok <$> "."%string :: ".."%string ::
                       filter (λ x, x ∉ ["."; ".."]%string) (remove_dups names)), f)
    | None => (Err (FS_OTHER (-2)), f)
    end;
|}.

#[export] Instance model_filesystem_view : FilesystemView model_fs.
Proof.
  refine {| fs_file f p := mf_files f !! parts p;
            fs_dir f p := filter (λ x, x ∉ ["."; ".."]%string) ∘ remove_dups <$> mf_dirs f !! parts p |}.
  - by intros f r f' [= _ <-].
  - intros p n f r f' E. cbn in E. repeat case_match; by injection E as _ <-.
  - intros p n f d f' E. cbn in *. destruct (mf_files f !! parts p) as [data|]; [|done].
    injection E as <- _. by eexists.
  - intros p d f f' [= <-]. cbn. apply lookup_insert_eq.
  - intros p d f r f' q [= _ <-] (_ & _ & Hq). cbn. by apply lookup_insert_ne.
  - by intros p f r f' q [= _ <-].
  - intros p f r f' E. cbn in E. repeat case_match; by injection E as _ <-.
  - intros p f l f' E. cbn in *. destruct (mf_dirs f !! parts p) as [names|]; [|done]. injection E as <- _.
    eexists. split; [reflexivity|]. split; [done|]. split; [apply NoDup_filter, NoDup_remove_dups|].
    rewrite !list_elem_of_filter. set_solver.
Defined.

#[export] Instance model_filesystem_healthy : HealthyFilesystem model_fs.
Proof.
  refine {| fs_healthy _ := True |}.
  - intros f _. by eexists.
  - intros p n f d _ E. cbn in *. rewrite E. by eexists.
  - intros p f names _ E. cbn in *. destruct (mf_dirs f !! parts p); [|done]. by eexists _, _.
Defined.

(** What formatting leaves, and the provisioner's tree. *)
Definition fresh_fs : model_fs := mkModelFs ∅ {[[] := []]}.
Definition run_on {E A} (c : step model_fs E A) (f : model_fs) : model_fs := from_option snd f (c f).
Definition versioned_fs : model_fs := run_on write_storage_version fresh_fs.
Definition provisioned_fs : model_fs := run_on write_persistent_state_initialization_marker versioned_fs.

Lemma model_done f : fs_healthy (F := model_fs) f.
Proof. exact I. Qed.

Lemma provisioned_store_mounts_witness :
  (∃ f3, mount_existing provisioned_fs = Some (Ok tt, f3) ∧ same_tree provisioned_fs f3) ∧
  fs_file provisioned_fs PERSISTENT_STATE_INITIALIZATION_MARKER_PATH = Some PERSISTENT_STATE_INITIALIZATION_MARKER.
Proof.
  apply (proj1 (provisioned_store_mounts fresh_fs) versioned_fs provisioned_fs); [vm_compute; reflexivity..|exact I].
Defined.

Lemma import_target_exact_witness :
  importable provisioned_fs ∧ ∃ r f', verify_empty_identity_import_target provisioned_fs = Some (r, f') ∧
    same_tree provisioned_fs f' ∧ (r = Ok tt → importable provisioned_fs) ∧
    (fs_healthy provisioned_fs → importable provisioned_fs → r = Ok tt).
Proof.
  split; [|apply (import_target_exact provisioned_fs)].
  split_and!; [eexists; split; [vm_compute; reflexivity|].. |vm_compute; reflexivity]; reflexivity.
Defined.

(** A sector of the store is erased, written and read back. *)
Definition blank_store : Device model_rom := release_device (λ _, 0).
Definition erase_op : store_op := SO_Erase 0x1000 0x1000.

Lemma fido_store_refines_nor_witness :
  windows_ok blank_store ∧ ∃ r d', run_op erase_op blank_store = Some (r, d') ∧ step_ok erase_op blank_store r d' ∧
    (∀ o n, erase_op = SO_Read o n → in_partition erase_op → dv_initialized blank_store = true →
       ∃ answer, r = Ok answer).
Proof.
  assert (windows_ok blank_store) as W by apply release_windows.
  split; [exact W|]. apply (fido_store_refines_nor erase_op blank_store); [by apply Z.leb_le|by apply Nat.ltb_lt|exact W].
Defined.
