(* ===== verification/Identity.v ===== *)
(** * Identities

    [src/src/identity.rs] (the AAGUID of a certificate and the range of a private
    scalar), [usb_identity.rs] (the USB numbers and serial of the build),
    [platform/rng_health.rs], [platform/attestation.rs] (the check normal firmware
    makes at start) and [platform/attestation_import.rs] (the staging page of the
    import image).  The serialized key is Trussed's format, an interface. *)

From stdpp Require Import base tactics numbers list option strings.
From S2P Require Import Prelude Interfaces Storage.

(** ** [identity.rs] *)

Definition DEVELOPMENT_AAGUID : bytes :=
  [0x98; 0x9e; 0x2c; 0xc2; 0x05; 0xdf; 0x4e; 0x64; 0x80; 0x68; 0x22; 0x68; 0x38; 0x86; 0xe8; 0xb3].
Definition AAGUID_EXTENSION_PREFIX : bytes :=
  [0x06; 0x0b; 0x2b; 0x06; 0x01; 0x04; 0x01; 0x82; 0xe5; 0x1c; 0x01; 0x01; 0x04; 0x04; 0x12; 0x04; 0x10].
Definition P256_GROUP_ORDER : bytes :=
  [0xff; 0xff; 0xff; 0xff; 0x00; 0x00; 0x00; 0x00; 0xff; 0xff; 0xff; 0xff; 0xff; 0xff; 0xff; 0xff;
   0xbc; 0xe6; 0xfa; 0xad; 0xa7; 0x17; 0x9e; 0x84; 0xf3; 0xb9; 0xca; 0xc2; 0xfc; 0x63; 0x25; 0x51].

(** [windows(n).position(..)]: the first window equal to the (non-empty) pattern. *)
Fixpoint window_position (pattern l : bytes) : option nat :=
  if bytes_eqb (take (length pattern) l) pattern then Some 0%nat
  else match l with
       | [] => None
       | _ :: l => S <$> window_position pattern l
       end.

(** [der.get(a..b)]. *)
Definition get_range (l : bytes) (a b : nat) : option bytes :=
  if (a <=? b)%nat && (b <=? length l)%nat then Some (slice l a b) else None.

Definition certificate_aaguid (der : bytes) : option bytes :=
  prefix_start ← window_position AAGUID_EXTENSION_PREFIX der;
  let value_start := (prefix_start + length AAGUID_EXTENSION_PREFIX)%nat in
  get_range der value_start (value_start + 16).

(** [<] on arrays is lexicographic. *)
Fixpoint bytes_ltb (a b : bytes) : bool :=
  match a, b with
  | _, [] => false
  | [], _ :: _ => true
  | x :: a, y :: b => (x <? y) || ((x =? y) && bytes_ltb a b)
  end.

Definition is_valid_p256_scalar (raw : bytes) : bool :=
  existsb (λ byte, negb (byte =? 0)) raw && bytes_ltb raw P256_GROUP_ORDER.

(** ** [usb_identity.rs]

    A [str] is its bytes. *)

Definition MAX_USB_SERIAL_LENGTH : nat := 32.

Inductive IdentityError := EmptySerial | InvalidNumber | InvalidSerial | ReservedProductId | ReservedVendorId.
Record UsbIdentity := mkUsbIdentity { vid : Z; pid : Z; serial : bytes }.

Definition is_ascii_alphanumeric (b : Z) : bool :=
  ((48 <=? b) && (b <=? 57)) || ((65 <=? b) && (b <=? 90)) || ((97 <=? b) && (b <=? 122)).
Definition is_valid_usb_serial (serial : bytes) : bool :=
  negb (length serial =? 0)%nat && (length serial <=? MAX_USB_SERIAL_LENGTH)%nat
  && forallb (λ b, is_ascii_alphanumeric b || (b =? 45) || (b =? 95) || (b =? 46)) serial.

Definition usb_identity_new (vid pid : Z) (serial : bytes) : result IdentityError UsbIdentity :=
  if (vid =? 0) || (vid =? 0xffff) then Err ReservedVendorId
  else if (pid =? 0) || (pid =? 0xffff) then Err ReservedProductId
  else if (length serial =? 0)%nat then Err EmptySerial
  else if negb (is_valid_usb_serial serial) then Err InvalidSerial
  else Ok (mkUsbIdentity vid pid serial).

(** [char::to_digit] and [u16::from_str_radix]: an optional [+], at least one digit,
    no overflow. *)
Definition to_digit (radix b : Z) : option Z :=
  let digit := if (48 <=? b) && (b <=? 57) then Some (b - 48)
               else if (65 <=? b) && (b <=? 90) then Some (b - 65 + 10)
               else if (97 <=? b) && (b <=? 122) then Some (b - 97 + 10)
               else None in
  d ← digit;
  if d <? radix then Some d else None.

Definition push_digit (radix : Z) (acc : option Z) (b : Z) : option Z :=
  value ← acc;
  digit ← to_digit radix b;
  let next := value * radix + digit in
  if next <=? 0xffff then Some next else None.

Definition u16_from_str_radix (radix : Z) (src : bytes) : option Z :=
  match src with
  | [] => None
  | [43] | [45] => None
  | 43 :: digits => foldl (push_digit radix) (Some 0) digits
  | digits => foldl (push_digit radix) (Some 0) digits
  end.

Definition parse_u16 (value : bytes) : result IdentityError Z :=
  let '(digits, radix) :=
    match value with
    | 48 :: 120 :: digits | 48 :: 88 :: digits => (digits, 16)
    | _ => (value, 10)
    end in
  match u16_from_str_radix radix digits with Some n => Ok n | None => Err InvalidNumber end.

Definition from_build_values (vid pid serial : bytes) : result IdentityError UsbIdentity :=
  match parse_u16 vid with
  | Err e => Err e
  | Ok vid =>
      match parse_u16 pid with
      | Err e => Err e
      | Ok pid => usb_identity_new vid pid serial
      end
  end.

(** ** [rng_health.rs] *)

Inductive StartupSanityError := AllZero | RepeatedBlock.
Definition check_blocks (first second : bytes) : result StartupSanityError unit :=
  if forallb (λ byte, byte =? 0) (first ++ second) then Err AllZero
  else if bytes_eqb first second then Err RepeatedBlock
  else Ok tt.

(** ** [attestation.rs] *)

Definition ATTESTATION_KEY_PATH : path := "fido/sec/00".
Definition ATTESTATION_CERT_PATH : path := "fido/x5c/00".
Definition MAX_MESSAGE_LENGTH : nat := 1024.

Inductive DevelopmentAttestationError :=
  | DA_Filesystem (error : FsError) | DA_InvalidKey | DA_MissingAaguid | DA_UnexpectedAaguid.

(** [trussed::key::Key] and [Key::try_deserialize]. *)
Record TrussedKey := mkTrussedKey { key_flags : Z; key_kind : Z; key_material : bytes }.
Class KeyFormat := {
  try_deserialize : bytes → option TrussedKey;
  FLAGS_SENSITIVE : Z;
  KIND_P256 : Z;
  try_deserialize_bytes : ∀ data key, try_deserialize data = Some key → Forall is_byte (key_material key);
}.

Section attestation.
Context {F : Type} `{Filesystem F} `{KeyFormat}.

Definition valid_key (key : TrussedKey) : bool :=
  let valid_scalar := (length (key_material key) =? 32)%nat && is_valid_p256_scalar (key_material key) in
  (key_flags key =? FLAGS_SENSITIVE) && (key_kind key =? KIND_P256)
  && (length (key_material key) =? 32)%nat && valid_scalar.

Definition verify_development_attestation : step F DevelopmentAttestationError unit :=
  serialized_key ← try_fs (fs_read ATTESTATION_KEY_PATH 64) DA_Filesystem;
  key ← ok_or (try_deserialize serialized_key) DA_InvalidKey;
  return_if (negb (valid_key key)) DA_InvalidKey;;
  certificate ← try_fs (fs_read ATTESTATION_CERT_PATH MAX_MESSAGE_LENGTH) DA_Filesystem;
  aaguid ← ok_or (certificate_aaguid certificate) DA_MissingAaguid;
  return_if (negb (bytes_eqb aaguid DEVELOPMENT_AAGUID)) DA_UnexpectedAaguid.
End attestation.

(** ** [attestation_import.rs] *)

Definition STAGING_ADDRESS : Z := 0x00200000.
Definition STAGING_BYTES : nat := 4096.
Definition MAX_CERTIFICATE_BYTES : nat := 1024.

Record ImportIdentity := mkImportIdentity { id_key : bytes; id_certificate : bytes }.
Inductive InvalidPayload := IP_Format | IP_Certificate | IP_Key.

(** The argument is an array of [STAGING_BYTES] bytes. *)
Definition parse `{Sha256} (data expected_certificate : bytes) : result InvalidPayload ImportIdentity :=
  if negb (bytes_eqb (slice data 0 8) (ascii_bytes "RKATST01")) || negb (bytes_eqb (slice data 12 16) (zeros 4))
  then Err IP_Format
  else
    let length := Z.to_nat (le_decode (slice data 8 12)) in
    if (length =? 0)%nat || (MAX_CERTIFICATE_BYTES <? length)%nat
       || existsb (λ b, negb (b =? 0)) (drop (48 + length) data)
    then Err IP_Format
    else
      let certificate := slice data 48 (48 + length) in
      if negb (bytes_eqb (sha256 certificate) expected_certificate)
         || negb (bool_decide (certificate_aaguid certificate = Some DEVELOPMENT_AAGUID))
      then Err IP_Certificate
      else
        let key := slice data 16 48 in
        if negb (is_valid_p256_scalar key) then Err IP_Key
        else Ok (mkImportIdentity key certificate).
