(* ===== verification/IdentityTheorems.v ===== *)
(** * What an accepted identity is

    The byte-wise comparison of scalars is the comparison of the numbers they
    encode; the AAGUID of a certificate is the value after the first extension
    prefix; a staging page is accepted exactly when it is the page of an identity;
    the check at start accepts exactly a valid key and a certificate with the
    expected AAGUID; a build value is accepted exactly when it denotes a [u16]. *)

From stdpp Require Import base tactics numbers list option strings.
From S2P Require Import Prelude Interfaces SignedImage UsbUpdate ModelBackend FlashEncryption Storage StorageTheorems.
From S2P Require Import Identity.

(** ** Scalars *)

Lemma be_decode_cons b l : be_decode (b :: l) = b * 256 ^ Z.of_nat (length l) + be_decode l.
Proof.
  unfold be_decode. cbn [rev]. rewrite <- (length_rev l). generalize (rev l) as m. clear l.
  induction m as [|c m IH]; [cbn; lia|].
  cbn [app]. change (le_decode (?x :: ?y)) with (x + 256 * le_decode y). rewrite IH.
  cbn [length]. rewrite Nat2Z.inj_succ, Z.pow_succ_r by lia. lia.
Qed.

Lemma be_decode_bound l : Forall is_byte l → 0 ≤ be_decode l < 256 ^ Z.of_nat (length l).
Proof. intros Hl. unfold be_decode. rewrite <- (length_rev l). by apply le_decode_bound, Forall_rev. Qed.

(** Arrays of one length compare like the numbers they encode, big end first. *)
Lemma bytes_ltb_spec a b : Forall is_byte a → Forall is_byte b → length a = length b →
  bytes_ltb a b = true ↔ be_decode a < be_decode b.
Proof.
  intros Ha. revert b. induction Ha as [|x a Hx Ha IH]; intros b Hb Hl.
  { destruct b; [|done]. cbn. split; [done|lia]. }
  destruct Hb as [|y b Hy Hb]; [done|]. injection Hl as Hl.
  cbn [bytes_ltb]. rewrite orb_true_iff, andb_true_iff, Z.ltb_lt, Z.eqb_eq, (IH b Hb Hl), !be_decode_cons.
  pose proof (be_decode_bound a Ha) as Ba. pose proof (be_decode_bound b Hb) as Bb.
  rewrite Hl in *. set (w := 256 ^ Z.of_nat (length b)) in *.
  destruct (Z.lt_trichotomy x y) as [?|[->|?]]; [|lia|]; (split; [|nia]).
  - intros _. nia.
  - intros [?|[? ?]]; lia.
Qed.

Lemma be_decode_zero l : Forall is_byte l →
  existsb (λ byte, negb (byte =? 0)) l = true ↔ 0 < be_decode l.
Proof.
  induction 1 as [|b l Hb Hl IH]; [cbn; split; [done|lia]|].
  cbn [existsb]. rewrite orb_true_iff, negb_true_iff, Z.eqb_neq, IH, be_decode_cons.
  pose proof (be_decode_bound l Hl) as B. unfold is_byte in Hb. nia.
Qed.

Definition in_scalar_range (raw : bytes) : Prop := 0 < be_decode raw < be_decode P256_GROUP_ORDER.

Lemma scalar_valid_iff raw : Forall is_byte raw → length raw = 32%nat →
  is_valid_p256_scalar raw = true ↔ in_scalar_range raw.
Proof.
  intros Hb Hl. unfold is_valid_p256_scalar, in_scalar_range.
  rewrite andb_true_iff, be_decode_zero, bytes_ltb_spec; try done.
  by apply (bool_decide_eq_true_1 _).
Qed.

(** ** The AAGUID of a certificate *)

Lemma window_position_spec p l k : (0 < length p)%nat →
  window_position p l = Some k ↔
  (∃ post, l = take k l ++ p ++ post) ∧ ∀ j, (j < k)%nat → take (length p) (drop j l) ≠ p.
Proof.
  intros Hp. revert k. induction l as [|x l IH]; intros k.
  - cbn. rewrite take_nil. destruct (bytes_eqb [] p) eqn:E; [apply bytes_eqb_true in E; subst; simpl in Hp; lia|].
    split; [done|]. intros [[post Hn] _]. rewrite take_nil in Hn. destruct p; [simpl in Hp; lia|done].
  - cbn [window_position]. destruct (bytes_eqb (take (length p) (x :: l)) p) eqn:E.
    + apply bytes_eqb_true in E. split.
      * intros [= <-]. split; [|lia]. exists (drop (length p) (x :: l)).
        cbn [take app]. pose proof (take_drop (length p) (x :: l)) as D. by rewrite E in D.
      * intros [_ H]. destruct k; [done|]. destruct (H 0%nat); [lia|]. done.
    + apply bytes_eqb_false in E. rewrite fmap_Some. split.
      * intros (j & Hj & ->). apply IH in Hj as [[post H1] H2]. split.
        { exists post. cbn [take app]. by rewrite <- H1. }
        intros [|i] Hi; [done|]. apply H2. lia.
      * intros [[post H1] H2]. destruct k as [|k].
        { destruct E. cbn [take app] in H1. rewrite H1. by rewrite take_app_length. }
        exists k. split; [|done]. apply IH. split.
        { exists post. cbn [take app] in H1. by injection H1. }
        intros i Hi. apply (H2 (S i)). lia.
Qed.

Lemma slice_after (a b c : bytes) i n : i = (length a + length b)%nat → slice (a ++ b ++ c) i (i + n) = take n c.
Proof.
  intros ->. unfold slice. rewrite app_assoc, drop_app_length' by (rewrite length_app; lia).
  by rewrite Nat.add_sub'.
Qed.

(** The first occurrence of the extension prefix is followed by [aaguid]. *)
Definition carries_aaguid (der aaguid : bytes) : Prop :=
  ∃ pre post, der = pre ++ AAGUID_EXTENSION_PREFIX ++ aaguid ++ post ∧ length aaguid = 16%nat ∧
    ∀ j, (j < length pre)%nat → slice der j (j + length AAGUID_EXTENSION_PREFIX) ≠ AAGUID_EXTENSION_PREFIX.

Lemma certificate_aaguid_iff der aaguid :
  certificate_aaguid der = Some aaguid ↔ carries_aaguid der aaguid.
Proof.
  unfold certificate_aaguid, carries_aaguid. rewrite bind_Some. unfold get_range. cbv zeta.
  change (length AAGUID_EXTENSION_PREFIX) with 17%nat. split.
  - intros (k & Hk & E). apply window_position_spec in Hk as [[post Hd] Hf]; [|by vm_compute; lia].
    destruct (_ && _) eqn:B; [|done]. injection E as <-. bool_to_prop.
    assert (k ≤ length der)%nat as Hkl by lia.
    exists (take k der), (drop 16 post). split_and!.
    + assert (length (take k der) = k) as Hlk by (rewrite length_take; lia).
      revert Hd Hlk. generalize (take k der) as pre. intros pre -> <-.
      by rewrite slice_after, take_drop by done.
    + rewrite length_slice by lia. lia.
    + rewrite length_take. intros j Hj. unfold slice. rewrite Nat.add_sub'. apply Hf. lia.
  - intros (pre & post & -> & Hl & Hf). exists (length pre). split.
    + apply window_position_spec; [by vm_compute; lia|]. split.
      * exists (aaguid ++ post). by rewrite take_app_length.
      * intros j Hj. specialize (Hf j Hj). unfold slice in Hf. by rewrite Nat.add_sub' in Hf.
    + assert (length (pre ++ AAGUID_EXTENSION_PREFIX ++ aaguid ++ post)
              = (length pre + 17 + 16 + length post)%nat) as ->
        by (rewrite !length_app, Hl; change (length AAGUID_EXTENSION_PREFIX) with 17%nat; lia).
      do 2 (rewrite (proj2 (Nat.leb_le _ _)) by lia). cbn [andb]. f_equal. rewrite slice_after, <- Hl by done. by rewrite take_app_length.
Qed.

(** ** The staging page of the import image *)

(** The page an exporter writes for an identity. *)
Definition staging_page (id : ImportIdentity) : bytes :=
  ascii_bytes "RKATST01" ++ le_encode 4 (Z.of_nat (length (id_certificate id))) ++ zeros 4 ++
  id_key id ++ id_certificate id ++ zeros (STAGING_BYTES - (48 + length (id_certificate id))).

Definition importable_identity `{Sha256} (expected_certificate : bytes) (id : ImportIdentity) : Prop :=
  (0 < length (id_certificate id) ≤ MAX_CERTIFICATE_BYTES)%nat ∧
  sha256 (id_certificate id) = expected_certificate ∧
  carries_aaguid (id_certificate id) DEVELOPMENT_AAGUID ∧
  length (id_key id) = 32%nat ∧ Forall is_byte (id_key id) ∧ in_scalar_range (id_key id).

Lemma drop_slice (l : bytes) a b : (a ≤ b)%nat → drop a l = slice l a b ++ drop b l.
Proof.
  intros. unfold slice. replace (drop b l) with (drop (b - a) (drop a l)) by (rewrite drop_drop; f_equal; lia).
  by rewrite take_drop.
Qed.

Lemma page_split data : length data = STAGING_BYTES →
  data = slice data 0 8 ++ slice data 8 12 ++ slice data 12 16 ++ slice data 16 48 ++ drop 48 data.
Proof. intros _. rewrite <- !drop_slice by lia. done. Qed.

Lemma no_byte_set l : existsb (λ b, negb (b =? 0)) l = false ↔ l = zeros (length l).
Proof.
  induction l as [|b l IH]; [done|]. cbn [existsb length zeros replicate].
  rewrite orb_false_iff, negb_false_iff, Z.eqb_eq, IH. split; [by intros [-> E]; f_equal|].
  by intros [= -> E].
Qed.

Section staging.
Context `{Sha256} (expected : bytes).

(** The parser on a page cut at its fixed offsets, and on the rest cut at [n]. *)
Lemma parse_parts magic size reserved key certificate padding n :
  length magic = 8%nat → length size = 4%nat → length reserved = 4%nat → length key = 32%nat →
  n = Z.to_nat (le_decode size) → length certificate = n →
  parse (magic ++ size ++ reserved ++ key ++ certificate ++ padding) expected =
  if negb (bytes_eqb magic (ascii_bytes "RKATST01")) || negb (bytes_eqb reserved (zeros 4)) then Err IP_Format
  else if (n =? 0)%nat || (MAX_CERTIFICATE_BYTES <? n)%nat || existsb (λ b, negb (b =? 0)) padding
  then Err IP_Format
  else if negb (bytes_eqb (sha256 certificate) expected)
       || negb (bool_decide (certificate_aaguid certificate = Some DEVELOPMENT_AAGUID))
  then Err IP_Certificate
  else if negb (is_valid_p256_scalar key) then Err IP_Key else Ok (mkImportIdentity key certificate).
Proof.
  intros Hm Hs Hr Hk -> Hc. unfold parse.
  set (page := magic ++ _).
  assert (slice page 0 8 = magic) as ->.
  { unfold page, slice. rewrite drop_0, take_app_le, take_ge by lia. done. }
  assert (slice page 8 12 = size) as -> by (by apply slice_app_mid; [|rewrite Hs]).
  assert (slice page 12 16 = reserved) as ->.
  { unfold page. rewrite app_assoc. apply slice_app_mid; rewrite ?length_app; lia. }
  assert (slice page 16 48 = key) as ->.
  { unfold page. rewrite (app_assoc magic), (app_assoc (magic ++ _)). apply slice_app_mid; rewrite ?length_app; lia. }
  cbv zeta. set (n := Z.to_nat _) in *.
  assert (page = (magic ++ size ++ reserved ++ key) ++ certificate ++ padding) as ->
    by (unfold page; by rewrite <- !app_assoc).
  assert (length (magic ++ size ++ reserved ++ key) = 48%nat) as Hh by (rewrite !length_app; lia).
  rewrite slice_app_mid by lia. rewrite app_assoc, drop_app_length' by (rewrite length_app; lia). done.
Qed.

Lemma parse_sound data id : length data = STAGING_BYTES → Forall is_byte data →
  parse data expected = Ok id → data = staging_page id ∧ importable_identity expected id.
Proof.
  unfold STAGING_BYTES. intros Hl Hb. unfold parse. destruct (_ || _) eqn:E1; [done|].
  set (n := Z.to_nat (le_decode (slice data 8 12))). cbv zeta.
  destruct (_ || _ || _) eqn:E2; [done|]. destruct (_ || _) eqn:E3 in |- *; [done|].
  destruct (negb (is_valid_p256_scalar _)) eqn:E4; [done|]. intros Ei.
  assert (id = mkImportIdentity (slice data 16 48) (slice data 48 (48 + n))) as -> by congruence. bool_to_prop.
  unfold MAX_CERTIFICATE_BYTES, bytes_eqb in *. bool_to_prop.
  match goal with H : existsb _ _ = false |- _ => apply no_byte_set in H; rewrite length_drop, Hl in H end.
  assert (length (slice data 48 (48 + n)) = n) as Hc by (rewrite length_slice; lia).
  assert (length (slice data 16 48) = 32%nat) as Hk by (rewrite length_slice; lia).
  assert (length (slice data 8 12) = 4%nat) as Hs by (rewrite length_slice; lia).
  split.
  - unfold staging_page, STAGING_BYTES. cbn [id_certificate id_key]. rewrite Hc.
    unfold n at 1. pose proof (slice_bytes data 8 12 Hb) as Hsb.
    rewrite Z2Nat.id by (by apply le_decode_bound). rewrite <- Hs at 1. rewrite le_encode_decode by done.
    pose proof (page_split data Hl) as Hp. pose proof (drop_slice data 48 (48 + n) (Nat.le_add_r _ _)) as Hd.
    congruence.
  - split_and!; cbn [id_certificate id_key]; try done; [lia|unfold MAX_CERTIFICATE_BYTES; lia|by apply certificate_aaguid_iff|by apply slice_bytes|].
    apply scalar_valid_iff; [by apply slice_bytes|done..].
Qed.

(** A staging page is accepted as an identity exactly when it is the page an exporter
    writes for that identity (magic, length, key, certificate, nothing else set) and the
    identity may be imported: a certificate of one to 1024 bytes with the expected
    digest that carries the development AAGUID, and a scalar below the group order. *)
Theorem staging_page_roundtrip data id : length data = STAGING_BYTES → Forall is_byte data →
  parse data expected = Ok id ↔ data = staging_page id ∧ importable_identity expected id.
Proof.
  intros Hl Hb. split; [by apply parse_sound|].
  intros [-> (Hn & Hsha & Ha & Hk & Hkb & Hr)]. unfold MAX_CERTIFICATE_BYTES in Hn. unfold staging_page.
  rewrite (parse_parts _ _ _ _ _ _ (length (id_certificate id))); try done;
    [|by rewrite le_decode_encode, Nat2Z.id by (change (256 ^ Z.of_nat 4) with 4294967296; lia)].
  rewrite !bytes_eqb_refl. cbn [negb orb].
  rewrite (proj2 (Nat.eqb_neq _ _)), (proj2 (Nat.ltb_ge _ _)), (proj2 (no_byte_set _))
    by (unfold MAX_CERTIFICATE_BYTES; rewrite ?length_zeros; lia || done). cbn [orb].
  rewrite Hsha, bytes_eqb_refl, bool_decide_eq_true_2 by (by apply certificate_aaguid_iff). cbn [negb orb].
  rewrite (proj2 (scalar_valid_iff _ Hkb Hk) Hr). by destruct id.
Qed.
End staging.

(** ** The attestation check of normal firmware *)

Section attestation.
Context {F : Type} `{HealthyFilesystem F, KeyFormat}.

Definition p256_key (key : TrussedKey) : Prop :=
  key_flags key = FLAGS_SENSITIVE ∧ key_kind key = KIND_P256 ∧
  length (key_material key) = 32%nat ∧ in_scalar_range (key_material key).

Lemma valid_key_iff data key : try_deserialize data = Some key → valid_key key = true ↔ p256_key key.
Proof.
  intros E%try_deserialize_bytes. unfold valid_key, p256_key. cbv zeta.
  rewrite !andb_true_iff, !Z.eqb_eq, Nat.eqb_eq. split.
  - intros [[[? ?] Hl] [_ Hv]]. by rewrite scalar_valid_iff in Hv.
  - intros (? & ? & Hl & Hr). by rewrite scalar_valid_iff.
Qed.

Definition attested (f : F) : Prop :=
  ∃ key_file certificate_file key,
    fs_file f ATTESTATION_KEY_PATH = Some key_file ∧ fs_file f ATTESTATION_CERT_PATH = Some certificate_file ∧
    try_deserialize (take 64 key_file) = Some key ∧ p256_key key ∧
    carries_aaguid (take MAX_MESSAGE_LENGTH certificate_file) DEVELOPMENT_AAGUID.

Lemma attested_ext f f' : same_tree f f' → attested f → attested f'.
Proof. intros [C _]. unfold attested. by rewrite C. Qed.

Lemma wp_attestation f :
  wp verify_development_attestation (λ r f', same_tree f f' ∧ (r = Ok tt → attested f)) f.
Proof.
  apply wp_bind, wp_try_fs; [|intros e f1 E; split; [by eapply fs_read_frame|done]].
  intros key_data f1 E1. pose proof (fs_read_frame _ _ _ _ _ E1) as T1.
  destruct (fs_read_Ok _ _ _ _ _ E1) as (key_file & Hk & ->).
  destruct (try_deserialize (take 64 key_file)) as [key|] eqn:Ek; [|by split].
  apply wp_bind, wp_ret, wp_bind. unfold return_if.
  destruct (valid_key key) eqn:Ev; [|by split]. apply wp_ret, wp_bind, wp_try_fs.
  2: { intros e f2 E2%fs_read_frame. split; [by eapply same_tree_trans|done]. }
  intros certificate f2 E2. pose proof (fs_read_frame _ _ _ _ _ E2) as T2.
  pose proof (same_tree_trans _ _ _ T1 T2) as T.
  destruct (fs_read_Ok _ _ _ _ _ E2) as (certificate_file & Hc & ->).
  destruct (certificate_aaguid _) as [aaguid|] eqn:Ea; [|by split].
  apply wp_bind, wp_ret. destruct (bytes_eqb _ _) eqn:Eb; [|by split].
  apply bytes_eqb_true in Eb as ->. split; [done|]. intros _. destruct T1 as [C1 _].
  exists key_file, certificate_file, key. split_and!; try done; [by rewrite <- C1|..].
  - by eapply valid_key_iff.
  - by apply certificate_aaguid_iff.
Qed.

Lemma run_attestation_healthy f : fs_healthy f → attested f →
  ∃ f', verify_development_attestation f = Some (Ok tt, f') ∧ fs_healthy f'.
Proof.
  intros Hh (key_file & certificate_file & key & Hk & Hc & Ek & Hv & Hr).
  destruct (fs_healthy_read _ 64 _ _ Hh Hk) as (f1 & E1 & Hh1).
  destruct (fs_read_frame _ _ _ _ _ E1) as [C1 _]. rewrite <- C1 in Hc.
  destruct (fs_healthy_read _ MAX_MESSAGE_LENGTH _ _ Hh1 Hc) as (f2 & E2 & Hh2). exists f2. split; [|done].
  unfold verify_development_attestation, mbind, step_bind, try_fs, return_if.
  rewrite E1, Ek. cbn [ok_or]. unfold mret, step_ret.
  rewrite (proj2 (valid_key_iff _ _ Ek) Hv). cbn [negb]. rewrite E2.
  apply certificate_aaguid_iff in Hr. rewrite Hr. cbn [ok_or]. unfold mret, step_ret.
  by rewrite bytes_eqb_refl.
Qed.

Lemma run_attestation f : fs_healthy f → attested f →
  ∃ f', verify_development_attestation f = Some (Ok tt, f').
Proof. intros Hh Ha. destruct (run_attestation_healthy f Hh Ha) as (f' & E & _). by exists f'. Qed.

(** Normal firmware starts only with its development identity: the check returns and
    changes no file and no directory; it accepts only a store with a sensitive P-256 key
    whose scalar is below the group order and a certificate whose AAGUID extension is
    the development AAGUID, and on healthy flash it accepts every such store. *)
Theorem attestation_check_exact f :
  ∃ r f', verify_development_attestation f = Some (r, f') ∧ same_tree f f' ∧
    (r = Ok tt → attested f) ∧ (fs_healthy f → attested f → r = Ok tt).
Proof.
  destruct (wp_elim _ _ _ (wp_attestation f)) as (r & f' & E & T & Ha). exists r, f'. split_and!; try done.
  intros Hh Hat. destruct (run_attestation f Hh Hat) as [f2 E2]. congruence.
Qed.
End attestation.

(** ** The USB identity of the build *)

Definition value_of (radix : Z) (ds : list Z) (from : Z) : Z := foldl (λ acc d, acc * radix + d) from ds.

(** An optional [+] and at least one digit of the radix. *)
Definition numeral (radix : Z) (src : bytes) (n : Z) : Prop :=
  ∃ digits ds, (src = digits ∨ src = 43 :: digits) ∧ digits ≠ [] ∧
    mapM (to_digit radix) digits = Some ds ∧ n = value_of radix ds 0 ∧ n ≤ 0xffff.

(** What [parse_u16] reads as [n]. *)
Definition denotes (value : bytes) (n : Z) : Prop :=
  match value with
  | 48 :: 120 :: digits | 48 :: 88 :: digits => numeral 16 digits n
  | _ => numeral 10 value n
  end.

Lemma to_digit_range radix b d : to_digit radix b = Some d → 0 ≤ d < radix.
Proof.
  unfold to_digit. rewrite bind_Some. intros (x & Hx & E).
  destruct (x <? radix) eqn:?; [|done]. injection E as <-. bool_to_prop. split; [|done].
  repeat (destruct (_ && _) eqn:? in Hx; [injection Hx as <-; bool_to_prop; lia|]). done.
Qed.

Lemma value_of_ge radix ds a : 1 ≤ radix → 0 ≤ a → Forall (λ d, 0 ≤ d) ds → a ≤ value_of radix ds a.
Proof.
  intros Hr. revert a. induction ds as [|d ds IH]; intros a Ha Hd; [done|].
  inversion_clear Hd. change (value_of radix (d :: ds) a) with (value_of radix ds (a * radix + d)).
  etrans; [|apply IH; [nia|done]]. nia.
Qed.

Lemma digits_nonneg radix digits ds : mapM (to_digit radix) digits = Some ds → Forall (λ d, 0 ≤ d) ds.
Proof.
  rewrite mapM_Some. intros Hm. eapply Forall2_Forall_r; [exact Hm|].
  apply Forall_true. intros b d E%to_digit_range. lia.
Qed.

Lemma push_digit_None radix digits : foldl (push_digit radix) None digits = None.
Proof. by induction digits. Qed.

Lemma push_digits radix digits a n : 1 ≤ radix → 0 ≤ a →
  foldl (push_digit radix) (Some a) digits = Some n ↔
  ∃ ds, mapM (to_digit radix) digits = Some ds ∧ n = value_of radix ds a ∧ (digits = [] ∨ n ≤ 0xffff).
Proof.
  intros Hr. revert a. induction digits as [|b digits IH]; intros a Ha.
  { cbn. split; [intros [= ->]; exists []; by auto|]. by intros (ds & [= <-] & -> & _). }
  cbn [foldl]. unfold push_digit at 2. cbn [mbind option_bind]. split.
  - destruct (to_digit radix b) as [d|] eqn:Ed; cbn [mbind option_bind]; [|by rewrite push_digit_None].
    destruct (_ <=? _) eqn:Eb; [|by rewrite push_digit_None]. pose proof (to_digit_range _ _ _ Ed) as Hd.
    intros (ds & Hm & Hn & Hb)%IH; [|nia]. exists (d :: ds). cbn [mapM]. rewrite Ed, Hm. split_and!; [done..|].
    right. destruct Hb as [->|?]; [|done]. injection Hm as <-. cbn in Hn. bool_to_prop. lia.
  - intros (ds & Hm & -> & Hb). destruct Hb as [|Hb]; [done|]. cbn [mapM] in Hm.
    destruct (to_digit radix b) as [d|] eqn:Ed; [|done]. cbn [mbind option_bind] in Hm.
    destruct (mapM (to_digit radix) digits) as [ds'|] eqn:Em; [|done]. injection Hm as <-.
    cbn [mbind option_bind]. pose proof (to_digit_range _ _ _ Ed) as Hd.
    change (value_of radix (d :: ds') a) with (value_of radix ds' (a * radix + d)) in *.
    pose proof (value_of_ge radix ds' (a * radix + d) Hr ltac:(nia) (digits_nonneg _ _ _ Em)).
    rewrite (proj2 (Z.leb_le _ _)) by lia. apply IH; [nia|]. exists ds'. auto.
Qed.

(** The digits are ASCII letters and digits, neither [+] nor [-]. *)
Lemma sign_is_no_digit radix : to_digit radix 43 = None ∧ to_digit radix 45 = None.
Proof. done. Qed.

Lemma u16_from_str_radix_iff radix src n : 1 ≤ radix →
  u16_from_str_radix radix src = Some n ↔ numeral radix src n.
Proof.
  intros Hr. assert (∀ digits, digits ≠ [] →
    foldl (push_digit radix) (Some 0) digits = Some n ↔
    ∃ ds, mapM (to_digit radix) digits = Some ds ∧ n = value_of radix ds 0 ∧ n ≤ 0xffff) as K.
  { intros digits Hd. rewrite push_digits by lia. naive_solver. }
  destruct (sign_is_no_digit radix) as [Hp Hm]. unfold numeral. split.
  - intros E. destruct src as [|b [|c src]]; [done|..].
    + assert (foldl (push_digit radix) (Some 0) [b] = Some n) as E'
        by (revert E; unfold u16_from_str_radix; repeat case_match; try done).
      apply K in E' as (ds & ?); [|done]. exists [b], ds. naive_solver.
    + destruct (decide (b = 43)) as [->|Hb].
      * apply K in E as (ds & ?); [|done]. exists (c :: src), ds. naive_solver.
      * assert (foldl (push_digit radix) (Some 0) (b :: c :: src) = Some n) as E'
          by (revert E; unfold u16_from_str_radix; repeat case_match; done).
        apply K in E' as (ds & ?); [|done]. exists (b :: c :: src), ds. naive_solver.
  - intros (digits & ds & Hs & Hd & Hds & Hn & Hle).
    assert (foldl (push_digit radix) (Some 0) digits = Some n) as E by (apply K; eauto).
    assert (∀ b rest, digits = b :: rest → b ≠ 43 ∧ b ≠ 45) as Hb.
    { intros b rest ->. cbn [mapM] in Hds. split; intros ->; by rewrite ?Hp, ?Hm in Hds. }
    destruct Hs as [->| ->]; [|by destruct digits].
    destruct digits as [|b rest]; [done|]. destruct (Hb b rest eq_refl) as [H1 H2].
    unfold u16_from_str_radix. repeat case_match; simplify_eq; done.
Qed.

Lemma parse_u16_iff value n : parse_u16 value = Ok n ↔ denotes value n.
Proof.
  assert (∀ radix digits, 1 ≤ radix →
    (match u16_from_str_radix radix digits with Some n => Ok n | None => Err InvalidNumber end
       : result IdentityError Z) = Ok n ↔ numeral radix digits n) as K.
  { intros radix digits Hr. rewrite <- u16_from_str_radix_iff by done.
    destruct (u16_from_str_radix radix digits); naive_solver. }
  unfold parse_u16, denotes.
  repeat match goal with |- context [match ?x with _ => _ end] => is_var x; destruct x end; by apply K.
Qed.

Lemma serial_chars_iff s :
  forallb (λ b, is_ascii_alphanumeric b || (b =? 45) || (b =? 95) || (b =? 46)) s = true ↔
  Forall (λ b, is_ascii_alphanumeric b = true ∨ b ∈ [45; 95; 46]) s.
Proof.
  rewrite forallb_forall, Forall_forall. apply forall_proper. intros b.
  rewrite <- list_elem_of_In, !orb_true_iff, !Z.eqb_eq, !elem_of_cons, elem_of_nil. naive_solver.
Qed.

(** The build accepts a USB identity exactly when the vendor and product numbers are
    decimal or [0x] numerals of a [u16] that is neither reserved value, and the serial is
    one to 32 letters, digits, [-], [_] or [.]; the identity then holds those values. *)
Theorem usb_identity_exact vid_text pid_text serial_text id :
  from_build_values vid_text pid_text serial_text = Ok id ↔
  denotes vid_text (vid id) ∧ denotes pid_text (pid id) ∧ serial id = serial_text ∧
  vid id ∉ [0; 0xffff] ∧ pid id ∉ [0; 0xffff] ∧ (0 < length serial_text ≤ 32)%nat ∧
  Forall (λ b, is_ascii_alphanumeric b = true ∨ b ∈ [45; 95; 46]) serial_text.
Proof.
  unfold from_build_values. rewrite <- !parse_u16_iff, <- serial_chars_iff, !elem_of_cons, !elem_of_nil.
  destruct (parse_u16 vid_text) as [v|e]; [|naive_solver].
  destruct (parse_u16 pid_text) as [p|e]; [|naive_solver].
  unfold usb_identity_new, is_valid_usb_serial, MAX_USB_SERIAL_LENGTH.
  destruct id as [v' p' s']. cbn [vid pid serial].
  destruct (_ || _) eqn:Ev; [split; [done|]; intros ([= <-] & _ & _ & Hn & _)|].
  { destruct Hn. apply orb_true_iff in Ev. rewrite !Z.eqb_eq in Ev. tauto. }
  destruct (_ || _) eqn:Ep in |- *; [split; [done|]; intros (_ & [= <-] & _ & _ & Hn & _)|].
  { destruct Hn. apply orb_true_iff in Ep. rewrite !Z.eqb_eq in Ep. tauto. }
  destruct (length serial_text =? 0)%nat eqn:E0; [bool_to_prop; split; [done|intros; lia]|].
  destruct (length serial_text <=? 32)%nat eqn:E1; [|bool_to_prop; split; [done|intros; lia]].
  destruct (forallb _ _); cbn [negb andb]; bool_to_prop; [|naive_solver].
  split; [intros [= <- <- <-]; split_and!; (done || lia || by intros [?|[?|[]]])|]. intros ([= ->] & [= ->] & -> & _). done.
Qed.

(** ** Witnesses *)

Definition bytes_ok (l : bytes) : bool := forallb (λ b, (0 <=? b) && (b <? 256)) l.
Lemma bytes_ok_spec l : bytes_ok l = true → Forall is_byte l.
Proof.
  unfold bytes_ok. rewrite forallb_forall, Forall_forall. intros H b Hb%list_elem_of_In.
  specialize (H b Hb). bool_to_prop. unfold is_byte. lia.
Qed.

(** Trussed's serialized key: flags and kind in two bytes each, then the material. *)
#[export] Instance model_key_format : KeyFormat.
Proof.
  refine {|
    try_deserialize data :=
      if (4 <=? length data)%nat && bytes_ok (drop 4 data)
      then Some (mkTrussedKey (be_decode (slice data 0 2)) (be_decode (slice data 2 4)) (drop 4 data))
      else None;
    FLAGS_SENSITIVE := 2;
    KIND_P256 := 5 |}.
  intros data key E. destruct (_ && _) eqn:B; [|done]. injection E as <-. bool_to_prop. by apply bytes_ok_spec.
Defined.

Definition model_certificate : bytes := [48; 1] ++ AAGUID_EXTENSION_PREFIX ++ DEVELOPMENT_AAGUID ++ [7].
Definition model_identity : ImportIdentity := mkImportIdentity (zeros 31 ++ [1]) model_certificate.
Definition attested_fs : model_fs :=
  mkModelFs {[parts ATTESTATION_KEY_PATH := [0; 2; 0; 5] ++ id_key model_identity;
              parts ATTESTATION_CERT_PATH := model_certificate]} ∅.

Lemma staging_page_roundtrip_witness :
  length (staging_page model_identity) = STAGING_BYTES ∧
  staging_page model_identity = staging_page model_identity ∧
  importable_identity (sha256 model_certificate) model_identity.
Proof.
  split; [vm_compute; reflexivity|].
  apply staging_page_roundtrip; [vm_compute; reflexivity|apply bytes_ok_spec; vm_compute; reflexivity|].
  vm_compute. reflexivity.
Defined.

Lemma attestation_check_exact_witness :
  ∃ r f', verify_development_attestation attested_fs = Some (r, f') ∧ same_tree attested_fs f' ∧
    (r = Ok tt → attested attested_fs) ∧ (fs_healthy attested_fs → attested attested_fs → r = Ok tt).
Proof. apply (attestation_check_exact attested_fs). Defined.

Example attestation_accepted :
  option_map fst (verify_development_attestation attested_fs) = Some (Ok tt).
Proof. vm_compute. reflexivity. Qed.
