(* ===== verification/PowerCut.v ===== *)
(** * The power-cut test image

    [src/src/bin/storage-powercut-test.rs]: a storage driver that stops in the middle of
    one flash operation and waits for the bench to remove the power, and the stages of
    the test, one per boot.  The flash driver of [esp_storage] and littlefs are
    interfaces. *)

From stdpp Require Import base tactics numbers list option strings.
From S2P Require Import Prelude Interfaces Presence Storage Identity.

(** [embedded_storage::nor_flash], for the whole chip. *)
Class NorFlash (N : Type) := {
  nor_read : Z → nat → N → option bytes * N;
  nor_write : Z → bytes → N → option unit * N;
  nor_erase : Z → Z → N → option unit * N;
}.

Definition REQUIRED_HOLD_MS : Z := 5000.
Definition STAGE_PATH : path := "/.rissokey-powercut-stage".
Definition RECORD_PATH : path := "/.rissokey-powercut-record".
Definition PROGRAM_ARMED : bytes := ascii_bytes "program-armed-v1" ++ [10].
Definition ERASE_ARMED : bytes := ascii_bytes "erase-armed-v1" ++ [10].
Definition OLD_RECORD : bytes := ascii_bytes "old-complete-record-0123456789abcdef" ++ [10].
Definition NEW_RECORD : bytes := ascii_bytes "new-complete-record-fedcba9876543210" ++ [10].

Inductive FaultKind := FK_None | FK_Program | FK_Erase.

#[export] Instance FaultKind_eq_dec : EqDecision FaultKind.
Proof. solve_decision. Defined.

(** ** The driver *)

(** [led] is the level of the pin.  [windows] is what a bench that removes the power in a
    cut window finds, one entry per window. *)
Record PowerCutStorage (N : Type) := mkPowerCutStorage {
  pc_flash : N;
  pc_led : bool;
  pc_fault : FaultKind;
  pc_triggered : bool;
  pc_windows : list N;
}.
Arguments mkPowerCutStorage {N}.
Arguments pc_flash {N}.
Arguments pc_led {N}.
Arguments pc_fault {N}.
Arguments pc_triggered {N}.
Arguments pc_windows {N}.

Definition WRITE_SIZE : nat := 4.

Section driver.
Context {N : Type} `{NorFlash N}.

Abbreviation storage := (PowerCutStorage N).

Definition new_power_cut (flash : N) : storage := mkPowerCutStorage flash false FK_None false [].

Definition with_pc_flash (n : N) (s : storage) : storage :=
  mkPowerCutStorage n (pc_led s) (pc_fault s) (pc_triggered s) (pc_windows s).
Definition with_led (led : bool) (s : storage) : storage :=
  mkPowerCutStorage (pc_flash s) led (pc_fault s) (pc_triggered s) (pc_windows s).
Definition with_fault (fault : FaultKind) (s : storage) : storage :=
  mkPowerCutStorage (pc_flash s) (pc_led s) fault (pc_triggered s) (pc_windows s).

(** A failed assertion is [None]. *)
Definition arm_fault (fault : FaultKind) (s : storage) : option storage :=
  if bool_decide (pc_fault s = FK_None) && negb (pc_triggered s) then Some (with_fault fault s) else None.

(** The delay ends if the power stays on. *)
Definition cut_window : step storage FsError unit :=
  modify (λ s, mkPowerCutStorage (pc_flash s) true (pc_fault s) true (pc_flash s :: pc_windows s)).

(** A call of the flash driver with [map_err(|_| Error::IO)]. *)
Definition on_nor {A} (f : N → option A * N) : step storage FsError A := λ s,
  match f (pc_flash s) with
  | (Some a, n) => Some (Ok a, with_pc_flash n s)
  | (None, n) => Some (Err FS_IO, with_pc_flash n s)
  end.

Definition pc_range (offset : Z) (len : nat) : step storage FsError (Z * Z) :=
  ok_or (checked_absolute_range offset (Z.of_nat len)) FS_IO.

Definition pc_read (offset : Z) (len : nat) : step storage FsError bytes :=
  range ← pc_range offset len;
  on_nor (nor_read (fst range) len).

Definition pc_write (offset : Z) (data : bytes) : step storage FsError nat :=
  range ← pc_range offset (length data);
  let start := fst range in
  s ← get_state;
  (if bool_decide (pc_fault s = FK_Program) && negb (pc_triggered s) && (8 <=? length data)%nat then
     let split := (length data / 2 / WRITE_SIZE * WRITE_SIZE)%nat in
     on_nor (nor_write start (take split data));;
     cut_window;;
     second ← checked (u32_add start (Z.of_nat split));
     on_nor (nor_write second (drop split data))
   else on_nor (nor_write start data));;
  mret (length data).

Definition pc_erase (offset : Z) (len : nat) : step storage FsError nat :=
  range ← pc_range offset len;
  on_nor (nor_erase (fst range) (snd range));;
  s ← get_state;
  (if bool_decide (pc_fault s = FK_Erase) && negb (pc_triggered s) then cut_window else mret tt);;
  mret len.
End driver.

(** ** The test *)

Inductive Stage := Stage_Start | ProgramArmed | EraseArmed | Stage_Invalid.
Inductive Signal := Signal_Initial | ProgramRecovered.

(** How a boot ends: blinking fast, blinking slowly, a panic of [failure_raw]. *)
Inductive Ending := Success | Failure | FailureRaw.

#[export] Instance Ending_eq_dec : EqDecision Ending.
Proof. solve_decision. Defined.

(** The calls beside those of [Filesystem], and the storage a filesystem was mounted on. *)
Class FaultFilesystem (F N : Type) `{NorFlash N, Filesystem F} := {
  on_storage : F → PowerCutStorage N;
  with_storage : F → PowerCutStorage N → F;
  fs_found : path → F → bool * F;
  fs_remove : path → F → result FsError unit * F;
}.

Section test.
Context {F N : Type} `{FaultFilesystem F N, !KeyFormat}.

(** Nothing returns: every path ends with an [Ending]. *)
Definition t_step : Type → Type := step F Ending.

(** [unwrap_or_else(|_| failure_raw())]. *)
Definition or_raw {E A} (c : step F E A) : t_step A := map_err c FailureRaw.
Definition fs_or_raw {A} (c : F → result FsError A * F) : t_step A := or_raw (try_fs c id).

Definition arm_storage (fault : FaultKind) : t_step unit := λ f,
  s ← arm_fault fault (on_storage f);
  Some (Ok tt, with_storage f s).
Definition set_led (level : bool) : t_step unit := modify (λ f, with_storage f (with_led level (on_storage f))).

(** The first of the two guards runs only if the other passed. *)
Definition check_store : t_step unit :=
  map_err mount_existing Failure;;
  map_err verify_storage_version Failure;;
  map_err verify_development_attestation Failure.

(** An error of the read is an invalid stage. *)
Definition read_stage : t_step Stage :=
  found ← call (fs_found STAGE_PATH);
  if negb found then mret Stage_Start
  else
    value ← call (fs_read STAGE_PATH 32);
    mret (match value with
          | Ok value => if bytes_eqb value PROGRAM_ARMED then ProgramArmed
                        else if bytes_eqb value ERASE_ARMED then EraseArmed else Stage_Invalid
          | Err _ => Stage_Invalid
          end).

(** The levels of the pin while the button is up. *)
Definition signal_levels (signal : Signal) : list bool :=
  match signal with
  | Signal_Initial => [false]
  | ProgramRecovered => [true; false; true; false]
  end.
Fixpoint set_levels (levels : list bool) : t_step unit :=
  match levels with [] => mret tt | level :: levels => set_led level;; set_levels levels end.

(** The readings are [(button.is_low(), now)] of each round; [None] is a list that ends
    before the loops do. *)
Fixpoint wait_for_release (readings : list (bool * Z)) : option unit :=
  match readings with
  | [] => None
  | (pressed, _) :: readings => if pressed then wait_for_release readings else Some tt
  end.
Fixpoint hold (signal : Signal) (readings : list (bool * Z)) (gesture : ProvisioningGesture) : t_step unit :=
  match readings with
  | [] => checked None
  | (pressed, now) :: readings =>
      let '(confirmed, gesture) := gesture_sample pressed now gesture in
      if pressed then
        set_led true;;
        if confirmed then set_led false;; checked (wait_for_release readings)
        else hold signal readings gesture
      else set_levels (signal_levels signal);; hold signal readings gesture
  end.
Definition wait_for_hold (signal : Signal) (readings : list (bool * Z)) : t_step unit :=
  hold signal readings (new_gesture REQUIRED_HOLD_MS).

Definition prepare_program_test : t_step unit :=
  or_raw mount_existing;;
  fs_or_raw (fs_write RECORD_PATH OLD_RECORD);;
  fs_or_raw (fs_write STAGE_PATH PROGRAM_ARMED);;
  record ← fs_or_raw (fs_read RECORD_PATH 64);
  return_if (negb (bytes_eqb record OLD_RECORD)) FailureRaw.

Definition run_program_test (readings : list (bool * Z)) : t_step Ending :=
  wait_for_hold Signal_Initial readings;;
  prepare_program_test;;
  arm_storage FK_Program;;
  or_raw mount_existing;;
  fs_or_raw (fs_write RECORD_PATH NEW_RECORD);;
  throw FailureRaw.

Definition prepare_erase_test : t_step unit :=
  or_raw mount_existing;;
  fs_or_raw (fs_write STAGE_PATH ERASE_ARMED);;
  fs_or_raw (fs_write RECORD_PATH OLD_RECORD).

Fixpoint erase_rounds (count index : nat) : t_step unit :=
  match count with
  | O => mret tt
  | S count =>
      fs_or_raw (fs_write RECORD_PATH (if Nat.even index then NEW_RECORD else OLD_RECORD));;
      erase_rounds count (S index)
  end.

Definition run_erase_test : t_step Ending :=
  prepare_erase_test;;
  arm_storage FK_Erase;;
  or_raw mount_existing;;
  erase_rounds (Z.to_nat 4000) 0;;
  throw FailureRaw.

Definition verify_record : t_step unit :=
  or_raw mount_existing;;
  or_raw verify_development_attestation;;
  record ← fs_or_raw (fs_read RECORD_PATH 64);
  return_if (negb (bytes_eqb record OLD_RECORD) && negb (bytes_eqb record NEW_RECORD)) FailureRaw.

Definition cleanup : t_step unit :=
  or_raw mount_existing;;
  fs_or_raw (fs_remove RECORD_PATH);;
  fs_or_raw (fs_remove STAGE_PATH).

(** [main] after the peripherals. *)
Definition power_cut_test (readings : list (bool * Z)) : t_step Ending :=
  check_store;;
  stage ← read_stage;
  match stage with
  | Stage_Start => run_program_test readings
  | ProgramArmed => verify_record;; wait_for_hold ProgramRecovered readings;; run_erase_test
  | EraseArmed => verify_record;; cleanup;; throw Success
  | Stage_Invalid => throw Failure
  end.

(** One boot. *)
Definition boot (readings : list (bool * Z)) (f : F) : option (Ending * F) := finish (power_cut_test readings) f.
End test.
