(* ===== verification/PowerCutTheorems.v ===== *)
(** * The power-cut driver is the credential store, cut in the middle of one operation

    Armed or not, the driver of the test image is the NOR device littlefs expects, and the
    window it opens shows the armed operation half done.  A boot of the test opens at most
    one window, and reports success only for a store that came out of the last one whole. *)

From stdpp Require Import base tactics numbers list option strings relations sets gmap.
From S2P Require Import Prelude Interfaces Presence Storage StorageTheorems Identity IdentityTheorems PowerCut.

(** What the driver relies on: the bytes of the chip and which of them are erased.  A write
    to erased flash stores the data, an erase leaves its range erased, and nothing outside
    the range of an operation changes. *)
Class NorView (N : Type) `{NorFlash N} := {
  chip : N → nor;
  nv_read_frame : ∀ a n s r s', nor_read a n s = (r, s') → chip s' = chip s;
  nv_read_Some : ∀ a n s d s', nor_read a n s = (Some d, s') → d = mem_read (nor_byte (chip s)) a n;
  nv_write_frame : ∀ a d s r s', nor_write a d s = (r, s') → ∀ x, ¬ a ≤ x < a + Z.of_nat (length d) →
    nor_byte (chip s') x = nor_byte (chip s) x ∧ (nor_erased (chip s) x → nor_erased (chip s') x);
  nv_write_Some : ∀ a d s s', nor_write a d s = (Some tt, s') → Forall is_byte d →
    (∀ x, a ≤ x < a + Z.of_nat (length d) → nor_erased (chip s) x) → mem_read (nor_byte (chip s')) a (length d) = d;
  nv_erase_frame : ∀ a b s r s', nor_erase a b s = (r, s') → ∀ x, ¬ a ≤ x < b →
    nor_byte (chip s') x = nor_byte (chip s) x ∧ (nor_erased (chip s) x → nor_erased (chip s') x);
  nv_erase_Some : ∀ a b s s', nor_erase a b s = (Some tt, s') → ∀ x, a ≤ x < b → nor_erased (chip s') x;
}.

(** ** The driver *)

Section driver.
Context {N : Type} `{NorView N}.

Abbreviation storage := (PowerCutStorage N).

Definition part (n : N) : nor :=
  mkNor (λ a, nor_byte (chip n) (FIDO_STORE_OFFSET + a)) (λ a, nor_erased (chip n) (FIDO_STORE_OFFSET + a)).

Definition pc_run (op : store_op) : step storage FsError store_answer :=
  match op with
  | SO_Read o n => d ← pc_read o n; mret (SA_Data d)
  | SO_Write o d => n ← pc_write o d; mret (SA_Count n)
  | SO_Erase o n => n ← pc_erase o n; mret (SA_Count n)
  end.

(** The operation the test interrupts. *)
Definition cuts (op : store_op) (s : storage) : Prop :=
  pc_triggered s = false ∧
  match op with
  | SO_Read _ _ => False
  | SO_Write _ d => pc_fault s = FK_Program ∧ (8 ≤ length d)%nat
  | SO_Erase _ _ => pc_fault s = FK_Erase
  end.

(** What the bench finds in the window: of a write, a whole number of words and not all of
    them; of an erase, everything. *)
Definition half_done (op : store_op) (n m : nor) : Prop :=
  match op with
  | SO_Read _ _ => False
  | SO_Write o d => ∃ k, (0 < k < length d)%nat ∧ (k mod WRITE_SIZE = 0)%nat ∧
      kept_outside (SO_Write o (take k d)) n m ∧
      (Forall is_byte d → (∀ a, in_range op a → nor_erased n a) → mem_read (nor_byte m) o k = take k d)
  | SO_Erase _ _ => kept_outside op n m ∧ ∀ a, in_range op a → nor_erased m a
  end.

(** One window more, or the same windows. *)
Definition window_step (op : store_op) (s : storage) (r : result FsError store_answer) (s' : storage) : Prop :=
  pc_fault s' = pc_fault s ∧
  ((pc_windows s' = pc_windows s ∧ pc_triggered s' = pc_triggered s ∧ (cuts op s → r = Err FS_IO)) ∨
   (cuts op s ∧ in_partition op ∧ pc_triggered s' = true ∧ pc_led s' = true ∧
      ∃ n, pc_windows s' = n :: pc_windows s ∧ half_done op (part (pc_flash s)) (part n))).

Definition outside_same (s s' : storage) : Prop := ∀ a, ¬ FIDO_STORE_OFFSET ≤ a < FLASH_SIZE →
  nor_byte (chip (pc_flash s')) a = nor_byte (chip (pc_flash s)) a.

Definition driver_ok (op : store_op) (s : storage) (r : result FsError store_answer) (s' : storage) : Prop :=
  nor_step op (part (pc_flash s)) r (part (pc_flash s')) ∧ outside_same s s' ∧ window_step op s r s'.

(** Only [lo..hi] of the chip may have changed. *)
Definition kept_but (lo hi : Z) (n n' : N) : Prop := ∀ x, ¬ lo ≤ x < hi →
  nor_byte (chip n') x = nor_byte (chip n) x ∧ (nor_erased (chip n) x → nor_erased (chip n') x).

Lemma kept_but_trans lo hi n1 n2 n3 : kept_but lo hi n1 n2 → kept_but lo hi n2 n3 → kept_but lo hi n1 n3.
Proof. intros A C x Hx. destruct (A x Hx), (C x Hx). split; [congruence|auto]. Qed.

Lemma kept_but_weaken lo hi lo' hi' n n' : lo' ≤ lo → hi ≤ hi' → kept_but lo hi n n' → kept_but lo' hi' n n'.
Proof. intros Hl Hh A x Hx. apply A. lia. Qed.

Lemma kept_but_part op n n' :
  kept_but (FIDO_STORE_OFFSET + so_offset op) (FIDO_STORE_OFFSET + so_offset op + Z.of_nat (so_length op)) n n' →
  kept_outside op (part n) (part n').
Proof. intros A a Ha. apply A. unfold in_range in Ha. lia. Qed.

Lemma kept_but_outside op s s' : 0 ≤ so_offset op → in_partition op →
  kept_but (FIDO_STORE_OFFSET + so_offset op) (FIDO_STORE_OFFSET + so_offset op + Z.of_nat (so_length op))
    (pc_flash s) (pc_flash s') → outside_same s s'.
Proof.
  intros Ho Hp A a Ha. apply A. unfold in_partition, FIDO_STORE_OFFSET, FLASH_SIZE, FIDO_STORE_SIZE in *. lia.
Qed.

Lemma wp_pc_range {A} op (k : Z * Z → step storage FsError A) (Q : result FsError A → storage → Prop) s :
  0 ≤ so_offset op →
  (in_partition op → wp (k (FIDO_STORE_OFFSET + so_offset op, FIDO_STORE_OFFSET + (so_offset op + Z.of_nat (so_length op)))) Q s) →
  (¬ in_partition op → Q (Err FS_IO) s) →
  wp (pc_range (so_offset op) (so_length op) ≫= k) Q s.
Proof.
  intros Ho Hin Hout. apply wp_bind. unfold pc_range. rewrite checked_absolute_range_spec by lia.
  unfold in_partition in *. destruct (Z.ltb_spec FIDO_STORE_SIZE (so_offset op + Z.of_nat (so_length op))).
  - apply Hout. lia.
  - by apply Hin.
Qed.

Lemma wp_on_nor {A} (f : N → option A * N) (Q : result FsError A → storage → Prop) s :
  (∀ a n, f (pc_flash s) = (Some a, n) → Q (Ok a) (with_pc_flash n s)) →
  (∀ n, f (pc_flash s) = (None, n) → Q (Err FS_IO) (with_pc_flash n s)) → wp (on_nor f) Q s.
Proof. unfold wp, on_nor. destruct (f (pc_flash s)) as [[a|] n]; auto. Qed.

Lemma same_windows op s n (r : result FsError store_answer) :
  (cuts op s → r = Err FS_IO) → window_step op s r (with_pc_flash n s).
Proof. intros K. split; [done|]. by left. Qed.

Lemma failed_op op s n : ¬ in_partition op ∧ n = pc_flash s ∨
    in_partition op ∧ kept_but (FIDO_STORE_OFFSET + so_offset op) (FIDO_STORE_OFFSET + so_offset op + Z.of_nat (so_length op)) (pc_flash s) n ∧
    match op with SO_Read _ _ => chip n = chip (pc_flash s) | _ => True end →
  0 ≤ so_offset op → nor_step op (part (pc_flash s)) (Err FS_IO) (part n) ∧ outside_same s (with_pc_flash n s).
Proof.
  intros [[Hp ->]|(Hp & K & Hr)] Ho.
  - split; [|by intros a]. split; [done|]. destruct op; [done|split; [by intros a|done]..].
  - split; [|by eapply kept_but_outside]. split; [done|].
    destruct op; [unfold part; by rewrite Hr|split; [by apply kept_but_part|done]..].
Qed.

Lemma refused_op op s : 0 ≤ so_offset op → ¬ in_partition op → driver_ok op s (Err FS_IO) s.
Proof.
  intros Ho Hp. destruct (failed_op op s (pc_flash s)) as [A C]; [by left|done|].
  split; [exact A|]. split; [by intros a|]. split; [done|]. by left.
Qed.

Lemma split_bounds (len : nat) : (8 ≤ len)%nat →
  let k := (len / 2 / WRITE_SIZE * WRITE_SIZE)%nat in (0 < k < len)%nat ∧ (k mod WRITE_SIZE = 0)%nat.
Proof.
  intros Hl. unfold WRITE_SIZE. cbv zeta.
  pose proof (Nat.div_mod_eq len 2). pose proof (Nat.mod_upper_bound len 2).
  pose proof (Nat.div_mod_eq (len / 2) 4). pose proof (Nat.mod_upper_bound (len / 2) 4).
  split; [lia|]. apply Nat.Div0.mod_mul.
Qed.

(** A write in two pieces is the whole write. *)
Lemma write_pieces (start : Z) (data : bytes) k n n1 n2 : (k < length data)%nat →
  nor_write start (take k data) n = (Some tt, n1) → nor_write (start + Z.of_nat k) (drop k data) n1 = (Some tt, n2) →
  Forall is_byte data → (∀ x, start ≤ x < start + Z.of_nat (length data) → nor_erased (chip n) x) →
  mem_read (nor_byte (chip n1)) start k = take k data ∧ mem_read (nor_byte (chip n2)) start (length data) = data.
Proof.
  intros Hk E1 E2 Hb He. rewrite <- (take_drop k data) in Hb. apply Forall_app in Hb as [Hb1 Hb2].
  assert (length (take k data) = k) as Hl by (rewrite length_take; lia).
  assert (mem_read (nor_byte (chip n1)) start k = take k data) as H1.
  { rewrite <- Hl at 1. apply (nv_write_Some _ _ _ _ E1 Hb1). intros x Hx. apply He. rewrite Hl in Hx. lia. }
  split; [done|]. rewrite <- (take_drop k data) at 2. rewrite <- H1.
  replace (length data) with (k + length (drop k data))%nat by (rewrite length_drop; lia).
  rewrite mem_read_app. f_equal.
  - apply mem_read_ext. intros x Hx. apply (nv_write_frame _ _ _ _ _ E2). lia.
  - apply (nv_write_Some _ _ _ _ E2 Hb2). rewrite length_drop. intros x Hx.
    apply (nv_write_frame _ _ _ _ _ E1); [rewrite Hl; lia|]. apply He. lia.
Qed.

(** The bytes of the partition after a write of [data] to erased flash. *)
Lemma part_read o n (len : nat) (data : bytes) :
  mem_read (nor_byte (chip n)) (FIDO_STORE_OFFSET + o) len = data → mem_read (nor_byte (part n)) o len = data.
Proof. intros <-. apply mem_read_shift. Qed.

Lemma part_erased op n : (∀ a, in_range op a → nor_erased (part n) a) →
  ∀ x, FIDO_STORE_OFFSET + so_offset op ≤ x < FIDO_STORE_OFFSET + so_offset op + Z.of_nat (so_length op) →
  nor_erased (chip n) x.
Proof.
  intros He x Hx. replace x with (FIDO_STORE_OFFSET + (x - FIDO_STORE_OFFSET)) by lia. apply He. unfold in_range. lia.
Qed.

Lemma pc_read_wp o n s : 0 ≤ o → wp (pc_run (SO_Read o n)) (driver_ok (SO_Read o n) s) s.
Proof.
  intros Ho. set (op := SO_Read o n). cbn [pc_run]. unfold pc_read. apply wp_bind, (wp_pc_range op); [done| |].
  - intros Hp. cbn [fst so_offset op]. apply wp_on_nor.
    + intros d n' E. pose proof (nv_read_frame _ _ _ _ _ E) as Hc. apply wp_ret. split; [|split].
      * split; [done|]. split; [|unfold part; cbn [pc_flash with_pc_flash]; by rewrite Hc].
        f_equal. rewrite (nv_read_Some _ _ _ _ _ E). symmetry. apply mem_read_shift.
      * intros a _. cbn [pc_flash with_pc_flash]. by rewrite Hc.
      * apply same_windows. by intros [_ []].
    + intros n' E. pose proof (nv_read_frame _ _ _ _ _ E) as Hc.
      destruct (failed_op op s n') as [A C]; [right|done|].
      { split; [done|]. split; [|done]. intros x _. by rewrite Hc. }
      split; [exact A|]. split; [exact C|]. by apply same_windows.
  - intros Hp. by apply refused_op.
Qed.

Lemma pc_write_whole_wp o data s : let op := SO_Write o data in 0 ≤ o → in_partition op → ¬ cuts op s →
  wp (on_nor (nor_write (FIDO_STORE_OFFSET + o) data)) (λ r s',
    driver_ok op s (match r with Ok _ => Ok (SA_Count (length data)) | Err e => Err e end) s') s.
Proof.
  intros op Ho Hp Hcut. apply wp_on_nor.
  - intros [] n' E. pose proof (nv_write_frame _ _ _ _ _ E) as Hf. split; [|split].
    + split; [done|]. split; [done|]. split; [by apply kept_but_part|]. intros Hb He.
      apply part_read, (nv_write_Some _ _ _ _ E Hb). by apply (part_erased op).
    + by apply (kept_but_outside op).
    + by apply same_windows.
  - intros n' E. pose proof (nv_write_frame _ _ _ _ _ E) as Hf.
    destruct (failed_op op s n') as [A C]; [by right|done|].
    split; [exact A|]. split; [exact C|]. by apply same_windows.
Qed.

Lemma pc_write_split_wp o data s (k := (length data / 2 / WRITE_SIZE * WRITE_SIZE)%nat) : let op := SO_Write o data in
  0 ≤ o → in_partition op → cuts op s →
  wp (on_nor (nor_write (FIDO_STORE_OFFSET + o) (take k data));;
      cut_window;;
      second ← checked (u32_add (FIDO_STORE_OFFSET + o) (Z.of_nat k));
      on_nor (nor_write second (drop k data))) (λ r s',
    driver_ok op s (match r with Ok _ => Ok (SA_Count (length data)) | Err e => Err e end) s') s.
Proof.
  intros op Ho Hp Hcut. pose proof Hcut as (Ht & Hf & Hl). destruct (split_bounds (length data) Hl) as [Hk Hm].
  fold k in Hk, Hm. clearbody k.
  assert (length (take k data) = k) as Htk by (rewrite length_take; lia).
  assert (length (drop k data) = (length data - k)%nat) as Hdk by apply length_drop.
  set (lo := FIDO_STORE_OFFSET + o). set (hi := lo + Z.of_nat (length data)).
  apply wp_bind, wp_on_nor.
  2: { intros n1 E1. pose proof (nv_write_frame _ _ _ _ _ E1) as F1. rewrite Htk in F1.
       destruct (failed_op op s n1) as [A C]; [right|done|].
       { split; [done|]. split; [|done]. apply (kept_but_weaken lo (lo + Z.of_nat k)); [unfold lo; simpl; lia..|exact F1]. }
       split; [exact A|]. split; [exact C|]. by apply same_windows. }
  intros [] n1 E1. pose proof (nv_write_frame _ _ _ _ _ E1) as F1. rewrite Htk in F1.
  apply wp_bind, wp_modify, wp_bind, (wp_checked _ (lo + Z.of_nat k)).
  { apply u32_add_ok. unfold in_partition, lo, FIDO_STORE_OFFSET, FLASH_SIZE, FIDO_STORE_SIZE in *. unfold_max. simpl in Hp. lia. }
  assert (∀ n2, kept_but (lo + Z.of_nat k) hi n1 n2 → kept_but lo hi (pc_flash s) n2) as Hall.
  { intros n2 F2. apply (kept_but_trans _ _ _ n1); [apply (kept_but_weaken lo (lo + Z.of_nat k)); [lia|unfold hi; lia|exact F1]|].
    apply (kept_but_weaken (lo + Z.of_nat k) hi); [lia|lia|exact F2]. }
  assert (half_done op (part (pc_flash s)) (part n1)) as Hhalf.
  { exists k. split; [done|]. split; [done|]. split.
    - apply kept_but_part. cbn [so_offset so_length]. rewrite Htk. exact F1.
    - intros Hb He. apply part_read. rewrite <- Htk at 1. apply (nv_write_Some _ _ _ _ E1).
      + by apply Forall_take.
      + intros x Hx. apply (part_erased op); [done|]. rewrite Htk in Hx. simpl. lia. }
  assert (∀ n2 r, window_step op s r (with_pc_flash n2 (mkPowerCutStorage n1 true (pc_fault s) true (n1 :: pc_windows s)))) as Hw.
  { intros n2 r. split; [done|]. right. split; [done|]. split; [done|]. split; [done|]. split; [done|]. by exists n1. }
  apply wp_on_nor; intros ? n2 E2 || intros n2 E2; pose proof (nv_write_frame _ _ _ _ _ E2) as F2;
    replace (lo + Z.of_nat k + Z.of_nat (length (drop k data))) with hi in F2 by (rewrite Hdk; unfold hi; lia);
    apply Hall in F2.
  - destruct a. split; [|split; [by apply (kept_but_outside op)|apply Hw]].
    split; [done|]. split; [done|]. split; [by apply kept_but_part|]. intros Hb He.
    apply part_read. by eapply (write_pieces lo data k); [lia|done|done|done|apply (part_erased op)].
  - destruct (failed_op op s n2) as [A C]; [by right|done|]. split; [exact A|]. split; [exact C|apply Hw].
Qed.

Lemma pc_write_wp o data s : 0 ≤ o → wp (pc_run (SO_Write o data)) (driver_ok (SO_Write o data) s) s.
Proof.
  intros Ho. set (op := SO_Write o data). cbn [pc_run]. unfold pc_write. apply wp_bind, (wp_pc_range op); [done| |].
  2: { intros Hp. by apply refused_op. }
  intros Hp. cbv zeta. cbn [fst so_offset op].
  assert (∀ c : step storage FsError unit, wp c (λ r s',
      driver_ok op s (match r with Ok _ => Ok (SA_Count (length data)) | Err e => Err e end) s') s →
    wp (c;; mret (length data)) (λ r s', match r with
      | Ok n => wp (mret (SA_Count n)) (driver_ok op s) s' | Err e => driver_ok op s (Err e) s' end) s) as Hret.
  { intros c Hc. apply wp_bind. eapply wp_mono; [exact Hc|]. by intros [[]|e] s' K. }
  apply wp_bind, wp_get. case_match eqn:Ec; apply Hret.
  - rewrite !andb_true_iff, bool_decide_eq_true, negb_true_iff, Nat.leb_le in Ec.
    apply pc_write_split_wp; [done..|]. destruct Ec as [[Hf Ht] Hl]. by repeat split.
  - apply pc_write_whole_wp; [done..|]. intros (Ht & Hf & Hl).
    apply not_true_iff_false in Ec. apply Ec. by rewrite Hf, Ht, bool_decide_eq_true_2, (proj2 (Nat.leb_le _ _)).
Qed.

Lemma pc_erase_wp o n s : 0 ≤ o → wp (pc_run (SO_Erase o n)) (driver_ok (SO_Erase o n) s) s.
Proof.
  intros Ho. set (op := SO_Erase o n). cbn [pc_run]. unfold pc_erase. apply wp_bind, (wp_pc_range op); [done| |].
  2: { intros Hp. by apply refused_op. }
  intros Hp. cbn [fst snd so_offset so_length op]. rewrite Z.add_assoc. apply wp_bind, wp_on_nor.
  2: { intros n1 E. pose proof (nv_erase_frame _ _ _ _ _ E) as Hf.
       destruct (failed_op op s n1) as [A C]; [by right|done|]. split; [exact A|]. split; [exact C|]. by apply same_windows. }
  intros [] n1 E. pose proof (nv_erase_frame _ _ _ _ _ E) as Hf. pose proof (nv_erase_Some _ _ _ _ E) as He.
  assert (kept_outside op (part (pc_flash s)) (part n1) ∧ ∀ a, in_range op a → nor_erased (part n1) a) as [Hk Hr].
  { split; [by apply kept_but_part|]. intros a Ha. apply He. unfold in_range in Ha. simpl in Ha. lia. }
  assert (∀ s', pc_flash s' = n1 → window_step op s (Ok (SA_Count n)) s' → driver_ok op s (Ok (SA_Count n)) s') as Hok.
  { intros s' <- Hw. split; [by split|]. split; [by apply (kept_but_outside op)|done]. }
  apply wp_bind, wp_get. cbn [pc_fault pc_triggered with_pc_flash]. case_match eqn:Ec.
  - rewrite andb_true_iff, bool_decide_eq_true, negb_true_iff in Ec. destruct Ec as [Hft Ht].
    apply wp_bind, wp_modify, wp_ret, Hok; [done|]. split; [done|]. right. split; [by split|]. split; [done|].
    split; [done|]. split; [done|]. by exists n1.
  - apply wp_bind, wp_ret, wp_ret, Hok; [done|]. apply same_windows. intros [Ht Hft].
    apply not_true_iff_false in Ec. exfalso. apply Ec. by rewrite Hft, Ht, bool_decide_eq_true_2.
Qed.

Lemma pc_run_wp op s : 0 ≤ so_offset op → wp (pc_run op) (driver_ok op s) s.
Proof. intros Ho. destruct op; [by apply pc_read_wp|by apply pc_write_wp|by apply pc_erase_wp]. Qed.

(** The driver of the test image is the NOR device littlefs expects, whatever fault it is
    armed with: every operation returns, reads, writes and erases as that device, or fails
    with an I/O error, and nothing outside the credential partition changes.  It opens a cut
    window exactly in the first operation of the armed kind that flash carries out: the
    window shows a write with a whole number of words but not all of them, or an erase
    done, and the operation then goes on. *)
Theorem fault_driver_refines_nor op s : 0 ≤ so_offset op →
  ∃ r s', pc_run op s = Some (r, s') ∧ driver_ok op s r s'.
Proof. intros Ho. by apply wp_elim, pc_run_wp. Qed.
End driver.

(** ** The test *)

Section reached.
Context {N : Type} `{NorView N}.

Abbreviation storage := (PowerCutStorage N).

(** What littlefs and the signals do to the storage. *)
Definition storage_call (s s' : storage) : Prop :=
  (∃ op r, 0 ≤ so_offset op ∧ pc_run op s = Some (r, s')) ∨ ∃ level, s' = with_led level s.
Definition used : relation storage := rtc storage_call.

Lemma storage_call_step s s' : storage_call s s' → outside_same s s' ∧ pc_fault s' = pc_fault s ∧
  ((pc_windows s' = pc_windows s ∧ pc_triggered s' = pc_triggered s) ∨
   (pc_fault s ≠ FK_None ∧ pc_triggered s = false ∧ pc_triggered s' = true ∧ ∃ n, pc_windows s' = n :: pc_windows s)).
Proof.
  intros [(op & r & Ho & E)|[level ->]].
  2: { split; [by intros a|]. split; [done|]. by left. }
  destruct (wp_run _ _ _ _ _ E (pc_run_wp op s Ho)) as (_ & Hout & Hf & Hw). split; [done|]. split; [done|].
  destruct Hw as [(Hw & Ht & _)|([Ht Hc] & _ & Ht' & _ & n & Hw & _)]; [by left|right].
  split; [|by eauto]. destruct op; [done|destruct Hc as [-> _]; done|by rewrite Hc].
Qed.

(** Nothing armed: no window opens. *)
Definition calm (s s' : storage) : Prop := pc_fault s = FK_None →
  pc_fault s' = FK_None ∧ pc_windows s' = pc_windows s ∧ pc_triggered s' = pc_triggered s.
(** As many windows as were triggered, and a partition changed at most. *)
Definition windows_counted (s : storage) : Prop := length (pc_windows s) = if pc_triggered s then 1%nat else 0%nat.
Definition counted (s s' : storage) : Prop := outside_same s s' ∧ (windows_counted s → windows_counted s').

#[export] Instance calm_preorder : PreOrder calm.
Proof.
  split; [by intros s|]. intros s1 s2 s3 A C Hf. destruct (A Hf) as (F2 & W2 & T2), (C F2) as (F3 & W3 & T3).
  split; [done|]. split; congruence.
Qed.
#[export] Instance counted_preorder : PreOrder counted.
Proof.
  split; [by intros s|]. intros s1 s2 s3 [O1 A] [O2 C]. split; [|by auto].
  intros a Ha. by rewrite O2, O1.
Qed.

Lemma used_calm s s' : used s s' → calm s s'.
Proof.
  induction 1 as [s|s1 s2 s3 Hc _ IH]; [done|]. etrans; [|exact IH]. intros Hf.
  destruct (storage_call_step _ _ Hc) as (_ & Hf' & [[? ?]|[? _]]); [|done]. split; [congruence|done].
Qed.

Lemma used_counted s s' : used s s' → counted s s'.
Proof.
  induction 1 as [s|s1 s2 s3 Hc _ IH]; [done|]. etrans; [|exact IH].
  destruct (storage_call_step _ _ Hc) as (Ho & _ & Hw). split; [done|]. unfold windows_counted.
  destruct Hw as [[-> ->]|(_ & -> & -> & n & ->)]; [done|]. simpl. lia.
Qed.
End reached.

(** What the test relies on beside [FilesystemView]: littlefs reaches flash through the
    driver only, the tree is a function of the flash, and the two calls mean what they say. *)
Class FaultView (F N : Type) `{FaultFilesystem F N, !NorView N, !FilesystemView F} := {
  fv_storage : ∀ f s, on_storage (with_storage f s) = s;
  fv_tree : ∀ f s, pc_flash s = pc_flash (on_storage f) → same_tree f (with_storage f s);
  fv_mount : ∀ f r f', fs_mount f = (r, f') → used (on_storage f) (on_storage f');
  fv_read : ∀ p n f r f', fs_read p n f = (r, f') → used (on_storage f) (on_storage f');
  fv_write : ∀ p d f r f', fs_write p d f = (r, f') → used (on_storage f) (on_storage f');
  fv_found : ∀ p f r f', fs_found p f = (r, f') → used (on_storage f) (on_storage f') ∧ same_tree f f';
  fv_found_false : ∀ p f f', fs_found p f = (false, f') → fs_file f p = None;
  fv_remove : ∀ p f r f', fs_remove p f = (r, f') → used (on_storage f) (on_storage f');
  fv_remove_Ok : ∀ p f f', fs_remove p f = (Ok tt, f') → fs_file f' p = None;
  fv_remove_file : ∀ p f r f' q, fs_remove p f = (r, f') → apart_paths p q → fs_file f' q = fs_file f q;
}.

Section frame.
Context {F N : Type} `{FaultView F N, !KeyFormat}.
Context (R : relation (PowerCutStorage N)) `{!PreOrder R}.
Context (used_R : ∀ s s', used s s' → R s s').

Definition over (f f' : F) : Prop := R (on_storage f) (on_storage f').

#[export] Instance over_preorder : PreOrder over.
Proof. split; [intros f; unfold over; reflexivity|]. intros f1 f2 f3 A C. unfold over in *. by etrans. Qed.

Lemma over_try_fs {E A} (c : F → result FsError A * F) (into : FsError → E) :
  (∀ f r f', c f = (r, f') → used (on_storage f) (on_storage f')) → preserves over (try_fs c into).
Proof.
  intros Hc f r f'. unfold try_fs. destruct (c f) as [[a|e] f1] eqn:Ec; intros [= <- <-];
    by eapply used_R, Hc.
Qed.

Lemma over_call {E A} (c : F → A * F) :
  (∀ f a f', c f = (a, f') → used (on_storage f) (on_storage f')) → preserves over (call (E := E) c).
Proof. intros Hc. apply preserves_call. intros f a f' Ec. by eapply used_R, Hc. Qed.

Lemma found_used p f r f' : fs_found p f = (r, f') → used (on_storage f) (on_storage f').
Proof. intros E. by apply fv_found in E as [? _]. Qed.

Ltac frame_law := first [exact fv_mount | exact (fv_read _ _) | exact (fv_write _ _) | exact (found_used _) | exact (fv_remove _)].
#[local] Hint Extern 4 (preserves over (try_fs _ _)) => apply over_try_fs; frame_law : preserves.
#[local] Hint Extern 4 (preserves over (call _)) => apply over_call; frame_law : preserves.

Lemma over_version_step {A} (c : step F StorageVersionError A) : preserves over c → preserves over (version_step c).
Proof.
  intros Hc f r f'. unfold version_step. destruct (c f) as [[[a|e] f1]|] eqn:Ec; intros [= <- <-]; by eapply Hc.
Qed.
#[local] Hint Resolve over_version_step : preserves.

Lemma over_version : preserves over (verify_storage_version (F := F)).
Proof. unfold verify_storage_version. preserve. Qed.
#[local] Hint Resolve over_version : preserves.
Lemma over_mount : preserves over (mount_existing (F := F)).
Proof. unfold mount_existing. preserve. Qed.
Lemma over_attestation : preserves over (verify_development_attestation (F := F)).
Proof. unfold verify_development_attestation. preserve. Qed.
#[local] Hint Resolve over_mount over_attestation : preserves.

Lemma over_set_led level : preserves over (set_led (F := F) (N := N) level).
Proof.
  apply preserves_modify. intros f. unfold over. rewrite fv_storage.
  apply used_R, rtc_once. right. by exists level.
Qed.
#[local] Hint Resolve over_set_led : preserves.

Lemma over_set_levels levels : preserves over (set_levels (F := F) (N := N) levels).
Proof. induction levels; cbn [set_levels]; preserve. Qed.
#[local] Hint Resolve over_set_levels : preserves.

Lemma over_hold signal readings g : preserves over (hold (F := F) (N := N) signal readings g).
Proof. revert g. induction readings as [|[pressed now] readings IH]; intros g; cbn [hold]; preserve. Qed.
#[local] Hint Resolve over_hold : preserves.

Lemma over_fs_or_raw {A} (c : F → result FsError A * F) : preserves over (try_fs c id) → preserves over (fs_or_raw c).
Proof. intros Hc. by apply preserves_map_err. Qed.
#[local] Hint Resolve over_fs_or_raw : preserves.
Lemma over_or_raw {E A} (c : step F E A) : preserves over c → preserves over (or_raw c).
Proof. intros Hc. by apply preserves_map_err. Qed.
#[local] Hint Resolve over_or_raw : preserves.

Lemma over_erase_rounds count index : preserves over (erase_rounds (F := F) count index).
Proof. revert index. induction count as [|count IH]; intros index; cbn [erase_rounds]; preserve. Qed.
#[local] Hint Resolve over_erase_rounds : preserves.

Lemma over_check : preserves over (check_store (F := F)).
Proof. unfold check_store. preserve. Qed.
Lemma over_stage : preserves over (read_stage (F := F) (N := N)).
Proof. unfold read_stage. preserve. Qed.
Lemma over_wait signal readings : preserves over (wait_for_hold (F := F) (N := N) signal readings).
Proof. unfold wait_for_hold. preserve. Qed.
Lemma over_prepare_program : preserves over (prepare_program_test (F := F)).
Proof. unfold prepare_program_test. preserve. Qed.
Lemma over_prepare_erase : preserves over (prepare_erase_test (F := F)).
Proof. unfold prepare_erase_test. preserve. Qed.
Lemma over_verify_record : preserves over (verify_record (F := F)).
Proof. unfold verify_record. preserve. Qed.
Lemma over_cleanup : preserves over (cleanup (F := F) (N := N)).
Proof. unfold cleanup. preserve. Qed.
End frame.

Lemma arm_counted {F N} `{FaultView F N} fault f r f' : arm_storage fault f = Some (r, f') →
  counted (on_storage f) (on_storage f') ∧ r = Ok tt.
Proof.
  unfold arm_storage, arm_fault. case_match; [|done]. cbn [mbind option_bind]. intros [= <- <-]. rewrite fv_storage.
  split; [|done]. split; [by intros a|done].
Qed.

(** Every error of a step is [FailureRaw]; [Q] says whether it may return. *)
Definition raw {F A} (Q : Prop) (c : step F Ending A) : Prop := ∀ f r f',
  c f = Some (r, f') → match r with Ok _ => Q | Err e => e = FailureRaw end.

Lemma raw_bind {F A A'} Q (c : step F Ending A) (k : A → step F Ending A') :
  raw True c → (∀ a, raw Q (k a)) → raw Q (c ≫= k).
Proof.
  intros Hc Hk f r f'. unfold mbind, step_bind. destruct (c f) as [[[a|e] f1]|] eqn:Ec; [apply Hk| |done].
  intros [= <- <-]. apply (Hc _ _ _ Ec).
Qed.
Lemma raw_ret {F A} (a : A) : raw True (mret (M := step F Ending) a).
Proof. by intros f r f' [= <- <-]. Qed.
Lemma raw_throw {F A} Q : raw (A := A) (F := F) Q (throw FailureRaw).
Proof. by intros f r f' [= <- <-]. Qed.
Lemma raw_or {F E A} (c : step F E A) : raw True (or_raw c).
Proof.
  intros f r f'. unfold or_raw, map_err. destruct (c f) as [[[a|e] f1]|]; [..|done]; by intros [= <- <-].
Qed.

Section outcome.
Context {F N : Type} `{FaultView F N, !KeyFormat}.

Lemma raw_checked {A} (o : option A) : raw (F := F) True (checked o).
Proof. destruct o; [apply raw_ret|by intros f r f']. Qed.
Lemma raw_modify g : raw (F := F) True (modify g).
Proof. by intros f r f' [= <- <-]. Qed.
Lemma raw_return_if (c : bool) : raw (F := F) True (return_if c FailureRaw).
Proof. destruct c; [apply raw_throw|apply raw_ret]. Qed.
Lemma raw_arm fault : raw True (arm_storage (F := F) fault).
Proof. intros f r f' E. by apply arm_counted in E as [_ ->]. Qed.
Lemma raw_set_levels levels : raw True (set_levels (F := F) (N := N) levels).
Proof. induction levels; cbn [set_levels]; [apply raw_ret|]. by apply raw_bind; [apply raw_modify|]. Qed.

Lemma raw_wait signal readings : raw True (wait_for_hold (F := F) (N := N) signal readings).
Proof.
  unfold wait_for_hold. generalize (new_gesture REQUIRED_HOLD_MS).
  induction readings as [|[pressed now] readings IH]; intros g; cbn [hold]; [apply raw_checked|].
  destruct (gesture_sample pressed now g) as [confirmed g']. destruct pressed.
  - apply raw_bind; [apply raw_modify|]. intros _. destruct confirmed; [|apply IH].
    apply raw_bind; [apply raw_modify|]. intros _. apply raw_checked.
  - apply raw_bind; [apply raw_set_levels|]. intros _. apply IH.
Qed.

Lemma raw_erase_rounds count index : raw True (erase_rounds (F := F) count index).
Proof.
  revert index. induction count as [|count IH]; intros index; cbn [erase_rounds]; [apply raw_ret|].
  by apply raw_bind; [apply raw_or|].
Qed.

Lemma raw_program readings : raw False (run_program_test (F := F) (N := N) readings).
Proof.
  unfold run_program_test, prepare_program_test. apply raw_bind; [apply raw_wait|]. intros _.
  apply raw_bind; [|intros _].
  { repeat (apply raw_bind; [apply raw_or|intros]). apply raw_return_if. }
  apply raw_bind; [apply raw_arm|]. intros _. repeat (apply raw_bind; [apply raw_or|intros]). apply raw_throw.
Qed.

Lemma raw_erase : raw False (run_erase_test (F := F) (N := N)).
Proof.
  unfold run_erase_test, prepare_erase_test. apply raw_bind; [|intros _].
  { repeat (apply raw_bind; [apply raw_or|intros]). apply raw_or. }
  apply raw_bind; [apply raw_arm|]. intros _. apply raw_bind; [apply raw_or|]. intros _.
  apply raw_bind; [apply raw_erase_rounds|]. intros _. apply raw_throw.
Qed.

Lemma raw_verify_record : raw True (verify_record (F := F)).
Proof. unfold verify_record. repeat (apply raw_bind; [apply raw_or|intros]). apply raw_return_if. Qed.

Lemma raw_cleanup : raw True (cleanup (F := F) (N := N)).
Proof. unfold cleanup. repeat (apply raw_bind; [apply raw_or|intros]). apply raw_or. Qed.

(** *** What a boot finds and leaves *)

Definition valid_store (f : F) : Prop :=
  attested f ∧ fs_file f STORAGE_FORMAT_VERSION_PATH = Some STORAGE_FORMAT_VERSION.
Definition record_complete (f : F) : Prop :=
  fs_file f RECORD_PATH = Some OLD_RECORD ∨ fs_file f RECORD_PATH = Some NEW_RECORD.
Definition cleaned (f f' : F) : Prop :=
  fs_file f' RECORD_PATH = None ∧ fs_file f' STAGE_PATH = None ∧
  ∀ p, apart_paths RECORD_PATH p → apart_paths STAGE_PATH p → fs_file f' p = fs_file f p.
Definition stage_is (stage : Stage) (file : option bytes) : Prop :=
  match stage with
  | Stage_Start => file = None
  | ProgramArmed => file = Some PROGRAM_ARMED
  | EraseArmed => file = Some ERASE_ARMED
  | Stage_Invalid => True
  end.

Lemma cleaned_ext f1 f2 f' : same_tree f1 f2 → cleaned f2 f' → cleaned f1 f'.
Proof. intros [C _] (A & D & K). split; [done|]. split; [done|]. intros p Hp Hs. rewrite <- C. by apply K. Qed.

Lemma wp_check_store f :
  wp check_store (λ r f', same_tree f f' ∧ match r with Ok _ => valid_store f | Err e => e = Failure end) f.
Proof.
  apply wp_bind, wp_map_err. eapply wp_mono; [apply wp_mount_existing|]. intros [[]|e] f1 [T1 V1]; [|done].
  apply wp_bind, wp_map_err. eapply wp_mono; [apply wp_verify_version|]. intros [[]|e] f2 [T2 _];
    pose proof (same_tree_trans _ _ _ T1 T2) as T; [|done].
  apply wp_map_err. eapply wp_mono; [apply wp_attestation|]. intros [[]|e] f3 [T3 A3];
    (split; [by eapply same_tree_trans|]); [|done].
  split; [|by apply V1]. apply (attested_ext f2); [destruct T as [C D]; by split|]. by apply A3.
Qed.

Lemma wp_read_stage f :
  wp read_stage (λ r f', same_tree f f' ∧ ∃ stage, r = Ok stage ∧ stage_is stage (fs_file f STAGE_PATH)) f.
Proof.
  apply wp_bind, wp_call. intros found f1 E1. destruct (fv_found _ _ _ _ E1) as [_ T1]. destruct found; cbn [negb].
  2: { apply wp_ret. split; [done|]. exists Stage_Start. split; [done|]. by eapply fv_found_false. }
  apply wp_bind, wp_call. intros value f2 E2. pose proof (fs_read_frame _ _ _ _ _ E2) as T2. apply wp_ret.
  split; [by eapply same_tree_trans|]. eexists. split; [done|]. destruct T1 as [<- _].
  destruct value as [value|]; [|done].
  destruct (bytes_eqb value PROGRAM_ARMED) eqn:Ep; [|destruct (bytes_eqb value ERASE_ARMED) eqn:Ee; [|done]];
    [apply bytes_eqb_true in Ep as ->|apply bytes_eqb_true in Ee as ->];
    (apply (fs_read_short _ _ _ _ _ E2); by vm_compute; lia).
Qed.

Lemma wp_verify_record f :
  wp verify_record (λ r f', same_tree f f' ∧ match r with Ok _ => record_complete f | Err e => e = FailureRaw end) f.
Proof.
  apply wp_bind, wp_map_err. eapply wp_mono; [apply wp_mount_existing|]. intros [[]|e] f1 [T1 _]; [|done].
  apply wp_bind, wp_map_err. eapply wp_mono; [apply wp_attestation|]. intros [[]|e] f2 [T2 _];
    pose proof (same_tree_trans _ _ _ T1 T2) as T; [|done].
  apply wp_bind, wp_map_err, wp_try_fs; intros x f3 E3; pose proof (fs_read_frame _ _ _ _ _ E3) as T3;
    (assert (same_tree f f3) as T' by by eapply same_tree_trans); [|done].
  unfold return_if. destruct (bytes_eqb x OLD_RECORD) eqn:Eo; [|destruct (bytes_eqb x NEW_RECORD) eqn:En; [|done]];
    cbn [negb andb]; apply wp_ret; (split; [done|]); unfold record_complete; destruct T as [<- _];
    [left; apply bytes_eqb_true in Eo as ->|right; apply bytes_eqb_true in En as ->];
    (apply (fs_read_short _ _ _ _ _ E3); by vm_compute; lia).
Qed.

Lemma wp_cleanup f : wp cleanup (λ r f', match r with Ok _ => cleaned f f' | Err e => e = FailureRaw end) f.
Proof.
  assert (apart_paths STAGE_PATH RECORD_PATH) as Hsr by by apply (bool_decide_eq_true_1 _).
  apply wp_bind, wp_map_err. eapply wp_mono; [apply wp_mount_existing|]. intros [[]|e] f1 [[T1 _] _]; [|done].
  apply wp_bind, wp_map_err, wp_try_fs; [|done]. intros [] f2 E2.
  apply wp_map_err, wp_try_fs; [|done]. intros [] f3 E3. split; [|split].
  - rewrite (fv_remove_file _ _ _ _ _ E3) by done. by eapply fv_remove_Ok.
  - by eapply fv_remove_Ok.
  - intros p Hr Hs. by rewrite (fv_remove_file _ _ _ _ _ E3), (fv_remove_file _ _ _ _ _ E2), T1.
Qed.

Lemma boot_counted readings : preserves (over counted) (power_cut_test (F := F) (N := N) readings).
Proof.
  assert (∀ fault, preserves (over counted) (arm_storage (F := F) fault)) as Harm
    by (intros fault f r f' E; by apply arm_counted in E as [? _]).
  pose proof (over_check (F := F) counted used_counted). pose proof (over_stage (F := F) counted used_counted).
  pose proof (over_wait (F := F) counted used_counted). pose proof (over_prepare_program (F := F) counted used_counted).
  pose proof (over_prepare_erase (F := F) counted used_counted). pose proof (over_verify_record (F := F) counted used_counted).
  pose proof (over_cleanup (F := F) counted used_counted).
  pose proof (λ n i, over_erase_rounds (F := F) counted used_counted n i).
  assert (preserves (over counted) (or_raw (F := F) mount_existing)) as Hm.
  { apply over_or_raw, over_mount; [apply _|exact used_counted]. }
  assert (∀ d, preserves (over counted) (fs_or_raw (F := F) (fs_write RECORD_PATH d))) as Hw.
  { intros d. apply over_fs_or_raw, over_try_fs; [exact used_counted|apply fv_write]. }
  unfold power_cut_test, run_program_test, run_erase_test. preserve.
Qed.

(** Before anything is armed. *)
Lemma boot_start f : wp (check_store;; read_stage) (λ r f', same_tree f f' ∧
  calm (on_storage f) (on_storage f') ∧
  match r with Ok stage => valid_store f ∧ stage_is stage (fs_file f STAGE_PATH) | Err e => e = Failure end) f.
Proof.
  apply wp_bind. eapply wp_mono;
    [apply wp_preserves; [apply (over_check calm used_calm)|apply wp_check_store]|].
  intros [[]|e] f1 [[T1 V1] K1]; [|by split].
  eapply wp_mono; [apply wp_preserves; [apply (over_stage calm used_calm)|apply wp_read_stage]|].
  intros r f2 [[T2 (stage & -> & Hs)] K2]. split; [by eapply same_tree_trans|]. split; [by etrans|].
  split; [done|]. by destruct T1 as [<- _].
Qed.

Definition run_stage (readings : list (bool * Z)) (stage : Stage) : t_step (F := F) Ending :=
  match stage with
  | Stage_Start => run_program_test readings
  | ProgramArmed => verify_record;; wait_for_hold ProgramRecovered readings;; run_erase_test
  | EraseArmed => verify_record;; cleanup;; throw Success
  | Stage_Invalid => throw Failure
  end.

Lemma boot_split readings f :
  power_cut_test readings f = ((check_store;; read_stage) ≫= run_stage readings) f.
Proof. unfold power_cut_test, mbind, step_bind. by destruct (check_store f) as [[[]]|]. Qed.

(** What the stages of the test may end with. *)
Definition stage_ends (stage : Stage) (f : F) (e : Ending) (f' : F) : Prop :=
  match stage with
  | Stage_Start => e = FailureRaw
  | ProgramArmed => e = FailureRaw ∧ (pc_windows (on_storage f') = pc_windows (on_storage f) ∨ record_complete f)
  | EraseArmed => pc_windows (on_storage f') = pc_windows (on_storage f) ∧
      (e = Success → record_complete f ∧ cleaned f f')
  | Stage_Invalid => e = Failure ∧ f' = f
  end.

Lemma run_stage_ends readings stage f r f' : pc_fault (on_storage f) = FK_None →
  run_stage readings stage f = Some (r, f') → ∃ e, r = Err e ∧ stage_ends stage f e f'.
Proof.
  intros Hf E. destruct stage; cbn [run_stage stage_ends] in *.
  - apply (raw_program readings) in E. destruct r; [done|]. by exists e.
  - destruct (wp_elim _ _ _ (wp_preserves _ _ _ _ (over_verify_record calm used_calm) (wp_verify_record f)))
      as (r1 & f1 & E1 & [T1 V1] & K1). unfold mbind, step_bind in E. rewrite E1 in E.
    destruct r1 as [[]|e]; [|injection E as <- <-; exists e; split; [done|]; split; [done|]; left; by apply K1].
    destruct r as [a|e].
    + exfalso. apply (raw_bind False _ _ (raw_wait ProgramRecovered readings) (λ _, raw_erase) f1 (Ok a) f').
      unfold mbind, step_bind. exact E.
    + exists e. split; [done|]. split; [|by right].
      apply (raw_bind False _ _ (raw_wait ProgramRecovered readings) (λ _, raw_erase) f1 (Err e) f').
      unfold mbind, step_bind. exact E.
  - destruct (wp_elim _ _ _ (wp_preserves _ _ _ _ (over_verify_record calm used_calm) (wp_verify_record f)))
      as (r1 & f1 & E1 & [T1 V1] & K1). unfold mbind, step_bind in E. rewrite E1 in E.
    destruct (K1 Hf) as (Hf1 & Hw1 & _).
    destruct r1 as [[]|e]; [|injection E as <- <-; exists e; split; [done|]; split; [done|]; by intros ->].
    destruct (wp_elim _ _ _ (wp_preserves _ _ _ _ (over_cleanup calm used_calm) (wp_cleanup f1)))
      as (r2 & f2 & E2 & V2 & K2). rewrite E2 in E. destruct (K2 Hf1) as (_ & Hw2 & _).
    destruct r2 as [[]|e].
    + injection E as <- <-. exists Success. split; [done|]. split; [congruence|]. intros _. split; [done|].
      by eapply cleaned_ext.
    + injection E as <- <-. exists e. split; [done|]. split; [congruence|]. by intros ->.
  - injection E as <- <-. by exists Failure.
Qed.

(** The storage as [PowerCutStorage::new] leaves it. *)
Definition at_reset (s : PowerCutStorage N) : Prop :=
  pc_fault s = FK_None ∧ pc_triggered s = false ∧ pc_windows s = [].

(** Littlefs on healthy flash finds and removes what is there. *)
Class HealthyRemoval `{!HealthyFilesystem F} := {
  fs_healthy_found : ∀ p f b f', fs_healthy f → fs_found p f = (b, f') → fs_healthy f';
  fs_healthy_remove : ∀ p f d, fs_healthy f → fs_file f p = Some d →
    ∃ f', fs_remove p f = (Ok tt, f') ∧ fs_healthy f';
}.

Lemma boot_ends readings f e f' : at_reset (on_storage f) → boot readings f = Some (e, f') →
  (e = Failure ∧ pc_windows (on_storage f') = []) ∨
  (valid_store f ∧ ∃ stage f1, same_tree f f1 ∧ stage_is stage (fs_file f STAGE_PATH) ∧
    pc_windows (on_storage f1) = [] ∧ stage_ends stage f1 e f').
Proof.
  intros (Hf & _ & Hw) E%finish_run. rewrite boot_split in E.
  destruct (wp_elim _ _ _ (boot_start f)) as (r1 & f1 & E1 & T1 & K1 & V1).
  unfold mbind at 1 3, step_bind at 1 3 in E. rewrite !E1 in E. destruct (K1 Hf) as (Hf1 & Hw1 & _).
  destruct r1 as [stage|e1].
  2: { left. destruct E as [|[= <- <-]]; [done|]. split; [done|congruence]. }
  right. destruct V1 as [V S]. split; [done|]. exists stage, f1. split; [done|]. split; [done|]. split; [congruence|].
  destruct E as [E|E]; apply run_stage_ends in E as (e' & E & K); congruence.
Qed.

Context `{!HealthyFilesystem F, !HealthyRemoval}.

(** A step that only looks, and succeeds. *)
Definition looks {E A} (c : step F E A) (a : A) (f : F) : Prop :=
  ∃ f', c f = Some (Ok a, f') ∧ fs_healthy f' ∧ same_tree f f'.
Definition succeeds (c : t_step (F := F) Ending) (f : F) : Prop := ∃ f', c f = Some (Err Success, f').

Lemma looks_map_err {E E' A} (c : step F E A) (e : E') a f : looks c a f → looks (map_err c e) a f.
Proof. intros (f' & E1 & K). exists f'. unfold map_err. by rewrite E1. Qed.

Lemma looks_bind {E A A'} (c : step F E A) (k : A → step F E A') a a' f :
  looks c a f → (∀ f', fs_healthy f' → same_tree f f' → looks (k a) a' f') → looks (c ≫= k) a' f.
Proof.
  intros (f1 & E1 & H1' & T1) Hk. destruct (Hk f1 H1' T1) as (f2 & E2 & H2' & T2). exists f2.
  unfold mbind, step_bind. rewrite E1. split; [done|]. split; [done|]. by eapply same_tree_trans.
Qed.

Lemma succeeds_bind {A} (c : t_step (F := F) A) (k : A → t_step (F := F) Ending) a f :
  looks c a f → (∀ f', fs_healthy f' → same_tree f f' → succeeds (k a) f') → succeeds (c ≫= k) f.
Proof.
  intros (f1 & E1 & H1' & T1) Hk. destruct (Hk f1 H1' T1) as (f2 & E2). exists f2.
  unfold mbind, step_bind. by rewrite E1.
Qed.

Lemma looks_mount f : fs_healthy f → valid_store f → looks mount_existing tt f.
Proof.
  intros Hh [_ Hv]. destruct (run_mount_healthy f Hh Hv) as (f' & E & Hh'). exists f'.
  by destruct (wp_run _ _ _ _ _ E (wp_mount_existing f)).
Qed.

Lemma looks_attestation f : fs_healthy f → valid_store f → looks verify_development_attestation tt f.
Proof.
  intros Hh [Ha _]. destruct (run_attestation_healthy f Hh Ha) as (f' & E & Hh'). exists f'.
  by destruct (wp_run _ _ _ _ _ E (wp_attestation f)).
Qed.

Lemma looks_read {E} p n f d (into : FsError → E) : fs_healthy f → fs_file f p = Some d → (length d ≤ n)%nat →
  looks (try_fs (fs_read p n) into) d f.
Proof.
  intros Hh Hd Hl. destruct (fs_healthy_read p n f d Hh Hd) as (f' & E1 & Hh'). exists f'. unfold try_fs.
  rewrite E1, take_ge by done. split; [done|]. split; [done|]. by eapply fs_read_frame.
Qed.

Lemma looks_version f : fs_healthy f → valid_store f → looks verify_storage_version tt f.
Proof.
  intros Hh [_ Hv]. unfold verify_storage_version. eapply looks_bind; [eapply looks_read; [done|exact Hv|by apply Nat.leb_le]|].
  intros f' Hh' _. rewrite bytes_eqb_refl. by exists f'.
Qed.

Lemma valid_store_ext f f' : same_tree f f' → valid_store f → valid_store f'.
Proof. intros T [Ha Hv]. split; [by eapply attested_ext|]. by destruct T as [-> _]. Qed.

Lemma looks_check f : fs_healthy f → valid_store f → looks check_store tt f.
Proof.
  intros Hh V. eapply looks_bind; [by apply looks_map_err, looks_mount|]. intros f1 H1' T1.
  pose proof (valid_store_ext _ _ T1 V) as V1.
  eapply looks_bind; [by apply looks_map_err, looks_version|]. intros f2 H2' T2.
  apply looks_map_err, looks_attestation; [done|]. by eapply valid_store_ext.
Qed.

Lemma looks_stage f : fs_healthy f → fs_file f STAGE_PATH = Some ERASE_ARMED → looks read_stage EraseArmed f.
Proof.
  intros Hh Hs. unfold read_stage, looks, mbind, step_bind, call.
  destruct (fs_found STAGE_PATH f) as [found f1] eqn:E1. destruct (fv_found _ _ _ _ E1) as [_ T1].
  destruct found; [|apply fv_found_false in E1; congruence]. cbn [negb].
  destruct (fs_healthy_read STAGE_PATH 32 f1 ERASE_ARMED) as (f2 & E2 & H2');
    [by eapply fs_healthy_found|by destruct T1 as [-> _]|].
  rewrite E2. exists f2. split; [done|]. split; [done|]. eapply same_tree_trans; [done|]. by eapply fs_read_frame.
Qed.

Lemma looks_record f : fs_healthy f → valid_store f → record_complete f → looks verify_record tt f.
Proof.
  intros Hh V R. eapply looks_bind; [by apply looks_map_err, looks_mount|]. intros f1 H1' T1.
  eapply looks_bind; [apply looks_map_err, looks_attestation; [done|by eapply valid_store_ext]|]. intros f2 H2' T2.
  assert (record_complete f2) as [R2|R2] by (unfold record_complete; destruct T2 as [-> _], T1 as [-> _]; done);
    (eapply looks_bind; [by eapply looks_map_err, looks_read; [done|exact R2|by apply Nat.leb_le]|]);
    intros f3 H3' _; by exists f3.
Qed.

Lemma cleanup_succeeds f : fs_healthy f → valid_store f → record_complete f →
  fs_file f STAGE_PATH = Some ERASE_ARMED → succeeds (cleanup;; throw Success) f.
Proof.
  intros Hh V R Hs. assert (apart_paths RECORD_PATH STAGE_PATH) as Hap by by apply (bool_decide_eq_true_1 _).
  destruct (looks_mount f Hh V) as (f1 & E1 & H1' & [T1 _]).
  assert (∃ d, fs_file f1 RECORD_PATH = Some d) as [d Hd] by (rewrite T1; destruct R as [->| ->]; by eexists).
  destruct (fs_healthy_remove _ _ _ H1' Hd) as (f2 & E2 & H2').
  destruct (fs_healthy_remove STAGE_PATH f2 ERASE_ARMED H2') as (f3 & E3 & _);
    [by rewrite (fv_remove_file _ _ _ _ _ E2), T1|].
  exists f3. unfold cleanup, fs_or_raw, or_raw, try_fs, map_err, mbind, step_bind. by rewrite E1, E2, E3.
Qed.

(** The last stage succeeds on healthy flash. *)
Lemma boot_succeeds readings f : fs_healthy f → valid_store f → fs_file f STAGE_PATH = Some ERASE_ARMED →
  record_complete f → ∃ f', boot readings f = Some (Success, f').
Proof.
  intros Hh V Hs R. assert (succeeds (power_cut_test readings) f) as [f' E]; [|exists f'; unfold boot, finish; by rewrite E].
  assert (∀ f' : F, same_tree f f' → valid_store f' ∧ fs_file f' STAGE_PATH = Some ERASE_ARMED ∧ record_complete f') as Hext.
  { intros f' T. split; [by eapply valid_store_ext|]. destruct T as [C _]. unfold record_complete. by rewrite C. }
  eapply succeeds_bind; [by apply looks_check|]. intros f1 H1' T1. destruct (Hext f1 T1) as (V1 & S1 & R1).
  eapply succeeds_bind; [by apply looks_stage|]. intros f2 H2' T2%(same_tree_trans _ _ _ T1).
  destruct (Hext f2 T2) as (V2 & S2 & R2).
  eapply succeeds_bind; [by apply looks_record|]. intros f3 H3' T3%(same_tree_trans _ _ _ T2).
  destruct (Hext f3 T3) as (V3 & S3 & R3). by apply cleanup_succeeds.
Qed.

(** C40: A boot of the test image, from reset, opens at most one cut window and changes no flash
    outside the credential partition.  It opens one only in the two test stages, on a store
    with its version and identity, for the erase test only if the record is one of the
    two that were written, and then never reports success.  It reports success only in the
    last stage, for such a store and record, after removing exactly the two files of the
    test; on healthy flash it then does. *)
Theorem power_cut_test_outcome readings f : at_reset (on_storage f) →
  (∀ e f', boot readings f = Some (e, f') →
     (length (pc_windows (on_storage f')) ≤ 1)%nat ∧ outside_same (on_storage f) (on_storage f') ∧
     (pc_windows (on_storage f') ≠ [] → e = FailureRaw ∧ valid_store f ∧
        (fs_file f STAGE_PATH = None ∨ fs_file f STAGE_PATH = Some PROGRAM_ARMED ∧ record_complete f)) ∧
     (e = Success → valid_store f ∧ fs_file f STAGE_PATH = Some ERASE_ARMED ∧ record_complete f ∧ cleaned f f')) ∧
  (fs_healthy f → valid_store f → fs_file f STAGE_PATH = Some ERASE_ARMED → record_complete f →
     ∃ f', boot readings f = Some (Success, f')).
Proof.
  intros Hreset. split; [|by apply boot_succeeds]. intros e f' E.
  destruct (preserves_finish _ _ _ _ _ (boot_counted readings) E) as [Ho Hc].
  split; [|split; [done|]].
  { destruct Hreset as (_ & Ht & Hw). unfold windows_counted in Hc. rewrite Ht, Hw in Hc.
    specialize (Hc eq_refl). destruct (pc_triggered (on_storage f')); lia. }
  destruct (boot_ends _ _ _ _ Hreset E) as [[-> ->]|(V & stage & f1 & T1 & Hs & Hw & K)]; [done|].
  assert (record_complete f1 → record_complete f) as Hr by (destruct T1 as [C _]; unfold record_complete; by rewrite C).
  destruct stage; cbn [stage_is stage_ends] in *.
  - subst e. split; [|done]. intros _. split; [done|]. split; [done|]. by left.
  - destruct K as [-> K]. split; [|done]. intros Hn. split; [done|]. split; [done|]. right. split; [done|].
    destruct K as [K|K]; [congruence|by apply Hr].
  - destruct K as [Kw K]. split; [congruence|]. intros ->. destruct (K eq_refl) as [K1 K2].
    split; [done|]. split; [done|]. split; [by apply Hr|]. by eapply cleaned_ext.
  - destruct K as [-> ->]. split; [congruence|done].
Qed.
End outcome.

(** ** A chip and a filesystem in memory *)

Definition words (a n : Z) : bool := is_multiple_of a 4 && is_multiple_of n 4.

#[export] Instance ram_flash : NorFlash memory := {|
  nor_read a n m := (Some (mem_read m a n), m);
  nor_write a d m := if words a (Z.of_nat (length d)) then (Some tt, mem_write m a d) else (None, m);
  nor_erase a b m := if words a b then (Some tt, mem_fill m a (b - a) 255) else (None, m);
|}.

#[export] Instance ram_view : NorView memory.
Proof.
  refine {| chip m := mkNor m (λ a, m a = 255) |}.
  - by intros * [= _ <-].
  - by intros * [= <- _].
  - intros a d m r m' E x Hx. cbn in *. case_match; injection E as _ <-; [|done]. by rewrite mem_write_outside.
  - intros a d m m' E _ _. cbn in *. case_match; [|done]. injection E as <-. apply mem_read_write.
  - intros a b m r m' E x Hx. cbn in *. case_match; injection E as _ <-; [|done]. rewrite mem_fill_outside by lia. done.
  - intros a b m m' E x Hx. cbn in *. case_match; [|done]. injection E as <-. apply mem_fill_inside. lia.
Defined.

(** A tree in memory; writing a file also erases the first sector of the partition and
    writes the start of the file there. *)
Record fault_fs := mkFaultFs { ff_tree : model_fs; ff_storage : PowerCutStorage memory }.

Definition drive (op : store_op) (s : PowerCutStorage memory) : PowerCutStorage memory :=
  match pc_run op s with Some (_, s) => s | None => s end.
Definition drive_file (d : bytes) (s : PowerCutStorage memory) : PowerCutStorage memory :=
  drive (SO_Write 0 (take 16 d)) (drive (SO_Erase 0 4096) s).
Definition on_ff {A} (c : model_fs → A * model_fs) (f : fault_fs) : A * fault_fs :=
  let '(a, tree) := c (ff_tree f) in (a, mkFaultFs tree (ff_storage f)).

#[export] Instance fault_filesystem : Filesystem fault_fs := {|
  fs_mount := on_ff fs_mount;
  fs_read p n := on_ff (fs_read p n);
  fs_write p d f := on_ff (fs_write p d) (mkFaultFs (ff_tree f) (drive_file d (ff_storage f)));
  fs_create_dir_all p := on_ff (fs_create_dir_all p);
  fs_read_dir p := on_ff (fs_read_dir p);
|}.

Definition remove_file (p : path) (t : model_fs) : result FsError unit * model_fs :=
  match mf_files t !! parts p with
  | Some _ => (Ok tt, mkModelFs (delete (parts p) (mf_files t)) (mf_dirs t))
  | None => (Err (FS_OTHER (-2)), t)
  end.

#[export] Instance fault_storage : FaultFilesystem fault_fs memory := {|
  on_storage := ff_storage;
  with_storage f s := mkFaultFs (ff_tree f) s;
  fs_found p f := (bool_decide (is_Some (mf_files (ff_tree f) !! parts p)), f);
  fs_remove p := on_ff (remove_file p);
|}.

Lemma on_ff_eq {A} (c : model_fs → A * model_fs) f a f' :
  on_ff c f = (a, f') → c (ff_tree f) = (a, ff_tree f') ∧ ff_storage f' = ff_storage f.
Proof. unfold on_ff. destruct (c (ff_tree f)). by intros [= <- <-]. Qed.

#[export] Instance fault_tree : FilesystemView fault_fs.
Proof.
  refine {| fs_file f := fs_file (ff_tree f); fs_dir f := fs_dir (ff_tree f) |}.
  - intros f r f' [E _]%on_ff_eq. by eapply fs_mount_frame.
  - intros p n f r f' [E _]%on_ff_eq. by eapply fs_read_frame.
  - intros p n f d f' [E _]%on_ff_eq. by eapply fs_read_Ok.
  - intros p d f f' [E _]%on_ff_eq. by eapply fs_write_Ok.
  - intros p d f r f' q [E _]%on_ff_eq. by eapply fs_write_file.
  - intros p f r f' q [E _]%on_ff_eq. by eapply fs_create_dir_file.
  - intros p f r f' [E _]%on_ff_eq. by eapply fs_read_dir_frame.
  - intros p f l f' [E _]%on_ff_eq. by eapply fs_read_dir_Ok.
Defined.

#[export] Instance fault_healthy : HealthyFilesystem fault_fs.
Proof.
  refine {| fs_healthy _ := True |}.
  - intros f _. by eexists.
  - intros p n f d _ E. cbn in *. unfold on_ff. rewrite E. by eexists.
  - intros p f names _ E. cbn in *. unfold on_ff. destruct (mf_dirs (ff_tree f) !! parts p); [|done]. by eexists _, _.
Defined.

Lemma drive_used op s : 0 ≤ so_offset op → used s (drive op s).
Proof.
  intros Ho. unfold drive. destruct (pc_run op s) as [[r s']|] eqn:E; [|apply rtc_refl].
  apply rtc_once. left. by exists op, r.
Qed.

Lemma on_ff_used {A} (c : model_fs → A * model_fs) f a f' :
  on_ff c f = (a, f') → used (on_storage f) (on_storage f').
Proof. intros [_ E]%on_ff_eq. cbn. rewrite E. apply rtc_refl. Qed.

#[export] Instance fault_view : FaultView fault_fs memory.
Proof.
  split.
  - done.
  - done.
  - intros f r f'. apply on_ff_used.
  - intros p n f r f'. apply on_ff_used.
  - intros p d f r f' E. apply on_ff_eq in E as [_ E]. cbn in *. rewrite E. unfold drive_file.
    etrans; by apply drive_used.
  - intros p f r f' [= _ <-]. split; [apply rtc_refl|done].
  - intros p f f' E. cbn in *. injection E as E _. apply bool_decide_eq_false in E. by apply eq_None_not_Some.
  - intros p f r f'. apply on_ff_used.
  - intros p f f' E. apply (on_ff_eq (remove_file p)) in E as [E _].
    change (mf_files (ff_tree f') !! parts p = None). unfold remove_file in E. case_match; [|done].
    injection E as <-. cbn. apply lookup_delete_eq.
  - intros p f r f' q E (_ & _ & Hq). apply (on_ff_eq (remove_file p)) in E as [E _].
    change (mf_files (ff_tree f') !! parts q = mf_files (ff_tree f) !! parts q).
    unfold remove_file in E. case_match; injection E as _ <-; [|done]. cbn.
    by rewrite lookup_delete_ne.
Defined.

#[export] Instance fault_removal : HealthyRemoval (F := fault_fs).
Proof.
  split; [done|]. intros p f d _ E. cbn in *. unfold on_ff, remove_file. rewrite E. by eexists.
Defined.

(** *** Witnesses *)

Definition blank_storage : PowerCutStorage memory := new_power_cut (λ _, 255).
Definition armed_storage (fault : FaultKind) : PowerCutStorage memory := with_fault fault blank_storage.
Definition sample_write : store_op := SO_Write 0x1000 (replicate 16 7).

Lemma fault_driver_refines_nor_witness :
  ∃ r s', pc_run sample_write (armed_storage FK_Program) = Some (r, s') ∧
    driver_ok sample_write (armed_storage FK_Program) r s'.
Proof. apply (fault_driver_refines_nor sample_write (armed_storage FK_Program)). by apply Z.leb_le. Defined.

(** The window shows the first half. *)
Example sample_window :
  (λ s, (λ m, mem_read m (FIDO_STORE_OFFSET + 0x1000) 16) <$> pc_windows s) (drive sample_write (armed_storage FK_Program))
  = [replicate 8 7 ++ replicate 8 255].
Proof. vm_compute. reflexivity. Qed.

Definition at_stage (files : list (path * bytes)) : fault_fs :=
  mkFaultFs (mkModelFs (foldr (λ pd, <[parts pd.1 := pd.2]>) (<[parts STORAGE_FORMAT_VERSION_PATH := STORAGE_FORMAT_VERSION]> (mf_files attested_fs)) files) ∅)
    blank_storage.
Definition last_stage : fault_fs := at_stage [(STAGE_PATH, ERASE_ARMED); (RECORD_PATH, NEW_RECORD)].

Lemma last_stage_attested : attested last_stage.
Proof.
  assert (option_map fst (verify_development_attestation last_stage) = Some (Ok tt)) as E by (vm_compute; reflexivity).
  pose proof (wp_attestation last_stage) as K. unfold wp in K.
  destruct (verify_development_attestation last_stage) as [[r f']|]; [|done]. injection E as ->. by apply K.
Qed.

Lemma power_cut_test_outcome_witness :
  at_reset (on_storage last_stage) ∧ ∃ f', boot [] last_stage = Some (Success, f').
Proof.
  split; [by repeat split|].
  apply (power_cut_test_outcome [] last_stage); [by repeat split|exact I| |vm_compute; reflexivity|right; vm_compute; reflexivity].
  split; [exact last_stage_attested|vm_compute; reflexivity].
Defined.

(** The first boot, with the button held: the window opens on the new record. *)
Definition holding : list (bool * Z) := [(false, 0); (true, 100); (true, 5100); (true, 5200); (false, 5300)].
Example first_boot :
  (λ r, (r.1, length (pc_windows (on_storage r.2)), fs_file r.2 STAGE_PATH)) <$> boot holding (at_stage [])
  = Some (FailureRaw, 1%nat, Some PROGRAM_ARMED).
Proof. vm_compute. reflexivity. Qed.
