(* ===== verification/Build.v ===== *)
(** * The build script

    [src/build.rs] with [src/src/build_environment.rs]: what a build is allowed to
    be.  The script reads the environment and files of the host, panics when the
    selection of features, acknowledgements and partition table is not one of the
    reviewed ones, and prints instructions for Cargo.  Text is its UTF-8 bytes; the
    names the script spells are Rocq strings. *)

From Stdlib Require Import Ascii String.
From stdpp Require Import base tactics numbers list option strings.
From S2P Require Import Prelude Identity.

Open Scope Z_scope.

(** ** Text *)

(** [str::from_utf8], as the validity test of [OsStr::to_str], [into_string] and
    [read_to_string]. *)
Definition continuation (b : Z) : bool := (128 <=? b) && (b <=? 191).
Definition between (lo hi b : Z) : bool := (lo <=? b) && (b <=? hi).
Fixpoint valid_utf8 (l : bytes) : bool :=
  match l with
  | [] => true
  | b :: l =>
      if b <? 128 then valid_utf8 l
      else match l with
      | [] => false
      | c :: l =>
          if between 0xc2 0xdf b then continuation c && valid_utf8 l
          else match l with
          | [] => false
          | d :: l =>
              if between 0xe0 0xef b then
                (if b =? 0xe0 then between 0xa0 0xbf c else if b =? 0xed then between 0x80 0x9f c
                 else continuation c)
                && continuation d && valid_utf8 l
              else match l with
              | [] => false
              | e :: l =>
                  between 0xf0 0xf4 b
                  && (if b =? 0xf0 then between 0x90 0xbf c else if b =? 0xf4 then between 0x80 0x8f c
                      else continuation c)
                  && continuation d && continuation e && valid_utf8 l
              end
          end
      end
  end.

(** The characters of [char::is_whitespace], in UTF-8. *)
Definition WHITESPACE : list bytes :=
  ((λ b, [b]) <$> [9; 10; 11; 12; 13; 32]) ++ [[0xc2; 0x85]; [0xc2; 0xa0]; [0xe1; 0x9a; 0x80]] ++
  ((λ i, [0xe2; 0x80; 0x80 + Z.of_nat i]) <$> seq 0 11) ++
  [[0xe2; 0x80; 0xa8]; [0xe2; 0x80; 0xa9]; [0xe2; 0x80; 0xaf]; [0xe2; 0x81; 0x9f]; [0xe3; 0x80; 0x80]].

Definition starts_with (l prefix : bytes) : bool := bytes_eqb (take (length prefix) l) prefix.

(** Strip leading characters of the set; a step shortens the text. *)
Fixpoint strip_set (set : list bytes) (fuel : nat) (l : bytes) : bytes :=
  match fuel with
  | O => l
  | S fuel =>
      match List.find (starts_with l) set with
      | Some c => strip_set set fuel (drop (length c) l)
      | None => l
      end
  end.
Definition trim_start (l : bytes) : bytes := strip_set WHITESPACE (length l) l.
Definition trim_end (l : bytes) : bytes := rev (strip_set ((λ c, rev c) <$> WHITESPACE) (length l) (rev l)).
Definition trim (l : bytes) : bytes := trim_end (trim_start l).

(** [split(c)] and [lines()]: a line ends at [\n], before which one [\r] is dropped;
    the text after the last [\n] is a line unless it is empty. *)
Fixpoint split (c : Z) (l : bytes) : list bytes :=
  match l with
  | [] => [[]]
  | b :: l =>
      if b =? c then [] :: split c l
      else match split c l with
           | [] => [[b]]
           | part :: parts => (b :: part) :: parts
           end
  end.
Definition strip_cr (l : bytes) : bytes :=
  match rev l with 13 :: l => rev l | _ => l end.
Fixpoint terminated (parts : list bytes) : list bytes :=
  match parts with
  | [] => []
  | [last] => if bytes_eqb last [] then [] else [last]
  | line :: parts => strip_cr line :: terminated parts
  end.
Definition lines (l : bytes) : list bytes := terminated (split 10 l).

(** [name.replacen(from, to, 1)]. *)
Fixpoint replacen_once (from to s : string) : string :=
  if String.prefix from s then to +:+ substring (String.length from) (String.length s - String.length from) s
  else match s with
       | EmptyString => EmptyString
       | String c s => String c (replacen_once from to s)
       end.

(** ** The host *)

(** [symlink_metadata]: whether it is a regular file, and its permission bits. *)
Record Metadata := mkMetadata { is_file : bool; mode : Z }.

(** The bits of a [mode] below [0o100] are those of group and others.  A resolved
    path is the list of its components. *)
Record Host := mkHost {
  var_os : string → option bytes;
  read_to_string : string → option bytes;
  canonicalize : bytes → option (list bytes);
  symlink_metadata : bytes → option Metadata;
  read_file : list bytes → option bytes;
  write_ok : bytes → string → bool;
  args : list bytes;
  unix : bool;
}.

Inductive Instruction :=
  | RerunIfEnvChanged (name : string)
  | RerunIfChanged (path : string)
  | RerunIfPathChanged (path : list bytes)
  | RustcEnv (name : string) (value : bytes)
  | LinkSearch (dir : string)
  | LinkArg (arg : string)
  | LinkErrorHandler
  | WriteOut (name : string) (data : bytes).

#[export] Instance Instruction_eq_dec : EqDecision Instruction.
Proof. solve_decision. Defined.

(** A part of the script: the instructions printed so far, a panic or [exit(code)]. *)
Abbreviation script := (step (list Instruction) Z).

Definition println (i : Instruction) : script unit := modify (λ out, out ++ [i]).
Definition expect {A} (o : option A) : script A := checked o.
Definition println_all (l : list Instruction) : script unit := modify (λ out, out ++ l).

Inductive VarError := NotPresent | NotUnicode.

#[export] Instance VarError_eq_dec : EqDecision VarError.
Proof. solve_decision. Defined.

(** ** [build_environment.rs] *)

Definition resolve (current previous : option bytes) : result unit (option bytes) :=
  match current, previous with
  | Some a, Some b => if bytes_eqb a b then Ok (Some a) else Err tt
  | Some a, None => Ok (Some a)
  | None, _ => Ok previous
  end.

Definition legacy_name (name : string) : string := replacen_once "SALPA_" "RISSO_KEY_" name.

(** A line of a partition table, cut at its commas. *)
Abbreviation row := (list bytes).

Section script.
Context (host : Host).

Definition build_var_os (name : string) : script (option bytes) :=
  match resolve (var_os host name) (var_os host (legacy_name name)) with
  | Ok value => mret value
  | Err _ => panic
  end.

Definition build_var (name : string) : script (result VarError bytes) :=
  value ← build_var_os name;
  match value with
  | Some value => mret (if valid_utf8 value then Ok value else Err NotUnicode)
  | None => mret (Err NotPresent)
  end.

Definition BUILD_VARIABLES : list string :=
  ["SALPA_ATTESTATION_CERT_SHA256_FILE"; "SALPA_ATTESTATION_IMPORT_ACK"; "SALPA_ATTESTATION_PUBLIC_FILE";
   "SALPA_DEV_ATTESTATION_CERT"; "SALPA_DEV_ATTESTATION_KEY"; "SALPA_EPOCH_MAINTENANCE_ACK";
   "SALPA_EPOCH_PLAN_PATH"; "SALPA_EPOCH_PREVIEW_ACK"; "SALPA_PARTITION_PROFILE";
   "SALPA_PHYSICAL_FAULT_TEST_ACK"; "SALPA_PROVISIONING_ACK"; "SALPA_UPDATE_KEY_DIGEST_HEX";
   "SALPA_USB_PID"; "SALPA_USB_SERIAL"; "SALPA_USB_VID"]%string.

Definition configure_variable (name : string) : script unit :=
  println (RerunIfEnvChanged name);;
  println (RerunIfEnvChanged (legacy_name name));;
  value ← build_var_os name;
  match value with
  | None => mret tt
  | Some value =>
      assert_that (valid_utf8 value);;
      assert_that (negb (existsb (λ b, (b =? 13) || (b =? 10)) value));;
      println (RustcEnv name value)
  end.

Fixpoint for_each {A} (f : A → script unit) (l : list A) : script unit :=
  match l with
  | [] => mret tt
  | x :: l => f x;; for_each f l
  end.

Definition configure_build_environment : script unit := for_each configure_variable BUILD_VARIABLES.

(** ** [build.rs] *)

(** [std::env::var_os("CARGO_FEATURE_..").is_some()]. *)
Definition feature (name : string) : bool := bool_decide (is_Some (var_os host ("CARGO_FEATURE_" +:+ name))).

(** [std::env::var(name).as_deref() == Ok(text)]. *)
Definition var_is (name text : string) : bool := bool_decide (var_os host name = Some (ascii_bytes text)).

Definition require_ack (name text : string) : script unit :=
  value ← build_var name;
  assert_that (bool_decide (value = Ok (ascii_bytes text))).

Definition require_absent (features : list string) : script unit :=
  for_each (λ name, assert_that (negb (feature name))) features.

Definition MAINTENANCE_EXCLUDES : list string :=
  ["MCU_ESP32S3"; "SECURITY_EPOCH_PREVIEW"; "SIGNED_AB_FAILURE_TEST"; "SIGNED_AB_SUCCESS_TEST";
   "STORAGE_PROVISIONING"; "ATTESTATION_IMPORT"; "PHYSICAL_STORAGE_FAULT_TEST"]%string.
Definition PREVIEW_EXCLUDES : list string :=
  ["SIGNED_AB_FAILURE_TEST"; "SIGNED_AB_SUCCESS_TEST"; "STORAGE_PROVISIONING"; "ATTESTATION_IMPORT";
   "PHYSICAL_STORAGE_FAULT_TEST"]%string.
Definition IMPORT_EXCLUDES : list string :=
  ["STORAGE_PROVISIONING"; "PHYSICAL_STORAGE_FAULT_TEST"; "USB_SIGNED_UPDATE"]%string.

(** [Path::starts_with], by components. *)
Definition path_starts_with (path root : list bytes) : bool :=
  bool_decide (take (length root) path = root).

Definition is_plan_file (plan : bytes) : bool :=
  (length plan =? 164)%nat && bytes_eqb (slice plan 0 8) (ascii_bytes "RKMPLAN1") && (byte_at plan 163 =? 0).

Definition embed_plan : script unit :=
  path ← build_var_os "SALPA_EPOCH_PLAN_PATH";
  path ← expect path;
  canonical ← expect (canonicalize host path);
  manifest ← expect (var_os host "CARGO_MANIFEST_DIR");
  root ← expect (canonicalize host manifest);
  assert_that (negb (path_starts_with canonical root));;
  metadata ← expect (symlink_metadata host path);
  assert_that (is_file metadata);;
  assert_that (unix host);;
  assert_that (Z.land (mode metadata) 0x3f =? 0);;
  plan ← expect (read_file host canonical);
  assert_that (is_plan_file plan);;
  assert_that ((1 <=? byte_at plan 160) && (byte_at plan 160 <=? 16));;
  output ← expect (var_os host "OUT_DIR");
  assert_that (write_ok host output "epoch-plan.bin");;
  println (WriteOut "epoch-plan.bin" plan);;
  println (RerunIfPathChanged canonical).

Definition require_epoch_maintenance_scope : script unit :=
  println_all [RerunIfEnvChanged "SALPA_EPOCH_MAINTENANCE_ACK"; RerunIfEnvChanged "SALPA_EPOCH_PLAN_PATH"];;
  if negb (feature "SECURITY_EPOCH_MAINTENANCE") then mret tt
  else
    require_ack "SALPA_EPOCH_MAINTENANCE_ACK" "COUNTER_ONLY_MAINTENANCE";;
    assert_that (feature "MCU_ESP32S2");;
    require_absent MAINTENANCE_EXCLUDES;;
    embed_plan.

Definition require_epoch_preview_acknowledgement : script unit :=
  println (RerunIfEnvChanged "SALPA_EPOCH_PREVIEW_ACK");;
  if negb (feature "SECURITY_EPOCH_PREVIEW") then mret tt
  else
    require_ack "SALPA_EPOCH_PREVIEW_ACK" "READ_EPOCH_ONLY";;
    assert_that (feature "MCU_ESP32S2");;
    require_absent PREVIEW_EXCLUDES.

Definition is_hex_digit (b : Z) : bool := between 48 57 b || between 97 102 b.

Definition require_update_key_digest : script unit :=
  println (RerunIfEnvChanged "SALPA_UPDATE_KEY_DIGEST_HEX");;
  if negb (feature "USB_SIGNED_UPDATE") then mret tt
  else
    digest ← build_var "SALPA_UPDATE_KEY_DIGEST_HEX";
    match digest with
    | Err _ => panic
    | Ok digest =>
        assert_that ((length digest =? 64)%nat && forallb is_hex_digit digest);;
        println (RustcEnv "SALPA_UPDATE_KEY_DIGEST_HEX" digest)
    end.

Definition require_attestation_import_acknowledgement : script unit :=
  println (RerunIfEnvChanged "SALPA_ATTESTATION_IMPORT_ACK");;
  if negb (feature "ATTESTATION_IMPORT") then mret tt
  else
    require_ack "SALPA_ATTESTATION_IMPORT_ACK" "INSTALL_ATTESTATION";;
    require_absent IMPORT_EXCLUDES.

Definition require_physical_fault_test_acknowledgement : script unit :=
  println (RerunIfEnvChanged "SALPA_PHYSICAL_FAULT_TEST_ACK");;
  if negb (feature "PHYSICAL_STORAGE_FAULT_TEST") then mret tt
  else
    require_ack "SALPA_PHYSICAL_FAULT_TEST_ACK" "INTERRUPT_FIDO_STORE";;
    assert_that (negb (feature "STORAGE_PROVISIONING")).

Definition require_provisioning_acknowledgement : script unit :=
  println (RerunIfEnvChanged "SALPA_PROVISIONING_ACK");;
  if negb (feature "STORAGE_PROVISIONING") then mret tt
  else require_ack "SALPA_PROVISIONING_ACK" "ERASE_FIDO_STORE".

(** [build_var(name).expect(..)]. *)
Definition required_var (name : string) : script bytes :=
  value ← build_var name;
  match value with Ok value => mret value | Err _ => panic end.

Definition verify_usb_identity : script unit :=
  println_all (RerunIfEnvChanged <$> ["SALPA_USB_VID"; "SALPA_USB_PID"; "SALPA_USB_SERIAL"]%string);;
  if negb (feature "USB_BRINGUP") then mret tt
  else
    vid ← required_var "SALPA_USB_VID";
    pid ← required_var "SALPA_USB_PID";
    serial ← required_var "SALPA_USB_SERIAL";
    match from_build_values vid pid serial with Ok _ => mret tt | Err _ => panic end.

(** *** The partition table *)

Definition cells (fields : list string) : row := ascii_bytes <$> fields.

Definition LEGACY_NVS : row := cells ["nvs"; "data"; "nvs"; "0x9000"; "0x6000"]%string.
Definition LEGACY_PHY : row := cells ["phy_init"; "data"; "phy"; "0xf000"; "0x1000"]%string.
Definition LEGACY_FACTORY : row := cells ["factory"; "app"; "factory"; "0x10000"; "0x3d0000"]%string.
Definition MIGRATION_FACTORY : row := cells ["factory"; "app"; "factory"; "0x10000"; "0x3c0000"]%string.
Definition MIGRATION_NVS : row := cells ["nvs"; "data"; "nvs"; "0x3d0000"; "0x6000"]%string.
Definition MIGRATION_PHY : row := cells ["phy_init"; "data"; "phy"; "0x3d6000"; "0x1000"]%string.
Definition AB_OTADATA : row := cells ["otadata"; "data"; "ota"; "0x0f000"; "0x002000"]%string.
Definition AB_NVS : row := cells ["nvs"; "data"; "nvs"; "0x11000"; "0x006000"]%string.
Definition AB_PHY : row := cells ["phy_init"; "data"; "phy"; "0x17000"; "0x001000"]%string.
Definition AB_OTA0 : row := cells ["ota_0"; "app"; "ota_0"; "0x20000"; "0x1e0000"]%string.
Definition AB_OTA1 : row := cells ["ota_1"; "app"; "ota_1"; "0x200000"; "0x1e0000"]%string.
Definition EXPECTED_STORE : row := cells ["fido_store"; "data"; "littlefs"; "0x3e0000"; "0x20000"]%string.
Definition ENCRYPTED_AB_OTADATA : row := cells ["otadata"; "data"; "ota"; "0x0f000"; "0x002000"; "encrypted"]%string.
Definition ENCRYPTED_AB_NVS : row := cells ["nvs"; "data"; "nvs"; "0x11000"; "0x006000"; ""]%string.
Definition ENCRYPTED_AB_PHY : row := cells ["phy_init"; "data"; "phy"; "0x17000"; "0x001000"; ""]%string.
Definition ENCRYPTED_AB_OTA0 : row := cells ["ota_0"; "app"; "ota_0"; "0x20000"; "0x1e0000"; "encrypted"]%string.
Definition ENCRYPTED_AB_OTA1 : row := cells ["ota_1"; "app"; "ota_1"; "0x200000"; "0x1e0000"; "encrypted"]%string.
Definition ENCRYPTED_STORE : row := cells ["fido_store"; "data"; "littlefs"; "0x3e0000"; "0x20000"; "encrypted"]%string.

Definition table_rows (table : bytes) : list row :=
  (λ line, trim <$> split 44 line) <$>
    List.filter (λ line, negb (bytes_eqb (trim line) []))
      (List.filter (λ line, negb (starts_with (trim_start line) [35])) (lines table)).

(** Rows beyond the shorter list are left to the comparison of the lengths. *)
Definition verify_rows (rows expected : list row) : bool :=
  (length rows =? length expected)%nat
  && forallb (λ '(row, expected_row), bool_decide (take (length expected_row) row = expected_row))
       (zip rows expected).

(** The table file and the rows of a profile. *)
Definition profile_contract (profile : bytes) : option (string * list row) :=
  if bytes_eqb profile (ascii_bytes "legacy-0x8000")
  then Some ("partitions.csv"%string, [LEGACY_NVS; LEGACY_PHY; LEGACY_FACTORY; EXPECTED_STORE])
  else if bytes_eqb profile (ascii_bytes "e000-migration")
  then Some ("partitions-e000.csv"%string, [MIGRATION_FACTORY; MIGRATION_NVS; MIGRATION_PHY; EXPECTED_STORE])
  else if bytes_eqb profile (ascii_bytes "signed-ab")
  then Some ("partitions-ab.csv"%string, [AB_OTADATA; AB_NVS; AB_PHY; AB_OTA0; AB_OTA1; EXPECTED_STORE])
  else if bytes_eqb profile (ascii_bytes "signed-ab-encrypted")
  then Some ("partitions-ab-encrypted.csv"%string,
             [ENCRYPTED_AB_OTADATA; ENCRYPTED_AB_NVS; ENCRYPTED_AB_PHY; ENCRYPTED_AB_OTA0; ENCRYPTED_AB_OTA1;
              ENCRYPTED_STORE])
  else None.

Definition verify_partition_contract : script unit :=
  println (RerunIfEnvChanged "SALPA_PARTITION_PROFILE");;
  println_all (RerunIfChanged <$>
    ["partitions.csv"; "partitions-e000.csv"; "partitions-ab.csv"; "partitions-ab-encrypted.csv";
     "ld/esp32s2-encrypted-store.x"]%string);;
  profile ← build_var "SALPA_PARTITION_PROFILE";
  let profile := match profile with Ok profile => profile | Err _ => ascii_bytes "legacy-0x8000" end in
  let encrypted_feature := feature "RELEASE_FLASH_ENCRYPTION" in
  contract ← expect (profile_contract profile);
  let '(path, expected) := contract in
  assert_that (Bool.eqb encrypted_feature (bytes_eqb profile (ascii_bytes "signed-ab-encrypted")));;
  assert_that (negb encrypted_feature || var_is "PROFILE" "release");;
  table ← expect (read_to_string host path);
  assert_that (verify_rows (table_rows table) expected).

(** Called again by the linker with the kind of an error and its subject. *)
Definition linker_be_nice : script unit :=
  match args host with
  | _ :: kind :: rest =>
      what ← expect (head rest);
      throw (if bytes_eqb kind (ascii_bytes "undefined-symbol") then 0 else 1)
  | _ => println LinkErrorHandler
  end.

Definition link_instructions : script unit :=
  linker_be_nice;;
  let protected_s2 := feature "RELEASE_FLASH_ENCRYPTION" && feature "FIDO_STACK" && feature "MCU_ESP32S2" in
  (if feature "RELEASE_FLASH_ENCRYPTION"
   then println_all [LinkSearch "ld"; LinkArg "-Tesp32s2-encrypted-store.x"] else mret tt);;
  if protected_s2
  then println_all [RerunIfChanged "ld/esp32s2-memory-protection.x"; RerunIfChanged "ld/esp32s2-protected.x";
                    LinkArg "-Tesp32s2-protected.x"]
  else println (LinkArg "-Tlinkall.x").

Definition build_main : script unit :=
  configure_build_environment;;
  require_epoch_preview_acknowledgement;;
  require_epoch_maintenance_scope;;
  verify_partition_contract;;
  require_update_key_digest;;
  require_provisioning_acknowledgement;;
  require_attestation_import_acknowledgement;;
  require_physical_fault_test_acknowledgement;;
  verify_usb_identity;;
  if var_is "CARGO_CFG_TARGET_ARCH" "xtensa" then link_instructions else mret tt.
End script.
