(* ===== verification/BuildTheorems.v ===== *)
(** * What a completed build is

    A run of the build script that completes leaves the partition table, the USB
    identity, the update key and the maintenance plan in the form the firmware needs
    them, and selects at most one of the special images. *)

From Stdlib Require Import Ascii String.
From stdpp Require Import base tactics numbers list option strings.
From S2P Require Import Prelude Interfaces SignedImage Rom FlashEncryption Ota EspBackend Storage Epoch Identity.
From S2P Require Import UsbUpdate StorageTheorems IdentityTheorems Build.

Open Scope Z_scope.

(** ** Scripts that complete

    [c] completing establishes [Q] of its value and of what it printed. *)
Definition ensures {A} (c : script A) (Q : A → list Instruction → Prop) : Prop :=
  ∀ out a out', c out = Some (Ok a, out') → ∃ more, out' = out ++ more ∧ Q a more.

Lemma ensures_mono {A} (c : script A) (P Q : A → list Instruction → Prop) :
  ensures c P → (∀ a more, P a more → Q a more) → ensures c Q.
Proof. intros H I out a out' E. destruct (H _ _ _ E) as (m & -> & K). eauto. Qed.

Lemma ensures_ret {A} (a : A) (Q : A → list Instruction → Prop) : Q a [] → ensures (mret a) Q.
Proof. intros H out a' out' [= <- <-]. exists []. by rewrite app_nil_r. Qed.

Lemma ensures_bind {A B} (c : script A) (k : A → script B) P (Q : B → list Instruction → Prop) :
  ensures c P →
  (∀ a first, P a first → ensures (k a) (λ b rest, Q b (first ++ rest))) →
  ensures (c ≫= k) Q.
Proof.
  intros H K out b out' E. apply bind_Ok in E as (a & o & E1 & E2).
  destruct (H _ _ _ E1) as (first & -> & Ha). destruct (K a first Ha _ _ _ E2) as (rest & -> & Hb).
  exists (first ++ rest). by rewrite app_assoc.
Qed.

Lemma ensures_assert c (Q : unit → list Instruction → Prop) : (c = true → Q tt []) → ensures (assert_that c) Q.
Proof. intros H. destruct c; [by apply ensures_ret, H|done]. Qed.

Lemma ensures_expect {A} (o : option A) (Q : A → list Instruction → Prop) :
  (∀ a, o = Some a → Q a []) → ensures (expect o) Q.
Proof. intros H. destruct o; [by apply ensures_ret, H|done]. Qed.

Lemma ensures_panic {A} (Q : A → list Instruction → Prop) : ensures panic Q.
Proof. done. Qed.

Lemma ensures_throw {A} code (Q : A → list Instruction → Prop) : ensures (throw code) Q.
Proof. done. Qed.

Lemma ensures_println_all l (Q : unit → list Instruction → Prop) : Q tt l → ensures (println_all l) Q.
Proof. intros H out [] out' [= <-]. eauto. Qed.

Lemma ensures_println i (Q : unit → list Instruction → Prop) : Q tt [i] → ensures (println i) Q.
Proof. apply ensures_println_all. Qed.

Create HintDb build.
#[export] Hint Resolve ensures_panic ensures_throw : build.

(** What a script prints satisfies [ok]; the value satisfies [P]. *)
Definition prints {A} (ok : Instruction → Prop) (P : A → Prop) (c : script A) : Prop :=
  ensures c (λ a more, Forall ok more ∧ P a).

Lemma prints_bind {A B} ok (P : A → Prop) (Q : B → Prop) (c : script A) (k : A → script B) :
  prints ok P c → (∀ a, P a → prints ok Q (k a)) → prints ok Q (c ≫= k).
Proof.
  intros H K. eapply ensures_bind; [exact H|]. intros a first [Hf Ha].
  eapply ensures_mono; [apply (K a Ha)|]. intros b rest [Hr Hb]. split; [|done]. by apply Forall_app.
Qed.

Ltac quiet := match goal with
  | |- prints _ _ (assert_that _) => apply ensures_assert; intros; split; [done|]
  | |- prints _ _ (expect _) => apply ensures_expect; intros ? ?; split; [done|]
  | |- prints _ _ (println _) => apply ensures_println; split; [by repeat constructor|]
  | |- prints _ _ (println_all _) => apply ensures_println_all; split; [by repeat constructor|]
  | |- prints _ _ (mret _) => apply ensures_ret; split; [done|]
  end.
(** One step of a script whose own fact is [P]. *)
Ltac after P := eapply (prints_bind _ P); [quiet|].

Section host.
Context (host : Host).

(** ** Variables *)

Definition resolved (name : string) (value : option bytes) : Prop :=
  resolve (var_os host name) (var_os host (legacy_name name)) = Ok value.

(** What is printed as an environment variable is the resolved value; what is written
    is a plan with the format and the target the firmware accepts. *)
Definition usable_plan (plan : bytes) : Prop :=
  length plan = PLAN_BYTES ∧ take 8 plan = PLAN_MAGIC ∧ byte_at plan 163 = 0 ∧ 1 ≤ byte_at plan 160 ≤ 16.
Definition consistent (i : Instruction) : Prop :=
  match i with
  | RustcEnv name value => resolved name (Some value)
  | WriteOut name plan => name = "epoch-plan.bin"%string ∧ usable_plan plan
  | _ => True
  end.

Lemma build_var_os_prints name : prints consistent (resolved name) (build_var_os host name).
Proof.
  unfold prints, build_var_os, resolved. destruct (resolve _ _) as [value|]; [|done].
  by apply ensures_ret.
Qed.

Definition var_value (name : string) (r : result VarError bytes) : Prop :=
  ∃ value, resolved name value ∧
    r = match value with
        | Some value => if valid_utf8 value then Ok value else Err NotUnicode
        | None => Err NotPresent
        end.

Lemma build_var_prints name : prints consistent (var_value name) (build_var host name).
Proof.
  eapply prints_bind; [apply build_var_os_prints|]. intros value Hv.
  destruct value; (apply ensures_ret; split; [done|]; eexists; split; [exact Hv|done]).
Qed.

Lemma var_value_Ok name value : var_value name (Ok value) → resolved name (Some value).
Proof. intros ([v|] & Hr & E); [|done]. destruct (valid_utf8 v); [|done]. by injection E as ->. Qed.

Lemma required_var_prints name :
  prints consistent (λ value, resolved name (Some value)) (required_var host name).
Proof.
  eapply prints_bind; [apply build_var_prints|]. intros [value|e] Hv; [|done].
  apply ensures_ret. split; [done|]. by apply var_value_Ok.
Qed.

Lemma for_each_prints {A} (f : A → script unit) (P : A → Prop) l :
  (∀ x, x ∈ l → prints consistent (λ _, P x) (f x)) →
  prints consistent (λ _, Forall P l) (for_each f l).
Proof.
  induction l as [|x l IH]; intros H; [by apply ensures_ret|].
  eapply prints_bind; [apply H; by left|]. intros [] Hx.
  eapply ensures_mono; [apply IH; intros y Hy; apply H; by right|]. intros _ more [? ?]. by repeat constructor.
Qed.

(** Each variable that is set is passed on to the compiler. *)
Definition passed_on (name : string) (more : list Instruction) : Prop :=
  ∀ value, resolved name (Some value) → RustcEnv name value ∈ more.

Lemma configure_ensures :
  ensures (configure_build_environment host)
    (λ _ more, Forall consistent more ∧ ∀ name, name ∈ BUILD_VARIABLES → passed_on name more).
Proof.
  unfold configure_build_environment. induction BUILD_VARIABLES as [|name names IH].
  { apply ensures_ret. split; [done|]. by intros name ?%elem_of_nil. }
  eapply (ensures_bind _ _ (λ _ more, Forall consistent more ∧ passed_on name more)).
  2: { intros [] first [Hf Hp]. eapply ensures_mono; [exact IH|]. intros [] rest [Hr Hn].
       split; [by apply Forall_app|]. intros name' Hin value Hv. apply elem_of_app.
       apply elem_of_cons in Hin as [->|Hin]; [left|right]; [by apply Hp|by apply Hn]. }
  clear IH. unfold configure_variable.
  eapply (ensures_bind _ _ (λ _ more, Forall consistent more)); [by apply ensures_println; repeat constructor|].
  intros [] m1 H1. eapply (ensures_bind _ _ (λ _ more, Forall consistent more));
    [by apply ensures_println; repeat constructor|].
  intros [] m2 H2. eapply ensures_bind; [apply build_var_os_prints|]. intros value m3 [H3 Hv].
  destruct value as [value|].
  - eapply (ensures_bind _ _ (λ _ more, more = [])); [by apply ensures_assert|]. intros [] ? ->.
    eapply (ensures_bind _ _ (λ _ more, more = [])); [by apply ensures_assert|]. intros [] ? ->.
    apply ensures_println. split.
    + repeat (apply Forall_app; split); try done. by repeat constructor.
    + intros value' Hv'. assert (value' = value) as -> by (unfold resolved in *; congruence).
      rewrite !elem_of_app, !elem_of_cons. tauto.
  - apply ensures_ret. split; [by rewrite app_nil_r; repeat (apply Forall_app; split)|].
    intros value' Hv'. unfold resolved in *. congruence.
Qed.

(** ** The parts of the script *)

Definition acknowledged (name text : string) : Prop := resolved name (Some (ascii_bytes text)).

Lemma require_ack_prints name text :
  prints consistent (λ _, acknowledged name text) (require_ack host name text).
Proof.
  eapply prints_bind; [apply build_var_prints|]. intros value Hv. quiet. bool_to_prop. subst value.
  by apply var_value_Ok.
Qed.

Definition absent (names : list string) : Prop := Forall (λ name, feature host name = false) names.

Lemma require_absent_prints names : prints consistent (λ _, absent names) (require_absent host names).
Proof. apply for_each_prints. intros name _. quiet. by bool_to_prop. Qed.

Lemma preview_prints :
  prints consistent (λ _, feature host "SECURITY_EPOCH_PREVIEW" = true →
    acknowledged "SALPA_EPOCH_PREVIEW_ACK" "READ_EPOCH_ONLY" ∧ absent PREVIEW_EXCLUDES)
  (require_epoch_preview_acknowledgement host).
Proof.
  after (λ _ : unit, True); [done|]. intros [] _.
  destruct (feature host "SECURITY_EPOCH_PREVIEW"); cbn [negb]; [|by quiet].
  eapply prints_bind; [apply require_ack_prints|]. intros [] Ha.
  after (λ _ : unit, True); [done|]. intros [] _.
  eapply ensures_mono; [apply require_absent_prints|]. naive_solver.
Qed.

Lemma embed_plan_prints : prints consistent (λ _, True) (embed_plan host).
Proof.
  unfold embed_plan. eapply prints_bind; [apply build_var_os_prints|]. intros path _.
  after (λ _ : bytes, True); [done|]. intros p _.
  after (λ _ : list bytes, True); [done|]. intros canonical _.
  after (λ _ : bytes, True); [done|]. intros manifest _.
  after (λ _ : list bytes, True); [done|]. intros root _.
  after (λ _ : unit, True); [done|]. intros [] _.
  after (λ _ : Metadata, True); [done|]. intros metadata _.
  after (λ _ : unit, True); [done|]. intros [] _.
  after (λ _ : unit, True); [done|]. intros [] _.
  after (λ _ : unit, True); [done|]. intros [] _.
  after (λ _ : bytes, True); [done|]. intros plan _.
  after (λ _ : unit, is_plan_file plan = true); [done|]. intros [] Hplan.
  after (λ _ : unit, 1 ≤ byte_at plan 160 ≤ 16); [by bool_to_prop; lia|]. intros [] Hepoch.
  after (λ _ : bytes, True); [done|]. intros output _.
  after (λ _ : unit, True); [done|]. intros [] _.
  unfold is_plan_file in Hplan. bool_to_prop.
  eapply (prints_bind _ (λ _ : unit, True)); [|intros [] _; by quiet].
  apply ensures_println. split; [|done]. repeat constructor; try done; try lia.
  match goal with H : bytes_eqb _ _ = true |- _ => apply bytes_eqb_true in H; revert H end.
  unfold slice. by rewrite drop_0.
Qed.

Lemma maintenance_prints :
  prints consistent (λ _, feature host "SECURITY_EPOCH_MAINTENANCE" = true →
    acknowledged "SALPA_EPOCH_MAINTENANCE_ACK" "COUNTER_ONLY_MAINTENANCE" ∧ absent MAINTENANCE_EXCLUDES)
  (require_epoch_maintenance_scope host).
Proof.
  after (λ _ : unit, True); [done|]. intros [] _.
  destruct (feature host "SECURITY_EPOCH_MAINTENANCE"); cbn [negb]; [|by quiet].
  eapply prints_bind; [apply require_ack_prints|]. intros [] Ha.
  after (λ _ : unit, True); [done|]. intros [] _.
  eapply prints_bind; [apply require_absent_prints|]. intros [] Hn.
  eapply ensures_mono; [apply embed_plan_prints|]. naive_solver.
Qed.

Lemma import_prints :
  prints consistent (λ _, feature host "ATTESTATION_IMPORT" = true →
    acknowledged "SALPA_ATTESTATION_IMPORT_ACK" "INSTALL_ATTESTATION" ∧ absent IMPORT_EXCLUDES)
  (require_attestation_import_acknowledgement host).
Proof.
  after (λ _ : unit, True); [done|]. intros [] _.
  destruct (feature host "ATTESTATION_IMPORT"); cbn [negb]; [|by quiet].
  eapply prints_bind; [apply require_ack_prints|]. intros [] Ha.
  eapply ensures_mono; [apply require_absent_prints|]. naive_solver.
Qed.

Lemma fault_prints :
  prints consistent (λ _, feature host "PHYSICAL_STORAGE_FAULT_TEST" = true →
    acknowledged "SALPA_PHYSICAL_FAULT_TEST_ACK" "INTERRUPT_FIDO_STORE" ∧
    feature host "STORAGE_PROVISIONING" = false)
  (require_physical_fault_test_acknowledgement host).
Proof.
  after (λ _ : unit, True); [done|]. intros [] _.
  destruct (feature host "PHYSICAL_STORAGE_FAULT_TEST"); cbn [negb]; [|by quiet].
  eapply prints_bind; [apply require_ack_prints|]. intros [] Ha. quiet. bool_to_prop. auto.
Qed.

Lemma provisioning_prints :
  prints consistent (λ _, feature host "STORAGE_PROVISIONING" = true →
    acknowledged "SALPA_PROVISIONING_ACK" "ERASE_FIDO_STORE")
  (require_provisioning_acknowledgement host).
Proof.
  after (λ _ : unit, True); [done|]. intros [] _.
  destruct (feature host "STORAGE_PROVISIONING"); cbn [negb]; [|by quiet].
  eapply ensures_mono; [apply require_ack_prints|]. naive_solver.
Qed.

(** *** The update key *)

Lemma is_hex_digit_nibble b : is_hex_digit b = true → is_Some (hex_nibble b).
Proof.
  unfold is_hex_digit, between, hex_nibble. destruct ((48 <=? b) && (b <=? 57)); [by eexists|].
  cbn [orb]. intros ->. by eexists.
Qed.

Lemma digest_usable hex : length hex = 64%nat → forallb is_hex_digit hex = true →
  ∃ key, trusted_update_key_digest hex = Some key ∧ length key = 32%nat.
Proof.
  intros Hl Hd. unfold trusted_update_key_digest. rewrite Hl. cbn [Nat.eqb negb].
  assert (∀ i, (i < 64)%nat → is_Some (hex_nibble (byte_at hex i))) as Hn.
  { intros i Hi. apply is_hex_digit_nibble. rewrite forallb_forall in Hd. apply Hd.
    apply nth_In. by rewrite Hl. }
  assert (is_Some (mapM (hex_byte hex) (seq 0 32))) as [key Hk].
  { apply mapM_is_Some, Forall_forall. intros i Hi%elem_of_seq. unfold hex_byte, compose.
    destruct (Hn (i * 2)%nat) as [h ->]; [lia|]. destruct (Hn (i * 2 + 1)%nat) as [l ->]; [lia|]. by eexists. }
  exists key. split; [done|]. apply length_mapM in Hk. by rewrite <- Hk.
Qed.

Definition update_key_ready : Prop :=
  ∃ hex key, resolved "SALPA_UPDATE_KEY_DIGEST_HEX" (Some hex) ∧
    trusted_update_key_digest hex = Some key ∧ length key = 32%nat.

Lemma digest_prints :
  prints consistent (λ _, feature host "USB_SIGNED_UPDATE" = true → update_key_ready)
  (require_update_key_digest host).
Proof.
  after (λ _ : unit, True); [done|]. intros [] _.
  destruct (feature host "USB_SIGNED_UPDATE"); cbn [negb]; [|by quiet].
  eapply prints_bind; [apply build_var_prints|]. intros [hex|e] Hv; [|done]. apply var_value_Ok in Hv.
  after (λ _ : unit, length hex = 64%nat ∧ forallb is_hex_digit hex = true); [by bool_to_prop|]. intros [] [Hl Hd].
  apply ensures_println. split; [by repeat constructor|]. intros _.
  destruct (digest_usable hex Hl Hd) as (key & ? & ?). by exists hex, key.
Qed.

(** *** The USB identity *)

Definition usb_identity_ready : Prop :=
  ∃ vid pid serial id, resolved "SALPA_USB_VID" (Some vid) ∧ resolved "SALPA_USB_PID" (Some pid) ∧
    resolved "SALPA_USB_SERIAL" (Some serial) ∧ from_build_values vid pid serial = Ok id.

Lemma identity_prints :
  prints consistent (λ _, feature host "USB_BRINGUP" = true → usb_identity_ready) (verify_usb_identity host).
Proof.
  after (λ _ : unit, True); [done|]. intros [] _.
  destruct (feature host "USB_BRINGUP"); cbn [negb]; [|by quiet].
  eapply prints_bind; [apply required_var_prints|]. intros vid Hv.
  eapply prints_bind; [apply required_var_prints|]. intros pid Hp.
  eapply prints_bind; [apply required_var_prints|]. intros serial Hs.
  destruct (from_build_values vid pid serial) as [id|] eqn:E; [|done]. quiet. intros _.
  by exists vid, pid, serial, id.
Qed.

(** *** The partition table *)

Definition table_accepted (path : string) (expected : list row) : Prop :=
  ∃ table, read_to_string host path = Some table ∧ verify_rows (table_rows table) expected = true.

Lemma partition_prints :
  prints consistent (λ _, ∃ profile path expected,
    profile_contract profile = Some (path, expected) ∧ table_accepted path expected ∧
    (feature host "RELEASE_FLASH_ENCRYPTION" = true ↔ profile = ascii_bytes "signed-ab-encrypted") ∧
    (feature host "RELEASE_FLASH_ENCRYPTION" = true → var_os host "PROFILE" = Some (ascii_bytes "release")))
  (verify_partition_contract host).
Proof.
  unfold verify_partition_contract.
  after (λ _ : unit, True); [done|]. intros [] _. after (λ _ : unit, True); [done|]. intros [] _.
  eapply prints_bind; [apply build_var_prints|]. intros read _. cbv zeta.
  set (profile := match read with Ok profile => profile | Err _ => _ end).
  after (λ c, profile_contract profile = Some c); [done|]. intros [path expected] Hc.
  set (encrypted := feature host "RELEASE_FLASH_ENCRYPTION").
  after (λ _ : unit, encrypted = bytes_eqb profile (ascii_bytes "signed-ab-encrypted"));
    [by apply eqb_prop|]. intros [] He.
  after (λ _ : unit, encrypted = true → var_is host "PROFILE" "release" = true); [by destruct encrypted|].
  intros [] Hr. after (λ table, read_to_string host path = Some table); [done|]. intros table Ht.
  quiet. exists profile, path, expected. split; [done|]. split; [by exists table|]. split.
  - rewrite He. by rewrite bytes_eqb_true.
  - intros E%Hr. by apply bool_decide_eq_true in E.
Qed.
End host.

(** A row as a partition: its name, its range and whether it is encrypted. *)
Record Partition := mkPartition { pt_name : bytes; pt_offset : Z; pt_size : Z; pt_encrypted : bool }.

Definition hex_value (cell : bytes) : option Z :=
  match cell with
  | 48 :: 120 :: digits => ds ← mapM (to_digit 16) digits; Some (value_of 16 ds 0)
  | _ => None
  end.
Definition row_partition (r : row) : option Partition :=
  match r with
  | name :: _ :: _ :: offset :: size :: flags :: _ =>
      offset ← hex_value offset; size ← hex_value size;
      Some (mkPartition name offset size (bytes_eqb flags (ascii_bytes "encrypted")))
  | _ => None
  end.

(** The six partitions of the release table. *)
Definition release_partitions : list Partition :=
  [mkPartition (ascii_bytes "otadata") OTADATA_OFFSET (2 * OTA_SECTOR_SIZE) true;
   mkPartition (ascii_bytes "nvs") 0x11000 0x6000 false;
   mkPartition (ascii_bytes "phy_init") 0x17000 0x1000 false;
   mkPartition (ascii_bytes "ota_0") OTA_0_OFFSET OTA_SLOT_SIZE true;
   mkPartition (ascii_bytes "ota_1") OTA_1_OFFSET OTA_SLOT_SIZE true;
   mkPartition (ascii_bytes "fido_store") FIDO_STORE_OFFSET FIDO_STORE_SIZE true].

Definition within (p : Partition) (first last : Z) : Prop :=
  pt_offset p ≤ first ∧ last ≤ pt_offset p + pt_size p.

Lemma row_prefix (r expected : row) p :
  take (length expected) r = expected → row_partition expected = Some p → row_partition r = Some p.
Proof.
  intros E H. do 6 (destruct expected as [|? expected]; [done|]).
  do 6 (destruct r as [|? r]; [done|]). cbn [length take] in E. by simplify_eq.
Qed.

Lemma rows_prefix rows expected ps : verify_rows rows expected = true →
  mapM row_partition expected = Some ps → mapM row_partition rows = Some ps.
Proof.
  unfold verify_rows. intros [Hl Hf]%andb_true_iff. apply Nat.eqb_eq in Hl.
  revert expected ps Hl Hf. induction rows as [|r rows IH]; intros [|e expected] ps Hl Hf Hm; try done.
  cbn [zip zip_with forallb] in Hf. apply andb_true_iff in Hf as [He Hf]. apply bool_decide_eq_true in He.
  cbn [mapM] in *. destruct (row_partition e) as [p|] eqn:Ep; [|done].
  rewrite (row_prefix r e p He Ep). cbn [mbind option_bind] in *.
  destruct (mapM row_partition expected) as [ps'|] eqn:Em; [|done].
  rewrite (IH expected ps'); [done|by injection Hl|done..].
Qed.

Lemma release_rows :
  mapM row_partition [ENCRYPTED_AB_OTADATA; ENCRYPTED_AB_NVS; ENCRYPTED_AB_PHY; ENCRYPTED_AB_OTA0;
                      ENCRYPTED_AB_OTA1; ENCRYPTED_STORE] = Some release_partitions.
Proof. vm_compute. reflexivity. Qed.

(** What the firmware writes lies in an encrypted partition of its own. *)
Definition writes_encrypted (ps : list Partition) : Prop :=
  (∀ index, index = 0 ∨ index = 1 → ∃ p, p ∈ ps ∧ pt_encrypted p = true ∧ pt_name p = ascii_bytes "otadata" ∧
     within p (entry_address index) (entry_address index + OTA_SECTOR_SIZE)) ∧
  (∀ slot offset len first, address slot offset len = Some first → 0 ≤ offset →
     ∃ p, p ∈ ps ∧ pt_encrypted p = true ∧
       pt_name p = (if slot =? 0 then ascii_bytes "ota_0" else ascii_bytes "ota_1") ∧
       within p first (first + Z.of_nat len)) ∧
  (∀ offset len first last, checked_absolute_range offset len = Some (first, last) → 0 ≤ offset →
     ∃ p, p ∈ ps ∧ pt_encrypted p = true ∧ pt_name p = ascii_bytes "fido_store" ∧ within p first last).

Lemma release_writes_encrypted : writes_encrypted release_partitions.
Proof.
  split_and!.
  - intros index Hi. eexists. split; [by left|]. split_and!; [done..|].
    unfold within, entry_address, OTADATA_OFFSET, OTA_SECTOR_SIZE. cbn. lia.
  - intros slot offset len first E Ho. unfold address in E.
    apply bind_Some in E as (base & Hb & E). apply bind_Some in E as (l & Hl & E).
    apply bind_Some in E as (fin & Hf & E). destruct (Z.leb_spec (Z.of_nat len) U32_MAX); [|done].
    injection Hl as <-. apply u32_add_Some in Hf as [-> _]. destruct (Z.ltb_spec OTA_SLOT_SIZE (offset + Z.of_nat len)); [done|].
    apply u32_add_Some in E as [-> _]. unfold update_slot_offset in Hb.
    destruct slot as [|[| |]|]; try done; injection Hb as <-; eexists.
    + split; [do 3 right; by left|]. split_and!; [done..|]. split; cbn [pt_offset pt_size]; lia.
    + split; [do 4 right; by left|]. split_and!; [done..|]. split; cbn [pt_offset pt_size]; lia.
  - intros offset len first last E Ho. unfold checked_absolute_range in E.
    apply bind_Some in E as (fin & Hf & E). destruct (Z.ltb_spec FIDO_STORE_SIZE fin); [done|].
    apply bind_Some in E as (a & Ha & E). apply bind_Some in E as (b & Hb & E). simplify_eq.
    apply u32_add_Some in Ha as [-> _]. apply u32_add_Some in Hb as [-> _].
    eexists. split; [do 5 right; by left|]. split_and!; [done..|]. split; cbn [pt_offset pt_size]; lia.
Qed.

(** Partitions follow each other and end inside the flash. *)
Fixpoint laid_out (from : Z) (ps : list Partition) : Prop :=
  match ps with
  | [] => from ≤ FLASH_SIZE
  | p :: ps => from ≤ pt_offset p ∧ 0 < pt_size p ∧ pt_offset p mod ERASE_SIZE = 0 ∧
               pt_size p mod ERASE_SIZE = 0 ∧ laid_out (pt_offset p + pt_size p) ps
  end.

(** ** A build that completes *)

Definition special_features : list string :=
  ["SECURITY_EPOCH_PREVIEW"; "SECURITY_EPOCH_MAINTENANCE"; "STORAGE_PROVISIONING"; "ATTESTATION_IMPORT";
   "PHYSICAL_STORAGE_FAULT_TEST"]%string.

Definition required_ack (name : string) : option (string * string) :=
  (if bool_decide (name = "SECURITY_EPOCH_PREVIEW") then Some ("SALPA_EPOCH_PREVIEW_ACK", "READ_EPOCH_ONLY")
   else if bool_decide (name = "SECURITY_EPOCH_MAINTENANCE")
   then Some ("SALPA_EPOCH_MAINTENANCE_ACK", "COUNTER_ONLY_MAINTENANCE")
   else if bool_decide (name = "STORAGE_PROVISIONING") then Some ("SALPA_PROVISIONING_ACK", "ERASE_FIDO_STORE")
   else if bool_decide (name = "ATTESTATION_IMPORT") then Some ("SALPA_ATTESTATION_IMPORT_ACK", "INSTALL_ATTESTATION")
   else if bool_decide (name = "PHYSICAL_STORAGE_FAULT_TEST")
   then Some ("SALPA_PHYSICAL_FAULT_TEST_ACK", "INTERRUPT_FIDO_STORE") else None)%string.

Record build_facts (host : Host) := {
  bf_preview : feature host "SECURITY_EPOCH_PREVIEW" = true →
    acknowledged host "SALPA_EPOCH_PREVIEW_ACK" "READ_EPOCH_ONLY" ∧ absent host PREVIEW_EXCLUDES;
  bf_maintenance : feature host "SECURITY_EPOCH_MAINTENANCE" = true →
    acknowledged host "SALPA_EPOCH_MAINTENANCE_ACK" "COUNTER_ONLY_MAINTENANCE" ∧ absent host MAINTENANCE_EXCLUDES;
  bf_partitions : ∃ profile path expected,
    profile_contract profile = Some (path, expected) ∧ table_accepted host path expected ∧
    (feature host "RELEASE_FLASH_ENCRYPTION" = true ↔ profile = ascii_bytes "signed-ab-encrypted") ∧
    (feature host "RELEASE_FLASH_ENCRYPTION" = true → var_os host "PROFILE" = Some (ascii_bytes "release"));
  bf_digest : feature host "USB_SIGNED_UPDATE" = true → update_key_ready host;
  bf_provisioning : feature host "STORAGE_PROVISIONING" = true →
    acknowledged host "SALPA_PROVISIONING_ACK" "ERASE_FIDO_STORE";
  bf_import : feature host "ATTESTATION_IMPORT" = true →
    acknowledged host "SALPA_ATTESTATION_IMPORT_ACK" "INSTALL_ATTESTATION" ∧ absent host IMPORT_EXCLUDES;
  bf_fault : feature host "PHYSICAL_STORAGE_FAULT_TEST" = true →
    acknowledged host "SALPA_PHYSICAL_FAULT_TEST_ACK" "INTERRUPT_FIDO_STORE" ∧
    feature host "STORAGE_PROVISIONING" = false;
  bf_identity : feature host "USB_BRINGUP" = true → usb_identity_ready host;
}.

Section build.
Context (host : Host).

Lemma link_prints : prints (consistent host) (λ _ : unit, True) (link_instructions host).
Proof.
  unfold link_instructions. eapply (prints_bind _ (λ _ : unit, True)).
  - unfold linker_be_nice. destruct (args host) as [|a [|kind rest]]; [by quiet..|].
    after (λ _ : bytes, True); done.
  - intros [] _. eapply (prints_bind _ (λ _ : unit, True)); [destruct (feature _ _); by quiet|].
    intros [] _. destruct (_ && _); by quiet.
Qed.

Lemma build_main_ensures :
  ensures (build_main host) (λ _ more, Forall (consistent host) more ∧ build_facts host ∧
    ∀ name, name ∈ BUILD_VARIABLES → passed_on host name more).
Proof.
  eapply ensures_bind; [apply configure_ensures|]. intros [] first [Hc Hp].
  assert (prints (consistent host) (λ _ : unit, build_facts host)
    (require_epoch_preview_acknowledgement host;; require_epoch_maintenance_scope host;;
     verify_partition_contract host;; require_update_key_digest host;; require_provisioning_acknowledgement host;;
     require_attestation_import_acknowledgement host;; require_physical_fault_test_acknowledgement host;;
     verify_usb_identity host;;
     if var_is host "CARGO_CFG_TARGET_ARCH" "xtensa" then link_instructions host else mret tt)) as K.
  { eapply prints_bind; [apply preview_prints|]. intros [] H1. eapply prints_bind; [apply maintenance_prints|].
    intros [] H2. eapply prints_bind; [apply partition_prints|]. intros [] H3.
    eapply prints_bind; [apply digest_prints|]. intros [] H4. eapply prints_bind; [apply provisioning_prints|].
    intros [] H5. eapply prints_bind; [apply import_prints|]. intros [] H6.
    eapply prints_bind; [apply fault_prints|]. intros [] H7. eapply prints_bind; [apply identity_prints|].
    intros [] H8. assert (build_facts host) by by constructor.
    destruct (var_is _ _ _); [|by quiet]. eapply ensures_mono; [apply link_prints|]. naive_solver. }
  eapply ensures_mono; [exact K|]. intros [] rest [Hr Hf]. split; [by apply Forall_app|]. split; [done|].
  intros name Hn value Hv. apply elem_of_app. left. by apply Hp.
Qed.

Lemma consistent_all out : Forall (consistent host) out →
  ∀ name value, RustcEnv name value ∈ out → resolved host name (Some value).
Proof. rewrite Forall_forall. intros H name value Hin. exact (H _ Hin). Qed.

(** The compiler sees exactly the resolved value of a variable. *)
Lemma env_value out name value :
  Forall (consistent host) out → passed_on host name out → resolved host name (Some value) →
  ∀ v, RustcEnv name v ∈ out ↔ v = value.
Proof.
  intros Hc Hp Hv v. split; [|intros ->; by apply Hp].
  intros H%(consistent_all out Hc). unfold resolved in *. congruence.
Qed.

Context (out : list Instruction).

(** A completed build hands the firmware settings it can use: each variable the compiler
    sees has one value, the one of the environment; with USB the vendor, product and
    serial form an accepted identity, with updates the digest parses to a 32-byte key
    digest, and a plan that is written has the format and a target from 1 to 16. *)
Theorem build_settings_usable : build_main host [] = Some (Ok tt, out) →
  (feature host "USB_BRINGUP" = true → ∃ vid pid serial id, from_build_values vid pid serial = Ok id ∧
     (∀ v, RustcEnv "SALPA_USB_VID" v ∈ out ↔ v = vid) ∧ (∀ v, RustcEnv "SALPA_USB_PID" v ∈ out ↔ v = pid) ∧
     (∀ v, RustcEnv "SALPA_USB_SERIAL" v ∈ out ↔ v = serial)) ∧
  (feature host "USB_SIGNED_UPDATE" = true → ∃ hex key,
     (∀ v, RustcEnv "SALPA_UPDATE_KEY_DIGEST_HEX" v ∈ out ↔ v = hex) ∧
     trusted_update_key_digest hex = Some key ∧ length key = 32%nat) ∧
  (∀ name plan, WriteOut name plan ∈ out → name = "epoch-plan.bin"%string ∧ usable_plan plan).
Proof.
  intros E. destruct (build_main_ensures _ _ _ E) as (? & -> & Hc & Hf & Hp). cbn [app].
  assert (∀ name, bool_decide (name ∈ BUILD_VARIABLES) = true → passed_on host name x) as Hb.
  { intros name Hn%bool_decide_eq_true. by apply Hp. }
  split_and!.
  - intros Hu. destruct (bf_identity _ Hf Hu) as (vid & pid & serial & id & Hv & Hpid & Hs & Hid).
    exists vid, pid, serial, id. split; [done|].
    split_and!; (apply env_value; [done|by apply Hb|done]).
  - intros Hu. destruct (bf_digest _ Hf Hu) as (hex & key & Hv & Hk & Hl).
    exists hex, key. split_and!; try done. apply env_value; [done|by apply Hb|done].
  - intros name plan Hin. rewrite Forall_forall in Hc. exact (Hc _ Hin).
Qed.

(** The release table of a completed build is the flash the firmware writes: its rows
    are six aligned, disjoint partitions inside the 4 MiB chip, and each record sector,
    each accepted range of an update slot and each accepted range of the credential store
    lies in its own partition, which is flagged encrypted. *)
Theorem release_table_matches : build_main host [] = Some (Ok tt, out) →
  feature host "RELEASE_FLASH_ENCRYPTION" = true →
  var_os host "PROFILE" = Some (ascii_bytes "release") ∧
  ∃ table partitions, read_to_string host "partitions-ab-encrypted.csv" = Some table ∧
    mapM row_partition (table_rows table) = Some partitions ∧
    laid_out 0 partitions ∧ writes_encrypted partitions.
Proof.
  intros E He. destruct (build_main_ensures _ _ _ E) as (? & _ & _ & Hf & _).
  destruct (bf_partitions _ Hf) as (profile & path & expected & Hc & (table & Ht & Hr) & Hp & Hprofile).
  split; [by apply Hprofile|]. apply Hp in He as ->. vm_compute in Hc. injection Hc as <- <-.
  exists table, release_partitions. split; [done|].
  split; [eapply rows_prefix; [exact Hr|exact release_rows]|].
  split; [|exact release_writes_encrypted].
  cbn [laid_out release_partitions pt_offset pt_size].
  by repeat split.
Qed.

(** A completed build is at most one of the special images (epoch preview, counter
    maintenance, storage provisioning, identity import, fault test), and only with that
    image's acknowledgement in the environment. *)
Theorem special_builds_exclusive : build_main host [] = Some (Ok tt, out) →
  ∀ f, f ∈ special_features → feature host f = true →
    (∃ variable text, required_ack f = Some (variable, text) ∧ acknowledged host variable text) ∧
    ∀ g, g ∈ special_features → feature host g = true → g = f.
Proof.
  intros E. destruct (build_main_ensures _ _ _ E) as (? & _ & _ & Hf & _).
  destruct Hf as [H1 H2 _ _ H3 H4 H5 _].
  unfold absent, PREVIEW_EXCLUDES, MAINTENANCE_EXCLUDES, IMPORT_EXCLUDES in *. rewrite !Forall_cons in *.
  unfold special_features. intros f Hin Hon. split.
  - repeat (apply elem_of_cons in Hin as [->|Hin]); [..|by apply elem_of_nil in Hin];
      (eexists _, _; split; [reflexivity|naive_solver]).
  - intros g Hg Hgon. destruct (decide (g = f)) as [|Hne]; [done|exfalso].
    repeat (apply elem_of_cons in Hin as [->|Hin]); [..|by apply elem_of_nil in Hin];
    repeat (apply elem_of_cons in Hg as [->|Hg]); try (by apply elem_of_nil in Hg); try done;
    repeat match goal with H : ?a = true → _, H' : ?a = true |- _ => specialize (H H') end;
    destruct_and?; congruence.
Qed.
End build.

(** ** The reviewed release build *)

Definition newline : string := String (ascii_of_nat 10) EmptyString.
(** [partitions-ab-encrypted.csv]. *)
Definition release_table : bytes := ascii_bytes (
  "# Name,      Type, SubType, Offset,   Size,     Flags" +:+ newline +:+
  "otadata,     data, ota,     0x0f000,  0x002000, encrypted" +:+ newline +:+
  "nvs,         data, nvs,     0x11000,  0x006000," +:+ newline +:+
  "phy_init,    data, phy,     0x17000,  0x001000," +:+ newline +:+
  "ota_0,       app,  ota_0,   0x20000,  0x1e0000, encrypted" +:+ newline +:+
  "ota_1,       app,  ota_1,   0x200000, 0x1e0000, encrypted" +:+ newline +:+
  "fido_store,  data, littlefs,0x3e0000, 0x20000,  encrypted" +:+ newline).

Definition release_environment : list (string * string) :=
  [("CARGO_CFG_TARGET_ARCH", "xtensa"); ("PROFILE", "release"); ("CARGO_FEATURE_MCU_ESP32S2", "1");
   ("CARGO_FEATURE_FIDO_STACK", "1"); ("CARGO_FEATURE_USB_BRINGUP", "1"); ("CARGO_FEATURE_USB_SIGNED_UPDATE", "1");
   ("CARGO_FEATURE_RELEASE_FLASH_ENCRYPTION", "1");
   ("SALPA_PARTITION_PROFILE", "signed-ab-encrypted"); ("SALPA_USB_VID", "0x303a"); ("SALPA_USB_PID", "33025");
   ("RISSO_KEY_USB_SERIAL", "salpa-0.1");
   ("SALPA_UPDATE_KEY_DIGEST_HEX", "00112233445566778899aabbccddeeff00112233445566778899aabbccddeeff")]%string.
Definition host_of (environment : list (string * string)) : Host := {|
  var_os name := ascii_bytes ∘ snd <$> List.find (λ v, bool_decide (v.1 = name)) environment;
  read_to_string path := if bool_decide (path = "partitions-ab-encrypted.csv"%string) then Some release_table else None;
  canonicalize _ := None;
  symlink_metadata _ := None;
  read_file _ := None;
  write_ok _ _ := false;
  args := [ascii_bytes "build-script-build"];
  unix := true;
|}.
Definition release_host : Host := host_of release_environment.
Definition release_out : list Instruction :=
  match build_main release_host [] with Some (_, out) => out | None => [] end.

Lemma build_settings_usable_witness :
  build_main release_host [] = Some (Ok tt, release_out) ∧
  (feature release_host "USB_BRINGUP" = true → ∃ vid pid serial id, from_build_values vid pid serial = Ok id ∧
     (∀ v, RustcEnv "SALPA_USB_VID" v ∈ release_out ↔ v = vid) ∧
     (∀ v, RustcEnv "SALPA_USB_PID" v ∈ release_out ↔ v = pid) ∧
     (∀ v, RustcEnv "SALPA_USB_SERIAL" v ∈ release_out ↔ v = serial)).
Proof.
  split; [vm_compute; reflexivity|]. apply (build_settings_usable release_host release_out). vm_compute. reflexivity.
Defined.

Lemma release_table_matches_witness :
  ∃ table partitions, read_to_string release_host "partitions-ab-encrypted.csv" = Some table ∧
    mapM row_partition (table_rows table) = Some partitions ∧ laid_out 0 partitions ∧ writes_encrypted partitions.
Proof. apply (release_table_matches release_host release_out); vm_compute; reflexivity. Defined.

(** The storage provisioner's build, and the same with a second special image. *)
Definition provisioner_environment : list (string * string) :=
  [("CARGO_FEATURE_STORAGE_PROVISIONING", "1"); ("RISSO_KEY_PROVISIONING_ACK", "ERASE_FIDO_STORE")]%string
  ++ release_environment.
Definition provisioner_host : Host := host_of provisioner_environment.
Definition provisioner_out : list Instruction :=
  match build_main provisioner_host [] with Some (_, out) => out | None => [] end.

Lemma special_builds_exclusive_witness :
  feature provisioner_host "STORAGE_PROVISIONING" = true ∧
  ∃ variable text, required_ack "STORAGE_PROVISIONING" = Some (variable, text) ∧
    acknowledged provisioner_host variable text.
Proof.
  split; [vm_compute; reflexivity|].
  apply (special_builds_exclusive provisioner_host provisioner_out);
    [vm_compute; reflexivity|do 2 right; by left|vm_compute; reflexivity].
Defined.

Example two_special_images_panic :
  build_main (host_of ([("CARGO_FEATURE_PHYSICAL_STORAGE_FAULT_TEST", "1");
    ("SALPA_PHYSICAL_FAULT_TEST_ACK", "INTERRUPT_FIDO_STORE")]%string ++ provisioner_environment)) [] = None.
Proof. vm_compute. reflexivity. Qed.
