(* ===== verification/Provisioning.v ===== *)
(** * The provisioning images

    [src/src/bin/provision-storage.rs], [import-attestation.rs] and
    [provision-development.rs] with [platform/rng.rs]: the arming loop, the encrypted
    round trip, the creation of a store and the installation of an identity.  littlefs
    and Trussed are interfaces; an image ends by blinking a number of pulses. *)

From stdpp Require Import base tactics numbers list option strings.
From S2P Require Import Prelude Interfaces Rom FlashEncryption Presence Storage Identity.

(** ** What the images call *)

(** A filesystem on the flash of a device: the calls beside those of [Filesystem], and
    the device it runs on, which the images also use directly. *)
Class StoredFilesystem (F M : Type) `{Rom M, Filesystem F} := {
  on_flash : F → Device M;
  with_flash : F → Device M → F;
  fs_format : F → result FsError unit * F;
  fs_exists : path → F → bool * F;
  fs_rename : path → path → F → result FsError unit * F;
  error_code : FsError → Z;
}.

(** [PathBuf::push]. *)
Definition push (dir name : path) : path := dir +:+ "/" +:+ name.

(** The Trussed client of an image.  A service whose stores are all in RAM works on
    [T], which also holds the entropy source; a service on the credential store works
    on the filesystem too.  [None] of a service is a panic inside its construction. *)
Class TrussedClient (F T : Type) := {
  Id : Type;
  legacy_hex_path : Id → path;
  volatile_store : T → option T;
  rng_new : T → option T;
  rng_read : nat → T → bytes * T;
  proof_service : bytes → T → option T;
  proof_inject : bytes → T → option Id * T;
  proof_derive : Id → T → option Id * T;
  proof_serialize : Id → T → option bytes * T;
  proof_delete : Id → T → option unit * T;
  store_service : bytes → F * T → option unit * (F * T);
  store_inject : bytes → F * T → option Id * (F * T);
  store_write_certificate : bytes → F * T → option Id * (F * T);
  store_key_exists : Z → F * T → option bool * (F * T);
  store_read_certificate : Z → F * T → option bytes * (F * T);
}.

(** The state of an image: the filesystem over its device, and the rest. *)
Record Bench (F X : Type) := mkBench { bn_fs : F; bn_rest : X }.
Arguments mkBench {F X}.
Arguments bn_fs {F X}.
Arguments bn_rest {F X}.

Section lifting.
Context {F M X : Type} `{StoredFilesystem F M} {E A : Type}.

Definition on_device (c : step (Device M) E A) : step (Bench F X) E A := λ b,
  match c (on_flash (bn_fs b)) with
  | Some (r, d) => Some (r, mkBench (with_flash (bn_fs b) d) (bn_rest b))
  | None => None
  end.
Definition on_fs (c : step F E A) : step (Bench F X) E A := λ b,
  match c (bn_fs b) with
  | Some (r, f) => Some (r, mkBench f (bn_rest b))
  | None => None
  end.
(** A filesystem call that returns [Result]. *)
Definition fs_call (c : F → result E A * F) : step (Bench F X) E A := λ b,
  let '(r, f) := c (bn_fs b) in Some (r, mkBench f (bn_rest b)).

(** [call.unwrap_or_else(|error| ..)] with a closure that does not return. *)
Definition unwrap_or_else {E'} (c : step (Bench F X) E A) (handler : E → step (Bench F X) E' A)
  : step (Bench F X) E' A := λ b,
  match c b with
  | Some (Ok a, b) => Some (Ok a, b)
  | Some (Err e, b) => handler e b
  | None => None
  end.
End lifting.

(** ** The arming loop *)

(** In microseconds, and in milliseconds. *)
Definition ARMING_WINDOW : Z := 30000000.
Definition REQUIRED_HOLD_MS : Z := 5000.

(** The readings are [(now, button.is_low())] of each round, [now] in microseconds;
    [None] is a list that ends before the loop does. *)
Fixpoint arm (started : Z) (readings : list (Z * bool)) (gesture : ProvisioningGesture) : option bool :=
  match readings with
  | [] => None
  | (now, pressed) :: readings =>
      if ARMING_WINDOW <=? now - started then Some false
      else
        let '(confirmed, gesture) := gesture_sample pressed (now / 1000) gesture in
        if confirmed then Some true else arm started readings gesture
  end.
Definition armed (started : Z) (readings : list (Z * bool)) : option bool :=
  arm started readings (new_gesture REQUIRED_HOLD_MS).

(** ** [provision-storage] *)

Definition DIAGNOSTIC_MAGIC : Z := 0x52504431.
Definition RISSO_PROVISION_DIAGNOSTIC (stage detail : Z) : list Z :=
  [DIAGNOSTIC_MAGIC; stage; detail; Z.lxor (Z.lxor DIAGNOSTIC_MAGIC stage) detail].

(** [code as u32] of an [i32]. *)
Definition as_u32 (code : Z) : Z := code mod 0x100000000.

Section provision.
Context {F M : Type} `{StoredFilesystem F M}.

(** The second component is the diagnostic record; the error of a step is the
    number of pulses shown. *)
Definition p_step : Type → Type := step (Bench F (list Z)) Z.

Definition milestone (stage detail : Z) : p_step unit :=
  modify (λ b, mkBench (bn_fs b) (RISSO_PROVISION_DIAGNOSTIC stage detail)).

Definition signal_result {A} (pulses : Z) : p_step A := throw pulses.
Definition failed_at {A} (stage detail pulses : Z) : p_step A := milestone stage detail;; signal_result pulses.

Definition FlashEncryptionError_milestone (error : FlashEncryptionError) : Z * Z :=
  match error with
  | FE_Disabled => (101, 0)
  | FE_MappingFailed code => (102, as_u32 code)
  | FE_UnmappedRange => (103, 0)
  | FE_NotAligned => (104, 0)
  | FE_UnlockFailed code => (105, as_u32 code)
  | FE_EraseFailed code => (106, as_u32 code)
  | FE_WriteFailed code => (107, as_u32 code)
  end.

Definition initialize_encrypted_storage : p_step unit :=
  unwrap_or_else (on_device initialize)
    (λ error, let '(stage, detail) := FlashEncryptionError_milestone error in failed_at stage detail 3).

Definition TEST_ADDRESS : Z := 0x003ff000.
Definition TEST_PATTERN : bytes := (λ index, Z.lxor (Z.of_nat index) 0xa5) <$> seq 0 256.

Fixpoint roundtrip_rounds (count index : nat) : p_step unit :=
  match count with
  | O => mret tt
  | S count =>
      unwrap_or_else (on_device (write (TEST_ADDRESS + Z.of_nat index * 32)
                            (slice TEST_PATTERN (index * 32) (index * 32 + 32))))
        (λ _, failed_at 122 (Z.of_nat index) 9);;
      let length := ((index + 1) * 32)%nat in
      actual ← unwrap_or_else (on_device (read TEST_ADDRESS length)) (λ _, failed_at 123 (Z.of_nat index) 11);
      (if bytes_eqb actual (slice TEST_PATTERN 0 length) then mret tt else failed_at 124 (Z.of_nat index) 10);;
      roundtrip_rounds count (S index)
  end.

Definition verify_encrypted_roundtrip : p_step unit :=
  milestone 120 0;;
  unwrap_or_else (on_device (erase TEST_ADDRESS 4096)) (λ _, failed_at 121 0 8);;
  roundtrip_rounds 8 0;;
  unwrap_or_else (on_device (erase TEST_ADDRESS 4096)) (λ _, failed_at 125 0 8);;
  milestone 126 0.

Definition create_store : p_step unit :=
  unwrap_or_else (on_device new_storage) (λ _, failed_at 114 0 3);;
  milestone 7 0;;
  unwrap_or_else (fs_call fs_format) (λ error, failed_at 110 (as_u32 (error_code error)) 4);;
  milestone 8 0;;
  unwrap_or_else (fs_call fs_mount) (λ _, failed_at 111 0 5);;
  milestone 9 0;;
  unwrap_or_else (on_fs write_storage_version) (λ _, failed_at 112 0 6);;
  milestone 10 0;;
  unwrap_or_else (on_fs write_persistent_state_initialization_marker) (λ _, failed_at 113 0 7);;
  milestone 11 0.

Definition provision_confirmed : p_step Z :=
  milestone 4 0;;
  milestone 5 0;;
  initialize_encrypted_storage;;
  milestone 6 0;;
  verify_encrypted_roundtrip;;
  create_store;;
  milestone 12 0;;
  signal_result 2.

Definition provision_storage (started : Z) (readings : list (Z * bool)) : p_step Z :=
  milestone 1 0;;
  milestone 2 0;;
  milestone 3 0;;
  confirmed ← checked (armed started readings);
  if (confirmed : bool) then provision_confirmed else failed_at 100 0 1.
End provision.

(** ** [HardwareRng] *)

Definition SANITY_BLOCK_SIZE : nat := 32.

Section identity.
Context {F M T : Type} `{StoredFilesystem F M, !TrussedClient F T}.

Definition startup_sanity_check (t : T) : result StartupSanityError unit * T :=
  let '(first, t) := rng_read SANITY_BLOCK_SIZE t in
  let '(second, t) := rng_read SANITY_BLOCK_SIZE t in
  (check_blocks first second, t).

(** ** Installing an identity *)

Definition i_step : Type → Type := step (Bench F T) Z.

(** A part that may panic and works on RAM only, a call of a client, a call of a
    client on the store. *)
Definition ram (c : T → option T) : i_step unit := λ b,
  match c (bn_rest b) with Some t => Some (Ok tt, mkBench (bn_fs b) t) | None => None end.
Definition proof_call {A} (c : T → option A * T) (code : Z) : i_step A := λ b,
  match c (bn_rest b) with
  | (Some a, t) => Some (Ok a, mkBench (bn_fs b) t)
  | (None, t) => Some (Err code, mkBench (bn_fs b) t)
  end.
Definition store_call {A} (c : F * T → option A * (F * T)) (code : Z) : i_step A := λ b,
  match c (bn_fs b, bn_rest b) with
  | (Some a, (f, t)) => Some (Ok a, mkBench f t)
  | (None, (f, t)) => Some (Err code, mkBench f t)
  end.

(** [service(..)]: a seed of 32 bytes for a service on the given stores. *)
Definition start_proof_service : i_step unit :=
  ram (λ t, let '(seed, t) := rng_read 32 t in proof_service seed t).
Definition start_store_service : i_step unit := λ b,
  let '(seed, t) := rng_read 32 (bn_rest b) in
  match store_service seed (bn_fs b, t) with
  | (Some _, (f, t)) => Some (Ok tt, mkBench f t)
  | (None, _) => None
  end.

(** The RAM store is formatted and mounted, the entropy source is checked. *)
Definition prepare_ram : i_step unit := ram volatile_store.
Definition prepare_rng : i_step unit :=
  ram rng_new;;
  ram (λ t, match startup_sanity_check t with (Ok _, t) => Some t | (Err _, _) => None end).

Definition exists_in_store (p : path) : i_step bool := λ b,
  let '(found, f) := fs_exists p (bn_fs b) in Some (Ok found, mkBench f (bn_rest b)).

Definition key_path (id : Id) : path := push "fido/sec" (legacy_hex_path id).
Definition cert_path (id : Id) : path := push "fido/x5c" (legacy_hex_path id).

(** [a || b] of two calls: the second runs only if the first is false. *)
Definition occupied : i_step bool :=
  key ← exists_in_store ATTESTATION_KEY_PATH;
  if (key : bool) then mret true else exists_in_store ATTESTATION_CERT_PATH.

Context `{!KeyFormat}.

(** From the injection of the key to the check of what was installed; the arguments are
    the codes of a failed write, an occupied target and a failed check. *)
Definition install_identity (key certificate : bytes) (unwritten taken unverified : Z) : i_step unit :=
  temporary_key ← store_call (store_inject key) unwritten;
  temporary_cert ← store_call (store_write_certificate certificate) unwritten;
  taken_already ← occupied;
  return_if taken_already taken;;
  map_err (fs_call (fs_rename (key_path temporary_key) ATTESTATION_KEY_PATH)) unwritten;;
  map_err (fs_call (fs_rename (cert_path temporary_cert) ATTESTATION_CERT_PATH)) unwritten;;
  key_found ← store_call (store_key_exists 0) unverified;
  return_if (negb key_found) unverified;;
  installed_cert ← store_call (store_read_certificate 0) unverified;
  return_if (negb (bytes_eqb installed_cert certificate)) unverified;;
  map_err (on_fs verify_development_attestation) unverified.

(** ** [import-attestation] *)

Context `{!Sha256}.

(** The files the image is built with. *)
Record ImportBuild := mkImportBuild {
  expected_certificate : bytes;
  expected_public_key : bytes;
}.

(** The key pair of the staged scalar, in RAM. *)
Definition prove_key (build : ImportBuild) (key : bytes) : i_step unit :=
  volatile_key ← proof_call (proof_inject key) 7;
  public ← proof_call (proof_derive volatile_key) 7;
  public_bytes ← proof_call (proof_serialize public) 7;
  return_if (negb (bytes_eqb public_bytes (drop 1 (expected_public_key build)))) 7;;
  proof_call (proof_delete public) 7;;
  proof_call (proof_delete volatile_key) 7.

Definition stage_identity (build : ImportBuild) : i_step ImportIdentity :=
  map_err (on_device initialize) 3;;
  payload ← map_err (on_device (read STAGING_ADDRESS STAGING_BYTES)) 3;
  identity ← match parse payload (expected_certificate build) with Ok id => mret id | Err _ => throw 4 end;
  return_if (negb (byte_at (expected_public_key build) 0 =? 4)) 4;;
  mret identity.

Definition open_empty_store : i_step unit :=
  map_err (on_device new_storage) 3;;
  map_err (on_fs mount_existing) 5;;
  map_err (on_fs verify_empty_identity_import_target) 6.

Definition import_confirmed (build : ImportBuild) : i_step unit :=
  identity ← stage_identity build;
  open_empty_store;;
  prepare_ram;;
  prepare_rng;;
  start_proof_service;;
  prove_key build (id_key identity);;
  start_store_service;;
  install_identity (id_key identity) (id_certificate identity) 8 6 9;;
  map_err (on_device (erase STAGING_ADDRESS STAGING_BYTES)) 10.

(** The number of pulses shown. *)
Definition import_attestation (build : ImportBuild) (started : Z) (readings : list (Z * bool)) (b : Bench F T)
  : option (Z * Bench F T) :=
  confirmed ← armed started readings;
  if (confirmed : bool) then
    match import_confirmed build b with
    | Some (Ok _, b) => Some (2, b)
    | Some (Err code, b) => Some (code, b)
    | None => None
    end
  else Some (1, b).

(** ** [provision-development]

    Every failure is a panic. *)

Definition unwrap {S E E' A} (c : step S E A) : step S E' A := λ s,
  match c s with Some (Ok a, s) => Some (Ok a, s) | _ => None end.

Definition install_development (key certificate : bytes) : i_step unit :=
  unwrap (on_device new_storage);;
  unwrap (fs_call fs_format);;
  unwrap (fs_call fs_mount);;
  unwrap (on_fs write_storage_version);;
  prepare_ram;;
  prepare_rng;;
  start_store_service;;
  unwrap (install_identity key certificate 0 0 0);;
  unwrap (on_fs write_persistent_state_initialization_marker).

Definition provision_development (key certificate : bytes) (started : Z) (readings : list (Z * bool)) : i_step unit :=
  assert_that (is_valid_p256_scalar key);;
  assert_that (bool_decide (certificate_aaguid certificate = Some DEVELOPMENT_AAGUID));;
  confirmed ← checked (armed started readings);
  assert_that confirmed;;
  install_development key certificate.
End identity.
