(* ===== verification/ProvisioningView.v ===== *)
(** * A filesystem on flash

    What the provisioning images rely on beside the laws of [Filesystem]: littlefs reaches
    flash through the driver, and the tree it keeps is a function of the partition.  The
    checks and writes of the firmware on such a filesystem change nothing outside the
    partition, and the provisioner's writes leave the tree the import image accepts. *)

From stdpp Require Import base tactics numbers list option strings relations.
From S2P Require Import Prelude Interfaces Rom FlashEncryption FlashWindows FlashOperations FlashInitialize Storage.
From S2P Require Import StorageTheorems Identity IdentityTheorems Provisioning.

(** ** What a bench promises *)

Section bench.
Context {F M : Type} `{StoredFilesystem F M, !RomView M}.

(** littlefs reaches the device through the driver only. *)
Definition driver_call (d d' : Device M) : Prop :=
  ∃ op r, 0 ≤ so_offset op ∧ (0 < so_length op)%nat ∧ run_op op d = Some (r, d').
Definition driven : relation (Device M) := rtc driver_call.

Definition same_store (d d' : Device M) : Prop :=
  ∀ a, FIDO_STORE_OFFSET ≤ a < FLASH_SIZE → flash (dv_rom d') a = flash (dv_rom d) a.
Definition only_store (d d' : Device M) : Prop :=
  ∀ a, ¬ FIDO_STORE_OFFSET ≤ a < FLASH_SIZE → flash (dv_rom d') a = flash (dv_rom d) a.

Lemma op_within op (d : Device M) : 0 ≤ so_offset op → (0 < so_length op)%nat →
  wp (run_op op) (λ _ d', dwithin FIDO_STORE_OFFSET FLASH_SIZE d d') d.
Proof.
  intros Ho Hpos.
  assert (∀ d', in_partition op →
    dwithin (FIDO_STORE_OFFSET + so_offset op) (FIDO_STORE_OFFSET + so_offset op + Z.of_nat (so_length op)) d d' →
    dwithin FIDO_STORE_OFFSET FLASH_SIZE d d') as Hwide.
  { intros d' Hp. apply dwithin_weaken; unfold in_partition, FIDO_STORE_OFFSET, FIDO_STORE_SIZE, FLASH_SIZE in *; lia. }
  destruct op as [o n|o data|o n]; cbn [run_op so_offset so_length] in *;
    unfold store_read, store_write, store_erase; apply wp_bind.
  - apply (wp_absolute_range (SO_Read o n)); [done|intros Hp|intros _; apply dwithin_refl].
    apply wp_map_err. unfold FlashEncryption.read.
    apply wp_bind, wp_require_initialized; intros _; [|apply dwithin_refl].
    apply wp_bind, wp_ok_or; [|intros _; apply dwithin_refl]. intros v _.
    apply wp_bind, wp_get, wp_ret, wp_ret, dwithin_refl.
  - apply (wp_absolute_range (SO_Write o data)); [done|intros Hp|intros _; apply dwithin_refl].
    destruct (partition_end (SO_Write o data) Hp) as [H0' Hend]. simpl in H0', Hend.
    apply wp_bind, wp_map_err. cbn [fst]. eapply wp_mono; [apply write_inner_wp; [simpl in *; lia|exact Hend|done]|].
    intros r d' [Mu _]. apply mu_within, (Hwide d' Hp) in Mu. destruct r; by repeat apply wp_ret.
  - apply (wp_absolute_range (SO_Erase o n)); [done|intros Hp|intros _; apply dwithin_refl].
    destruct (partition_end (SO_Erase o n) Hp) as [H0' Hend]. simpl in H0', Hend.
    apply wp_bind, wp_map_err. cbn [fst]. eapply wp_mono; [apply erase_inner_wp; [simpl in *; lia|exact Hend|done]|].
    intros r d' [Mu _]. apply mu_within, (Hwide d' Hp) in Mu. destruct r; by repeat apply wp_ret.
Qed.

Lemma driven_within d d' : driven d d' → dwithin FIDO_STORE_OFFSET FLASH_SIZE d d'.
Proof.
  induction 1 as [d|d d1 d2 (op & r & Ho & Hp & E) _ IH]; [apply dwithin_refl|].
  eapply dwithin_trans; [|exact IH]. apply (wp_run _ _ _ _ _ E (op_within op d Ho Hp)).
Qed.
End bench.

(** What the images rely on beside [FilesystemView]: every call reaches flash through the
    driver; the tree is a function of the partition; formatting leaves an empty tree, and
    creating files and directories adds their names. *)
Class StoredView (F M : Type) `{StoredFilesystem F M, !RomView M, !FilesystemView F} := {
  sv_device : ∀ f d, on_flash (with_flash f d) = d;
  sv_tree : ∀ f d, same_store (on_flash f) d → same_tree f (with_flash f d);
  sv_mount : ∀ f r f', fs_mount f = (r, f') → driven (on_flash f) (on_flash f');
  sv_read : ∀ p n f r f', fs_read p n f = (r, f') → driven (on_flash f) (on_flash f');
  sv_write : ∀ p d f r f', fs_write p d f = (r, f') → driven (on_flash f) (on_flash f');
  sv_create_dir : ∀ p f r f', fs_create_dir_all p f = (r, f') → driven (on_flash f) (on_flash f');
  sv_read_dir : ∀ p f r f', fs_read_dir p f = (r, f') → driven (on_flash f) (on_flash f');
  sv_format : ∀ f r f', fs_format f = (r, f') → driven (on_flash f) (on_flash f');
  sv_exists : ∀ p f r f', fs_exists p f = (r, f') → driven (on_flash f) (on_flash f');
  sv_rename : ∀ p q f r f', fs_rename p q f = (r, f') → driven (on_flash f) (on_flash f');
  sv_format_Ok : ∀ f f' root, fs_format f = (Ok tt, f') → parts root = [] →
    (∀ p, fs_file f' p = None) ∧ fs_dir f' root = Some [];
  sv_write_dir : ∀ p d f f' dir name names, fs_write p d f = (Ok tt, f') → plain p →
    parts p = parts dir ++ [name] → fs_dir f dir = Some names →
    ∃ names', fs_dir f' dir = Some names' ∧
      names' ≡ₚ (if decide (name ∈ names) then names else names ++ [name]);
  sv_write_other : ∀ p d f f' dir dir' name, fs_write p d f = (Ok tt, f') → plain p → plain dir' →
    parts p = parts dir ++ [name] → parts dir' ≠ parts dir → fs_dir f' dir' = fs_dir f dir';
  (** Two directories that were not there. *)
  sv_create_dirs : ∀ p f f' root outer inner a c names, fs_create_dir_all p f = (Ok tt, f') → plain p →
    parts root = [] → parts outer = [a] → parts inner = [a; c] → parts p = [a; c] →
    fs_dir f root = Some names → a ∉ names →
    (∃ names', fs_dir f' root = Some names' ∧ names' ≡ₚ names ++ [a]) ∧
    fs_dir f' outer = Some [c] ∧ fs_dir f' inner = Some [];
  sv_exists_frame : ∀ p f r f', fs_exists p f = (r, f') → same_tree f f';
  sv_rename_file : ∀ p q f r f' x, fs_rename p q f = (r, f') → apart_paths p x → apart_paths q x →
    fs_file f' x = fs_file f x;
}.

Section lifted.
Context {F M : Type} `{StoredView F M}.

(** The device of a filesystem changed inside the partition only. *)
Definition store_kept (f f' : F) : Prop :=
  dwithin FIDO_STORE_OFFSET FLASH_SIZE (on_flash f) (on_flash f').

#[export] Instance store_kept_preorder : PreOrder store_kept.
Proof.
  split; [intros f; apply dwithin_refl|]. intros f1 f2 f3. apply dwithin_trans.
Qed.

Lemma preserves_try_fs {E A} (c : F → result FsError A * F) (into : FsError → E) :
  (∀ f r f', c f = (r, f') → driven (on_flash f) (on_flash f')) → preserves store_kept (try_fs c into).
Proof.
  intros Hc f r f'. unfold try_fs. destruct (c f) as [[a|e] f1] eqn:Ec; intros [= <- <-];
    by eapply driven_within, Hc.
Qed.

Lemma preserves_version_step {A} (c : step F StorageVersionError A) :
  preserves store_kept c → preserves store_kept (version_step c).
Proof.
  intros Hc f r f'. unfold version_step. destruct (c f) as [[[a|e] f1]|] eqn:Ec; intros [= <- <-]; by eapply Hc.
Qed.
End lifted.

#[export] Hint Extern 4 (preserves store_kept (try_fs _ _)) => apply preserves_try_fs; first
  [exact sv_mount | exact (sv_read _ _) | exact (sv_write _ _) | exact (sv_create_dir _) | exact (sv_read_dir _)]
  : preserves.
#[export] Hint Resolve preserves_version_step : preserves.

Section tree.
Context {F M : Type} `{StoredView F M}.

Lemma verify_version_kept : preserves store_kept (verify_storage_version (F := F)).
Proof. unfold verify_storage_version. preserve. Qed.
#[local] Hint Resolve verify_version_kept : preserves.
Lemma write_version_kept : preserves store_kept (write_storage_version (F := F)).
Proof. unfold write_storage_version. preserve. Qed.
Lemma write_marker_kept : preserves store_kept (write_persistent_state_initialization_marker (F := F)).
Proof. unfold write_persistent_state_initialization_marker. preserve. Qed.
Lemma mount_existing_kept : preserves store_kept (mount_existing (F := F)).
Proof. unfold mount_existing. preserve. Qed.
Lemma verify_target_kept : preserves store_kept (verify_empty_identity_import_target (F := F)).
Proof. unfold verify_empty_identity_import_target, directory. preserve. Qed.
Lemma attestation_kept `{KeyFormat} : preserves store_kept (verify_development_attestation (F := F)).
Proof. unfold verify_development_attestation. preserve. Qed.

(** *** The tree a provisioner leaves *)

Definition versioned (f : F) : Prop :=
  fs_file f STORAGE_FORMAT_VERSION_PATH = Some STORAGE_FORMAT_VERSION ∧
  holds_exactly f "/" [".rissokey-storage-format"%string].

Lemma holds_exactly_ext f f' dir names : same_tree f f' → holds_exactly f dir names → holds_exactly f' dir names.
Proof. intros [_ E]. unfold holds_exactly. by rewrite E. Qed.

Lemma versioned_ext f f' : same_tree f f' → versioned f → versioned f'.
Proof. intros T [Hf Hd]. split; [by destruct T as [-> _]|by eapply holds_exactly_ext]. Qed.

Ltac paths := by apply (bool_decide_eq_true_1 _).

Lemma wp_write_version f : fs_dir f "/" = Some [] →
  wp write_storage_version (λ r f', (r = Ok tt → versioned f') ∧ store_kept f f') f.
Proof.
  intros Hd. apply wp_preserves; [exact write_version_kept|].
  apply wp_bind, wp_try_fs; [|by intros]. intros [] f1 E.
  eapply wp_mono; [apply wp_verify_version|]. intros r f' [T Hv] ->. eapply versioned_ext; [exact T|].
  split; [by eapply fs_write_Ok|].
  destruct (sv_write_dir _ _ _ _ "/" ".rissokey-storage-format" [] E) as (names & Hn & Hp); [paths|done|done|].
  by exists names.
Qed.

Definition provisioned (f : F) : Prop :=
  importable f ∧ fs_file f STORAGE_FORMAT_VERSION_PATH = Some STORAGE_FORMAT_VERSION.

Lemma provisioned_ext f f' : same_tree f f' → provisioned f → provisioned f'.
Proof.
  intros [T1 T2] [Hi Hv]. split; [|by rewrite T1]. eapply importable_ext; [|exact Hi]. by split.
Qed.

Lemma wp_write_marker f : versioned f →
  wp write_persistent_state_initialization_marker (λ r f', (r = Ok tt → provisioned f') ∧ store_kept f f') f.
Proof.
  intros [Hv (names & Hd & Hnames)]. apply wp_preserves; [exact write_marker_kept|].
  apply wp_bind, wp_try_fs; [|by intros]. intros [] f1 E1.
  apply wp_bind, wp_try_fs; [|by intros]. intros [] f2 E2.
  apply wp_bind, wp_try_fs; [|by intros]. intros stored f3 E3.
  destruct (bytes_eqb stored _); [|by apply wp_throw]. apply wp_ret. intros _.
  apply fs_read_frame in E3. eapply provisioned_ext; [exact E3|]. clear f3 stored E3.
  assert ("fido"%string ∉ names) as Hnot.
  { rewrite Hnames. paths. }
  destruct (sv_create_dirs _ _ _ "/" "/fido" "/fido/dat" "fido" "dat" names E1)
    as ((root & Hr & Hroot) & Hf & Hdat); [paths|done..|].
  assert (parts PERSISTENT_STATE_INITIALIZATION_MARKER_PATH = parts "/fido/dat" ++ ["persistent-state.init"%string]) as Hp
    by done.
  destruct (sv_write_dir _ _ _ _ _ _ _ E2 ltac:(paths) Hp Hdat) as (marker & Hm & Hmarker).
  assert (∀ dir, plain dir → parts dir ≠ parts "/fido/dat" → fs_dir f2 dir = fs_dir f1 dir) as Hother.
  { intros dir Hpl Hne. eapply (sv_write_other _ _ _ _ _ dir _ E2 ltac:(paths) Hpl Hp Hne). }
  split; [split_and!|].
  - exists root. rewrite Hother by paths. split; [done|]. by rewrite Hroot, Hnames.
  - exists ["dat"%string]. rewrite Hother by paths. done.
  - exists marker. split; [done|]. by rewrite Hmarker.
  - by eapply fs_write_Ok.
  - rewrite (fs_write_file _ _ _ _ _ _ E2) by paths. by rewrite (fs_create_dir_file _ _ _ _ _ E1).
Qed.
End tree.

