(* ===== verification/ModelBench.v ===== *)
(** * A concrete bench

    The filesystem in memory of [StorageTheorems] beside a device with the concrete ROM: it
    discharges the laws of [StoredView], so the theorems on the provisioning images apply
    to it. *)

From stdpp Require Import base tactics numbers list option strings relations sets gmap.
From S2P Require Import Prelude Rom FlashEncryption FlashWindows ModelRom FlashInitialize Storage StorageTheorems.
From S2P Require Import Provisioning ProvisioningView.

Record bench_fs := mkBenchFs { bf_tree : model_fs; bf_device : Device model_rom }.

(** A call on the tree. *)
Definition on_tree {A} (c : model_fs → A * model_fs) (f : bench_fs) : A * bench_fs :=
  let '(a, tree) := c (bf_tree f) in (a, mkBenchFs tree (bf_device f)).

#[export] Instance bench_filesystem : Filesystem bench_fs := {|
  fs_mount := on_tree fs_mount;
  fs_read p n := on_tree (fs_read p n);
  fs_write p d := on_tree (fs_write p d);
  fs_create_dir_all p := on_tree (fs_create_dir_all p);
  fs_read_dir p := on_tree (fs_read_dir p);
|}.

Lemma on_tree_eq {A} (c : model_fs → A * model_fs) f a f' :
  on_tree c f = (a, f') → c (bf_tree f) = (a, bf_tree f') ∧ bf_device f' = bf_device f.
Proof. unfold on_tree. destruct (c (bf_tree f)). by intros [= <- <-]. Qed.

#[export] Instance bench_view : FilesystemView bench_fs.
Proof.
  refine {| fs_file f := fs_file (bf_tree f); fs_dir f := fs_dir (bf_tree f) |}.
  - intros f r f' [E _]%on_tree_eq. by eapply fs_mount_frame.
  - intros p n f r f' [E _]%on_tree_eq. by eapply fs_read_frame.
  - intros p n f d f' [E _]%on_tree_eq. by eapply fs_read_Ok.
  - intros p d f f' [E _]%on_tree_eq. by eapply fs_write_Ok.
  - intros p d f r f' q [E _]%on_tree_eq. by eapply fs_write_file.
  - intros p f r f' q [E _]%on_tree_eq. by eapply fs_create_dir_file.
  - intros p f r f' [E _]%on_tree_eq. by eapply fs_read_dir_frame.
  - intros p f l f' [E _]%on_tree_eq. by eapply fs_read_dir_Ok.
Defined.

#[export] Instance bench_healthy : HealthyFilesystem bench_fs.
Proof.
  refine {| fs_healthy _ := True |}.
  - intros f _. eexists. by split.
  - intros p n f d _ E. destruct (fs_healthy_read p n (bf_tree f) d (model_done _) E) as (f' & E' & _).
    exists (mkBenchFs f' (bf_device f)). split; [|done]. cbn [fs_read bench_filesystem]. unfold on_tree. by rewrite E'.
  - intros p f names _ E. destruct (fs_healthy_read_dir p (bf_tree f) names (model_done _) E) as (l & f' & E' & _).
    exists l, (mkBenchFs f' (bf_device f)). split; [|done]. cbn [fs_read_dir bench_filesystem]. unfold on_tree.
    by rewrite E'.
Defined.

(** Moving a file. *)
Definition rename_file (p q : path) (f : model_fs) : result FsError unit * model_fs :=
  match mf_files f !! parts p with
  | Some d => (Ok tt, mkModelFs (<[parts q := d]> (delete (parts p) (mf_files f))) (mf_dirs f))
  | None => (Err (FS_OTHER (-2)), f)
  end.

#[export] Instance bench_stored : StoredFilesystem bench_fs model_rom := {|
  on_flash := bf_device;
  with_flash f d := mkBenchFs (bf_tree f) d;
  fs_format := on_tree (λ _, (Ok tt, fresh_fs));
  fs_exists p f := (bool_decide (is_Some (mf_files (bf_tree f) !! parts p)), f);
  fs_rename p q := on_tree (rename_file p q);
  error_code e := match e with FS_IO => -5 | FS_CORRUPTION => -84 | FS_DIR_NOT_EMPTY => -39 | FS_OTHER c => c end;
|}.

(** The names a directory lists. *)
Definition listed (raw : list string) : list string := filter (λ x, x ∉ ["."; ".."]%string) (remove_dups raw).

Lemma elem_of_listed x raw : x ∈ listed raw ↔ x ∈ raw ∧ x ∉ ["."; ".."]%string.
Proof. unfold listed. rewrite list_elem_of_filter, elem_of_remove_dups. tauto. Qed.

Lemma listed_add name raw : name ∉ ["."; ".."]%string →
  listed (if decide (name ∈ raw) then raw else raw ++ [name]) ≡ₚ
  (if decide (name ∈ listed raw) then listed raw else listed raw ++ [name]).
Proof.
  intros Hn. destruct (decide (name ∈ raw)) as [Hin|Hout].
  { by rewrite decide_True by by rewrite elem_of_listed. }
  rewrite decide_False by (rewrite elem_of_listed; tauto).
  apply NoDup_Permutation.
  - apply NoDup_filter, NoDup_remove_dups.
  - apply NoDup_app. split; [apply NoDup_filter, NoDup_remove_dups|]. split; [|apply NoDup_singleton].
    intros x [Hx _]%elem_of_listed. set_solver.
  - intros x. rewrite elem_of_app, !elem_of_listed, elem_of_app. set_solver.
Qed.

Lemma listed_one name : name ∉ ["."; ".."]%string → listed [name] = [name].
Proof.
  intros Hn. unfold listed. replace (remove_dups [name]) with [name]; [by rewrite filter_cons_True|].
  cbn. destruct (decide_rel _ _ _) as [Hin|]; [by apply elem_of_nil in Hin|done].
Qed.

Lemma plain_last p dir name : plain p → parts p = dir ++ [name] → name ∉ ["."; ".."]%string.
Proof. intros [H1 H2] E. rewrite E in *. set_solver. Qed.

Lemma on_tree_driven {A} (c : model_fs → A * model_fs) (f f' : bench_fs) a :
  on_tree c f = (a, f') → driven (M := model_rom) (on_flash f) (on_flash f').
Proof. intros [_ E]%on_tree_eq. cbn. rewrite E. apply rtc_refl. Qed.

#[export] Instance bench_stored_view : StoredView bench_fs model_rom.
Proof.
  split.
  - done.
  - done.
  - intros f r f'. apply on_tree_driven.
  - intros p n f r f'. apply on_tree_driven.
  - intros p d f r f'. apply on_tree_driven.
  - intros p f r f'. apply on_tree_driven.
  - intros p f r f'. apply on_tree_driven.
  - intros f r f'. apply on_tree_driven.
  - intros p f r f' [= _ <-]. apply rtc_refl.
  - intros p q f r f'. apply on_tree_driven.
  - intros f f' root [= <-] Hroot. cbn. by rewrite Hroot.
  - intros p d f f' dir name names [= <-] Hp Hparts Hd. cbn in *. rewrite Hparts, removelast_last, last_last. unfold add_name.
    destruct (mf_dirs (bf_tree f) !! parts dir) as [raw|]; [|done]. injection Hd as <-.
    rewrite lookup_insert_eq. eexists. split; [reflexivity|]. cbn [default].
    apply listed_add. by eapply plain_last.
  - intros p d f f' dir dir' name [= <-] Hp _ Hparts Hne. cbn. rewrite Hparts, removelast_last. unfold add_name. by rewrite lookup_insert_ne by congruence.
  - intros p f f' root outer inner a c names [= <-] Hp Hroot Houter Hinner Hparts Hd Ha.
    cbn in *. rewrite Hparts, Hroot, Houter, Hinner in *. cbn.
    destruct (mf_dirs (bf_tree f) !! []) as [raw|] eqn:Er; [|done]. injection Hd as <-. cbn [default].
    pose proof (plain_last p [] a) as Hna. pose proof (plain_last p [a] c Hp Hparts) as Hc.
    assert (a ∉ ["."; ".."]%string) as Had by (destruct Hp as [H1 H2]; rewrite Hparts in *; set_solver). clear Hna.
    assert (a ∉ raw) as Har by (intros Hin; apply Ha, elem_of_listed; done).
    unfold add_name. rewrite Er. cbn [default id from_option]. rewrite !(decide_False (P := a ∈ raw)) by done.
    repeat (rewrite lookup_insert_eq || rewrite lookup_insert_ne by done). cbn [default id from_option].
    rewrite !decide_False by (apply not_elem_of_nil).
    repeat (rewrite lookup_insert_eq || rewrite lookup_insert_ne by done). cbn [default id from_option app].
    split_and!; [|f_equal..].
    + eexists. split; [reflexivity|]. cbn [compose].
      pose proof (listed_add a raw Had) as P. rewrite (decide_False (P := a ∈ raw)), decide_False in P by done. exact P.
    + cbn [fmap option_fmap option_map compose]. f_equal. by apply listed_one.
  - intros p f r f' [= _ <-]. done.
  - intros p q f r f' x E (Hp & Hx & Hpx) (Hq & _ & Hqx). apply on_tree_eq in E as [E _]. cbn in *.
    unfold rename_file in E. destruct (mf_files (bf_tree f) !! parts p); injection E as _ <-; [|done]. cbn.
    by rewrite lookup_insert_ne, lookup_delete_ne by done.
Defined.
