(* ===== verification/ProvisioningTheorems.v ===== *)
(** * What the provisioning images may do

    An image acts only after a fresh hold, changes only the credential partition (the
    import image also its staging sector), and reports success only for a store the
    other images and normal firmware accept. *)

From stdpp Require Import base tactics numbers list option strings relations.
From S2P Require Import Prelude Interfaces Rom FlashEncryption FlashWindows FlashOperations FlashInitialize Presence.
From S2P Require Import PresenceTheorems Storage StorageTheorems Identity IdentityTheorems Provisioning.
From S2P Require Import ProvisioningView ModelRom ModelBench.

(** ** The arming loop *)

Definition in_arming_window (started : Z) (reading : Z * bool) : Prop := reading.1 - started < ARMING_WINDOW.

(** A release, then only pressed readings for the required time, all within the window. *)
Definition fresh_hold (started : Z) (readings : list (Z * bool)) : Prop :=
  ∃ pre now rest i released since, readings = pre ++ (now, true) :: rest ∧
    pre !! i = Some (released, false) ∧ pre !! S i = Some (since, true) ∧
    (∀ k reading, (i < k)%nat → pre !! k = Some reading → reading.2 = true) ∧
    REQUIRED_HOLD_MS ≤ now / 1000 - since / 1000 ∧
    Forall (in_arming_window started) (pre ++ [(now, true)]).

Definition sample_of (reading : Z * bool) : bool * Z := (reading.2, reading.1 / 1000).

Lemma arm_confirmed started readings seen g :
  g = gesture_run (sample_of <$> seen) (new_gesture REQUIRED_HOLD_MS) →
  Forall (in_arming_window started) seen → arm started readings g = Some true →
  ∃ pre now rest, seen ++ readings = pre ++ (now, true) :: rest ∧
    (gesture_sample true (now / 1000) (gesture_run (sample_of <$> pre) (new_gesture REQUIRED_HOLD_MS))).1 = true ∧
    Forall (in_arming_window started) (pre ++ [(now, true)]).
Proof.
  revert seen g. induction readings as [|[now pressed] readings IH]; intros seen g Hg Hs E; [done|].
  cbn [arm] in E. destruct (Z.leb_spec ARMING_WINDOW (now - started)) as [|Hw]; [done|].
  destruct (gesture_sample pressed (now / 1000) g) as [[] g'] eqn:Eg.
  - exists seen, now, readings. destruct pressed; [|by inversion Eg]. subst g. rewrite Eg. split; [done|].
    split; [done|]. apply Forall_app. split; [done|]. by repeat constructor.
  - destruct (IH (seen ++ [(now, pressed)]) g') as (pre & n & rest & Hr & K); [| |done|].
    + rewrite fmap_app. cbn [fmap list_fmap]. rewrite gesture_run_snoc. cbn [fst snd sample_of].
      by rewrite <- Hg, Eg.
    + apply Forall_app. split; [done|]. by repeat constructor.
    + exists pre, n, rest. by rewrite <- Hr, <- app_assoc.
Qed.

Lemma armed_is_fresh started readings : Forall (λ r, 0 ≤ r.1) readings →
  armed started readings = Some true → fresh_hold started readings.
Proof.
  intros Hpos E. destruct (arm_confirmed started readings [] _ eq_refl (List.Forall_nil _) E)
    as (pre & now & rest & Hr & Hg & Hw). cbn [app] in Hr.
  apply provisioning_needs_fresh_hold in Hg as (i & t & since & Hi & Hs & Hall & Hhold); [|done|].
  2: { rewrite Hr in Hpos. apply Forall_app in Hpos as [_ Hpos]. inversion_clear Hpos. by apply Z.div_pos. }
  rewrite !list_lookup_fmap in *. apply fmap_Some in Hi as ([rt rb] & Hi & Ei). apply fmap_Some in Hs as ([st sb] & Hs & Es).
  unfold sample_of in Ei, Es. simplify_eq/=.
  exists pre, now, rest, i, rt, st. rewrite Hi, Hs. split_and!; try done; try congruence.
  intros k x Hk Hx. apply (Hall k (sample_of x) Hk). by rewrite list_lookup_fmap, Hx.
Qed.

(** ** The storage provisioner *)

Section bench_rules.
Context {F M X : Type} `{StoredView F M} {E A : Type}.

Lemma wp_on_device (c : step (Device M) E A) (Q : result E A → Bench F X → Prop) (b : Bench F X) :
  wp c (λ r d, Q r (mkBench (with_flash (bn_fs b) d) (bn_rest b))) (on_flash (bn_fs b)) → wp (on_device c) Q b.
Proof. unfold wp, on_device. by destruct (c _) as [[r d]|]. Qed.

Lemma wp_on_fs (c : step F E A) (Q : result E A → Bench F X → Prop) (b : Bench F X) :
  wp c (λ r f, Q r (mkBench f (bn_rest b))) (bn_fs b) → wp (on_fs c) Q b.
Proof. unfold wp, on_fs. by destruct (c _) as [[r f]|]. Qed.

Lemma wp_fs_call (c : F → result E A * F) (Q : result E A → Bench F X → Prop) (b : Bench F X) :
  (∀ r f, c (bn_fs b) = (r, f) → Q r (mkBench f (bn_rest b))) → wp (fs_call c) Q b.
Proof. unfold wp, fs_call. destruct (c _) as [r f]. auto. Qed.

Lemma wp_or_else {E'} (c : step (Bench F X) E A) (h : E → step (Bench F X) E' A) (Q : result E' A → Bench F X → Prop) b :
  wp c (λ r b', match r with Ok a => Q (Ok a) b' | Err e => wp (h e) Q b' end) b → wp (unwrap_or_else c h) Q b.
Proof. unfold wp, unwrap_or_else. by destruct (c b) as [[[a|e] b']|]. Qed.
End bench_rules.

Section provision.
Context {F M : Type} `{StoredView F M}.

Abbreviation bench := (Bench F (list Z)).
Definition device {X} (b : Bench F X) : Device M := on_flash (bn_fs b).

Lemma wp_milestone stage detail (Q : result Z unit → bench → Prop) b :
  Q (Ok tt) (mkBench (bn_fs b) (RISSO_PROVISION_DIAGNOSTIC stage detail)) → wp (milestone stage detail) Q b.
Proof. intros K. by apply wp_modify. Qed.

Lemma wp_failed_at {A} stage detail pulses (Q : result Z A → bench → Prop) b :
  Q (Err pulses) (mkBench (bn_fs b) (RISSO_PROVISION_DIAGNOSTIC stage detail)) → wp (failed_at stage detail pulses) Q b.
Proof. intros K. apply wp_bind, wp_milestone, wp_throw. done. Qed.

(** The flash is open: every window can be read. *)
Definition open (d : Device M) : Prop := dv_initialized d = true ∧ windows_ok d.

Lemma open_window d : open d → window_ok (dv_rom d) FIDO_STORE_MAPPING.
Proof. intros [Hi W]. by apply store_window. Qed.

Lemma wp_initialize_encrypted_storage b : windows_ok (device b) →
  wp initialize_encrypted_storage (λ r b', flash (dv_rom (device b')) = flash (dv_rom (device b)) ∧
    match r with Ok _ => open (device b') | Err pulses => pulses = 3 end) b.
Proof.
  intros W. apply wp_or_else, wp_on_device. eapply wp_mono; [by apply initialize_wp|].
  intros [[]|e] d (Hf & _ & Hok & _).
  - unfold device. cbn [bn_fs]. rewrite sv_device. split; [done|]. by apply Hok.
  - destruct (FlashEncryptionError_milestone e). apply wp_failed_at. unfold device. cbn [bn_fs].
    by rewrite sv_device.
Qed.

(** *** The round trip *)

Lemma length_pattern : length TEST_PATTERN = 256%nat.
Proof. done. Qed.
Lemma pattern_bytes : Forall is_byte TEST_PATTERN.
Proof. apply bytes_ok_spec. vm_compute. reflexivity. Qed.

(** The first [k] bytes of the pattern are there, the rest of the sector is erased. *)
Definition pattern_upto (k : nat) (d : Device M) : Prop :=
  (∀ i, (i < k)%nat → flash (dv_rom d) (TEST_ADDRESS + Z.of_nat i) = byte_at TEST_PATTERN i) ∧
  (∀ a, TEST_ADDRESS + Z.of_nat k ≤ a < TEST_ADDRESS + 4096 → erased (dv_rom d) a).

Lemma mutated_open lo hi d d' (r : result FlashEncryptionError unit) :
  open d → mutated lo hi d d' (true = true ∧ r = Ok tt) → r = Ok tt → open d'.
Proof.
  intros [Hi W] Mu ->. pose proof (mu_within _ _ _ _ _ Mu) as [Hi' _]. split; [congruence|]. intros _.
  apply List.Forall_forall. intros mp Hmp%list_elem_of_In. apply (mu_windows _ _ _ _ _ Mu); [done..|by apply windows_in].
Qed.

Lemma dwithin_only lo hi (d d' : Device M) : FIDO_STORE_OFFSET ≤ lo → hi ≤ FLASH_SIZE →
  dwithin lo hi d d' → only_store d d'.
Proof. intros Hl Hh [_ W] a Ha. apply (wi_flash _ _ _ _ W). lia. Qed.

Lemma only_trans (d1 d2 d3 : Device M) : only_store d1 d2 → only_store d2 d3 → only_store d1 d3.
Proof. intros A B a Ha. by rewrite B, A. Qed.

Lemma wp_erase_test b (h : p_step unit) pulses stage : open (device b) →
  h = failed_at stage 0 pulses →
  wp (unwrap_or_else (on_device (erase TEST_ADDRESS 4096)) (λ _, h)) (λ r b', only_store (device b) (device b') ∧
    match r with Ok _ => open (device b') ∧ pattern_upto 0 (device b') | Err p => p = pulses end) b.
Proof.
  intros Hopen ->. apply wp_or_else, wp_on_device.
  eapply wp_mono; [apply erase_inner_wp; [done|by vm_compute|lia]|].
  intros r d [Mu K].
  assert (only_store (device b) d) as Ho by (eapply dwithin_only; [..|apply Mu]; by vm_compute).
  destruct r as [[]|e].
  - unfold device in *. cbn [bn_fs]. rewrite sv_device. split; [done|]. split; [by eapply mutated_open|].
    split; [lia|]. destruct K as [_ K]; [done|]. intros a Ha. apply K. simpl in *. lia.
  - apply wp_failed_at. unfold device in *. cbn [bn_fs]. by rewrite sv_device.
Qed.

Lemma pattern_slice i : (i < 8)%nat →
  length (slice TEST_PATTERN (i * 32) (i * 32 + 32)) = 32%nat ∧
  ∀ j, (j < 32)%nat → byte_at (slice TEST_PATTERN (i * 32) (i * 32 + 32)) j = byte_at TEST_PATTERN (i * 32 + j).
Proof.
  intros Hi. split; [rewrite length_slice; rewrite ?length_pattern; lia|]. intros j Hj. apply byte_at_slice. lia.
Qed.

(** One block of the pattern is added. *)
Lemma pattern_written i d d' : (i < 8)%nat → pattern_upto (i * 32) d →
  dwithin (TEST_ADDRESS + Z.of_nat i * 32) (TEST_ADDRESS + Z.of_nat i * 32 + 32) d d' →
  mem_read (flash (dv_rom d')) (TEST_ADDRESS + Z.of_nat i * 32) 32 = slice TEST_PATTERN (i * 32) (i * 32 + 32) →
  pattern_upto ((i + 1) * 32) d'.
Proof.
  intros Hi [Hp He] [_ W] Hr. destruct (pattern_slice i Hi) as [Hl Hs]. split.
  - intros j Hj. destruct (decide (j < i * 32)%nat) as [Hlt|Hge].
    + rewrite (wi_flash _ _ _ _ W) by lia. by apply Hp.
    + replace (byte_at TEST_PATTERN j) with (byte_at TEST_PATTERN (i * 32 + (j - i * 32))) by (f_equal; lia).
      rewrite <- Hs, <- Hr by lia. symmetry. apply byte_at_lookup. rewrite lookup_mem_read by lia.
      do 2 f_equal. lia.
  - intros a Ha. apply (wi_erased _ _ _ _ W); [lia|]. apply He. lia.
Qed.

Lemma pattern_read k d : (k ≤ 256)%nat → pattern_upto k d →
  mem_read (flash (dv_rom d)) TEST_ADDRESS k = slice TEST_PATTERN 0 k.
Proof.
  intros Hk [Hp _]. apply list_eq. intros i. unfold slice. rewrite drop_0, Nat.sub_0_r.
  destruct (decide (i < k)%nat) as [Hi|Hi].
  - rewrite lookup_mem_read, Hp, lookup_take_lt by done.
    destruct (lookup_lt_is_Some_2 TEST_PATTERN i) as [x Hx]; [rewrite length_pattern; lia|].
    by rewrite (byte_at_lookup _ _ _ Hx), Hx.
  - rewrite !lookup_ge_None_2; [done|rewrite length_take, length_pattern; lia|rewrite length_mem_read; lia].
Qed.

Lemma wp_roundtrip_rounds count index b : (index + count = 8)%nat → open (device b) →
  pattern_upto (index * 32) (device b) →
  wp (roundtrip_rounds count index) (λ r b', only_store (device b) (device b') ∧
    match r with Ok _ => open (device b') | Err pulses => pulses = 9 end) b.
Proof.
  revert index b. induction count as [|count IH]; intros index b Hc Hopen Hp; [by apply wp_ret|].
  cbn [roundtrip_rounds]. destruct (pattern_slice index) as [Hl _]; [lia|].
  apply wp_bind, wp_or_else, wp_on_device.
  eapply wp_mono; [apply write_inner_wp; rewrite ?Hl; unfold TEST_ADDRESS, U32_MAX; lia|].
  cbv zeta. rewrite ?Hl. intros r d [Mu K].
  assert (only_store (device b) d) as Ho.
  { eapply dwithin_only; [..|apply Mu]; unfold TEST_ADDRESS, FIDO_STORE_OFFSET, FLASH_SIZE, FIDO_STORE_SIZE; lia. }
  destruct r as [[]|e]; [|apply wp_failed_at; unfold device in *; cbn [bn_fs]; by rewrite sv_device].
  assert (open d) as Hd by by eapply mutated_open.
  assert (pattern_upto ((index + 1) * 32) d) as Hp'.
  { eapply pattern_written; [lia|exact Hp|apply Mu|]. destruct K as [_ K]; [done|]. apply K.
    - apply slice_bytes, pattern_bytes.
    - intros a Ha. apply Hp. unfold TEST_ADDRESS in *. lia. }
  set (b' := mkBench (with_flash (bn_fs b) d) (bn_rest b)).
  assert (device b' = d) as Hdev by apply sv_device.
  apply wp_bind, wp_or_else, wp_on_device. change (on_flash (bn_fs b')) with (device b'). rewrite Hdev.
  unfold wp at 1. rewrite (read_spec FIDO_STORE_MAPPING);
    [|by do 3 right; left|by vm_compute|lia|unfold TEST_ADDRESS; cbn [physical_start size FIDO_STORE_MAPPING]; lia|apply Hd|by apply open_window].
  apply wp_bind. rewrite pattern_read, bytes_eqb_refl by (done || lia). apply wp_ret.
  eapply wp_mono; [apply IH; [lia|by unfold device; cbn [bn_fs]; rewrite sv_device|]|].
  { unfold device. cbn [bn_fs]. rewrite sv_device. by replace (S index) with (index + 1)%nat by lia. }
  intros r b'' [Ho' K']. split; [|done]. eapply only_trans; [exact Ho|].
  unfold device in Ho' at 1. cbn [bn_fs] in Ho'. by rewrite sv_device in Ho'.
Qed.

Lemma wp_verify_encrypted_roundtrip b : open (device b) →
  wp verify_encrypted_roundtrip (λ r b', only_store (device b) (device b') ∧
    match r with Ok _ => open (device b') | Err pulses => pulses = 8 ∨ pulses = 9 end) b.
Proof.
  intros Hopen. apply wp_bind, wp_milestone, wp_bind.
  set (b0 := mkBench _ _). assert (device b0 = device b) as E0 by done.
  eapply wp_mono; [apply (wp_erase_test b0 _ 8 121); [by rewrite E0|done]|].
  rewrite E0. intros [[]|p] b1 [O1 K1]; [|split; [done|by left]]. destruct K1 as [Op1 P1].
  apply wp_bind. eapply wp_mono; [by apply (wp_roundtrip_rounds 8 0)|].
  intros [[]|p] b2 [O2 K2]; [|split; [by eapply only_trans|by right]].
  apply wp_bind. eapply wp_mono; [by apply (wp_erase_test b2 _ 8 125)|].
  intros [[]|p] b3 [O3 K3]; [apply wp_milestone|]; (split; [by do 2 (eapply only_trans; [eassumption|])|]);
    [by destruct K3|by left].
Qed.

(** *** The store *)

Lemma kept_only (f f' : F) : store_kept f f' → only_store (on_flash f) (on_flash f').
Proof. by apply dwithin_only. Qed.

Lemma driven_kept (f f' : F) : driven (on_flash f) (on_flash f') → store_kept f f'.
Proof. apply driven_within. Qed.

Ltac confined := unfold device in *; cbn [bn_fs] in *;
  repeat first [assumption | eapply only_trans; [eassumption|]].

Lemma wp_create_store b : open (device b) →
  wp create_store (λ r b', only_store (device b) (device b') ∧
    match r with Ok _ => provisioned (bn_fs b') | Err pulses => pulses ∈ [3; 4; 5; 6; 7] end) b.
Proof.
  intros [Hi W]. apply wp_bind, wp_or_else, wp_on_device, wp_map_err.
  eapply wp_mono; [by apply initialize_wp|]. intros r0 d (Hf & _).
  assert (only_store (device b) d) as O0 by (intros a _; by rewrite Hf).
  set (b0 := mkBench (with_flash (bn_fs b) d) (bn_rest b)).
  assert (device b0 = d) as E0 by apply sv_device. rewrite <- E0 in O0. clearbody b0. clear E0 Hf.
  destruct r0 as [[]|e]; [|by apply wp_failed_at; split; [|set_solver]].
  apply wp_bind, wp_milestone, wp_bind, wp_or_else, wp_fs_call. cbn [bn_fs].
  intros r1 f1 E1. pose proof (kept_only _ _ (driven_kept _ _ (sv_format _ _ _ E1))) as O1.
  destruct r1 as [[]|e]; [|apply wp_failed_at; split; [by confined|set_solver]].
  destruct (sv_format_Ok _ _ "/" E1) as [_ Hroot]; [done|].
  apply wp_bind, wp_milestone, wp_bind, wp_or_else, wp_fs_call. cbn [bn_fs].
  intros r2 f2 E2. pose proof (kept_only _ _ (driven_kept _ _ (sv_mount _ _ _ E2))) as O2.
  destruct (fs_mount_frame _ _ _ E2) as [_ D2]. rewrite <- D2 in Hroot.
  destruct r2 as [[]|e]; [|apply wp_failed_at; split; [by confined|set_solver]].
  apply wp_bind, wp_milestone, wp_bind, wp_or_else, wp_on_fs.
  eapply wp_mono; [by apply wp_write_version|]. intros r3 f3 [K3 O3%kept_only].
  destruct r3 as [[]|e]; [|apply wp_failed_at; split; [by confined|set_solver]].
  apply wp_bind, wp_milestone, wp_bind, wp_or_else, wp_on_fs.
  eapply wp_mono; [apply wp_write_marker; by apply K3|]. intros r4 f4 [K4 O4%kept_only].
  destruct r4 as [[]|e]; [|apply wp_failed_at; split; [by confined|set_solver]].
  apply wp_milestone. split; [by confined|]. by apply K4.
Qed.

Definition outcome (pulses : Z) (b' : bench) : Prop :=
  pulses ∈ [2; 3; 4; 5; 6; 7; 8; 9] ∧
  (pulses = 2 → provisioned (bn_fs b') ∧ bn_rest b' = RISSO_PROVISION_DIAGNOSTIC 12 0).

Lemma wp_provision_confirmed b : windows_ok (device b) →
  wp provision_confirmed (λ r b', only_store (device b) (device b') ∧
    match r with Ok _ => False | Err pulses => outcome pulses b' end) b.
Proof.
  intros W. apply wp_bind, wp_milestone, wp_bind, wp_milestone, wp_bind.
  eapply wp_mono; [by apply wp_initialize_encrypted_storage|]. intros r1 b1 [F1 K1].
  assert (only_store (device b) (device b1)) as O1 by (intros a _; by rewrite F1).
  destruct r1 as [[]|p]; [|subst p; by split; [|split; [set_solver|]]].
  apply wp_bind, wp_milestone, wp_bind.
  eapply wp_mono; [by apply wp_verify_encrypted_roundtrip|]. intros r2 b2 [O2 K2].
  assert (only_store (device b) (device b2)) as O2' by by eapply only_trans.
  destruct r2 as [[]|p]; [|by split; [|destruct K2 as [-> | ->]; (split; [set_solver|])]].
  apply wp_bind. eapply wp_mono; [by apply wp_create_store|]. intros r3 b3 [O3 K3].
  assert (only_store (device b) (device b3)) as O3' by by eapply only_trans.
  destruct r3 as [[]|p]; [|split; [done|split; [set_solver|intros ->; set_solver]]].
  apply wp_bind, wp_milestone, wp_throw. split; [done|]. split; [set_solver|]. by intros _.
Qed.

Context `{!HealthyFilesystem F}.

(** C37: Storage provisioning: once the arming loop ends the image shows a result.  It acts
    only after a fresh five-second hold in the arming window, and otherwise changes no
    flash and shows one pulse; whatever happens no byte outside the credential partition
    changes; its encrypted round trip never reads back anything but what it wrote; and it
    reports success only for a store whose tree the identity import accepts and, on healthy
    flash, normal firmware mounts. *)
Theorem provision_storage_outcome started readings confirmed b :
  windows_ok (device b) → Forall (λ r, 0 ≤ r.1) readings → armed started readings = Some confirmed →
  ∃ pulses b', finish (provision_storage started readings) b = Some (pulses, b') ∧
    only_store (device b) (device b') ∧
    (if confirmed then fresh_hold started readings else pulses = 1 ∧ bn_fs b' = bn_fs b) ∧
    pulses ∈ [1; 2; 3; 4; 5; 6; 7; 8; 9] ∧
    (pulses = 2 → provisioned (bn_fs b') ∧ bn_rest b' = RISSO_PROVISION_DIAGNOSTIC 12 0 ∧
       (fs_healthy (bn_fs b') → (∃ f1, mount_existing (bn_fs b') = Some (Ok tt, f1)) ∧
                                ∃ f2, verify_empty_identity_import_target (bn_fs b') = Some (Ok tt, f2))).
Proof.
  intros W Hpos Harm. apply wp_finish. unfold provision_storage.
  do 3 apply wp_bind, wp_milestone. apply wp_bind. eapply wp_checked; [exact Harm|]. destruct confirmed.
  2: { apply wp_failed_at. split; [by intros a _|]. split; [done|]. split; [set_solver|done]. }
  eapply wp_mono; [by apply wp_provision_confirmed|]. intros [?|pulses] b' [O K]; [done|].
  destruct K as [Hp K]. split; [done|]. split; [by apply armed_is_fresh|]. split; [set_solver|].
  intros E. destruct (K E) as [Hprov Hd]. split; [done|]. split; [done|]. intros Hh. split.
  - apply run_mount; [done|apply Hprov].
  - destruct (import_target_exact (bn_fs b')) as (r & f2 & E2 & _ & _ & Hr).
    exists f2. by rewrite E2, Hr by (done || apply Hprov).
Qed.
End provision.

(** ** Witnesses *)

Definition blank_bench : Bench bench_fs (list Z) := mkBench (mkBenchFs (mkModelFs ∅ ∅) (reset_device (λ _, 0))) [].
(** Released at power-up, then held from one second to six. *)
Definition hold_readings : list (Z * bool) := [(0, false); (1000000, true); (6000000, true)].

Lemma provision_storage_outcome_witness :
  ∃ pulses b', finish (provision_storage 0 hold_readings) blank_bench = Some (pulses, b') ∧
    fresh_hold 0 hold_readings ∧ pulses ∈ [1; 2; 3; 4; 5; 6; 7; 8; 9].
Proof.
  destruct (provision_storage_outcome 0 hold_readings true blank_bench)
    as (pulses & b' & E & _ & Hh & Hp & _).
  - intros [=].
  - repeat constructor; apply Z.leb_le; reflexivity.
  - vm_compute. reflexivity.
  - exists pulses, b'. split; [exact E|]. split; [exact Hh|exact Hp].
Defined.

(** On healthy hardware the store is provisioned. *)
Example provisioning_succeeds :
  option_map fst (finish (provision_storage 0 hold_readings) blank_bench) = Some 2.
Proof. vm_compute. reflexivity. Qed.
Example held_at_boot_times_out :
  option_map fst (finish (provision_storage 0 [(0, true); (6000000, true); (30000000, true)]) blank_bench) = Some 1.
Proof. vm_compute. reflexivity. Qed.
