(* ===== verification/ImportTheorems.v ===== *)
(** * What the identity import may do

    [import-attestation] and [provision-development]: nothing is stored before the staged
    key is proven, success means the identity normal firmware checks for, and the staging
    sector is erased only then. *)

From stdpp Require Import base tactics numbers list option strings relations sets gmap.
From S2P Require Import Prelude Interfaces Rom FlashEncryption FlashWindows FlashOperations FlashInitialize Presence.
From S2P Require Import Storage StorageTheorems Identity IdentityTheorems Provisioning ProvisioningView ModelRom.
From S2P Require Import ModelBench ProvisioningTheorems ModelBackend.

(** ** Steps that may panic

    [wp] with a condition that every panic establishes. *)
Section may_panic.
Context {S E : Type} (panics : Prop).

Definition wpp {A} (c : step S E A) (Q : result E A → S → Prop) (s : S) : Prop :=
  match c s with Some (r, s') => Q r s' | None => panics end.

Lemma wpp_wp {A} (c : step S E A) Q s : wp c Q s → wpp c Q s.
Proof. unfold wp, wpp. by destruct (c s) as [[r s']|]. Qed.

Lemma wpp_mono {A} (c : step S E A) (Q Q' : result E A → S → Prop) s :
  wpp c Q s → (∀ r s', Q r s' → Q' r s') → wpp c Q' s.
Proof. unfold wpp. destruct (c s) as [[r s']|]; auto. Qed.

Lemma wpp_bind {A A'} (c : step S E A) (k : A → step S E A') Q s :
  wpp c (λ r s', match r with Ok a => wpp (k a) Q s' | Err e => Q (Err e) s' end) s → wpp (c ≫= k) Q s.
Proof. unfold wpp, mbind, step_bind. by destruct (c s) as [[[a|e] s']|]. Qed.
End may_panic.

Definition in_staging (a : Z) : Prop := STAGING_ADDRESS ≤ a < STAGING_ADDRESS + Z.of_nat STAGING_BYTES.

(** The files a Trussed client writes: keys, certificates and the state of its generator. *)
Definition trussed_path (p : path) : Prop :=
  take 2 (parts p) = ["fido"; "sec"]%string ∨ take 2 (parts p) = ["fido"; "x5c"]%string ∨
  take 1 (parts p) = ["trussed"%string].

(** A client on the store reaches flash through the filesystem and writes its own files. *)
Definition client_step {F M : Type} `{StoredView F M} (f f' : F) : Prop :=
  driven (on_flash f) (on_flash f') ∧ ∀ p, plain p → ¬ trussed_path p → fs_file f' p = fs_file f p.

Class TrussedView (F M T : Type) `{StoredView F M, !TrussedClient F T} := {
  tv_service : ∀ seed f t r f' t', store_service seed (f, t) = (r, (f', t')) → client_step f f';
  tv_inject : ∀ key f t r f' t', store_inject key (f, t) = (r, (f', t')) → client_step f f';
  tv_write : ∀ der f t r f' t', store_write_certificate der (f, t) = (r, (f', t')) → client_step f f';
  tv_exists : ∀ id f t r f' t', store_key_exists id (f, t) = (r, (f', t')) → client_step f f';
  tv_read : ∀ id f t r f' t', store_read_certificate id (f, t) = (r, (f', t')) → client_step f f';
  tv_key_path : ∀ id : Id, plain (key_path (F := F) (T := T) id) ∧
    take 2 (parts (key_path (F := F) (T := T) id)) = ["fido"; "sec"]%string;
  tv_cert_path : ∀ id : Id, plain (cert_path (F := F) (T := T) id) ∧
    take 2 (parts (cert_path (F := F) (T := T) id)) = ["fido"; "x5c"]%string;
}.

Section import.
Context {F M T : Type} `{TrussedView F M T, !KeyFormat, !Sha256}.

Abbreviation bench := (Bench F T).
Definition flash_of (b : bench) : memory := flash (dv_rom (device b)).

(** What the parts that are not the firmware's must do for an image not to panic. *)
Definition services_start : Prop :=
  (∀ t, is_Some (volatile_store (F := F) t)) ∧ (∀ t : T, is_Some (rng_new (F := F) t)) ∧
  (∀ t, ∃ t', startup_sanity_check (F := F) t = (Ok tt, t')) ∧
  (∀ seed t, is_Some (proof_service (F := F) seed t)) ∧
  (∀ seed (s : F * T), is_Some (store_service seed s).1).

(** The scalar was turned into the expected public key by a client on RAM. *)
Definition key_proven (build : ImportBuild) (key : bytes) : Prop :=
  ∃ t volatile_key t1 public t2 public_bytes t3,
    proof_inject (F := F) key t = (Some volatile_key, t1) ∧ proof_derive volatile_key t1 = (Some public, t2) ∧
    proof_serialize public t2 = (Some public_bytes, t3) ∧ public_bytes = drop 1 (expected_public_key build).

(** A client or the filesystem worked on the store: files other than Trussed's are kept. *)
Record store_changed (f f' : F) : Prop := {
  sc_kept : store_kept f f';
  sc_files : ∀ p, plain p → ¬ trussed_path p → fs_file f' p = fs_file f p;
}.

Lemma store_changed_refl f : store_changed f f.
Proof. by split. Qed.
Lemma store_changed_trans f1 f2 f3 : store_changed f1 f2 → store_changed f2 f3 → store_changed f1 f3.
Proof.
  intros [K1 C1] [K2 C2]. split; [by etrans|]. intros p Hp Ht. by rewrite C2, C1.
Qed.
Lemma store_changed_client f f' : client_step f f' → store_changed f f'.
Proof. intros [D C]. split; [by apply driven_kept|done]. Qed.
Lemma store_changed_tree f f' : store_kept f f' → same_tree f f' → store_changed f f'.
Proof. intros K [C _]. split; [done|]. intros p _ _. by rewrite C. Qed.

Lemma apart_trussed p q : plain p → trussed_path p → plain q → ¬ trussed_path q → apart_paths p q.
Proof. intros Hp Ht Hq Hn. split_and!; [done..|]. unfold trussed_path in *. intros E. rewrite E in Ht. done. Qed.

Lemma store_changed_rename p q f r f' : fs_rename p q f = (r, f') →
  plain p → trussed_path p → plain q → trussed_path q → store_changed f f'.
Proof.
  intros E Hp Htp Hq Htq. split; [by eapply driven_kept, sv_rename|]. intros x Hx Hn.
  eapply sv_rename_file; [exact E|by apply apart_trussed..].
Qed.

(** *** Steps of an image *)

Lemma wp_store_call {A} (c : F * T → option A * (F * T)) code (Q : result Z A → bench → Prop) b :
  (∀ r f t, c (bn_fs b, bn_rest b) = (r, (f, t)) →
     match r with Some a => Q (Ok a) (mkBench f t) | None => Q (Err code) (mkBench f t) end) →
  wp (store_call c code) Q b.
Proof. intros K. unfold wp, store_call. destruct (c _) as [[a|] [f t]] eqn:E; exact (K _ _ _ eq_refl). Qed.

Lemma wp_proof_call {A} (c : T → option A * T) code (Q : result Z A → bench → Prop) b :
  (∀ r t, c (bn_rest b) = (r, t) →
     match r with Some a => Q (Ok a) (mkBench (bn_fs b) t) | None => Q (Err code) (mkBench (bn_fs b) t) end) →
  wp (proof_call (F := F) c code) Q b.
Proof. intros K. unfold wp, proof_call. destruct (c _) as [[a|] t] eqn:E; exact (K _ _ eq_refl). Qed.

Lemma wpp_ram (c : T → option T) (Q : result Z unit → bench → Prop) b :
  (services_start → is_Some (c (bn_rest b))) →
  (∀ t, c (bn_rest b) = Some t → Q (Ok tt) (mkBench (bn_fs b) t)) → wpp (¬ services_start) (ram c) Q b.
Proof.
  intros Hs K. unfold wpp, ram. destruct (c (bn_rest b)) as [t|]; [by apply K|].
  intros S. destruct (Hs S) as [? [=]].
Qed.

Lemma wpp_prepare_ram (Q : result Z unit → bench → Prop) b :
  (∀ t, Q (Ok tt) (mkBench (bn_fs b) t)) → wpp (¬ services_start) prepare_ram Q b.
Proof. intros K. apply wpp_ram; [intros S; apply S|intros t _; apply K]. Qed.

Lemma wpp_prepare_rng (Q : result Z unit → bench → Prop) b :
  (∀ t, Q (Ok tt) (mkBench (bn_fs b) t)) → wpp (¬ services_start) prepare_rng Q b.
Proof.
  intros K. apply wpp_bind, wpp_ram; [intros S; apply S|]. intros t1 _. apply wpp_ram; cbn [bn_rest bn_fs].
  - intros (_ & _ & S & _). destruct (S t1) as [t' ->]. by eexists.
  - intros t' _. apply K.
Qed.

Lemma wpp_start_proof (Q : result Z unit → bench → Prop) b :
  (∀ t, Q (Ok tt) (mkBench (bn_fs b) t)) → wpp (¬ services_start) start_proof_service Q b.
Proof.
  intros K. apply wpp_ram.
  - intros (_ & _ & _ & S & _). destruct (rng_read 32 (bn_rest b)) as [seed t]. apply S.
  - intros t _. apply K.
Qed.

Lemma wpp_start_store (Q : result Z unit → bench → Prop) b :
  (∀ f t, store_changed (bn_fs b) f → Q (Ok tt) (mkBench f t)) → wpp (¬ services_start) start_store_service Q b.
Proof.
  intros K. unfold wpp, start_store_service. destruct (rng_read 32 (bn_rest b)) as [seed t].
  destruct (store_service seed (bn_fs b, t)) as [[[]|] [f' t']] eqn:E.
  - apply K. by eapply store_changed_client, tv_service.
  - intros (_ & _ & _ & _ & S). destruct (S seed (bn_fs b, t)) as [? E']. by rewrite E in E'.
Qed.

Lemma wp_prove_key build key b :
  wp (prove_key (F := F) build key) (λ r b', bn_fs b' = bn_fs b ∧
    match r with Ok _ => key_proven build key | Err code => code = 7 end) b.
Proof.
  apply wp_bind, wp_proof_call. intros [volatile_key|] t1 E1; [|done].
  apply wp_bind, wp_proof_call. intros [public|] t2 E2; [|done].
  apply wp_bind, wp_proof_call. intros [public_bytes|] t3 E3; [|done].
  apply wp_bind, wp_return_if; intros Hk; [done|]. bool_to_prop. apply bytes_eqb_true in Hk.
  apply wp_bind, wp_proof_call. intros [[]|] t4 E4; [|done].
  apply wp_proof_call. intros [[]|] t5 E5; [|done]. split; [done|].
  by exists (bn_rest b), volatile_key, t1, public, t2, public_bytes, t3.
Qed.

Lemma wp_exists_in_store p (Q : result Z bool → bench → Prop) b :
  (∀ found f, same_tree (bn_fs b) f → store_kept (bn_fs b) f → Q (Ok found) (mkBench f (bn_rest b))) →
  wp (exists_in_store p) Q b.
Proof.
  intros K. unfold wp, exists_in_store. destruct (fs_exists p (bn_fs b)) as [found f] eqn:E.
  apply K; [by eapply sv_exists_frame|by eapply driven_kept, sv_exists].
Qed.

Lemma wp_occupied (b : bench) :
  wp occupied (λ r (b' : bench), store_changed (bn_fs b) (bn_fs b') ∧ ∃ taken, r = Ok taken) b.
Proof.
  apply wp_bind, wp_exists_in_store. intros [] f1 T1 K1.
  - apply wp_ret. split; [by apply store_changed_tree|by eexists].
  - apply wp_exists_in_store. intros found f2 T2 K2. cbn [bn_fs] in *. split; [|by eexists].
    eapply store_changed_trans; by apply store_changed_tree.
Qed.

Ltac trussed := first [by apply (bool_decide_eq_true_1 _) | by left | by right; left].

Lemma wp_install_identity key certificate e1 e2 e3 (b : bench) :
  wp (install_identity key certificate e1 e2 e3) (λ r (b' : bench), store_changed (bn_fs b) (bn_fs b') ∧
    match r with Ok _ => attested (bn_fs b') | Err code => code ∈ [e1; e2; e3] end) b.
Proof.
  apply wp_bind, wp_store_call. intros r1 f1 t1 E1%tv_inject%store_changed_client.
  destruct r1 as [temporary_key|]; [|split; [done|set_solver]].
  apply wp_bind, wp_store_call. intros r2 f2 t2 E2%tv_write%store_changed_client.
  pose proof (store_changed_trans _ _ _ E1 E2) as C2.
  destruct r2 as [temporary_cert|]; [|split; [done|set_solver]].
  apply wp_bind. eapply wp_mono; [apply wp_occupied|]. intros r3 b3 [C3 [taken ->]].
  pose proof (store_changed_trans _ _ _ C2 C3) as C3'.
  apply wp_bind, wp_return_if; intros _; [split; [done|set_solver]|].
  destruct (tv_key_path (F := F) temporary_key) as [Hkp Hkt]. destruct (tv_cert_path (F := F) temporary_cert) as [Hcp Hct].
  apply wp_bind, wp_map_err, wp_fs_call. intros r4 f4 E4.
  assert (store_changed (bn_fs b3) f4) as C4 by (eapply store_changed_rename; [exact E4|done|by left|trussed|by left]).
  pose proof (store_changed_trans _ _ _ C3' C4) as C4'.
  destruct r4 as [[]|]; [|split; [done|set_solver]].
  apply wp_bind, wp_map_err, wp_fs_call. intros r5 f5 E5.
  assert (store_changed f4 f5) as C5
    by (eapply store_changed_rename; [exact E5|done|by right; left|trussed|by right; left]).
  pose proof (store_changed_trans _ _ _ C4' C5) as C5'.
  destruct r5 as [[]|]; [|split; [done|set_solver]].
  apply wp_bind, wp_store_call. intros r6 f6 t6 E6%tv_exists%store_changed_client.
  pose proof (store_changed_trans _ _ _ C5' E6) as C6.
  destruct r6 as [found|]; [|split; [done|set_solver]].
  apply wp_bind, wp_return_if; intros _; [split; [done|set_solver]|].
  apply wp_bind, wp_store_call. intros r7 f7 t7 E7%tv_read%store_changed_client.
  pose proof (store_changed_trans _ _ _ C6 E7) as C7.
  destruct r7 as [installed|]; [|split; [done|set_solver]].
  apply wp_bind, wp_return_if; intros _; [split; [done|set_solver]|].
  apply wp_map_err, wp_on_fs. eapply wp_mono.
  { eapply wp_preserves; [exact attestation_kept|apply wp_attestation]. }
  intros r8 f8 [[T8 K8] P8]. pose proof (store_changed_trans _ _ _ C7 (store_changed_tree _ _ P8 T8)) as C8.
  destruct r8 as [[]|]; (split; [done|]); [|set_solver].
  cbn [bn_fs]. destruct (K8 eq_refl) as (kf & cf & k & Hk & Hc & K). destruct T8 as [C _].
  exists kf, cf, k. cbn [bn_fs]. by rewrite C.
Qed.

(** *** Before the store is written *)

(** Nothing is written: flash and tree are as they were. *)
Record untouched_store (b b' : bench) : Prop := {
  us_flash : flash_of b' = flash_of b;
  us_tree : same_tree (bn_fs b) (bn_fs b');
}.

Lemma untouched_device (b : bench) d : flash (dv_rom d) = flash_of b →
  untouched_store b (mkBench (with_flash (bn_fs b) d) (bn_rest b)).
Proof.
  intros E. split.
  - unfold flash_of, device. cbn [bn_fs]. by rewrite sv_device.
  - cbn [bn_fs]. apply sv_tree. intros a _. unfold flash_of, device in E. by rewrite E.
Qed.

Lemma untouched_trans b1 b2 b3 : untouched_store b1 b2 → untouched_store b2 b3 → untouched_store b1 b3.
Proof. intros [F1 T1] [F2 T2]. split; [congruence|by eapply same_tree_trans]. Qed.

Definition staged (build : ImportBuild) (mem : memory) (id : ImportIdentity) : Prop :=
  mem_read mem STAGING_ADDRESS STAGING_BYTES = staging_page id ∧
  importable_identity (expected_certificate build) id.

Lemma wp_read_window mp address n d (Q : result FlashEncryptionError bytes → Device M → Prop) :
  mp ∈ MAPPINGS → physical_start mp ≤ address → (0 < n)%nat →
  address + Z.of_nat n ≤ physical_start mp + size mp → open d →
  Q (Ok (mem_read (flash (dv_rom d)) address n)) d → wp (read address n) Q d.
Proof.
  intros Hm Ha Hn Hend [Hi W] K. unfold wp. rewrite (read_spec mp) by (done || by apply windows_in). exact K.
Qed.

Lemma wp_stage_identity build b : windows_ok (device b) →
  wp (stage_identity build) (λ r b', untouched_store b b' ∧
    match r with
    | Ok id => staged build (flash_of b) id ∧ open (device b')
    | Err code => code ∈ [3; 4]
    end) b.
Proof.
  intros W. apply wp_bind, wp_map_err, wp_on_device. eapply wp_mono; [by apply initialize_wp|].
  intros r d (Hf & _ & Hok & _). pose proof (untouched_device b d Hf) as U.
  set (b1 := mkBench (with_flash (bn_fs b) d) (bn_rest b)) in *.
  destruct r as [[]|e]; [|split; [done|set_solver]]. destruct (Hok eq_refl) as [Hi W'].
  assert (device b1 = d) as Hd by apply sv_device.
  apply wp_bind, wp_map_err, wp_on_device. change (on_flash (bn_fs b1)) with (device b1). rewrite Hd.
  apply (wp_read_window OTA1_DESCRIPTOR_MAPPING);
    [by do 2 right; left|by vm_compute|by apply Nat.ltb_lt|by vm_compute|by split|].
  assert (untouched_store b1 (mkBench (with_flash (bn_fs b1) d) (bn_rest b1))) as U2
    by (apply untouched_device; unfold flash_of; by rewrite Hd).
  pose proof (untouched_trans _ _ _ U U2) as U3. set (b2 := mkBench _ (bn_rest b1)) in *.
  assert (device b2 = d) as Hd2 by apply sv_device.
  rewrite Hf. change (flash (dv_rom (on_flash (bn_fs b)))) with (flash_of b).
  unfold staged. pose proof (length_mem_read (flash_of b) STAGING_ADDRESS STAGING_BYTES) as Hl.
  assert (Forall is_byte (mem_read (flash_of b) STAGING_ADDRESS STAGING_BYTES)) as Hb by (apply mem_read_bytes, flash_byte).
  revert Hl Hb. generalize (mem_read (flash_of b) STAGING_ADDRESS STAGING_BYTES) as payload. intros payload Hl Hb.
  apply wp_bind. destruct (parse payload (expected_certificate build)) as [id|] eqn:Ep;
    [|apply wp_throw; split; [done|set_solver]].
  apply parse_sound in Ep; [|done..]. apply wp_ret, wp_bind, wp_return_if; intros _; [split; [done|set_solver]|].
  apply wp_ret. split; [done|]. split; [done|]. by rewrite Hd2.
Qed.

Lemma wp_open_empty_store b : open (device b) →
  wp open_empty_store (λ r (b' : bench), store_kept (bn_fs b) (bn_fs b') ∧ same_tree (bn_fs b) (bn_fs b') ∧
    match r with
    | Ok _ => importable (bn_fs b) ∧ fs_file (bn_fs b) STORAGE_FORMAT_VERSION_PATH = Some STORAGE_FORMAT_VERSION
    | Err code => code ∈ [3; 5; 6]
    end) b.
Proof.
  intros [Hi W]. apply wp_bind, wp_map_err, wp_on_device, wp_map_err.
  eapply wp_mono; [by apply initialize_wp|]. intros r d (_ & _ & _ & _ & _ & Hd). rewrite (Hd Hi). clear d Hd.
  destruct (untouched_device b (device b) eq_refl) as [_ T0].
  assert (store_kept (bn_fs b) (with_flash (bn_fs b) (device b))) as K0
    by (unfold store_kept; rewrite sv_device; apply dwithin_refl).
  destruct r as [[]|e]; [|split; [done|split; [done|set_solver]]].
  apply wp_bind, wp_map_err, wp_on_fs. cbn [bn_fs bn_rest] in *. set (f0 := with_flash _ _) in *.
  eapply wp_mono; [apply wp_preserves; [exact mount_existing_kept|apply wp_mount_existing]|].
  intros r f1 [[T1 V1] K1]. cbn [bn_fs].
  assert (store_kept (bn_fs b) f1) as K1' by by etrans. pose proof (same_tree_trans _ _ _ T0 T1) as T1'.
  destruct r as [[]|e]; [|split; [done|split; [done|set_solver]]].
  apply wp_map_err, wp_on_fs. cbn [bn_fs bn_rest].
  eapply wp_mono; [apply wp_preserves; [exact verify_target_kept|apply wp_verify_target]|].
  intros r f2 [[T2 V2] K2]. cbn [bn_fs].
  assert (store_kept (bn_fs b) f2) as K2' by by etrans. pose proof (same_tree_trans _ _ _ T1' T2) as T2'.
  destruct r as [[]|e]; (split; [done|]; split; [done|]); [|set_solver]. split.
  - eapply importable_ext; [exact T1'|by apply V2].
  - destruct T0 as [<- _]. by apply V1.
Qed.

(** *** The whole import *)

(** What an import that shows [code] pulses leaves of [b]. *)
Definition import_outcome (build : ImportBuild) (b b' : bench) (code : Z) : Prop :=
  (∀ a, ¬ FIDO_STORE_OFFSET ≤ a < FLASH_SIZE → ¬ in_staging a → flash_of b' a = flash_of b a) ∧
  code ∈ [2; 3; 4; 5; 6; 7; 8; 9; 10] ∧
  (code ∉ [2; 10] → ∀ a, in_staging a → flash_of b' a = flash_of b a) ∧
  (code ∈ [3; 4; 5; 7] → same_tree (bn_fs b) (bn_fs b')) ∧
  (code ∈ [2; 8; 9; 10] → importable (bn_fs b) ∧
     ∃ id, staged build (flash_of b) id ∧ key_proven build (id_key id)) ∧
  (code = 2 → attested (bn_fs b') ∧
     fs_file (bn_fs b') STORAGE_FORMAT_VERSION_PATH = Some STORAGE_FORMAT_VERSION ∧
     ∀ a, in_staging a → erased (dv_rom (device b')) a).

Lemma staging_outside a : in_staging a → ¬ FIDO_STORE_OFFSET ≤ a < FLASH_SIZE.
Proof.
  unfold in_staging, STAGING_ADDRESS, STAGING_BYTES, FIDO_STORE_OFFSET, FLASH_SIZE, FIDO_STORE_SIZE. lia.
Qed.

(** Up to the erase, flash changes inside the partition only. *)
Lemma kept_outcome build (b b' : bench) code : code ∈ [3; 4; 5; 6; 7; 8; 9] →
  only_store (device b) (device b') →
  (code ∈ [3; 4; 5; 7] → same_tree (bn_fs b) (bn_fs b')) →
  (code ∈ [8; 9] → importable (bn_fs b) ∧ ∃ id, staged build (flash_of b) id ∧ key_proven build (id_key id)) →
  import_outcome build b b' code.
Proof.
  intros Hc Ho Ht Hp. split_and!.
  - intros a Ha _. by apply Ho.
  - set_solver.
  - intros _ a Ha. by apply Ho, staging_outside.
  - done.
  - intros Hin. apply Hp. set_solver.
  - intros ->. set_solver.
Qed.

Definition shown (r : result Z unit) : Z := match r with Ok _ => 2 | Err code => code end.

Lemma wp_erase_staging b :
  wp (map_err (on_device (erase STAGING_ADDRESS STAGING_BYTES)) 10) (λ r (b' : bench),
    (∀ a, ¬ in_staging a → flash_of b' a = flash_of b a) ∧ same_tree (bn_fs b) (bn_fs b') ∧
    match r with
    | Ok _ => ∀ a, in_staging a → erased (dv_rom (device b')) a
    | Err code => code = 10
    end) b.
Proof.
  apply wp_map_err, wp_on_device.
  eapply wp_mono; [apply erase_inner_wp; [done|by vm_compute|by apply Nat.ltb_lt]|]. cbv zeta.
  intros r d [Mu K]. pose proof (mu_within _ _ _ _ _ Mu) as [_ W].
  assert (∀ a, ¬ in_staging a → flash (dv_rom d) a = flash_of b a) as Hf by (intros a Ha; by apply (wi_flash _ _ _ _ W)).
  assert (same_tree (bn_fs b) (with_flash (bn_fs b) d)) as Ht.
  { apply sv_tree. intros a Ha. apply Hf. intros Hs. by apply (staging_outside a). }
  assert (device (mkBench (with_flash (bn_fs b) d) (bn_rest b)) = d) as Hd by apply sv_device.
  destruct r as [[]|e]; unfold flash_of at 1; rewrite ?Hd; (split; [done|]; split; [done|]); [|done].
  destruct K as [_ K]; [done|]. intros a Ha. by apply K.
Qed.

Lemma wpp_import_confirmed build b : windows_ok (device b) →
  wpp (¬ services_start) (import_confirmed build) (λ r b', import_outcome build b b' (shown r)) b.
Proof.
  intros W. apply wpp_bind, wpp_wp. eapply wp_mono; [by apply wp_stage_identity|]. intros r b1 [U1 K1].
  assert (only_store (device b) (device b1)) as O1 by (intros a _; apply (f_equal (λ m, m a)), U1).
  pose proof (us_tree _ _ U1) as T1.
  destruct r as [id|code]; [|apply kept_outcome; [set_solver|done|done|set_solver]]. destruct K1 as [Hstaged Hopen].
  apply wpp_bind, wpp_wp. eapply wp_mono; [by apply wp_open_empty_store|]. intros r b2 (K2 & T2 & P2).
  pose proof (only_trans _ _ _ O1 (kept_only _ _ K2)) as O2. pose proof (same_tree_trans _ _ _ T1 T2) as T2'.
  destruct r as [[]|code]; [|apply kept_outcome; [set_solver|done|done|set_solver]].
  destruct P2 as [Himp Hver]. pose proof (importable_ext _ _ T1 Himp) as Himp'.
  rewrite (proj1 T1) in Hver.
  apply wpp_bind, wpp_prepare_ram. intros t3. apply wpp_bind, wpp_prepare_rng. intros t4.
  apply wpp_bind, wpp_start_proof. intros t5. cbn [bn_fs].
  apply wpp_bind, wpp_wp. eapply wp_mono; [apply wp_prove_key|]. intros r b6 [E6 K6]. cbn [bn_fs] in E6.
  assert (only_store (device b) (device b6)) as O6 by (unfold device in *; by rewrite E6).
  rewrite <- E6 in T2'.
  destruct r as [[]|code]; [|subst code; apply kept_outcome; [set_solver|done|done|set_solver]].
  apply wpp_bind, wpp_start_store. intros f7 t7 C7.
  apply wpp_bind, wpp_wp. eapply wp_mono; [apply wp_install_identity|]. intros r b8 [C8 K8]. cbn [bn_fs] in C8.
  pose proof (store_changed_trans _ _ _ C7 C8) as C8'.
  assert (only_store (device b) (device b8)) as O8 by (eapply only_trans; [exact O6|by apply kept_only, C8']).
  assert (importable (bn_fs b) ∧ ∃ id, staged build (flash_of b) id ∧ key_proven build (id_key id)) as Hproof
    by (split; [done|by exists id]).
  destruct r as [[]|code].
  2: { apply kept_outcome; [set_solver|done| |done]. intros Hc. exfalso. set_solver. }
  eapply wpp_wp, wp_mono; [apply wp_erase_staging|]. intros r b9 (F9 & T9 & K9).
  assert (shown r ∈ [2; 10]) as Hshown by (destruct r; [set_solver|subst; set_solver]). split_and!.
  - intros a Ha Hs. rewrite F9 by done. by apply O8.
  - revert Hshown. rewrite !elem_of_cons, !elem_of_nil. lia.
  - done.
  - intros Hc. exfalso. revert Hshown Hc. rewrite !elem_of_cons, !elem_of_nil. lia.
  - done.
  - intros E. destruct r as [[]|code]; [|simpl in E; subst; done]. split; [by eapply attested_ext|].
    split; [|done]. destruct T9 as [-> _]. rewrite (sc_files _ _ C8'); [|by apply (bool_decide_eq_true_1 _)..].
    by destruct T2' as [-> _].
Qed.

Context `{!HealthyFilesystem F}.

(** C38: The identity import ends showing a result unless one of the services it builds on
    cannot start.  It acts only after a fresh hold and otherwise changes nothing; it
    changes no flash outside the credential partition and its staging sector, and the
    staging sector only to erase it at the end; the store it was given is unchanged until
    the staged page was accepted and its scalar proven to have the expected public key,
    and then it was the provisioner's empty tree; success leaves the version file and an
    identity that passes the check of normal firmware, which then mounts the store and
    accepts the identity on healthy flash, and an erased staging sector. *)
Theorem import_attestation_outcome build started readings confirmed b :
  windows_ok (device b) → Forall (λ r, 0 ≤ r.1) readings → armed started readings = Some confirmed →
  match import_attestation build started readings b with
  | None => ¬ services_start
  | Some (pulses, b') =>
      if confirmed then
        fresh_hold started readings ∧ import_outcome build b b' pulses ∧
        (pulses = 2 → fs_healthy (bn_fs b') →
           (∃ f1, mount_existing (bn_fs b') = Some (Ok tt, f1)) ∧
           ∃ f2, verify_development_attestation (bn_fs b') = Some (Ok tt, f2))
      else pulses = 1 ∧ b' = b
  end.
Proof.
  intros W Hpos Harm. unfold import_attestation. rewrite Harm. cbn [mbind option_bind].
  destruct confirmed; [|done]. pose proof (wpp_import_confirmed build b W) as K. unfold wpp in K.
  destruct (import_confirmed build b) as [[r b']|]; [|done].
  assert (fresh_hold started readings) as Hh by by apply armed_is_fresh.
  assert (shown r = 2 → fs_healthy (bn_fs b') →
    (∃ f1, mount_existing (bn_fs b') = Some (Ok tt, f1)) ∧
    ∃ f2, verify_development_attestation (bn_fs b') = Some (Ok tt, f2)) as Hok.
  { intros Hr Hb. destruct K as (_ & _ & _ & _ & _ & K). destruct (K Hr) as (Hat & Hv & _).
    split; [by apply run_mount|by apply run_attestation]. }
  by destruct r.
Qed.

(** *** The development image *)

Lemma wpp_unwrap {E' A} (c : step (Bench F T) E' A) (Q : result Z A → bench → Prop) (b : bench) panics :
  (panics : Prop) → wp c (λ r b', match r with Ok a => Q (Ok a) b' | Err _ => True end) b → wpp panics (unwrap c) Q b.
Proof. intros Hp. unfold wpp, wp, unwrap. by destruct (c b) as [[[a|e] b']|]. Qed.


Lemma wp_marker_files f :
  wp write_persistent_state_initialization_marker (λ r f',
    (r = Ok tt → fs_file f' PERSISTENT_STATE_INITIALIZATION_MARKER_PATH = Some PERSISTENT_STATE_INITIALIZATION_MARKER ∧
       ∀ p, apart_paths PERSISTENT_STATE_INITIALIZATION_MARKER_PATH p → fs_file f' p = fs_file f p) ∧
    store_kept f f') f.
Proof.
  apply wp_preserves; [exact write_marker_kept|].
  apply wp_bind, wp_try_fs; [|by intros]. intros [] f1 E1.
  apply wp_bind, wp_try_fs; [|by intros]. intros [] f2 E2.
  apply wp_bind, wp_try_fs; [|by intros]. intros stored f3 [C3 _]%fs_read_frame.
  destruct (bytes_eqb stored _); [|by apply wp_throw]. apply wp_ret. intros _. rewrite C3. split.
  - by eapply fs_write_Ok.
  - intros p Hp. rewrite (fs_write_file _ _ _ _ _ _ E2) by done. by eapply fs_create_dir_file.
Qed.

(** A store for the authenticator's first start. *)
Definition development_store (f : F) : Prop :=
  attested f ∧ fs_file f STORAGE_FORMAT_VERSION_PATH = Some STORAGE_FORMAT_VERSION ∧
  fs_file f PERSISTENT_STATE_INITIALIZATION_MARKER_PATH = Some PERSISTENT_STATE_INITIALIZATION_MARKER.

Ltac confined_store := unfold device in *; cbn [bn_fs] in *;
  repeat first [assumption | eapply only_trans; [eassumption|]].

Lemma wpp_create_and_install key certificate (b : bench) : windows_ok (device b) →
  wpp True (install_development key certificate)
    (λ _ b', only_store (device b) (device b') ∧ development_store (bn_fs b')) b.
Proof.
  intros W. apply wpp_bind, wpp_unwrap, wp_on_device, wp_map_err; [done|].
  eapply wp_mono; [by apply initialize_wp|]. intros [[]|] d (Hf & _); [|done].
  set (b0 := mkBench (with_flash (bn_fs b) d) (bn_rest b)).
  assert (device b0 = d) as E0 by apply sv_device.
  assert (only_store (device b) (device b0)) as O0 by (intros a _; by rewrite E0, Hf).
  clearbody b0. clear E0 Hf.
  apply wpp_bind, wpp_unwrap, wp_fs_call; [done|]. intros [[]|] f1 E1; [|done].
  pose proof (kept_only _ _ (driven_kept _ _ (sv_format _ _ _ E1))) as O1.
  destruct (sv_format_Ok _ _ "/" E1) as [_ Hroot]; [done|].
  apply wpp_bind, wpp_unwrap, wp_fs_call; [done|]. cbn [bn_fs]. intros [[]|] f2 E2; [|done].
  pose proof (kept_only _ _ (driven_kept _ _ (sv_mount _ _ _ E2))) as O2.
  destruct (fs_mount_frame _ _ _ E2) as [_ D2]. rewrite <- D2 in Hroot.
  apply wpp_bind, wpp_unwrap, wp_on_fs; [done|].
  eapply wp_mono; [by apply wp_write_version|]. intros [[]|] f3 [K3 O3%kept_only]; [|done].
  destruct (K3 eq_refl) as [Hv _]. clear K3.
  assert (∀ (c : i_step (F := F) (T := T) unit) Q b, wpp (¬ services_start) c Q b → wpp True c Q b) as weaken
    by (intros c Q b'; unfold wpp; by destruct (c b') as [[? ?]|]).
  apply wpp_bind, weaken, wpp_prepare_ram. intros t4. apply wpp_bind, weaken, wpp_prepare_rng. intros t5.
  apply wpp_bind, weaken, wpp_start_store. cbn [bn_fs]. intros f6 t6 C6.
  apply wpp_bind, wpp_unwrap; [done|]. eapply wp_mono; [apply wp_install_identity|]. cbn [bn_fs].
  intros [[]|] b7 [C7 K7]; [|done]. pose proof (store_changed_trans _ _ _ C6 C7) as C7'.
  pose proof (kept_only _ _ (sc_kept _ _ C7')) as O7.
  rewrite <- (sc_files _ _ C7' STORAGE_FORMAT_VERSION_PATH) in Hv by by apply (bool_decide_eq_true_1 _).
  apply wpp_unwrap, wp_on_fs; [done|]. eapply wp_mono; [apply wp_marker_files|].
  intros [[]|] f8 [K8 O8%kept_only]; [|done]. destruct (K8 eq_refl) as [Hm Hk]. split; [by confined_store|].
  split_and!; cbn [bn_fs]; [|by rewrite Hk by by apply (bool_decide_eq_true_1 _)|done].
  destruct K7 as (kf & cf & k & K). exists kf, cf, k.
  by rewrite !Hk by by apply (bool_decide_eq_true_1 _).
Qed.

(** The development provisioner goes past its first checks only with a scalar in range and a
    certificate with the development AAGUID, acts only after a fresh hold, changes no flash
    outside the credential partition, and completes only with a store that mounts, whose
    identity passes the check of normal firmware and which authorises the first
    initialization. *)
Theorem provision_development_outcome key certificate started readings b r b' :
  windows_ok (device b) → Forall (λ r, 0 ≤ r.1) readings →
  provision_development key certificate started readings b = Some (r, b') →
  is_valid_p256_scalar key = true ∧ carries_aaguid certificate DEVELOPMENT_AAGUID ∧
  fresh_hold started readings ∧ only_store (device b) (device b') ∧ development_store (bn_fs b') ∧
  (fs_healthy (bn_fs b') → (∃ f1, mount_existing (bn_fs b') = Some (Ok tt, f1)) ∧
     ∃ f2, verify_development_attestation (bn_fs b') = Some (Ok tt, f2)).
Proof.
  intros W Hpos E. unfold provision_development in E.
  destruct (is_valid_p256_scalar key) eqn:Ek; [|done].
  destruct (bool_decide (certificate_aaguid certificate = _)) eqn:Ec; [|done].
  destruct (armed started readings) as [[]|] eqn:Ea; [|done..].
  pose proof (wpp_create_and_install key certificate b W) as K. unfold wpp in K.
  change (install_development key certificate b = Some (r, b')) in E. rewrite E in K. destruct K as [Ho Hs].
  apply bool_decide_eq_true in Ec. split; [done|]. split; [by apply certificate_aaguid_iff|].
  split; [by apply armed_is_fresh|]. split; [done|]. split; [done|]. intros Hh. destruct Hs as (Ha & Hv & _).
  split; [by apply run_mount|by apply run_attestation].
Qed.
End import.

(** ** Witnesses *)

(** A client whose public key is the scalar twice, with one temporary name per kind; its
    entropy never repeats a block. *)
Record model_client := mkModelClient { mc_key : bytes; mc_draws : Z }.

Definition write_file (p : path) (d : bytes) (s : bench_fs * model_client) : bench_fs * model_client :=
  ((fs_write p d s.1).2, s.2).

#[export] Instance model_trussed : TrussedClient bench_fs model_client := {|
  Id := unit;
  legacy_hex_path _ := "a5"%string;
  volatile_store t := Some t;
  rng_new t := Some t;
  rng_read n t := (replicate n (1 + mc_draws t mod 255), mkModelClient (mc_key t) (mc_draws t + 1));
  proof_service _ t := Some t;
  proof_inject key t := (Some tt, mkModelClient key (mc_draws t));
  proof_derive _ t := (Some tt, t);
  proof_serialize _ t := (Some (mc_key t ++ mc_key t), t);
  proof_delete _ t := (Some tt, t);
  store_service _ s := (Some tt, s);
  store_inject key s := (Some tt, write_file "fido/sec/a5" ([0; 2; 0; 5] ++ key) s);
  store_write_certificate der s := (Some tt, write_file "fido/x5c/a5" der s);
  store_key_exists _ s := (Some (bool_decide (is_Some (fs_file s.1 ATTESTATION_KEY_PATH))), s);
  store_read_certificate _ s := (fs_file s.1 ATTESTATION_CERT_PATH, s);
|}.

Lemma write_file_step p d (f : bench_fs) t f' t' : plain p → trussed_path p →
  write_file p d (f, t) = (f', t') → client_step (M := model_rom) f f'.
Proof.
  intros Hp Ht. unfold write_file. destruct (fs_write p d (f, t).1) as [r g] eqn:E. intros [= <- <-]. split.
  - by eapply sv_write.
  - intros q Hq Hn. eapply fs_write_file; [exact E|by apply apart_trussed].
Qed.

Lemma client_step_refl (f : bench_fs) : client_step (M := model_rom) f f.
Proof. split; [apply rtc_refl|done]. Qed.

#[export] Instance model_trussed_view : TrussedView bench_fs model_rom model_client.
Proof.
  split.
  - intros seed f t r f' t' [= _ <- _]. apply client_step_refl.
  - intros key f t r f' t' E. apply (write_file_step "fido/sec/a5" ([0; 2; 0; 5] ++ key) f t f' t');
      [by apply (bool_decide_eq_true_1 _)|by left|exact (f_equal snd E)].
  - intros der f t r f' t' E. apply (write_file_step "fido/x5c/a5" der f t f' t');
      [by apply (bool_decide_eq_true_1 _)|by right; left|exact (f_equal snd E)].
  - intros id f t r f' t' [= _ <- _]. apply client_step_refl.
  - intros id f t r f' t' [= _ <- _]. apply client_step_refl.
  - intros []. split; [by apply (bool_decide_eq_true_1 _)|done].
  - intros []. split; [by apply (bool_decide_eq_true_1 _)|done].
Defined.

(** A provisioned store with the model identity staged. *)
Definition staged_flash : memory := λ a,
  if (STAGING_ADDRESS <=? a) && (a <? STAGING_ADDRESS + 4096)
  then byte_at (staging_page model_identity) (Z.to_nat (a - STAGING_ADDRESS)) else 255.
Definition staged_bench : Bench bench_fs model_client :=
  mkBench (mkBenchFs provisioned_fs (reset_device staged_flash)) (mkModelClient [] 0).
Definition model_build : ImportBuild :=
  mkImportBuild (sha256 model_certificate) (4 :: id_key model_identity ++ id_key model_identity).

Lemma import_attestation_outcome_witness :
  ∃ pulses b', import_attestation model_build 0 hold_readings staged_bench = Some (pulses, b') ∧ pulses = 2 ∧
    fresh_hold 0 hold_readings ∧ import_outcome model_build staged_bench b' pulses.
Proof.
  assert (armed 0 hold_readings = Some true) as Harm by (vm_compute; reflexivity).
  assert (Forall (λ r, 0 ≤ r.1) hold_readings) as Hpos by (repeat constructor; apply Z.leb_le; reflexivity).
  assert (windows_ok (device staged_bench)) as W by (intros [=]).
  pose proof (import_attestation_outcome model_build 0 hold_readings true staged_bench W Hpos Harm) as K.
  assert (option_map fst (import_attestation model_build 0 hold_readings staged_bench) = Some 2) as E
    by (vm_compute; reflexivity).
  destruct (import_attestation _ _ _ _) as [[pulses b']|]; [|done]. injection E as ->.
  destruct K as (Hh & Ho & _). exists 2, b'. split; [reflexivity|]. split; [reflexivity|]. split; [exact Hh|exact Ho].
Defined.

Lemma provision_development_outcome_witness :
  option_map fst (provision_development (id_key model_identity) model_certificate 0 hold_readings staged_bench)
    = Some (Ok tt) ∧
  ∀ r b', provision_development (id_key model_identity) model_certificate 0 hold_readings staged_bench = Some (r, b') →
    fresh_hold 0 hold_readings ∧ development_store (bn_fs b').
Proof.
  split; [vm_compute; reflexivity|]. intros r b' E.
  destruct (provision_development_outcome (id_key model_identity) model_certificate 0 hold_readings staged_bench r b')
    as (_ & _ & Hh & _ & Hs & _); [intros [=]|repeat constructor; apply Z.leb_le; reflexivity|exact E|].
  split; [exact Hh|exact Hs].
Defined.
