(* ===== verification/Startup.v ===== *)
(** * The start of the authenticator

    The beginning of [run] in [src/src/bin/startup/s2_fido.rs], up to the polling loop
    that [MainLoop] models: each [expect] is an error here, so that the state a panic
    leaves behind is visible.  The construction of the USB stack is third-party. *)

From stdpp Require Import base tactics numbers list option strings relations sets gmap.
From S2P Require Import Prelude Interfaces Rom FlashEncryption FlashWindows FlashInitialize ModelRom Storage.
From S2P Require Import StorageTheorems Identity IdentityTheorems Provisioning ProvisioningView ProvisioningTheorems.
From S2P Require Import ModelBackend ModelBench ImportTheorems.

Inductive StartupPanic :=
  | EntropyNotEnabled | RngFailed | InvalidUsbIdentity | StoreBackend | StoreMount | InvalidAttestation
  | VolatileStore | TrussedService.

Section startup.
Context {F M T : Type} `{StoredFilesystem F M, !TrussedClient F T, !KeyFormat}.

Definition s_step : Type → Type := step (Bench F T) StartupPanic.

(** [call(..).expect(..)] of a part that works on RAM. *)
Definition expect_ram (c : T → option T) (message : StartupPanic) : s_step unit := λ b,
  match c (bn_rest b) with
  | Some t => Some (Ok tt, mkBench (bn_fs b) t)
  | None => Some (Err message, b)
  end.

Definition startup_rng : s_step unit :=
  expect_ram rng_new EntropyNotEnabled;;
  expect_ram (λ t, match startup_sanity_check t with (Ok _, t) => Some t | (Err _, _) => None end) RngFailed.

Definition startup_identity (vid pid serial : bytes) : s_step UsbIdentity :=
  match from_build_values vid pid serial with Ok id => mret id | Err _ => throw InvalidUsbIdentity end.

Definition startup_store : s_step unit :=
  map_err (on_device new_storage) StoreBackend;;
  map_err (on_fs mount_existing) StoreMount;;
  map_err (on_fs verify_development_attestation) InvalidAttestation.

Definition startup_service : s_step unit := λ b,
  let '(seed, t) := rng_read 32 (bn_rest b) in
  match store_service seed (bn_fs b, t) with
  | (Some _, (f, t)) => Some (Ok tt, mkBench f t)
  | (None, (f, t)) => Some (Err TrussedService, mkBench f t)
  end.

Definition startup (vid pid serial : bytes) : s_step UsbIdentity :=
  startup_rng;;
  usb_identity ← startup_identity vid pid serial;
  startup_store;;
  expect_ram volatile_store VolatileStore;;
  startup_service;;
  mret usb_identity.
End startup.

Section theorems.
Context {F M T : Type} `{TrussedView F M T, !KeyFormat, !HealthyFilesystem F}.

Abbreviation bench := (Bench F T).

(** The state of RAM is the only thing that changed. *)
Definition ram_only (b b' : bench) : Prop := bn_fs b' = bn_fs b.

Lemma wp_expect_ram (c : T → option T) message (Q : result StartupPanic unit → bench → Prop) b :
  (∀ t, c (bn_rest b) = Some t → Q (Ok tt) (mkBench (bn_fs b) t)) → (c (bn_rest b) = None → Q (Err message) b) →
  wp (expect_ram c message) Q b.
Proof. unfold wp, expect_ram. destruct (c (bn_rest b)); auto. Qed.

Lemma wp_startup_rng b :
  wp startup_rng (λ r b', ram_only b b' ∧ (services_start (F := F) (T := T) → r = Ok tt) ∧
    match r with Ok _ => True | Err e => e = EntropyNotEnabled ∨ e = RngFailed end) b.
Proof.
  apply wp_bind, wp_expect_ram.
  - intros t1 _. apply wp_expect_ram; cbn [bn_rest bn_fs]; [by intros t2 _|].
    intros E. split; [done|]. split; [|by right]. intros (_ & _ & S & _).
    destruct (S t1) as [t' E']. by rewrite E' in E.
  - intros E. split; [done|]. split; [|by left]. intros (_ & S & _). destruct (S (bn_rest b)) as [? ?]. congruence.
Qed.

(** What the store must hold. *)
Definition usable (f : F) : Prop :=
  attested f ∧ fs_file f STORAGE_FORMAT_VERSION_PATH = Some STORAGE_FORMAT_VERSION.

Definition flash_opens (d : Device M) : Prop := ∃ d', initialize d = Some (Ok tt, d').
(** A filesystem stays healthy when its windows are mapped. *)
Definition healthy_when_open (f : F) : Prop :=
  fs_healthy f ∧ ∀ d, flash (dv_rom d) = flash (dv_rom (on_flash f)) → fs_healthy (with_flash f d).

Lemma wp_startup_store b : windows_ok (device b) →
  wp startup_store (λ r (b' : bench), same_tree (bn_fs b) (bn_fs b') ∧ only_store (device b) (device b') ∧
    match r with
    | Ok _ => usable (bn_fs b)
    | Err e => e ∈ [StoreBackend; StoreMount; InvalidAttestation]
    end ∧
    (flash_opens (device b) → healthy_when_open (bn_fs b) → usable (bn_fs b) → r = Ok tt)) b.
Proof.
  intros W. apply wp_bind, wp_map_err, wp_on_device, wp_map_err.
  destruct (wp_elim _ _ _ (initialize_wp (on_flash (bn_fs b)) W)) as (r1 & d & E1 & Hf & _).
  unfold wp at 1. rewrite E1. set (f1 := with_flash (bn_fs b) d).
  assert (on_flash f1 = d) as Hd by apply sv_device.
  assert (same_tree (bn_fs b) f1) as T1 by (apply sv_tree; intros a _; by rewrite Hf).
  assert (only_store (device b) (on_flash f1)) as O1 by (intros a _; by rewrite Hd, Hf).
  destruct r1 as [[]|e].
  2: { split; [done|]. split; [done|]. split; [set_solver|]. intros (d' & E') _ _. unfold device in E'. congruence. }
  apply wp_bind, wp_map_err, wp_on_fs. cbn [bn_fs bn_rest]. fold f1.
  destruct (wp_elim _ _ _ (wp_preserves _ _ _ _ mount_existing_kept (wp_mount_existing f1)))
    as (r2 & f2 & E2 & [T2 V2] & K2%kept_only).
  pose proof (same_tree_trans _ _ _ T1 T2) as T2'. pose proof (only_trans _ _ _ O1 K2) as O2.
  unfold wp at 1. rewrite E2. destruct r2 as [[]|e].
  2: { split; [done|]. split; [done|]. split; [set_solver|]. intros _ [_ Hh] [_ Hv].
       destruct (run_mount_healthy f1) as (f2' & E2' & _); [by apply Hh|by destruct T1 as [-> _]|congruence]. }
  apply wp_map_err, wp_on_fs. cbn [bn_fs bn_rest].
  destruct (wp_elim _ _ _ (wp_preserves _ _ _ _ attestation_kept (wp_attestation f2)))
    as (r3 & f3 & E3 & [T3 V3] & K3%kept_only).
  pose proof (same_tree_trans _ _ _ T2' T3) as T3'. pose proof (only_trans _ _ _ O2 K3) as O3.
  unfold wp. rewrite E3. destruct r3 as [[]|e]; (split; [done|]; split; [done|]).
  - split; [|done]. split.
    + eapply (attested_ext f2); [destruct T2' as [A B]; by split|by apply V3].
    + destruct T1 as [<- _]. by apply V2.
  - split; [set_solver|]. intros _ [_ Hh] [Hat Hv]. exfalso.
    destruct (run_mount_healthy f1) as (f2' & E2' & Hh2); [by apply Hh|by destruct T1 as [-> _]|].
    assert (f2' = f2) as -> by congruence.
    destruct (run_attestation f2 Hh2) as [f3' E3']; [by eapply attested_ext|congruence].
Qed.

(** Everything [startup] needs. *)
Definition startable (vid pid serial : bytes) (b : bench) : Prop :=
  services_start (F := F) (T := T) ∧ (∃ id, from_build_values vid pid serial = Ok id) ∧
  flash_opens (device b) ∧ healthy_when_open (bn_fs b) ∧ usable (bn_fs b).

Lemma wp_startup_service b :
  wp startup_service (λ r (b' : bench), store_changed (bn_fs b) (bn_fs b') ∧
    (services_start (F := F) (T := T) → r = Ok tt) ∧ match r with Ok _ => True | Err e => e = TrussedService end) b.
Proof.
  unfold wp, startup_service. destruct (rng_read 32 (bn_rest b)) as [seed t].
  destruct (store_service seed (bn_fs b, t)) as [[[]|] [f' t']] eqn:E;
    (split; [by eapply store_changed_client, tv_service|]); [done|].
  - split; [|done]. intros (_ & _ & _ & _ & S).
    destruct (S seed (bn_fs b, t)) as [? E']. by rewrite E in E'.
Qed.

(** C39: Normal firmware reaches its polling loop only with an accepted USB identity and a store
    that has the format version and the development identity, and reaches it whenever those
    are there on healthy hardware and the services start.  Whether it starts or panics, no
    flash outside the credential partition changes, and before the last service starts no
    file and no directory does. *)
Theorem startup_exact vid pid serial b : windows_ok (device b) →
  ∃ r b', startup vid pid serial b = Some (r, b') ∧ only_store (device b) (device b') ∧
    (∀ p, plain p → ¬ trussed_path p → fs_file (bn_fs b') p = fs_file (bn_fs b) p) ∧
    (∀ message, r = Err message → message ≠ TrussedService → same_tree (bn_fs b) (bn_fs b')) ∧
    (∀ id, r = Ok id → from_build_values vid pid serial = Ok id ∧ usable (bn_fs b)) ∧
    (startable vid pid serial b → ∃ id, r = Ok id).
Proof.
  intros W. apply (wp_elim _ (λ r (b' : bench), _)). apply wp_bind.
  eapply wp_mono; [apply wp_startup_rng|]. unfold ram_only. intros r1 b1 (E1 & S1 & _).
  assert (device b1 = device b) as D1 by (unfold device; by rewrite E1).
  assert (∀ b' : bench, bn_fs b' = bn_fs b → only_store (device b) (device b') ∧ same_tree (bn_fs b) (bn_fs b')) as Hram
    by (intros b' E; unfold device; by rewrite E).
  assert (∀ b' : bench, same_tree (bn_fs b) (bn_fs b') →
    ∀ p, plain p → ¬ trussed_path p → fs_file (bn_fs b') p = fs_file (bn_fs b) p) as Hfiles
    by (intros b' [C _] p _ _; by rewrite C).
  destruct r1 as [[]|e].
  2: { destruct (Hram b1 E1) as [O T1]. split; [done|]. split; [by apply Hfiles|]. split; [done|]. split; [done|].
       intros (Hs & _). by specialize (S1 Hs). }
  unfold startup_identity. destruct (from_build_values vid pid serial) as [id|e] eqn:Eid.
  2: { apply wp_bind, wp_throw. destruct (Hram b1 E1) as [O T1]. split; [done|]. split; [by apply Hfiles|].
       split; [done|]. split; [done|]. intros (_ & [id Hid] & _). congruence. }
  apply wp_bind, wp_ret, wp_bind. eapply wp_mono; [apply wp_startup_store; by rewrite D1|].
  rewrite D1, E1. intros r2 b2 (T2 & O2 & P2 & C2). destruct r2 as [[]|e].
  2: { split; [done|]. split; [by apply Hfiles|]. split; [done|]. split; [done|].
       intros (_ & _ & H1' & H2' & H3'). by specialize (C2 H1' H2' H3'). }
  apply wp_bind, wp_expect_ram.
  2: { intros En. split; [done|]. split; [by apply Hfiles|]. split; [done|]. split; [done|].
       intros ((Hs & _) & _). destruct (Hs (bn_rest b2)). congruence. }
  intros t3 _. apply wp_bind. eapply wp_mono; [apply wp_startup_service|]. cbn [bn_fs]. intros r4 b4 (C4 & S4 & K4).
  assert (only_store (device b) (device b4)) as O4 by (eapply only_trans; [exact O2|by apply kept_only, C4]).
  assert (∀ p, plain p → ¬ trussed_path p → fs_file (bn_fs b4) p = fs_file (bn_fs b) p) as F4.
  { intros p Hp Ht. rewrite (sc_files _ _ C4) by done. by apply (Hfiles b2). }
  destruct r4 as [[]|e].
  - apply wp_ret. split; [done|]. split; [done|]. split; [done|]. split; [by intros ? [= <-]|]. intros _. by exists id.
  - split; [done|]. split; [done|]. split; [by intros ? [= <-]|]. split; [done|]. intros (Hs & _). by specialize (S4 Hs).
Qed.
End theorems.

(** ** Witness *)

(** The bench an import succeeded on, reset. *)
Definition started_bench : Bench bench_fs model_client :=
  mkBench (mkBenchFs (mkModelFs
    (<[parts ATTESTATION_KEY_PATH := [0; 2; 0; 5] ++ id_key model_identity]>
       (<[parts ATTESTATION_CERT_PATH := model_certificate]> (mf_files provisioned_fs))) (mf_dirs provisioned_fs))
    (reset_device (λ _, 255))) (mkModelClient [] 0).

Lemma startup_exact_witness :
  ∃ r b', startup (ascii_bytes "0x303a") (ascii_bytes "33025") (ascii_bytes "salpa-0.1") started_bench = Some (r, b') ∧
    only_store (device started_bench) (device b').
Proof.
  destruct (startup_exact (ascii_bytes "0x303a") (ascii_bytes "33025") (ascii_bytes "salpa-0.1") started_bench)
    as (r & b' & E & O & _); [intros [=]|]. exists r, b'. split; [exact E|exact O].
Defined.

Example imported_store_starts :
  option_map fst (startup (ascii_bytes "0x303a") (ascii_bytes "33025") (ascii_bytes "salpa-0.1") started_bench)
  = Some (Ok (mkUsbIdentity 0x303a 33025 (ascii_bytes "salpa-0.1"))).
Proof. vm_compute. reflexivity. Qed.
Example provisioned_store_refused :
  option_map fst (startup (ascii_bytes "0x303a") (ascii_bytes "33025") (ascii_bytes "salpa-0.1") staged_bench)
  = Some (Err InvalidAttestation).
Proof. vm_compute. reflexivity. Qed.
