(* ===== verification/UsbUpdateFrame.v ===== *)
(** * What a request can do to the backend

    A request acts on the backend only through the calls of the traits.  Whatever
    preorder every call respects, the whole request respects. *)

From stdpp Require Import base tactics numbers list option.
From S2P Require Import Prelude Interfaces SignedImage UsbUpdate.

(** A relation every call of a backend respects. *)
Class BackendFrame (B : Type) `{UpdateBackend B} (R : B → B → Prop) := {
  bf_preorder :: PreOrder R;
  bf_now : ∀ b t b', ub_now_ms b = (t, b') → R b b';
  bf_layout : ∀ b l b', ub_layout b = (l, b') → R b b';
  bf_erase : ∀ b s o n r b', ub_erase b s o n = (r, b') → R b b';
  bf_write : ∀ b s o d r b', ub_write b s o d = (r, b') → R b b';
  bf_activate : ∀ b s q e r b', ub_activate b s q e = (r, b') → R b b';
  bf_read : ∀ b s o n r b', ir_read b s o n = (r, b') → R b b';
  bf_verify : ∀ b k s d r b', ir_verify_rsa_pss b k s d = (r, b') → R b b';
}.

Section frame.
Context `{Sha256} {B : Type} (R : B → B → Prop) `{BackendFrame B R}.

Definition lifted (u u' : UsbUpdater B) : Prop := R (uu_backend u) (uu_backend u').

#[local] Instance lifted_preorder : PreOrder lifted.
Proof. split; [by intros u; red|]. intros u1 u2 u3 ??. red. by etrans. Qed.

Lemma framed_on_backend {A} (f : B → A * B) : (∀ b a b', f b = (a, b') → R b b') →
  ∀ u a u', on_backend f u = (a, u') → lifted u u'.
Proof.
  intros Hf u a u'. unfold on_backend. destruct (f (uu_backend u)) as [a1 b1] eqn:E.
  intros [= _ <-]. red. simpl. by eapply Hf.
Qed.

Lemma framed_session s : preserves (E := StatusCode) lifted (save_session s).
Proof. apply preserves_modify. intros u. red. reflexivity. Qed.
Lemma framed_now : preserves lifted now_ms.
Proof. apply preserves_call. eapply framed_on_backend, bf_now. Qed.
Lemma framed_next v : preserves (E := StatusCode) lifted (modify (with_next_session_id v)).
Proof. apply preserves_modify. intros u. red. reflexivity. Qed.
Lemma framed_close v : preserves (E := StatusCode) lifted (modify (with_session v)).
Proof. apply preserves_modify. intros u. red. reflexivity. Qed.
Lemma framed_layout : preserves (E := StatusCode) lifted (call_or (on_backend ub_layout) FlashError).
Proof. apply preserves_call_or. apply framed_on_backend, bf_layout. Qed.
Hint Resolve framed_session framed_now framed_next framed_close framed_layout : preserves.

Lemma framed_the_session : preserves lifted the_session.
Proof. unfold the_session. preserve. Qed.
Lemma framed_expire s : preserves lifted (session_expire s).
Proof. unfold session_expire. preserve. Qed.
Lemma framed_progress s : preserves lifted (session_progress s).
Proof. unfold session_progress. preserve. Qed.
Lemma framed_fail {A} st s : preserves lifted (fail_with (A := A) st s).
Proof. unfold fail_with. preserve. Qed.
Lemma framed_or_fail {A} (f : B → option A * B) st s : (∀ b a b', f b = (a, b') → R b b') →
  preserves lifted (or_fail f st s).
Proof.
  intros Hf. unfold or_fail. apply preserves_bind; [typeclasses eauto|..].
  - apply preserves_call. by apply framed_on_backend.
  - intros [a|]; [auto with preserves typeclass_instances|apply framed_fail].
Qed.
Hint Resolve framed_the_session framed_expire framed_progress framed_fail : preserves.
Hint Extern 1 (preserves _ (or_fail _ _ _)) =>
  apply framed_or_fail; intros;
  first [by eapply bf_write|by eapply bf_read|by eapply bf_verify|by eapply bf_layout
        |by eapply bf_activate|by eapply bf_erase] : preserves.

Lemma framed_finish_verification : preserves lifted finish_verification.
Proof. unfold finish_verification. preserve. Qed.
Lemma framed_verify_chunk e l s : preserves lifted (verify_chunk e l s).
Proof. unfold verify_chunk. preserve. Qed.
Hint Resolve framed_finish_verification framed_verify_chunk : preserves.
Lemma framed_verify_loop fuel e l s : preserves lifted (verify_loop fuel e l s).
Proof. revert s. induction fuel as [|fuel IH]; intros s; cbn [verify_loop]; preserve. Qed.
Hint Resolve framed_verify_loop : preserves.
Lemma framed_verify_step : preserves lifted verify_step.
Proof. unfold verify_step. preserve. Qed.
Hint Resolve framed_verify_step : preserves.

Lemma framed_begin request present : preserves lifted (begin request present).
Proof. unfold begin. preserve. Qed.
Lemma framed_write request : preserves lifted (write request).
Proof. unfold write. preserve. Qed.
Lemma framed_advance request : preserves lifted (advance request).
Proof. unfold advance. preserve. Qed.
Lemma framed_abort request : preserves lifted (abort request).
Proof. unfold abort. preserve. Qed.
Hint Resolve framed_begin framed_write framed_advance framed_abort : preserves.

(** The backend after a request is related to the backend before. *)
Lemma handle_frame u request present response n response' u' :
  handle u request present response = Some (n, response', u') → R (uu_backend u) (uu_backend u').
Proof.
  unfold handle. intros E. apply bind_Some in E as ([st u1] & E1 & E).
  apply bind_Some in E as ([n1 r1] & _ & [= _ _ <-]).
  assert (preserves lifted (handle_inner request present)) as Hp.
  { unfold handle_inner. preserve. }
  pose proof (preserves_finish _ _ _ _ _ Hp E1) as K. etrans; [|exact K].
  unfold poll. destruct (uu_session u) as [s|]; [|reflexivity].
  destruct (ub_now_ms (uu_backend u)) as [t b] eqn:Et. simpl. by eapply bf_now.
Qed.
End frame.
