(* ===== verification/SecurityStatus.v ===== *)
(** * Read-only responses

    [src/src/platform/security_status.rs]: the eFuse policy fields and their 32-byte
    encoding; [src/src/platform/security_epoch_preview.rs]: the check of one
    installed slot, between two equal readings of the layout, and its 64-byte
    response.  The eFuse fields of [esp_hal] are read through two functions. *)

From stdpp Require Import base tactics numbers list option.
From S2P Require Import Prelude Interfaces SignedImage UsbUpdate Ota Epoch EpochMaintenance.

(** ** Security status *)

Definition STATUS_REQUEST : Z := 0x11.
Definition STATUS_SIZE : nat := 32.

Record SecurityStatus := mkSecurityStatus {
  st_secure_version_raw : Z;
  st_write_disable : Z;
  st_policy_flags : Z;
  st_flash_crypt_count : Z;
  st_read_disable : Z;
  st_revoked_roots : Z;
  st_revision_major : Z;
  st_revision_minor : Z;
  st_application_secure_version : Z;
}.

Definition encode_security_status (s : SecurityStatus) (output : bytes) : nat * bytes :=
  let output := put (zeros (length output)) 0 [0x52; 0x4b; 0x53; 0x31] in
  let output := put output 4 (le_encode 2 (st_secure_version_raw s)) in
  let output := put output 6 [count_ones 16 (st_secure_version_raw s)] in
  let output := put output 8 (le_encode 4 (st_write_disable s)) in
  let output := put output 12 (le_encode 4 (st_policy_flags s)) in
  let output := put output 16 [st_flash_crypt_count s; st_read_disable s; st_revoked_roots s;
                               st_revision_major s; st_revision_minor s] in
  let output := put output 24 (le_encode 4 (st_application_secure_version s)) in
  (STATUS_SIZE, output).

(** The fields of [esp_hal::efuse] the status reads. *)
Inductive EfuseField :=
  | SECURE_BOOT_EN | DIS_DOWNLOAD_MODE | DIS_USB_DOWNLOAD_MODE | ENABLE_SECURITY_DOWNLOAD
  | DIS_USB | HARD_DIS_JTAG | SECURE_BOOT_KEY_REVOKE0 | SECURE_BOOT_KEY_REVOKE1
  | SECURE_BOOT_KEY_REVOKE2 | SECURE_VERSION | WR_DIS | SPI_BOOT_CRYPT_CNT | RD_DIS.

Definition policy_fields : list EfuseField :=
  [SECURE_BOOT_EN; DIS_DOWNLOAD_MODE; DIS_USB_DOWNLOAD_MODE; ENABLE_SECURITY_DOWNLOAD; DIS_USB; HARD_DIS_JTAG].

Definition policy_flags (read_bit : EfuseField → bool) : Z :=
  foldl (λ flags '(bit, field), Z.lor flags (Z.shiftl (Z.b2z (read_bit field)) (Z.of_nat bit)))
    0 (zip (seq 0 (length policy_fields)) policy_fields).

Definition read_security_status (read_bit : EfuseField → bool) (read_field_le : EfuseField → Z)
    (major minor application_secure_version : Z) : SecurityStatus :=
  let revoked_roots :=
    Z.lor (Z.lor (Z.b2z (read_bit SECURE_BOOT_KEY_REVOKE0))
      (Z.shiftl (Z.b2z (read_bit SECURE_BOOT_KEY_REVOKE1)) 1))
      (Z.shiftl (Z.b2z (read_bit SECURE_BOOT_KEY_REVOKE2)) 2) in
  mkSecurityStatus (read_field_le SECURE_VERSION) (read_field_le WR_DIS) (policy_flags read_bit)
    (read_field_le SPI_BOOT_CRYPT_CNT) (read_field_le RD_DIS) revoked_roots major minor
    application_secure_version.

(** ** Epoch preview *)

Definition PREVIEW_REQUEST : Z := 0x12.
Definition PREVIEW_SIZE : nat := 64.

Inductive PreviewError := PV_Busy | PV_Layout | PV_Image | PV_Request.
Definition preview_code (e : PreviewError) : Z :=
  match e with PV_Busy => 1 | PV_Layout => 2 | PV_Image => 3 | PV_Request => 4 end.

Definition requested_slot (request : bytes) (p : Phase) : result PreviewError Z :=
  if negb (length request =? 2)%nat || negb (byte_at request 0 =? PREVIEW_REQUEST)
     || (1 <? byte_at request 1)
  then Err PV_Request
  else if bool_decide (p ≠ Idle) then Err PV_Busy
  else Ok (byte_at request 1).

Definition encode_preview (slot : Z) (r : result PreviewError (QualifiedLayout * VerifiedInstalledImage)) : bytes :=
  let output := put (zeros 64) 0 [0x52; 0x4b; 0x45; 0x31] in
  let output := put output 5 [slot] in
  match r with
  | Ok (layout, image) =>
      let output := put output 6 [running_slot layout] in
      let output := put output 8 (le_encode 4 (vi_secure_version image)) in
      let output := put output 12 (le_encode 4 (vi_signed_image_bytes image)) in
      let output := put output 16 (vi_signed_content_digest image) in
      let output := put output 48 (le_encode 4 (sequences layout).1) in
      put output 52 (le_encode 4 (sequences layout).2)
  | Err e => put output 4 [preview_code e]
  end.

Section preview.
Context `{Sha256} {F : Type} `{ImageReader F} `{MaintenanceFlash F}.

(** The closure of [handle]. *)
Definition preview_slot (root : bytes) (slot : Z) : step F PreviewError (QualifiedLayout * VerifiedInstalledImage) :=
  before ← call_or mf_qualified_layout PV_Layout;
  image ← map_err (verify_installed_slot slot root) PV_Image;
  after ← call_or mf_qualified_layout PV_Layout;
  return_if (bool_decide (before ≠ after)) PV_Layout;;
  mret (after, image).

Definition preview_handle (root : bytes) (p : Phase) (request : bytes) (f : F) : option (option bytes * F) :=
  if negb (bool_decide (head request = Some PREVIEW_REQUEST)) then Some (None, f)
  else
    match requested_slot request p with
    | Err e => Some (Some (encode_preview 255 (Err e)), f)
    | Ok slot =>
        '(r, f) ← preview_slot root slot f;
        Some (Some (encode_preview slot r), f)
    end.
End preview.
