(* ===== verification/VendorCommands.v ===== *)
(** * Vendor requests

    [src/src/platform/vendor_commands.rs]: the dispatch of a vendor request over the
    [Handlers] trait, and its implementation on the board: maintenance, preview and
    memory status first, then the security status, then the update session, whose
    request for user presence is answered by the button and retried once. *)

From stdpp Require Import base tactics numbers list option.
From S2P Require Import Prelude Interfaces SignedImage UsbUpdate Ota Presence Epoch EpochTransaction EpochProgrammer.
From S2P Require Import EpochMaintenance MemoryProtection SecurityStatus.

(** A handler on a state: [None] is a panic; the response buffer has 64 bytes. *)
Class Handlers (S : Type) := {
  diagnostics : bytes → bytes → S → option (option nat * bytes * S);
  security_status : bytes → S → option (nat * bytes * S);
  update : bytes → bool → bytes → S → option (nat * bytes * S);
  confirm_update : S → option (bool * S);
}.

Definition diagnostic (S : Type) : Type := bytes → S → option (option nat * bytes * S).

(** [maintenance(..).or_else(preview).or_else(memory)]. *)
Definition or_else {S} (first second : diagnostic S) : diagnostic S := λ response s,
  '(length, response, s) ← first response s;
  match length with
  | Some length => Some (Some length, response, s)
  | None => second response s
  end.
Definition first_diagnostic_response {S} (maintenance preview memory : diagnostic S) : diagnostic S :=
  or_else (or_else maintenance preview) memory.

Definition dispatch {S} `{Handlers S} (request response : bytes) (s : S) : option (nat * bytes * S) :=
  '(diagnosed, response, s) ← diagnostics request response s;
  '(length, response, s) ←
    match diagnosed with
    | Some length => Some (length, response, s)
    | None =>
        if bytes_eqb request [STATUS_REQUEST] then security_status response s
        else update request false response s
    end;
  if byte_at response 0 =? UsbUpdate.status_code UserPresenceRequired then
    '(confirmed, s) ← confirm_update (S := S) s;
    if confirmed : bool then update request true response s else Some (length, response, s)
  else Some (length, response, s).

(** ** The board *)

Definition MEMORY_REQUEST : Z := 0x16.

(** The Cargo features that select the diagnostics. *)
Record Features := mkFeatures {
  ft_security_epoch_maintenance : bool;
  ft_security_epoch_preview : bool;
  ft_release_flash_encryption : bool;
}.

(** What a dispatch sees of the outside: the constants of the build and the chip, the
    memory policy with its registers, the eFuse status, and the button and the clock
    during either confirmation. *)
Record Environment (R : Type) := mkEnvironment {
  en_features : Features;
  en_platform : Platform;
  en_policy : Policy;
  en_registers : R;
  en_status : SecurityStatus;
  en_maintenance : Circumstances;
  en_now : Z;
  en_readings : list Reading;
}.
Arguments en_features {R}.
Arguments en_platform {R}.
Arguments en_policy {R}.
Arguments en_registers {R}.
Arguments en_status {R}.
Arguments en_maintenance {R}.
Arguments en_now {R}.
Arguments en_readings {R}.

Section board.
Context `{Sha256} {B D R : Type} `{UpdateBackend B} `{MaintenanceFlash B} `{Efuse D} `{Registers R}.

Record S2Handlers := mkS2Handlers {
  sh_updater : UsbUpdater B;
  sh_efuse : D;
  sh_attempted : bool;
  sh_hardware : UserHardware;
}.

(** The maintenance handler works on the same flash, fuses and button. *)
Definition world_of (s : S2Handlers) : World (F := B) (D := D) :=
  mkWorld (uu_backend (sh_updater s)) (sh_efuse s) (sh_attempted s) (sh_hardware s).
Definition with_world (w : World (F := B) (D := D)) (s : S2Handlers) : S2Handlers :=
  mkS2Handlers (with_backend (w_flash w) (sh_updater s)) (w_efuse w) (w_attempted w) (w_hardware w).

(** The update phase and the two instants of the confirmation reach maintenance with
    the session as it is. *)
Definition circumstances_of (c : Circumstances) (s : S2Handlers) : Circumstances :=
  mkCircumstances (bool_decide (UsbUpdate.phase (sh_updater s) = Idle)) (ci_now c) (ci_readings c) (ci_cancelled c).

Definition maintenance_diagnostic (e : Environment R) (request : bytes) : diagnostic S2Handlers := λ response s,
  if ft_security_epoch_maintenance (en_features e) then
    '(out, w) ← maintenance_handle (en_platform e) (circumstances_of (en_maintenance e) s) request (world_of s);
    Some (match out with Some response => (Some 64%nat, response, with_world w s) | None => (None, response, s) end)
  else Some (None, response, s).

Definition preview_diagnostic (e : Environment R) (request : bytes) : diagnostic S2Handlers := λ response s,
  if ft_security_epoch_preview (en_features e) || ft_security_epoch_maintenance (en_features e) then
    '(out, f) ← preview_handle (pl_root (en_platform e)) (UsbUpdate.phase (sh_updater s)) request (uu_backend (sh_updater s));
    Some (match out with
          | Some response =>
              (Some PREVIEW_SIZE, response,
               mkS2Handlers (with_backend f (sh_updater s)) (sh_efuse s) (sh_attempted s) (sh_hardware s))
          | None => (None, response, s)
          end)
  else Some (None, response, s).

Definition memory_diagnostic (e : Environment R) (request : bytes) : diagnostic S2Handlers := λ response s,
  if ft_release_flash_encryption (en_features e) && bytes_eqb request [MEMORY_REQUEST] then
    output ← encode_status (en_policy e) (en_registers e) response;
    Some (Some 64%nat, output, s)
  else Some (None, response, s).

Definition s2_diagnostics (e : Environment R) (request : bytes) : diagnostic S2Handlers :=
  first_diagnostic_response (maintenance_diagnostic e request) (preview_diagnostic e request)
    (memory_diagnostic e request).

Definition s2_update (request : bytes) (present : bool) (response : bytes) (s : S2Handlers)
  : option (nat * bytes * S2Handlers) :=
  '(n, response, u) ← UsbUpdate.handle (sh_updater s) request present response;
  Some (n, response, mkS2Handlers u (sh_efuse s) (sh_attempted s) (sh_hardware s)).

Definition s2_confirm_update (e : Environment R) (s : S2Handlers) : option (bool * S2Handlers) :=
  '(confirmed, hw) ← confirm_update_user_presence (en_now e) (en_readings e) (sh_hardware s);
  Some (confirmed, mkS2Handlers (sh_updater s) (sh_efuse s) (sh_attempted s) hw).

Definition s2_handlers (e : Environment R) : Handlers S2Handlers := {|
  diagnostics := s2_diagnostics e;
  security_status response s := let '(n, response) := encode_security_status (en_status e) response in Some (n, response, s);
  update := s2_update;
  confirm_update := s2_confirm_update e;
|}.

(** [vendor_commands::handle]. *)
Definition vendor_handle (e : Environment R) (request response : bytes) (s : S2Handlers)
  : option (nat * bytes * S2Handlers) :=
  dispatch (H := s2_handlers e) request response s.
End board.
