(* ===== verification/VendorFrame.v ===== *)
(** * What a vendor request can do to the flash

    Whatever relation the calls of a backend respect, the whole vendor request
    respects: diagnostics, the security status, the update session and the retry
    after user presence.  On the release backend one such relation says that flash
    outside the boot records and the two slots, and every read of the credential
    store, stay as they were. *)

From stdpp Require Import base tactics numbers list option.
From S2P Require Import Prelude Interfaces SignedImage UsbUpdate UsbUpdateFrame Ota Presence Epoch EpochTransaction.
From S2P Require Import EpochProgrammer EpochMaintenance MemoryProtection SecurityStatus VendorCommands.

Class MaintenanceFrame (F : Type) `{MaintenanceFlash F} (R : F → F → Prop) := {
  mfr_layout : ∀ f r f', mf_qualified_layout f = (r, f') → R f f';
  mfr_read : ∀ o f r f', mf_spiflash_read o f = (r, f') → R f f';
}.

(** The button's gate is left as it is or discarded. *)
Definition relaxed (hw hw' : UserHardware) : Prop := hw' = hw ∨ hw_gate hw' = None.

#[export] Instance relaxed_preorder : PreOrder relaxed.
Proof. split; [by left|]. intros a b c [->|Hb] [->|Hc]; [by left|by right..]. Qed.

Lemma confirm_relaxed now timeout_ms long readings hw b hw' :
  confirm now timeout_ms long readings hw = Some (b, hw') → relaxed hw hw'.
Proof. intros E. apply bind_Some in E as ([b' hw1] & _ & [= _ <-]). by right. Qed.

(** ** Installed slots, the preview and maintenance *)

Section slots.
Context `{Sha256} {B : Type} (R : B → B → Prop) `{UpdateBackend B} `{!BackendFrame B R}.
#[local] Existing Instance bf_preorder.

Lemma framed_read {E} slot offset n (e : E) : preserves R (call_or (λ b, ir_read b slot offset n) e).
Proof. apply preserves_call_or. intros. by eapply bf_read. Qed.
Lemma framed_verify {E} k s d (e : E) : preserves R (call_or (λ b, ir_verify_rsa_pss b k s d) e).
Proof. apply preserves_call_or. intros. by eapply bf_verify. Qed.
Hint Resolve framed_read framed_verify : preserves.

Lemma framed_walk slot segments position : preserves R (walk_segments slot segments position).
Proof.
  revert position. induction segments as [|x l IH]; intros position; cbn [walk_segments]; [preserve|].
  unfold segment_step. preserve.
Qed.
Lemma framed_hash fuel slot so o h : preserves R (hash_loop fuel slot so o h).
Proof. revert o h. induction fuel as [|fuel IH]; intros o h; cbn [hash_loop]; preserve. Qed.
Hint Resolve framed_walk framed_hash : preserves.

Lemma framed_installed slot root : preserves R (verify_installed_slot slot root).
Proof. unfold verify_installed_slot. preserve. Qed.
Hint Resolve framed_installed : preserves.

Context `{!MaintenanceFlash B} `{!MaintenanceFrame B R}.

Lemma framed_preview root slot : preserves R (preview_slot root slot).
Proof.
  assert (∀ e : PreviewError, preserves R (call_or mf_qualified_layout e)) as HL
    by (intros e; apply preserves_call_or; intros; by eapply mfr_layout).
  unfold preview_slot. preserve.
Qed.

Lemma preview_frame root p request b out b' : preview_handle root p request b = Some (out, b') → R b b'.
Proof.
  unfold preview_handle. destruct (negb _); [by intros [= _ <-]|].
  destruct (requested_slot request p) as [slot|e]; [|by intros [= _ <-]].
  intros E. apply bind_Some in E as ([r b1] & E & [= _ <-]). by eapply framed_preview.
Qed.

Context {D : Type} `{Efuse D}.

Definition world_lifted (w w' : World (F := B) (D := D)) : Prop :=
  R (w_flash w) (w_flash w') ∧ relaxed (w_hardware w) (w_hardware w').
#[local] Instance world_lifted_preorder : PreOrder world_lifted.
Proof. split; [by intros w; split|]. intros w1 w2 w3 [F1 H1'] [F2 H2']. split; by etrans. Qed.

Lemma framed_flash_step {E A} (c : step B E A) e : preserves R c → preserves world_lifted (flash_step c e).
Proof.
  intros Hc w r w'. unfold flash_step. destruct (c (w_flash w)) as [[[a|e1] s]|] eqn:Ec; [..|done];
    intros [= _ <-]; (split; [by eapply Hc|by left]).
Qed.
Lemma framed_on_flash {A} (f : B → option A * B) e : (∀ b a b', f b = (a, b') → R b b') →
  preserves (E := MaintenanceError) world_lifted (call_or (on_flash f) e).
Proof.
  intros Hf. apply preserves_call_or. intros w a w'. unfold on_flash. destruct (f (w_flash w)) as [a1 s] eqn:Ef.
  intros [= _ <-]. split; [by eapply Hf|by left].
Qed.
Lemma framed_efuse {A} (f : D → A * D) : preserves (E := MaintenanceError) world_lifted (call (on_efuse f)).
Proof.
  apply preserves_call. intros w a w'. unfold on_efuse. destruct (f (w_efuse w)). intros [= _ <-].
  by split; [|left].
Qed.
Lemma framed_layouts e : preserves (E := MaintenanceError) world_lifted (call_or (on_flash mf_qualified_layout) e).
Proof. apply framed_on_flash. intros. by eapply mfr_layout. Qed.
Lemma framed_raw o e : preserves (E := MaintenanceError) world_lifted (call_or (on_flash (mf_spiflash_read o)) e).
Proof. apply framed_on_flash. intros. by eapply mfr_read. Qed.
Hint Resolve framed_flash_step framed_efuse framed_layouts framed_raw : preserves.

Lemma framed_slots slots root : preserves world_lifted (qualify_slots slots root).
Proof. induction slots as [|s l IH]; cbn [qualify_slots]; preserve. Qed.
Lemma framed_bootloader offsets h : preserves world_lifted (hash_bootloader offsets h).
Proof. revert h. induction offsets as [|o l IH]; intros h; cbn [hash_bootloader]; preserve. Qed.
Hint Resolve framed_slots framed_bootloader : preserves.
Lemma framed_bootloader_digest : preserves world_lifted bootloader_ciphertext_digest.
Proof. unfold bootloader_ciphertext_digest. preserve. Qed.
Hint Resolve framed_bootloader_digest : preserves.
Lemma framed_qualify p expected : preserves world_lifted (qualify p expected).
Proof. unfold qualify. preserve. Qed.
Lemma framed_presence now readings : preserves world_lifted (confirm_presence now readings).
Proof.
  intros w r w' E. unfold confirm_presence in E. apply bind_Some in E as ([? ?] & E & [= _ <-]).
  split; [by simpl|]. by eapply confirm_relaxed.
Qed.
Lemma framed_program change : preserves world_lifted (program change).
Proof.
  intros w r w' E. unfold program in E. apply bind_Some in E as ([[? ?] ?] & _ & [= _ <-]).
  by split; [|left].
Qed.
Hint Resolve framed_qualify framed_presence framed_program : preserves.
Lemma framed_maintenance p c request : preserves world_lifted (maintenance_body p c request).
Proof. unfold maintenance_body. preserve. Qed.

Lemma maintenance_frame p c request w out w' :
  maintenance_handle p c request w = Some (out, w') → world_lifted w w'.
Proof.
  unfold maintenance_handle. destruct (negb _); [intros [= _ <-]; reflexivity|].
  intros E. apply bind_Some in E as ([r w1] & E & [= _ <-]). by eapply framed_maintenance.
Qed.

(** ** The dispatch *)

Context {G : Type} `{Registers G}.
Abbreviation handlers := (S2Handlers (B := B) (D := D)).
Definition backend_of (s : handlers) : B := uu_backend (sh_updater s).

Definition handlers_lifted (s s' : handlers) : Prop :=
  R (backend_of s) (backend_of s') ∧ relaxed (sh_hardware s) (sh_hardware s').
#[local] Instance handlers_lifted_preorder : PreOrder handlers_lifted.
Proof. split; [by intros s; split|]. intros s1 s2 s3 [F1 H1'] [F2 H2']. split; by etrans. Qed.

Lemma diagnostics_frame (e : Environment G) request response (s : handlers) d response' s' :
  s2_diagnostics e request response s = Some (d, response', s') → handlers_lifted s s'.
Proof.
  unfold s2_diagnostics, first_diagnostic_response, or_else. intros E.
  apply bind_Some in E as ([[d2 r2] s2] & E2 & E). apply bind_Some in E2 as ([[d1 r1] s1] & E1 & E2).
  assert (handlers_lifted s s1) as K1.
  { unfold maintenance_diagnostic in E1. destruct (ft_security_epoch_maintenance _); [|by injection E1 as _ _ <-].
    apply bind_Some in E1 as ([out w] & Em & E1). apply maintenance_frame in Em.
    destruct out; injection E1 as _ _ <-; [exact Em|reflexivity]. }
  assert (handlers_lifted s1 s2) as K2.
  { destruct d1; [by injection E2 as _ _ <-|]. unfold preview_diagnostic in E2.
    destruct (_ || _); [|by injection E2 as _ _ <-].
    apply bind_Some in E2 as ([out b] & Ep & E2). apply preview_frame in Ep.
    destruct out; injection E2 as _ _ <-; [by split; [|left]|reflexivity]. }
  etrans; [exact K1|]. etrans; [exact K2|]. destruct d2; [by injection E as _ _ <-|].
  unfold memory_diagnostic in E. destruct (_ && _); [|by injection E as _ _ <-].
  by apply bind_Some in E as (out & _ & [= _ _ <-]).
Qed.

Lemma update_frame request present response (s : handlers) n response' s' :
  s2_update request present response s = Some (n, response', s') → handlers_lifted s s'.
Proof.
  unfold s2_update. intros E. apply bind_Some in E as ([[n1 r1] u] & E & [= _ _ <-]).
  split; [exact (handle_frame R _ _ _ _ _ _ _ E)|by left].
Qed.

Lemma vendor_frame (e : Environment G) request response (s : handlers) n response' s' :
  vendor_handle e request response s = Some (n, response', s') → handlers_lifted s s'.
Proof.
  unfold vendor_handle, dispatch. cbn [diagnostics security_status update confirm_update s2_handlers]. intros E.
  apply bind_Some in E as ([[d r1] s1] & E1 & E). apply bind_Some in E as ([[n2 r2] s2] & E2 & E).
  apply diagnostics_frame in E1.
  assert (handlers_lifted s1 s2) as K2.
  { destruct d; [by injection E2 as _ _ <-|]. destruct (bytes_eqb _ _); [|by eapply update_frame].
    destruct (encode_security_status _ _). by injection E2 as _ _ <-. }
  etrans; [exact E1|]. etrans; [exact K2|].
  destruct (_ =? _); [|by injection E as _ _ <-].
  apply bind_Some in E as ([c s3] & Ec & E). unfold s2_confirm_update in Ec.
  apply bind_Some in Ec as ([c' hw] & Ec & [= <- <-]). apply confirm_relaxed in Ec.
  set (s3 := mkS2Handlers _ _ _ _) in E. assert (handlers_lifted s2 s3) as K3 by by split.
  etrans; [exact K3|]. destruct c'; [by apply update_frame in E|by injection E as _ _ <-].
Qed.
End slots.
