(* ===== verification/VendorTheorems.v ===== *)
(** * Vendor requests are routed by their bytes and served

    The dispatch is a table on the request, a diagnostic reply is never mistaken for
    a demand for user presence, every request is served, the session it may open
    needs a fresh press, and no request reaches the credentials. *)

From stdpp Require Import base tactics numbers list option.
From S2P Require Import Prelude Interfaces SignedImage UsbUpdate UsbUpdateSafety UsbUpdateGrant UsbUpdateTheorems.
From S2P Require Import Presence PresenceTheorems Ota Epoch EpochTransaction EpochProgrammer EpochMaintenance.
From S2P Require Import EpochTheorems EpochMaintenanceTheorems MemoryProtection MemoryProtectionTheorems.
From S2P Require Import SecurityStatus VendorCommands ModelBackend.

(** ** The routing table *)

Inductive Route := ToMaintenance | ToPreview | ToMemory | ToStatus | ToUpdate.

Definition route (f : Features) (request : bytes) : Route :=
  match request with
  | [] => ToUpdate
  | c :: rest =>
      let alone := (length rest =? 0)%nat in
      if ft_security_epoch_maintenance f && ((c =? INSPECT) || (c =? PROGRAM) || (c =? REHEARSE)) then ToMaintenance
      else if (ft_security_epoch_preview f || ft_security_epoch_maintenance f) && (c =? PREVIEW_REQUEST) then ToPreview
      else if ft_release_flash_encryption f && (c =? MEMORY_REQUEST) && alone then ToMemory
      else if (c =? STATUS_REQUEST) && alone then ToStatus
      else ToUpdate
  end.

Lemma alone_eqb c x rest : bytes_eqb (c :: rest) [x] = (c =? x) && (length rest =? 0)%nat.
Proof.
  unfold bytes_eqb. destruct (Z.eqb_spec c x) as [->|Hne], rest as [|y rest]; cbn [andb length Nat.eqb];
    (by apply bool_decide_eq_true) || (apply bool_decide_eq_false; congruence).
Qed.

Section routing.
Context `{Sha256} {B D G : Type} `{UpdateBackend B} `{MaintenanceFlash B} `{Efuse D} `{Registers G}.
Abbreviation handlers := (S2Handlers (B := B) (D := D)).

(** The table the dispatch implements. *)
Definition serve (e : Environment G) (request response : bytes) (s : handlers) : option (nat * bytes * handlers) :=
  match route (en_features e) request with
  | ToMaintenance =>
      '(out, w) ← maintenance_handle (en_platform e) (circumstances_of (en_maintenance e) s) request (world_of s);
      Some (64%nat, default response out, with_world w s)
  | ToPreview =>
      '(out, f) ← preview_handle (pl_root (en_platform e)) (UsbUpdate.phase (sh_updater s)) request (uu_backend (sh_updater s));
      Some (64%nat, default response out,
            mkS2Handlers (with_backend f (sh_updater s)) (sh_efuse s) (sh_attempted s) (sh_hardware s))
  | ToMemory =>
      output ← encode_status (en_policy e) (en_registers e) response;
      Some (64%nat, output, s)
  | ToStatus => let '(n, output) := encode_security_status (en_status e) response in Some (n, output, s)
  | ToUpdate =>
      '(n, output, s) ← s2_update request false response s;
      if byte_at output 0 =? UsbUpdate.status_code UserPresenceRequired then
        '(confirmed, s) ← s2_confirm_update e s;
        if confirmed : bool then s2_update request true output s else Some (n, output, s)
      else Some (n, output, s)
  end.

(** *** Diagnostic replies begin with [R] *)

Lemma byte_at_put_0 out off d : (off ≠ 0)%nat → (off ≤ length out)%nat → byte_at (put out off d) 0 = byte_at out 0.
Proof.
  intros Hne Hl. unfold byte_at, put. destruct off as [|off]; [done|]. destruct out as [|x out]; [simpl in Hl; lia|done].
Qed.

Lemma magic_put out off d : (0 < off)%nat → (off + length d ≤ length out)%nat → byte_at out 0 = 0x52 →
  byte_at (put out off d) 0 = 0x52 ∧ length (put out off d) = length out.
Proof. intros Ho Hl Hb. split; [rewrite byte_at_put_0; [done|lia..]|by apply length_put]. Qed.

Definition magic (n : nat) (out : bytes) : Prop := byte_at out 0 = 0x52 ∧ length out = n.

Lemma magic_step n out off d : (0 < off)%nat → (off + length d ≤ n)%nat → magic n out → magic n (put out off d).
Proof. intros Ho Hl [Hb <-]. by apply magic_put. Qed.

Lemma magic_start n d : (0 < length d ≤ n)%nat → byte_at d 0 = 0x52 → magic n (put (zeros n) 0 d).
Proof.
  intros Hl Hb. split; [|rewrite length_put; [apply length_zeros|rewrite length_zeros; lia]].
  rewrite put_zeros. destruct d as [|x d]; [simpl in Hl; lia|done].
Qed.

Ltac magic_replies :=
  repeat (apply magic_step; [lia|rewrite ?length_le_encode, ?sha256_length; simpl; lia|]);
  apply magic_start; simpl; lia || reflexivity.

Lemma maintenance_reply p request r : magic 64 (maintenance_response p request r).
Proof.
  unfold maintenance_response. destruct r as [q|[]]; magic_replies.
Qed.

Lemma status_reply s output : length output = 64%nat → magic 64 (encode_security_status s output).2.
Proof. intros Hl. unfold encode_security_status. cbn [snd]. rewrite Hl. magic_replies. Qed.

Lemma preview_reply slot r : (∀ layout image, r = Ok (layout, image) → length (vi_signed_content_digest image) = 32%nat) →
  magic 64 (encode_preview slot r).
Proof.
  intros Hd. unfold encode_preview. destruct r as [[layout image]|e].
  - pose proof (Hd _ _ eq_refl) as Hlen.
    repeat (apply magic_step; [lia|rewrite ?length_le_encode, ?Hlen; simpl; lia|]).
    apply magic_start; simpl; lia || reflexivity.
  - magic_replies.
Qed.

Lemma memory_reply p (r : G) response output : encode_status p r response = Some output → length response = 64%nat →
  magic 64 output.
Proof.
  unfold encode_status. intros E Hl. rewrite Hl in E. change (64 <? 64)%nat with false in E. cbv zeta iota in E.
  apply (inj Some) in E as <-.
  assert (∀ l out, Forall (λ x : nat * (Z * Z), (x.1 < 8)%nat) l → magic 64 out →
    magic 64 (foldl (λ output '(i, (offset, mask)),
      put output (16 + i * 4) (le_encode 4 (Z.land (reg_read r offset) mask))) out l)) as Hfold.
  { induction l as [|[i [o m]] l IH]; intros out Hf Hm; [done|]. inversion Hf; subst. cbn [foldl]. apply IH; [done|].
    apply magic_step; [lia| |done]. rewrite length_le_encode. simpl in *. lia. }
  apply Hfold; [apply (bool_decide_eq_true_1 _); reflexivity|magic_replies].
Qed.

Lemma installed_digest slot root (b : B) image b' :
  verify_installed_slot slot root b = Some (Ok image, b') → length (vi_signed_content_digest image) = 32%nat.
Proof.
  unfold verify_installed_slot. intros E. repeat (apply bind_Ok in E as (? & ? & _ & E)).
  injection E as <- _. apply sha256_length.
Qed.

Lemma preview_digest root slot (b : B) layout image b' :
  preview_slot root slot b = Some (Ok (layout, image), b') → length (vi_signed_content_digest image) = 32%nat.
Proof.
  unfold preview_slot. intros E. apply bind_Ok in E as (before & b1 & _ & E).
  apply bind_Ok in E as (im & b2 & Ei & E). repeat (apply bind_Ok in E as (? & ? & _ & E)).
  injection E as _ <- _. unfold map_err in Ei.
  destruct (verify_installed_slot slot root b1) as [[[im'|e] ?]|] eqn:Ev; [|done..]. injection Ei as <- _.
  by eapply installed_digest.
Qed.

Lemma preview_handle_reply root p request (b : B) out b' :
  preview_handle root p request b = Some (Some out, b') → magic 64 out.
Proof.
  unfold preview_handle. destruct (negb _); [done|]. destruct (requested_slot request p) as [slot|e].
  - intros E. apply bind_Some in E as ([r b1] & E & K). apply (inj Some), (inj2 pair) in K as [K _].
    apply (inj Some) in K as <-. apply preview_reply. intros layout image ->. by eapply preview_digest.
  - intros K. apply (inj Some), (inj2 pair) in K as [K _]. apply (inj Some) in K as <-. by apply preview_reply.
Qed.

(** *** The handlers by their request *)

Lemma is_maintenance_cons c rest : is_maintenance (c :: rest) = (c =? INSPECT) || (c =? PROGRAM) || (c =? REHEARSE).
Proof. done. Qed.

Lemma maintenance_by_request (e : Environment G) request response (s : handlers) :
  maintenance_diagnostic e request response s =
  if ft_security_epoch_maintenance (en_features e) && is_maintenance request then
    '(out, w) ← maintenance_handle (en_platform e) (circumstances_of (en_maintenance e) s) request (world_of s);
    Some (Some 64%nat, default response out, with_world w s)
  else Some (None, response, s).
Proof.
  unfold maintenance_diagnostic, maintenance_handle. destruct (ft_security_epoch_maintenance _); [|done].
  destruct (is_maintenance request); cbn [andb negb]; [|done].
  by destruct (maintenance_body _ _ _ _) as [[r w]|].
Qed.

Lemma preview_by_request (e : Environment G) c rest response (s : handlers) :
  preview_diagnostic e (c :: rest) response s =
  if (ft_security_epoch_preview (en_features e) || ft_security_epoch_maintenance (en_features e)) && (c =? PREVIEW_REQUEST) then
    '(out, f) ← preview_handle (pl_root (en_platform e)) (UsbUpdate.phase (sh_updater s)) (c :: rest) (uu_backend (sh_updater s));
    Some (Some 64%nat, default response out,
          mkS2Handlers (with_backend f (sh_updater s)) (sh_efuse s) (sh_attempted s) (sh_hardware s))
  else Some (None, response, s).
Proof.
  unfold preview_diagnostic, preview_handle. destruct (_ || _); [|done]. cbn [head andb].
  destruct (Z.eqb_spec c PREVIEW_REQUEST) as [->|Hne].
  - rewrite bool_decide_eq_true_2 by done. cbn [negb]. destruct (requested_slot _ _); [|done].
    by destruct (preview_slot _ _ _) as [[? ?]|].
  - by rewrite bool_decide_eq_false_2 by congruence.
Qed.

Lemma no_prompt n (output : bytes) : magic n output →
  (byte_at output 0 =? UsbUpdate.status_code UserPresenceRequired) = false.
Proof. by intros [-> _]. Qed.

Lemma vendor_routes_aux e request response (s : handlers) : length response = 64%nat →
  vendor_handle e request response s = serve e request response s.
Proof.
  intros Hl. unfold vendor_handle, dispatch, serve. cbn [diagnostics security_status update confirm_update s2_handlers].
  unfold s2_diagnostics, first_diagnostic_response, or_else. rewrite maintenance_by_request.
  destruct request as [|c rest].
  { cbn [is_maintenance head route]. rewrite andb_false_r. cbn. unfold preview_diagnostic, memory_diagnostic, preview_handle.
    destruct (_ || _); cbn; by rewrite andb_false_r. }
  rewrite is_maintenance_cons. unfold route.
  destruct (ft_security_epoch_maintenance _ && _) eqn:Em.
  { destruct (maintenance_handle _ _ _ _) as [[out w]|] eqn:E; [|done]. cbn [mbind option_bind].
    unfold maintenance_handle in E. rewrite is_maintenance_cons in E. apply andb_true_iff in Em as [_ Em]. rewrite Em in E. cbn [negb] in E.
    apply bind_Some in E as ([r w1] & _ & K). apply (inj Some), (inj2 pair) in K as [<- <-]. cbn [default].
    by rewrite (no_prompt 64) by apply maintenance_reply. }
  cbn [mbind option_bind]. rewrite preview_by_request.
  destruct (_ && (c =? PREVIEW_REQUEST)) eqn:Ep.
  { destruct (preview_handle _ _ _ _) as [[out f]|] eqn:E; [|done]. cbn [mbind option_bind].
    destruct out as [out|]; [by rewrite (no_prompt 64) by (by eapply preview_handle_reply)|].
    exfalso. unfold preview_handle in E. apply andb_true_iff in Ep as [_ ->%Z.eqb_eq].
    cbn [head] in E. rewrite bool_decide_eq_true_2 in E by done. cbn [negb] in E.
    destruct (requested_slot _ _); [|done]. by apply bind_Some in E as ([? ?] & _ & [=]). }
  cbn [mbind option_bind]. unfold memory_diagnostic. rewrite !alone_eqb, andb_assoc.
  destruct (_ && (c =? MEMORY_REQUEST) && _) eqn:Er.
  { destruct (encode_status _ _ _) as [output|] eqn:E; [|done]. cbn [mbind option_bind].
    by rewrite (no_prompt 64) by (by eapply memory_reply). }
  cbn [mbind option_bind]. destruct ((c =? STATUS_REQUEST) && _).
  { pose proof (status_reply (en_status e) response Hl) as K. destruct (encode_security_status _ _) as [n output].
    cbn [mbind option_bind]. by rewrite (no_prompt 64). }
  by destruct (s2_update _ _ _ _) as [[[n output] s1]|].
Qed.

(** The dispatch is a table on the request: under the features of the build, the
    first byte, and for the two status requests the absence of anything else, select
    one handler, and no other runs.  A reply of a diagnostic handler is final: it
    begins with a letter, never with the code that asks for user presence, so only
    the update session can bring up the prompt, and exactly the same request is
    retried when the prompt is confirmed. *)
Theorem vendor_routes e request response (s : handlers) : length response = 64%nat →
  vendor_handle e request response s = serve e request response s.
Proof. apply vendor_routes_aux. Qed.
End routing.

(** ** Every request is served *)

Section served.
Context `{Sha256} {B D G : Type} `{UpdateView B} `{!MaintenanceFlash B} `{!MaintenanceView B} `{EfuseView D} `{Registers G}.
Abbreviation handlers := (S2Handlers (B := B) (D := D)).

Lemma updater_ok_backend (u : UsbUpdater B) b : slot_mem b = slot_mem (uu_backend u) → updater_ok u →
  updater_ok (with_backend b u).
Proof. intros Hm [Hs Hv Hi]. split; [|done|done]. intros s E. simpl. rewrite Hm. by apply Hs. Qed.

(** The fuses, the session and the invariant, through the three kinds of handlers. *)
Definition session_granted (s s' : handlers) : Prop := ∀ ss', uu_session (sh_updater s') = Some ss' →
  ∃ ss, uu_session (sh_updater s) = Some ss ∧ grant ss' = grant ss.
Definition same_fuses (s s' : handlers) : Prop := ef_fuses (sh_efuse s') = ef_fuses (sh_efuse s).

Lemma s2_update_total request present response (s : handlers) : updater_ok (sh_updater s) → length response = 64%nat →
  ∃ n response' s', s2_update request present response s = Some (n, response', s') ∧ (n ≤ 64)%nat ∧
    length response' = 64%nat ∧ updater_ok (sh_updater s') ∧ same_fuses s s' ∧
    (present = false → session_granted s s').
Proof.
  intros Hu Hl. destruct (handle_total_aux (sh_updater s) request present response Hu ltac:(lia))
    as (n & r & u' & E & Hn & Hl' & Hu'). unfold s2_update. rewrite E. cbn [mbind option_bind].
  exists n, r. eexists. split; [done|]. split_and!; [lia|lia|done|done|].
  intros ->. intros ss' Hs'. by eapply session_needs_presence_aux.
Qed.

Lemma confirm_served now readings hw : 0 ≤ now →
  Exists (ends now UPDATE_USER_PRESENCE_TIMEOUT_MS) readings →
  ∃ b hw', confirm_update_user_presence now readings hw = Some (b, hw') ∧
    (b = true → ∃ pre, pre `prefix_of` readings ∧ gesture (reading_sample <$> pre) false ∧
       Forall (in_window now UPDATE_USER_PRESENCE_TIMEOUT_MS) (reading_sample <$> pre)).
Proof.
  intros H0' Hlate. unfold confirm_update_user_presence, confirm, hw_begin.
  destruct (confirm_loop_ends now UPDATE_USER_PRESENCE_TIMEOUT_MS false readings [] true _ (gate_inv_new _ _ _ H0') Hlate)
    as (b & hw' & pre & -> & Hpre & Hb). cbn [mbind option_bind].
  exists b. eexists. split; [done|]. intros ->. exists pre. split; [done|]. by apply Hb.
Qed.

Definition fresh_press (e : Environment G) : Prop :=
  ∃ pre, pre `prefix_of` en_readings e ∧ gesture (reading_sample <$> pre) false ∧
    Forall (in_window (en_now e) UPDATE_USER_PRESENCE_TIMEOUT_MS) (reading_sample <$> pre).
Definition long_hold (e : Environment G) : Prop :=
  ∃ pre, pre `prefix_of` ci_readings (en_maintenance e) ∧ gesture (reading_sample <$> pre) true.

Definition served (e : Environment G) (request : bytes) (s s' : handlers) : Prop :=
  updater_ok (sh_updater s') ∧ (session_granted s s' ∨ fresh_press e) ∧
  (same_fuses s s' ∨ route (en_features e) request = ToMaintenance ∧ head request = Some PROGRAM ∧
     uu_session (sh_updater s) = None ∧ long_hold e).

(** The outer world behaves: when the readings end, time has passed the deadline or
    the wait was cancelled. *)
Definition outside_ok (e : Environment G) : Prop :=
  0 ≤ ci_now (en_maintenance e) ∧ 0 ≤ en_now e ∧
  Exists (ends (ci_now (en_maintenance e)) 30000) (ci_readings (en_maintenance e)) ∧
  Exists (ends (en_now e) UPDATE_USER_PRESENCE_TIMEOUT_MS) (en_readings e).

Lemma granted_refl (s : handlers) (u : UsbUpdater B) : uu_session u = uu_session (sh_updater s) →
  ∀ ss', uu_session u = Some ss' → ∃ ss, uu_session (sh_updater s) = Some ss ∧ grant ss' = grant ss.
Proof. intros E ss' Hs. exists ss'. by rewrite <- E. Qed.

Lemma serve_maintenance e request response (s : handlers) :
  updater_ok (sh_updater s) → outside_ok e → length response = 64%nat →
  route (en_features e) request = ToMaintenance →
  ∃ n response' s', serve e request response s = Some (n, response', s') ∧ (n ≤ 64)%nat ∧
    length response' = 64%nat ∧ served e request s s'.
Proof.
  intros Hu (Hm & _ & Hlm & _) Hl Hr. unfold serve. rewrite Hr. unfold maintenance_handle.
  destruct (is_maintenance request).
  2: { cbn. exists 64%nat, response. eexists. split; [done|]. split_and!; [done|done|].
       split; [by apply updater_ok_backend|]. split; left; [intros ss'; by eapply granted_refl|done]. }
  destruct (wp_elim _ _ _ (maintenance_body_wp (en_platform e) (circumstances_of (en_maintenance e) s) request
    (world_of s) Hm Hlm)) as (r & w' & E & Hs & _ & Hf). cbn [negb]. rewrite E. cbn [mbind option_bind default].
  exists 64%nat. eexists _, _. split; [done|]. split; [done|]. split; [by apply maintenance_reply|].
  split; [apply updater_ok_backend; [exact Hs|done]|]. split; [left; intros ss'; by eapply granted_refl|].
  destruct (decide (ef_fuses (w_efuse w') = ef_fuses (sh_efuse s))) as [|Hne]; [by left|right].
  destruct Hf as (d0 & d1 & pre & q & -> & _ & _ & Hidle & _ & Hpre & Hg & _); [by left|].
  split; [done|]. split; [done|]. split; [|by exists pre].
  apply bool_decide_eq_true in Hidle. unfold UsbUpdate.phase in Hidle.
  destruct (uu_session (sh_updater s)) as [ss|] eqn:Es; [|done]. exfalso.
  by apply (sh_phase _ (proj1 (uo_session _ Hu _ Es))).
Qed.

Lemma serve_preview e request response (s : handlers) :
  updater_ok (sh_updater s) → length response = 64%nat → route (en_features e) request = ToPreview →
  ∃ n response' s', serve e request response s = Some (n, response', s') ∧ (n ≤ 64)%nat ∧
    length response' = 64%nat ∧ served e request s s'.
Proof.
  intros Hu Hl Hr. unfold serve. rewrite Hr.
  assert (∃ out f, preview_handle (pl_root (en_platform e)) (UsbUpdate.phase (sh_updater s)) request
    (uu_backend (sh_updater s)) = Some (out, f) ∧ slot_mem f = slot_mem (uu_backend (sh_updater s))) as (out & f & E & Hf).
  { unfold preview_handle. destruct (negb _); [by eexists _, _|]. destruct (requested_slot _ _) as [slot|]; [|by eexists _, _].
    assert (wp (preview_slot (pl_root (en_platform e)) slot)
      (λ _ f, slot_mem f = slot_mem (uu_backend (sh_updater s))) (uu_backend (sh_updater s))) as K.
    { apply wp_bind, wp_call_or; [intros before f1 E1|intros f1 E1]; apply mv_layout_frame in E1 as H1'; [|done].
      apply wp_bind, wp_map_err. eapply wp_mono; [apply verify_installed_slot_wp|].
      intros [image|ie] f2 [H2' _]; [|congruence].
      apply wp_bind, wp_call_or; [intros after f3 E3|intros f3 E3]; apply mv_layout_frame in E3 as H3'; [|congruence].
      apply wp_bind, wp_return_if; intros _; [congruence|]. apply wp_ret. congruence. }
    destruct (wp_elim _ _ _ K) as (r & f & -> & Hf). cbn [mbind option_bind]. by eexists _, _. }
  rewrite E. cbn [mbind option_bind]. exists 64%nat. eexists _, _. split; [done|]. split; [done|]. split.
  - destruct out as [out|]; [|done]. by apply (preview_handle_reply _ _ _ _ _ _ E).
  - split; [by apply updater_ok_backend|]. split; left; [intros ss'; by eapply granted_refl|done].
Qed.

Lemma serve_update e request response (s : handlers) :
  updater_ok (sh_updater s) → outside_ok e → length response = 64%nat → route (en_features e) request = ToUpdate →
  ∃ n response' s', serve e request response s = Some (n, response', s') ∧ (n ≤ 64)%nat ∧
    length response' = 64%nat ∧ served e request s s'.
Proof.
  intros Hu (_ & Hn0 & _ & Hlate) Hl Hr. unfold serve. rewrite Hr.
  destruct (s2_update_total request false response s Hu Hl) as (n & out & s1 & -> & Hn & Hl1 & Hu1 & Hf1 & Hg1).
  specialize (Hg1 eq_refl). cbn [mbind option_bind].
  destruct (_ =? _); [|exists n, out, s1; split; [done|]; split_and!; [done|done|by split; [|split; left]]].
  unfold s2_confirm_update. destruct (confirm_served (en_now e) (en_readings e) (sh_hardware s1) Hn0 Hlate)
    as (b & hw & -> & Hb). cbn [mbind option_bind].
  set (s2 := mkS2Handlers (sh_updater s1) (sh_efuse s1) (sh_attempted s1) hw).
  destruct b; [|exists n, out, s2; split; [done|]; split_and!; [done|done|by split; [|split; left]]].
  destruct (s2_update_total request true out s2 Hu1 Hl1) as (n' & out' & s3 & -> & Hn' & Hl3 & Hu3 & Hf3 & _).
  exists n', out', s3. split; [done|]. split_and!; [done|done|]. split; [done|]. split; [right; by apply Hb|].
  left. unfold same_fuses in *. by rewrite Hf3.
Qed.

Lemma vendor_served_aux e request response (s : handlers) :
  updater_ok (sh_updater s) → length response = 64%nat → outside_ok e →
  ∃ n response' s', vendor_handle e request response s = Some (n, response', s') ∧ (n ≤ 64)%nat ∧
    length response' = 64%nat ∧ served e request s s'.
Proof.
  intros Hu Hl He. rewrite vendor_routes_aux by done. destruct (route (en_features e) request) eqn:Hr.
  - by apply serve_maintenance.
  - by apply serve_preview.
  - unfold serve. rewrite Hr. destruct (encode_status _ _ _) as [output|] eqn:E.
    + exists 64%nat, output, s. split; [done|]. split; [done|]. split; [by eapply memory_reply|].
      split; [done|]. split; left; [intros ss'; by eapply granted_refl|done].
    + exfalso. unfold encode_status in E. by rewrite Hl in E.
  - unfold serve. rewrite Hr. pose proof (status_reply (en_status e) response Hl) as [_ K].
    destruct (encode_security_status _ _) as [n output] eqn:E. exists n, output, s. split; [done|].
    assert (n = 32%nat) as -> by (unfold encode_security_status in E; by injection E as <- _).
    split; [lia|]. split; [exact K|]. split; [done|]. split; left; [intros ss'; by eapply granted_refl|done].
  - by apply serve_update.
Qed.

(** C32: Every vendor request is served: the dispatch returns, without a panic and with a
    reply of at most 64 bytes in the 64-byte buffer, and the update session's invariant
    holds after it.  A session exists afterwards only with the grant it had before, or
    after a complete fresh press of the button within fifteen seconds; a fuse changes
    only through a PROGRAM request routed to maintenance while no session is open,
    after the complete long gesture. *)
Theorem vendor_served e request response (s : handlers) :
  updater_ok (sh_updater s) → length response = 64%nat → outside_ok e →
  ∃ n response' s', vendor_handle e request response s = Some (n, response', s') ∧ (n ≤ 64)%nat ∧
    length response' = 64%nat ∧ served e request s s'.
Proof. apply vendor_served_aux. Qed.
End served.

(** ** Witnesses on the model backend *)

Definition sample_status : SecurityStatus := mkSecurityStatus 7 0x01800305 0x21 7 1 6 1 0 3.
Definition sample_environment : Environment pms :=
  mkEnvironment _ (mkFeatures true true true) sample_platform linked_policy reset_registers sample_status
    sample_circumstances 100 [mkReading false 200 false; mkReading false 40000 false].
Definition sample_handlers : S2Handlers (B := model) (D := efuse_model) :=
  mkS2Handlers model_ready sample_device false new_hardware.

Lemma vendor_routes_witness :
  vendor_handle sample_environment [STATUS_REQUEST] (zeros 64) sample_handlers =
    serve sample_environment [STATUS_REQUEST] (zeros 64) sample_handlers ∧
  route (en_features sample_environment) [STATUS_REQUEST] = ToStatus.
Proof. split; [|reflexivity]. apply (vendor_routes sample_environment [STATUS_REQUEST] (zeros 64) sample_handlers). reflexivity. Defined.

Lemma vendor_served_witness :
  ∃ n response' s', vendor_handle sample_environment [0] (zeros 64) sample_handlers = Some (n, response', s') ∧
    (n ≤ 64)%nat ∧ length response' = 64%nat ∧ served sample_environment [0] sample_handlers s'.
Proof.
  apply (vendor_served sample_environment [0] (zeros 64) sample_handlers); [apply model_updater_ok; unfold model_total; lia|reflexivity|].
  split; [vm_compute; discriminate|]. split; [vm_compute; discriminate|].
  split; right; left; left; vm_compute; discriminate.
Defined.
