(* ===== verification/VendorRelease.v ===== *)
(** * No vendor request reaches the credentials

    On the release backend every call of the update and maintenance interfaces keeps
    the flash outside the boot records and the two slots, and the window the
    credential store is read through; so does, by [VendorFrame], every request. *)

From stdpp Require Import base tactics numbers list option.
From S2P Require Import Prelude Interfaces SignedImage UsbUpdate UsbUpdateFrame Rom FlashEncryption FlashWindows.
From S2P Require Import FlashOperations Ota OtaRecords OtaDevice OtaActivation EspBackend EspView ModelRom Storage.
From S2P Require Import Presence Epoch EpochTransaction EpochProgrammer EpochMaintenance.
From S2P Require Import MemoryProtection SecurityStatus VendorCommands VendorFrame StorageTheorems ModelBackend.
From S2P Require Import EpochTheorems EpochMaintenanceTheorems MemoryProtectionTheorems EspTheorems.

(** ** Maintenance on the release backend

    [ota::qualified_layout] and the raw SPI read on the device of [EspView]; the read
    of [esp_storage] is a parameter that leaves the device alone. *)

Section maintenance.
Context {M : Type} `{RomView M} (spiflash_read : M → Z → option (list Z)).

Lemma wp_qualified_layout_any desc (Q : result ConfirmError QualifiedLayout → Device M → Prop) d :
  (∀ q, running_slot q = 0 ∨ running_slot q = 1 → Q (Ok q) d) → (∀ e, Q (Err e) d) →
  wp (qualified_layout desc) Q d.
Proof.
  intros Hok Herr. apply wp_bind, wp_running_app_offset; [|done]. intros off _.
  apply wp_bind, wp_bind, wp_bind, wp_read_flash_any; [intros r0 _ _|done].
  apply wp_bind, wp_read_flash_any; [intros r1 _ _|done]. apply wp_ret.
  apply wp_bind, wp_ok_or; [|done]. intros a _. apply wp_ret.
  apply wp_ok_or; [|done]. intros q E. apply Hok. unfold qualified_layout_from_entries in E.
  repeat (apply bind_Some in E as (? & _ & E)). destruct (negb _); [done|].
  apply bind_Some in E as (v & _ & [= <-]). cbn [running_slot]. unfold OTA_SLOT_COUNT.
  pose proof (Z.mod_pos_bound v 2). lia.
Qed.

Definition esp_qualified_layout (desc : Z) : step (Device M) EspError QualifiedLayout :=
  map_err (qualified_layout desc) EE_Ota.

Lemma esp_qualified_ok desc d : wp (esp_qualified_layout desc) (λ _ d', otadata_ok d → otadata_ok d') d.
Proof. apply wp_map_err. by apply wp_qualified_layout_any. Qed.

#[export] Instance esp_maintenance_flash : MaintenanceFlash (esp (M := M)) := {|
  mf_qualified_layout b := lift (esp_qualified_layout (eb_descriptor b)) (esp_qualified_ok (eb_descriptor b)) b;
  mf_spiflash_read o b := (spiflash_read (dv_rom (eb_device b)) o, b);
|}.

#[export] Instance esp_maintenance_view : MaintenanceView (esp (M := M)).
Proof.
  assert (∀ b r b', mf_qualified_layout b = (r, b') →
    eb_device b' = eb_device b ∧ ∀ q, r = Some q → running_slot q = 0 ∨ running_slot q = 1) as HL.
  { intros b r b' E.
    destruct (lift_spec _ _ _ _ _ (λ r d', d' = eb_device b ∧
      ∀ q, r = Ok q → running_slot q = 0 ∨ running_slot q = 1) E) as (_ & _ & R).
    { apply wp_map_err. apply wp_qualified_layout_any; [|done]. intros q Hq. split; [done|]. by intros ? [= <-]. }
    destruct r as [q|]; [|by destruct R as (e & ? & _)].
    destruct R as [-> R]. split; [done|]. intros q' [= <-]. by apply R. }
  split.
  - intros b r b' E. apply slots_flash. by destruct (HL _ _ _ E) as [-> _].
  - intros b q b' E. by apply (HL _ _ _ E).
  - by intros o b r b' [= _ <-].
Qed.
End maintenance.

(** ** Vendor requests *)

(** The OTA data and the two application slots. *)
Definition firmware_area (a : Z) : Prop := 0xf000 ≤ a < 0x11000 ∨ 0x20000 ≤ a < 0x3e0000.

Section release.
Context {M : Type} `{RomView M}.
Implicit Types d : Device M.

Record kept d d' : Prop := {
  ke_flash : ∀ a, ¬ firmware_area a → flash (dv_rom d') a = flash (dv_rom d) a;
  ke_erased : ∀ a, ¬ firmware_area a → erased (dv_rom d) a → erased (dv_rom d') a;
  ke_initialized : dv_initialized d' = dv_initialized d;
  ke_window : window_ok (dv_rom d) FIDO_STORE_MAPPING → window_ok (dv_rom d') FIDO_STORE_MAPPING;
}.

#[local] Instance kept_preorder : PreOrder kept.
Proof.
  split; [by split|]. intros d1 d2 d3 [F1 E1 I1 W1] [F2 E2 I2 W2].
  split; [intros a Ha; by rewrite F2, F1|auto|congruence|auto].
Qed.

Lemma kept_within lo hi d d' : 0xf000 ≤ lo ∧ hi ≤ 0x11000 ∨ 0x20000 ≤ lo ∧ hi ≤ 0x3e0000 →
  dwithin lo hi d d' → kept d d'.
Proof.
  intros Hr W. destruct W as [Hi Hw]. split; [| |done|].
  - intros a Ha. apply (wi_flash _ _ _ _ Hw). unfold firmware_area in Ha. lia.
  - intros a Ha. apply (wi_erased _ _ _ _ Hw). unfold firmware_area in Ha. lia.
  - apply (mutated_apart _ _ _ _ _ _ (mutated_here lo hi d d' (conj Hi Hw))). left. simpl. lia.
Qed.

Lemma kept_remapped d d' : remapped d d' → kept d d'.
Proof.
  intros R. split; [intros a _; by rewrite (re_flash _ _ R)|intros a _; by rewrite (re_erased _ _ R)|apply R|].
  apply (re_windows _ _ R). unfold fixed_windows. by do 2 right; left.
Qed.

Lemma kept_slot slot lo hi d d' : slot_change slot lo hi d d' → kept d d'.
Proof.
  intros [->|(base & Eb & Hlo & Hhi & W)]; [reflexivity|]. apply slot_base in Eb.
  eapply kept_within; [|exact W]. right. unfold OTA_0_OFFSET, OTA_1_OFFSET, OTA_SLOT_SIZE in *. lia.
Qed.

Lemma kept_record i d d' : i = 0 ∨ i = 1 → only_record i d d' → kept d d'.
Proof.
  intros Hi W. eapply kept_within; [|exact W]. left.
  unfold entry_address, OTADATA_OFFSET, OTA_SECTOR_SIZE. destruct Hi as [-> | ->]; simpl; lia.
Qed.

Lemma kept_clock t m d : rom_now_ms (dv_rom d) = (t, m) → kept d (mkDevice m (dv_initialized d)).
Proof.
  intros E. destruct (rom_now_frame _ _ _ E) as (F & T & S & Er). split; simpl; [by rewrite F|by rewrite Er|done|].
  intros W a Ha. destruct (W a Ha) as [Ht Hc]. unfold maps_to, coherent, maps_flash, translate in *. by rewrite T, S, F.
Qed.

(** ** The calls of the backend *)

Abbreviation esp := (esp (M := M)).
Definition store_kept (b b' : esp) : Prop := kept (eb_device b) (eb_device b').

Lemma lift_kept {A} (c : step (Device M) EspError A) K (b : esp) r b' :
  lift c K b = (r, b') → wp c (λ _ d', kept (eb_device b) d') (eb_device b) → store_kept b b'.
Proof. intros E W. destruct (lift_spec _ _ _ _ _ _ E W) as (_ & _ & R). destruct r; [done|by destruct R]. Qed.

#[export] Instance esp_frame : BackendFrame esp store_kept.
Proof.
  split.
  - split; [by intros b; red|]. intros b1 b2 b3 ??. red. by etrans.
  - intros b t b'. simpl. destruct (lift esp_now_ms now_ok b) as [r b1] eqn:E. intros [= _ <-].
    eapply lift_kept; [exact E|]. apply wp_call. unfold on_rom.
    destruct (rom_now_ms (dv_rom (eb_device b))) as [t1 m] eqn:En. intros a d' [= _ <-]. by eapply kept_clock.
  - intros b l b' E. destruct (layout_frame _ _ _ E) as (Hd & _). red. by rewrite Hd.
  - intros b s o n r b' E. eapply lift_kept; [exact E|].
    eapply wp_mono; [apply erase_change|]. intros ? ? [C _]. by eapply kept_slot.
  - intros b s o d r b' E. eapply lift_kept; [exact E|].
    eapply wp_mono; [apply write_change|]. intros ? ? [C _]. by eapply kept_slot.
  - intros b s q e r b' E. destruct (activate_spec _ _ _ _ _ _ E) as [Hd|(i & Hi & W)];
      [red; by rewrite Hd|by eapply kept_record].
  - intros b s o n r b' E. eapply lift_kept; [exact E|]. apply wp_u32; [|reflexivity]. intros Ho.
    eapply wp_mono; [by apply esp_read_wp|]. intros ? ? [R _]. by apply kept_remapped.
  - intros b k s d r b' [= _ <-]. red. reflexivity.
Qed.

Context (spiflash_read : M → Z → option (list Z)).
#[local] Existing Instance esp_maintenance_flash.

#[export] Instance esp_maintenance_frame :
  MaintenanceFrame (H := esp_maintenance_flash spiflash_read) esp store_kept.
Proof.
  split.
  - intros b r b' E. eapply lift_kept; [exact E|]. apply wp_map_err. by apply wp_qualified_layout_any.
  - intros o b r b' [= _ <-]. red. reflexivity.
Qed.

(** What keeps the flash outside the firmware area keeps every read of the store. *)
Lemma store_kept_reads (b b' : esp) : store_kept b b' →
  let d := eb_device b in let d' := eb_device b' in
  (∀ a, ¬ firmware_area a → flash (dv_rom d') a = flash (dv_rom d) a) ∧
  ((dv_initialized d = true → window_ok (dv_rom d) FIDO_STORE_MAPPING) →
   ∀ o len, 0 ≤ o → (0 < len)%nat →
     option_map fst (store_read o len d') = option_map fst (store_read o len d)).
Proof.
  intros [F _ I W]. cbv zeta. split; [exact F|]. intros Hw o len Ho Hlen.
  rewrite !store_read_spec by (try done; rewrite I; auto). cbn [option_map fst]. rewrite I.
  do 2 f_equal. destruct (_ && _) eqn:Eb; [|done]. f_equal. apply mem_read_ext. intros a Ha. apply F.
  bool_to_prop. unfold firmware_area, FIDO_STORE_OFFSET, FLASH_SIZE, FIDO_STORE_SIZE in *. lia.
Qed.

(** No vendor request reaches the credentials: whatever the request and however it
    ends, no byte of flash outside the OTA data and the two application slots changes,
    so neither the bootloader, the partition table nor the credential store does, and
    every read of the credential store gives afterwards what it gave before. *)
Theorem vendor_keeps_credentials `{Sha256} {D G : Type} `{Efuse D} `{Registers G} (e : Environment G)
    request response (s : S2Handlers (B := esp) (D := D)) n response' s' :
  vendor_handle (H2 := esp_maintenance_flash spiflash_read) e request response s = Some (n, response', s') →
  let d := eb_device (backend_of s) in let d' := eb_device (backend_of s') in
  (∀ a, ¬ firmware_area a → flash (dv_rom d') a = flash (dv_rom d) a) ∧
  ((dv_initialized d = true → window_ok (dv_rom d) FIDO_STORE_MAPPING) →
   ∀ o len, 0 ≤ o → (0 < len)%nat →
     option_map fst (store_read o len d') = option_map fst (store_read o len d)).
Proof. intros E. apply store_kept_reads. exact (proj1 (vendor_frame store_kept e request response s n response' s' E)). Qed.
End release.

(** ** A concrete dispatch on the release backend *)

Definition release_environment : Environment pms :=
  mkEnvironment _ (mkFeatures false false true) sample_platform linked_policy reset_registers
    (mkSecurityStatus 7 0 0x21 7 1 6 1 0 3) sample_circumstances 100 [].
Definition release_handlers : S2Handlers (B := esp (M := model_rom)) (D := efuse_model) :=
  mkS2Handlers release_ready sample_device false new_hardware.
