(* ===== verification/UsbRuntime.v ===== *)
(** * The USB runtime

    [src/src/usb.rs], [src/src/platform/usb_runtime.rs] and the interrupt flag of
    [src/third_party/trussed-core/src/interrupt.rs]: the polling of the HID endpoint
    around the CTAPHID engine, in the main loop and while the user is awaited.  The
    USB stack is what each poll observes of it, an [Endpoint]. *)

From stdpp Require Import base tactics numbers list option.
From S2P Require Import Prelude CtapHid Presence.

(** ** The report boundary *)

Definition REPORT_SIZE : nat := 64.

(** [usb_device::UsbError], with the code the firmware names. *)
Inductive UsbError := WouldBlock | UsbOther (code : Z).
Inductive ReportError := RE_Usb (error : UsbError) | WrongSize (size : nat).

(** One poll of the stack: whether it has work, what the OUT endpoint yields and how
    the IN endpoint takes a report. *)
Record Endpoint := mkEndpoint {
  ep_ready : bool;
  ep_pulled : result UsbError bytes;
  ep_pushed : result UsbError nat;
}.

Definition usb_receive (pulled : result UsbError bytes) : result ReportError (option bytes) :=
  match pulled with
  | Ok report => if (length report =? REPORT_SIZE)%nat then Ok (Some report) else Err (WrongSize (length report))
  | Err WouldBlock => Ok None
  | Err error => Err (RE_Usb error)
  end.

Definition usb_send (pushed : result UsbError nat) : result ReportError unit :=
  match pushed with
  | Ok size => if (size =? REPORT_SIZE)%nat then Ok tt else Err (WrongSize size)
  | Err error => Err (RE_Usb error)
  end.

(** ** The interrupt flag *)

Inductive InterruptState := FlagIdle | FlagWorking | FlagInterrupted.

#[export] Instance InterruptState_eq_dec : EqDecision InterruptState.
Proof. solve_decision. Defined.

(** The compare-exchange: only a flag that is working is interrupted. *)
Definition interrupt (flag : InterruptState) : bool * InterruptState :=
  match flag with FlagWorking => (true, FlagInterrupted) | _ => (false, flag) end.
Definition is_interrupted (flag : InterruptState) : bool := bool_decide (flag = FlagInterrupted).

(** ** The runtime *)

Definition KEEPALIVE_INTERVAL_MS : Z := 100.

Record UsbRuntime := mkUsbRuntime {
  ctaphid : CtapHid;
  interrupt_flag : option InterruptState;
  last_keepalive_ms : Z;
  presence_cancelled : bool;
}.

Definition new_runtime (h : CtapHid) (flag : option InterruptState) : UsbRuntime :=
  mkUsbRuntime h flag 0 false.

Definition with_ctaphid h rt :=
  mkUsbRuntime h (interrupt_flag rt) (last_keepalive_ms rt) (presence_cancelled rt).
Definition with_flag flag rt :=
  mkUsbRuntime (ctaphid rt) flag (last_keepalive_ms rt) (presence_cancelled rt).

Definition copy_request (rt : UsbRuntime) : option (option bytes) := request_payload (ctaphid rt).

(** A reply of the runtime is a reply of its engine. *)
Definition reply_runtime (payload : bytes) (rt : UsbRuntime) : option (result ReplyError unit * UsbRuntime) :=
  '(r, h) ← reply payload (ctaphid rt);
  Some (r, with_ctaphid h rt).

(** [presence_cancelled.set(true)] and the interrupt, if there is one. *)
Definition cancel_presence (rt : UsbRuntime) : UsbRuntime :=
  mkUsbRuntime (ctaphid rt) ((λ flag, (interrupt flag).2) <$> interrupt_flag rt) (last_keepalive_ms rt) true.

Definition runtime_error (rt : UsbRuntime) : UsbRuntime :=
  cancel_presence (with_ctaphid (transport_error (ctaphid rt)) rt).

Definition send_pending (pushed : result UsbError nat) (rt : UsbRuntime) : option (bool * UsbRuntime) :=
  packet ← next_packet (ctaphid rt);
  match packet with
  | None => Some (true, rt)
  | Some _ =>
      match usb_send pushed with
      | Ok _ => h ← packet_sent (ctaphid rt); Some (true, with_ctaphid h rt)
      | Err (RE_Usb WouldBlock) => Some (true, rt)
      | Err _ => Some (false, runtime_error rt)
      end
  end.

(** The first half of [poll_at]: at most one report is taken in. *)
Definition take_report (now_ms : Z) (ep : Endpoint) (rt : UsbRuntime) : option (Event * UsbRuntime) :=
  if ep_ready ep then
    match usb_receive (ep_pulled ep) with
    | Ok (Some report) =>
        '(event, interrupted, h) ← ingest_report report now_ms (ctaphid rt);
        let rt := with_ctaphid h rt in
        Some (event, if interrupted : bool then cancel_presence rt else rt)
    | Ok None => Some (EvNone, rt)
    | Err _ => Some (EvNone, runtime_error rt)
    end
  else Some (EvNone, rt).

Definition poll_at (now_ms : Z) (ep : Endpoint) (rt : UsbRuntime) : option (Event * UsbRuntime) :=
  '(event, rt) ← take_report now_ms ep rt;
  '(sent, rt) ← send_pending (ep_pushed ep) (with_ctaphid (expire_receive now_ms (ctaphid rt)) rt);
  Some (if sent : bool then event else EvNone, rt).

(** ** The presence hook *)

Definition begin_wait (now_ms : Z) (rt : UsbRuntime) : UsbRuntime :=
  mkUsbRuntime (ctaphid rt) (interrupt_flag rt) now_ms false.

(** The source drops the event of the poll; it is returned here so that theorems can
    say which events are dropped. *)
Definition poll_wait (now_ms : Z) (ep : Endpoint) (rt : UsbRuntime) : option (Event * UsbRuntime) :=
  let rt := if KEEPALIVE_INTERVAL_MS <=? u32_wrapping_sub now_ms (last_keepalive_ms rt)
            then mkUsbRuntime (keepalive UserPresenceNeeded (ctaphid rt)).2 (interrupt_flag rt) now_ms
                   (presence_cancelled rt)
            else rt in
  poll_at now_ms ep rt.

(** What the outside shows at one turn of a wait: the runtime's clock, the endpoint,
    the button and the board's clock. *)
Record Moment := mkMoment {
  mo_ms : Z;
  mo_endpoint : Endpoint;
  mo_button_low : bool;
  mo_now : Z;
}.

Definition reading_of (m : Moment) (rt : UsbRuntime) : Reading :=
  mkReading (mo_button_low m) (mo_now m) (presence_cancelled rt).
