(* ===== verification/UsbRuntimeTheorems.v ===== *)
(** * What the USB runtime guarantees

    Polling never panics and keeps the engine's invariant and the size of its
    buffers; an event announces the request the engine holds; and while a request
    is worked on no poll delivers another one, and losing it sets the
    cancellation and the interrupt flag. *)

From stdpp Require Import base tactics numbers list option.
From S2P Require Import Prelude CtapHid CtapHidSafety CtapHidWire CtapHidTheorems Presence UsbRuntime.

(** ** The buffers keep their size *)

Definition same_size (h h' : CtapHid) : Prop := buffer_size h' = buffer_size h.

#[export] Instance same_size_preorder : PreOrder same_size.
Proof. split; [by intros h|]. intros h1 h2 h3 H12 H23. red. by rewrite H23. Qed.

Lemma size_queue channel error h : same_size h (queue_error channel error h).
Proof. by destruct (queue_error_frame channel error h) as (slots & -> & _). Qed.
Lemma size_zeroize h : same_size h (zeroize_request h).
Proof. apply length_zeroize. Qed.
Lemma size_abort h : same_size h (abort_transaction h).
Proof. apply length_zeroize. Qed.

#[local] Hint Resolve size_queue size_zeroize size_abort : preserves.
#[local] Hint Extern 1 (preserves same_size (modify _)) =>
  apply preserves_modify; intros; first [by auto with preserves nocore|by unfold same_size|by red; simpl] : preserves.

Lemma size_write_response off data : preserves (E := Event) same_size (write_response off data).
Proof. unfold write_response. preserve. Qed.
Lemma size_reply payload : preserves same_size (reply payload).
Proof. unfold reply. preserve. Qed.

Lemma size_write_request off data : preserves (E := Event) same_size (write_request_buffer off data).
Proof.
  intros h r h'. unfold write_request_buffer, mbind, step_bind, get_state, checked, copy_at.
  destruct (_ <=? _)%nat eqn:E; [|done]. intros [= _ <-]. red. unfold buffer_size. simpl.
  apply Nat.leb_le in E. rewrite length_put; lia.
Qed.
#[local] Hint Resolve size_write_response size_write_request : preserves.

Lemma size_allocate : preserves (E := Event) same_size allocate_channel.
Proof. unfold allocate_channel. preserve. Qed.
Lemma size_refuse {A} channel error : preserves (A := A) same_size (refuse channel error).
Proof. unfold refuse. preserve. Qed.
#[local] Hint Resolve size_allocate size_refuse : preserves.
Lemma size_dispatch_init channel n : preserves same_size (dispatch_init channel n).
Proof. unfold dispatch_init. preserve. Qed.
#[local] Hint Resolve size_dispatch_init : preserves.
Lemma size_dispatch channel command n : preserves same_size (dispatch channel command n).
Proof. unfold dispatch. preserve. Qed.
#[local] Hint Resolve size_dispatch : preserves.
Lemma size_cancel h b h' : cancel_application_request h = (b, h') → same_size h h'.
Proof. unfold cancel_application_request. by destruct (app_request h); intros [= _ <-]. Qed.
#[local] Hint Extern 1 (preserves same_size (call _)) => apply preserves_call, size_cancel : preserves.

Lemma size_ingest_step packet now : preserves same_size (ingest_step packet now).
Proof. unfold ingest_step, ingest_continuation, ingest_active, ingest_new. preserve. Qed.

Lemma size_transport_error h : same_size h (transport_error h).
Proof. apply (size_abort h). Qed.

Lemma size_ingest_report report now h e i h' : ingest_report report now h = Some (e, i, h') → same_size h h'.
Proof.
  unfold ingest_report. destruct (_ =? _)%nat; [|intros [= _ _ <-]; apply size_transport_error].
  intros E. apply bind_Some in E as ([e' h1] & E & [= _ _ <-]). eapply preserves_finish, E. apply size_ingest_step.
Qed.

Lemma size_expire now h : same_size h (expire_receive now h).
Proof.
  unfold expire_receive. destruct (receive h); [|done]. destruct (_ <? _); [|done].
  etrans; [|apply size_queue]. apply (size_zeroize (with_receive None h)).
Qed.

Lemma size_packet_sent h h' : packet_sent h = Some h' → same_size h h'.
Proof.
  intros E. unfold packet_sent in E. repeat case_match; try (apply bind_Some in E as (? & _ & E));
    simplify_eq; try done; destruct (_ <=? _)%nat; by injection E as <-.
Qed.

(** ** One poll *)

(** The engine's invariant, with buffers of a whole message. *)
Record runtime_ok (rt : UsbRuntime) : Prop := {
  ro_hid : hid_ok (ctaphid rt);
  ro_size : buffer_size (ctaphid rt) = MAX_MESSAGE_SIZE;
}.

Lemma runtime_with h rt : hid_ok h → same_size (ctaphid rt) h → runtime_ok rt → runtime_ok (with_ctaphid h rt).
Proof. intros Hh Hs [_ Hz]. split; [done|]. simpl. by rewrite Hs. Qed.

Lemma runtime_cancel rt : runtime_ok rt → runtime_ok (cancel_presence rt).
Proof. by intros []. Qed.

Lemma runtime_error_ok rt : runtime_ok rt → runtime_ok (runtime_error rt).
Proof.
  intros Hr. apply runtime_cancel, runtime_with; [apply hid_transport_error, Hr|apply size_transport_error|done].
Qed.

(** The flag after a poll: as it was, or interrupted together with the wait. *)
Definition flag_step (rt rt' : UsbRuntime) : Prop :=
  interrupt_flag rt' = interrupt_flag rt ∧ presence_cancelled rt' = presence_cancelled rt ∨
  interrupt_flag rt' = (λ flag, (interrupt flag).2) <$> interrupt_flag rt ∧ presence_cancelled rt' = true.

#[export] Instance flag_step_preorder : PreOrder flag_step.
Proof.
  split; [by left|]. intros x y z [[F1 P1]|[F1 P1]] [[F2 P2]|[F2 P2]]; rewrite ?F1 in F2; rewrite ?P1 in P2;
    [by left|by right|by right|]. right. split; [|done]. rewrite F2. by destruct (interrupt_flag x) as [[]|].
Qed.

Lemma flag_cancel rt h : flag_step rt (cancel_presence (with_ctaphid h rt)).
Proof. by right. Qed.

Lemma take_report_ok now ep rt : runtime_ok rt →
  ∃ e rt', take_report now ep rt = Some (e, rt') ∧ runtime_ok rt' ∧ announced e (ctaphid rt') ∧ flag_step rt rt'.
Proof.
  intros Hr. unfold take_report. destruct (ep_ready ep); [|exists EvNone, rt; split; [done|]; split; [done|]; split; [done|by left]].
  destruct (usb_receive _) as [[report|]|er].
  - destruct (ingest_report_ok report now _ (ro_hid _ Hr)) as (e & i & h' & E & Hok & Hd). rewrite E.
    cbn [mbind option_bind]. pose proof (size_ingest_report _ _ _ _ _ _ E) as Hs.
    pose proof (runtime_with h' rt Hok Hs Hr) as Hr'. eexists e, _. split; [done|].
    destruct i; [split; [by apply runtime_cancel|split; [done|by right]]|split; [done|split; [done|by left]]].
  - exists EvNone, rt. split; [done|]. split; [done|]. split; [done|by left].
  - exists EvNone, (runtime_error rt). split; [done|]. split; [by apply runtime_error_ok|]. split; [done|by right].
Qed.

Lemma send_pending_ok pushed rt : runtime_ok rt →
  ∃ b rt', send_pending pushed rt = Some (b, rt') ∧ runtime_ok rt' ∧ flag_step rt rt' ∧
    (b = false → rt' = runtime_error rt) ∧
    (b = true → rt' = rt ∨ ∃ h', packet_sent (ctaphid rt) = Some h' ∧ rt' = with_ctaphid h' rt).
Proof.
  intros Hr. unfold send_pending. destruct (next_packet_ok _ (ro_hid _ Hr)) as [p ->]. cbn [mbind option_bind].
  destruct p; [|exists true, rt; split; [done|]; split; [done|]; split; [by left|]; split; [done|by left]].
  destruct (usb_send pushed) as [[]|[[]|]].
  - destruct (packet_sent_ok _ (ro_hid _ Hr)) as (h' & E & Hok). rewrite E. cbn [mbind option_bind].
    pose proof (runtime_with h' rt Hok (size_packet_sent _ _ E) Hr). exists true. eexists.
    split; [done|]. split; [done|]. split; [by left|]. split; [done|]. intros _. right. by exists h'.
  - exists true, rt. split; [done|]. split; [done|]. split; [by left|]. split; [done|by left].
  - exists false. eexists. split; [done|]. split; [by apply runtime_error_ok|]. split; [by right|done].
  - exists false. eexists. split; [done|]. split; [by apply runtime_error_ok|]. split; [by right|done].
Qed.

Lemma app_packet_sent h h' : packet_sent h = Some h' → app_request h' = app_request h.
Proof.
  intros E. unfold packet_sent in E. repeat case_match; try (apply bind_Some in E as (? & _ & E));
    simplify_eq; try done; destruct (_ <=? _)%nat; by injection E as <-.
Qed.

Lemma app_expire now h : app_request (expire_receive now h) = app_request h.
Proof.
  unfold expire_receive. destruct (receive h); [|done]. destruct (_ <? _); [|done].
  by destruct (queue_error_frame (rs_channel r) Timeout (zeroize_request (with_receive None h))) as (slots & -> & _).
Qed.

Lemma poll_at_ok now ep rt : runtime_ok rt →
  ∃ e rt', poll_at now ep rt = Some (e, rt') ∧ runtime_ok rt' ∧ announced e (ctaphid rt') ∧ flag_step rt rt'.
Proof.
  intros Hr. unfold poll_at. destruct (take_report_ok now ep rt Hr) as (e & rt1 & -> & Hr1 & Hd & Hf).
  cbn [mbind option_bind]. set (rt2 := with_ctaphid _ rt1).
  assert (runtime_ok rt2) as Hr2 by (apply runtime_with; [apply hid_expire, Hr1|apply size_expire|done]).
  destruct (send_pending_ok (ep_pushed ep) rt2 Hr2) as (b & rt3 & -> & Hr3 & Hf3 & Hb & Hs). cbn [mbind option_bind].
  eexists _, rt3. split; [done|]. split; [done|]. split; [|by etrans; [exact Hf|]].
  destruct b; [|done]. assert (app_request (ctaphid rt3) = app_request (ctaphid rt1)) as Happ.
  { transitivity (app_request (ctaphid rt2)); [|apply app_expire]. destruct Hs as [->|(h' & Eh & ->)]; [done|done|]. by apply app_packet_sent. }
  destruct e; simpl in *; congruence.
Qed.

(** ** Polls while a request is worked on *)

Definition interrupted (rt rt' : UsbRuntime) : Prop :=
  interrupt_flag rt' = (λ flag, (interrupt flag).2) <$> interrupt_flag rt ∧ presence_cancelled rt' = true.

(** The request is still there, or it is lost, its channel at most waits for the
    answer to an INIT, and the wait was interrupted. *)
Definition attended (a : AppRequest) (rt rt' : UsbRuntime) : Prop :=
  app_request (ctaphid rt') = Some a ∧ flag_step rt rt' ∨
  init_only (ar_channel a) (ctaphid rt') ∧ interrupted rt rt'.

Definition harmless (a : AppRequest) (e : Event) : Prop := e = EvNone ∨ e = EvCancelled (ar_channel a).

Lemma take_report_serving now ep rt a : runtime_ok rt → app_request (ctaphid rt) = Some a →
  ∀ e rt', take_report now ep rt = Some (e, rt') → harmless a e ∧ attended a rt rt'.
Proof.
  intros Hr Ha e rt'. unfold take_report.
  destruct (ep_ready ep); [|intros [= <- <-]; split; [by left|]; left; by split; [|left]].
  destruct (usb_receive _) as [[report|]|er].
  - intros E. apply bind_Some in E as ([[e1 i] h'] & E & [= <- <-]). unfold ingest_report in E.
    destruct (Nat.eqb_spec (length report) PACKET_SIZE) as [Hp|].
    2: { injection E as <- <- <-. split; [by left|]. right. by split; [|split]. }
    destruct (ingest_app report now _ a (ro_hid _ Hr) Ha Hp) as (e2 & h2 & E2 & Ho).
    unfold ingest_with_interruption in E. rewrite E2, Ha in E. injection E as <- <- <-.
    destruct Ho as [(-> & slots & ->)|[[-> Hn]|[-> ->]]]; cbn [is_cancelled is_some app_request with_errors with_keepalive].
    + rewrite Ha. split; [by left|]. left. split; [exact Ha|by left].
    + rewrite (proj1 Hn). split; [by left|]. right. split; [exact Hn|done].
    + rewrite Ha. split; [by right|]. left. split; [exact Ha|by right].
  - intros [= <- <-]. split; [by left|]. left. by split; [|left].
  - intros [= <- <-]. split; [by left|]. right. by split; [|split].
Qed.

Lemma transmit_expire now h : transmit (expire_receive now h) = transmit h.
Proof.
  unfold expire_receive. destruct (receive h); [|done]. destruct (_ <? _); [|done].
  by destruct (queue_error_frame (rs_channel r) Timeout (zeroize_request (with_receive None h))) as (slots & -> & _).
Qed.

Lemma transmit_packet_sent h h' t' : packet_sent h = Some h' → transmit h' = Some t' →
  ∃ t, transmit h = Some t ∧ ts_channel t' = ts_channel t ∧ ts_command t' = ts_command t.
Proof.
  intros E Ht. unfold packet_sent in E. repeat case_match; try (apply bind_Some in E as (? & _ & E));
    simplify_eq; eauto; try (destruct (_ <=? _)%nat; injection E as <-; simpl in Ht; simplify_eq; eauto).
Qed.

Lemma init_only_sent channel h h' : packet_sent h = Some h' → init_only channel h → init_only channel h'.
Proof.
  intros E [Ha Ht]. split; [by rewrite (app_packet_sent _ _ E)|]. intros t' H'.
  destruct (transmit_packet_sent _ _ _ E H') as (t & Et & -> & ->). by apply Ht.
Qed.

Lemma poll_at_serving now ep rt a : runtime_ok rt → app_request (ctaphid rt) = Some a →
  ∃ e rt', poll_at now ep rt = Some (e, rt') ∧ runtime_ok rt' ∧ harmless a e ∧ attended a rt rt'.
Proof.
  intros Hr Ha. unfold poll_at. destruct (take_report_ok now ep rt Hr) as (e & rt1 & E1 & Hr1 & _ & _).
  destruct (take_report_serving _ _ _ _ Hr Ha _ _ E1) as [He Hs1]. rewrite E1. cbn [mbind option_bind].
  set (rt2 := with_ctaphid _ rt1).
  assert (runtime_ok rt2) as Hr2 by (apply runtime_with; [apply hid_expire, Hr1|apply size_expire|done]).
  assert (attended a rt rt2) as Hs2.
  { destruct Hs1 as [[Happ Hf]|[[Happ Htx] Hi]]; [left|right]; (split; [|done]); cbn [ctaphid rt2 with_ctaphid].
    - by rewrite app_expire.
    - split; [by rewrite app_expire|]. by rewrite transmit_expire. }
  destruct (send_pending_ok (ep_pushed ep) rt2 Hr2) as (b & rt3 & -> & Hr3 & _ & Hb & Hs). cbn [mbind option_bind].
  eexists _, rt3. split; [done|]. split; [done|]. split; [destruct b; [done|by left]|]. destruct b.
  - destruct Hs as [->|(h' & Eh & ->)]; [done|done|].
    destruct Hs2 as [[Happ Hf]|[Hi Hf]]; [left|right]; (split; [|done]).
    + by rewrite <- Happ; apply app_packet_sent.
    + by eapply init_only_sent.
  - rewrite Hb by done. right. split; [done|].
    destruct Hs2 as [[_ [[F _]|[F _]]]|[_ [F _]]]; (split; [|done]); cbn [runtime_error cancel_presence interrupt_flag with_ctaphid];
      rewrite F; [done| |]; by destruct (interrupt_flag rt) as [[]|].
Qed.

Lemma keepalive_fields status h : same_size h (keepalive status h).2 ∧ app_request (keepalive status h).2 = app_request h.
Proof. unfold keepalive. by destruct (app_request h) eqn:E. Qed.

(** The polled runtime: the keepalive touches neither the request nor the flags. *)
Lemma poll_wait_at now ep rt : runtime_ok rt → ∃ rt0, poll_wait now ep rt = poll_at now ep rt0 ∧ runtime_ok rt0 ∧
  app_request (ctaphid rt0) = app_request (ctaphid rt) ∧ interrupt_flag rt0 = interrupt_flag rt ∧
  presence_cancelled rt0 = presence_cancelled rt.
Proof.
  intros Hr. unfold poll_wait. destruct (_ <=? _); [|by exists rt].
  destruct (keepalive_fields UserPresenceNeeded (ctaphid rt)) as [Hs Ha].
  eexists. split; [done|]. split; [|done]. split; [apply hid_keepalive, Hr|]. simpl. rewrite Hs. apply Hr.
Qed.

Lemma flag_step_proper rt rt0 rt' : interrupt_flag rt0 = interrupt_flag rt → presence_cancelled rt0 = presence_cancelled rt →
  flag_step rt0 rt' → flag_step rt rt'.
Proof. unfold flag_step. by intros -> ->. Qed.

Lemma poll_wait_ok now ep rt : runtime_ok rt →
  ∃ e rt', poll_wait now ep rt = Some (e, rt') ∧ runtime_ok rt' ∧ flag_step rt rt'.
Proof.
  intros Hr. destruct (poll_wait_at now ep rt Hr) as (rt0 & -> & Hr0 & _ & F & P).
  destruct (poll_at_ok now ep rt0 Hr0) as (e & rt' & -> & Hr' & _ & Hf). exists e, rt'.
  split; [done|]. split; [done|]. by eapply flag_step_proper.
Qed.

Lemma poll_wait_serving now ep rt a : runtime_ok rt → app_request (ctaphid rt) = Some a →
  ∃ e rt', poll_wait now ep rt = Some (e, rt') ∧ runtime_ok rt' ∧ harmless a e ∧ attended a rt rt'.
Proof.
  intros Hr Ha. destruct (poll_wait_at now ep rt Hr) as (rt0 & -> & Hr0 & Ha0 & F & P). rewrite Ha in Ha0.
  destruct (poll_at_serving now ep rt0 a Hr0 Ha0) as (e & rt' & -> & Hr' & He & Hs). exists e, rt'.
  split; [done|]. split; [done|]. split; [done|]. unfold attended, interrupted in *. rewrite F in Hs.
  destruct Hs as [[? Hf]|]; [left|by right]. split; [done|]. by eapply flag_step_proper.
Qed.
