(* ===== verification/MainLoop.v ===== *)
(** * The main loop

    The polling loop of [src/src/bin/startup/s2_fido.rs]: expire the update session,
    poll the USB runtime, and serve at most one request, CBOR by the authenticator,
    update by the vendor dispatch.  The authenticator, Trussed and littlefs are
    third-party: what they do during one request is a [Call], the sequence of their
    calls to the user interface, of their readings of the interrupt flag and of the
    requests littlefs makes of the block driver of the credential store. *)

From stdpp Require Import base tactics numbers list option.
From S2P Require Import Prelude Interfaces SignedImage UsbUpdate Ota CtapHid Presence Epoch EpochTransaction.
From S2P Require Import EpochProgrammer Storage.
From S2P Require Import EpochMaintenance MemoryProtection SecurityStatus VendorCommands UsbRuntime.

(** ** The user interface with its wait hook *)

Record Cockpit := mkCockpit { ck_interface : UserInterface; ck_runtime : UsbRuntime }.

(** [set_status] begins a wait on the hook as well. *)
Definition ui_set_status (status : UiStatus) (m : Moment) (c : Cockpit) : Cockpit :=
  let rt := if bool_decide (status = WaitingForUserPresence) then begin_wait (mo_ms m) (ck_runtime c)
            else ck_runtime c in
  mkCockpit (set_status status (mo_now m) (ck_interface c)) rt.

Definition ui_refresh (m : Moment) (c : Cockpit) : option (list Event * Cockpit) :=
  if bool_decide (ui_status (ck_interface c) = WaitingForUserPresence) then
    '(event, rt) ← poll_wait (mo_ms m) (mo_endpoint m) (ck_runtime c);
    Some ([event], mkCockpit (ck_interface c) rt)
  else Some ([], c).

Definition ui_check_user_presence (m : Moment) (c : Cockpit) : option (ConsentLevel * Cockpit) :=
  '(level, ui) ← check_user_presence (reading_of m (ck_runtime c)) (ck_interface c);
  Some (level, mkCockpit ui (ck_runtime c)).

(** ** The authenticator *)

Inductive Call :=
  | Finished (succeeded : bool) (response : bytes)
  | SetStatus (status : UiStatus) (k : Call)
  | Refresh (k : Call)
  | CheckUserPresence (k : ConsentLevel → Call)
  | GetStatus (k : UiStatus → Call)
  | IsInterrupted (k : bool → Call)
  | AccessStore (op : store_op) (k : result FsError store_answer → Call).

(** [FidoFlashStorage] works on the flash the updater works on. *)
Class CredentialStore (B : Type) := {
  cs_run : store_op → B → result FsError store_answer * B;
}.

Section call.
Context {B : Type} `{CredentialStore B}.

(** The call runs to its end; [moments i] is what the outside shows at its [i]th
    operation.  The events its polls drop are collected. *)
Fixpoint run_call (moments : nat → Moment) (i : nat) (call : Call) (c : Cockpit) (b : B)
  : option (bool * bytes * list Event * Cockpit * B) :=
  match call with
  | Finished succeeded response => Some (succeeded, response, [], c, b)
  | SetStatus status k => run_call moments (S i) k (ui_set_status status (moments i) c) b
  | Refresh k =>
      '(dropped, c) ← ui_refresh (moments i) c;
      '(succeeded, response, rest, c, b) ← run_call moments (S i) k c b;
      Some (succeeded, response, dropped ++ rest, c, b)
  | CheckUserPresence k =>
      '(level, c) ← ui_check_user_presence (moments i) c;
      run_call moments (S i) (k level) c b
  | GetStatus k => run_call moments (S i) (k (Presence.status (ck_interface c))) c b
  | IsInterrupted k =>
      run_call moments (S i) (k (default false (is_interrupted <$> interrupt_flag (ck_runtime c)))) c b
  | AccessStore op k => let '(r, b) := cs_run op b in run_call moments (S i) (k r) c b
  end.
End call.

(** ** A dispatch that may wait for the button

    [run] is a dispatch as a function of the readings of its wait, undefined while it
    needs another one; each is made by a poll of the hook.  The wait begins with the
    first.  [moments 0] is its beginning. *)
Fixpoint await {A} (fuel : nat) (moments : nat → Moment) (run : list Reading → bool → option A)
    (readings : list Reading) (rt : UsbRuntime) : option (A * list Event * UsbRuntime) :=
  match run readings (presence_cancelled rt) with
  | Some a => Some (a, [], rt)
  | None =>
      match fuel with
      | O => None
      | S fuel =>
          let rt := match readings with [] => begin_wait (mo_ms (moments 0%nat)) rt | _ => rt end in
          let m := moments (S (length readings)) in
          '(event, rt) ← poll_wait (mo_ms m) (mo_endpoint m) rt;
          '(a, dropped, rt) ← await fuel moments run (readings ++ [reading_of m rt]) rt;
          Some (a, event :: dropped, rt)
      end
  end.

(** ** The loop *)

(** [confirm_running_image] on the flash of the updater. *)
Class ImageConfirmation (B : Type) := {
  ic_confirm_running_image : bytes → Z → B → result ConfirmError bool * B;
}.

(** The constants of the build. *)
Record Build := mkBuild {
  bd_app_version : bytes;
  bd_secure_version : Z;
  bd_confirm_signed_update : bool;
}.

(** The [expect]s of the loop body. *)
Inductive Panic := NoRequestPayload | ResponseTooLarge | ConfirmationFailed (error : ConfirmError).

(** What one turn of the loop sees: the poll, the waits and the authenticator. *)
Record Turn := mkTurn {
  tn_ms : Z;
  tn_endpoint : Endpoint;
  tn_moments : nat → Moment;
  tn_authenticator : bytes → Call;
}.

Definition set_working (rt : UsbRuntime) : UsbRuntime := with_flag ((λ _, FlagWorking) <$> interrupt_flag rt) rt.
Definition set_idle (rt : UsbRuntime) : UsbRuntime := with_flag ((λ _, FlagIdle) <$> interrupt_flag rt) rt.

Section main_loop.
Context `{Sha256} {B D R : Type} `{UpdateBackend B} `{MaintenanceFlash B} `{Efuse D} `{Registers R} `{ImageConfirmation B} `{CredentialStore B}.

(** The locals of the loop: the runtime, the owners of the vendor dispatch, the
    status of the user interface and the request buffer. *)
Record Machine := mkMachine {
  mc_runtime : UsbRuntime;
  mc_handlers : S2Handlers (B := B) (D := D);
  mc_status : UiStatus;
  mc_request : bytes;
}.

Definition outcome : Type := option (result Panic (Machine * list Event)).

Abbreviation handlers := (S2Handlers (B := B) (D := D)).

Definition with_updater (u : UsbUpdater B) (s : handlers) : handlers :=
  mkS2Handlers u (sh_efuse s) (sh_attempted s) (sh_hardware s).
Definition with_hardware (hw : UserHardware) (s : handlers) : handlers :=
  mkS2Handlers (sh_updater s) (sh_efuse s) (sh_attempted s) hw.

(** [copy_request(&mut request)] and [&request[..request_len]]; a copy that does not
    fit panics. *)
Definition take_request (m : Machine) : option (result Panic (bytes * bytes)) :=
  payload ← copy_request (mc_runtime m);
  match payload with
  | None => Some (Err NoRequestPayload)
  | Some payload => request ← copy_at (mc_request m) 0 payload; Some (Ok (payload, request))
  end.

(** [request[..request_len].zeroize()]. *)
Definition clear_request (request : bytes) (n : nat) : bytes := put request 0 (zeros n).

Definition confirm_image (build : Build) (s : handlers) : result ConfirmError bool * handlers :=
  let '(r, b) := ic_confirm_running_image (bd_app_version build) (bd_secure_version build)
                   (uu_backend (sh_updater s)) in
  (r, with_updater (with_backend b (sh_updater s)) s).

(** The part of a CBOR turn after the reply. *)
Definition finish_cbor (build : Build) (completion : result ReplyError CborCompletion) (m : Machine)
    (dropped : list Event) : result Panic (Machine * list Event) :=
  match completion with
  | Err _ => Err ResponseTooLarge
  | Ok Succeeded =>
      if bd_confirm_signed_update build then
        match confirm_image build (mc_handlers m) with
        | (Ok _, s) => Ok (mkMachine (mc_runtime m) s (mc_status m) (mc_request m), dropped)
        | (Err e, _) => Err (ConfirmationFailed e)
        end
      else Ok (m, dropped)
  | Ok (Failed | Interrupted) => Ok (m, dropped)
  end.

Definition cbor_turn (build : Build) (t : Turn) (m : Machine) : outcome :=
  taken ← take_request m;
  match taken with
  | Err p => Some (Err p)
  | Ok (payload, request) =>
      let ui := mkUserInterface (sh_hardware (mc_handlers m)) (mc_status m) in
      '(succeeded, response, dropped, c, b) ←
        run_call (tn_moments t) 0 (tn_authenticator t payload) (mkCockpit ui (set_working (mc_runtime m)))
          (uu_backend (sh_updater (mc_handlers m)));
      let s := with_updater (with_backend b (sh_updater (mc_handlers m))) (mc_handlers m) in
      let hw := finish_request (ui_hardware (ck_interface c)) in
      let request := clear_request request (length payload) in
      '(completion, _, rt) ← complete_cbor succeeded response reply_runtime (set_idle (ck_runtime c));
      Some (finish_cbor build completion
              (mkMachine rt (with_hardware hw s) (ui_status (ck_interface c)) request) dropped)
  end.

(** The environment of the dispatch: both confirmations read the same wait. *)
Definition waiting (e : Environment R) (now : Z) (readings : list Reading) (cancelled : bool) : Environment R :=
  mkEnvironment _ (en_features e) (en_platform e) (en_policy e) (en_registers e) (en_status e)
    (mkCircumstances (ci_idle (en_maintenance e)) now readings cancelled) now readings.

Definition update_turn (fuel : nat) (e : Environment R) (t : Turn) (m : Machine) : outcome :=
  taken ← take_request m;
  match taken with
  | Err p => Some (Err p)
  | Ok (payload, request) =>
      '(n, response, s, dropped, rt) ←
        await fuel (tn_moments t) (λ readings cancelled,
          vendor_handle (waiting e (mo_now (tn_moments t 0%nat)) readings cancelled) payload (zeros 64) (mc_handlers m))
          [] (mc_runtime m);
      let request := clear_request request (length payload) in
      response ← subslice response 0 n;
      '(completion, _, rt) ← complete_update response reply_runtime rt;
      Some (match completion with
            | Err _ => Err ResponseTooLarge
            | Ok _ => Ok (mkMachine rt s (mc_status m) request, dropped)
            end)
  end.

Definition iterate (fuel : nat) (build : Build) (e : Environment R) (t : Turn) (m : Machine) : outcome :=
  let s := with_updater (UsbUpdate.poll (sh_updater (mc_handlers m))) (mc_handlers m) in
  '(event, rt) ← poll_at (tn_ms t) (tn_endpoint t) (mc_runtime m);
  let m := mkMachine rt s (mc_status m) (mc_request m) in
  match event with
  | EvCbor _ _ => cbor_turn build t m
  | EvUpdate _ _ => update_turn fuel e t m
  | EvNone | EvCancelled _ => Some (Ok (m, []))
  end.

(** [loop]: the turns, each with the environment of its dispatch. *)
Fixpoint run_turns (fuel : nat) (build : Build) (turns : list (Environment R * Turn)) (m : Machine)
  : option (result Panic Machine) :=
  match turns with
  | [] => Some (Ok m)
  | (e, t) :: turns =>
      turned ← iterate fuel build e t m;
      match turned with
      | Ok (m, _) => run_turns fuel build turns m
      | Err p => Some (Err p)
      end
  end.
End main_loop.
