(* ===== verification/MainLoopTheorems.v ===== *)
(** * What the main loop guarantees

    Whatever the host, the button and the authenticator do, a turn of the loop is
    completed without a panic other than a failed confirmation of the running image,
    and the request it serves is the only one in the engine until it is answered or
    lost. *)

From stdpp Require Import base tactics numbers list option.
From S2P Require Import Prelude Interfaces SignedImage UsbUpdate UsbUpdateSafety UsbUpdateFrame UsbUpdateTheorems.
From S2P Require Import ModelBackend Ota Storage.
From S2P Require Import CtapHid CtapHidSafety CtapHidWire CtapHidTheorems Presence PresenceTheorems Epoch.
From S2P Require Import EpochTransaction EpochProgrammer EpochTheorems.
From S2P Require Import EpochMaintenance EpochMaintenanceTheorems MemoryProtection MemoryProtectionTheorems.
From S2P Require Import SecurityStatus VendorCommands VendorFrame VendorTheorems.
From S2P Require Import UsbRuntime UsbRuntimeTheorems MainLoop.

(** ** The button between the calls *)

Definition gate_ok (g : PresenceGate) : Prop := since g ≤ last_poll g.
Definition hardware_ok (hw : UserHardware) : Prop := ∀ g, hw_gate hw = Some g → gate_ok g.

Lemma gate_poll_ok sample now cancelled g : gate_ok g →
  ∃ r g', gate_poll sample now cancelled g = Some (r, g') ∧ gate_ok g'.
Proof.
  unfold gate_ok, gate_poll, u64_sub. intros Hg. destruct (_ || _) eqn:E; [by eexists _, _|].
  repeat (apply orb_false_iff in E as [E ?]). bool_to_prop.
  destruct sample as [level|]; [|eexists _, _; split; [done|]; simpl; lia].
  destruct (bool_decide (level = Fault)); [eexists _, _; split; [done|]; simpl; lia|].
  set (g1 := if bool_decide (level = last_level _) then _ else _).
  assert (since g1 ≤ now ∧ last_poll g1 = now) as [Hs Hl]
    by (unfold g1; destruct (bool_decide _); simpl; lia).
  clearbody g1.
  destruct (bool_decide (level = Uncertain));
    [eexists _, _; split; [done|]; destruct (bool_decide _); simpl; lia|].
  rewrite (proj2 (Z.leb_le _ _) Hs). cbn [mbind option_bind].
  destruct (advance_phase level (now - since g1) g1) as [r g'] eqn:Ea. exists r, g'. split; [done|].
  unfold advance_phase in Ea. repeat case_match; injection Ea as _ <-; simpl; lia.
Qed.

Lemma hw_poll_ok button now cancelled hw : hardware_ok hw →
  ∃ r hw', hw_poll button now cancelled hw = Some (r, hw') ∧ hardware_ok hw'.
Proof.
  intros Hh. unfold hw_poll. destruct (hw_gate hw) as [g|] eqn:Eg; [|by eexists _, _].
  destruct (gate_poll_ok (Some (if button then Pressed else Released)) now cancelled g) as (r & g' & -> & Hg); [by apply Hh|].
  cbn [mbind option_bind]. eexists _, _. split; [done|]. by intros g0 [= <-].
Qed.

Lemma hardware_begin now timeout_ms long hw : hardware_ok (hw_begin now timeout_ms long hw).
Proof. intros g [= <-]. unfold gate_ok. simpl. lia. Qed.
Lemma hardware_off hw : hw_gate hw = None → hardware_ok hw.
Proof. intros E g. by rewrite E. Qed.

Lemma hardware_status status now u : hardware_ok (ui_hardware u) → hardware_ok (ui_hardware (set_status status now u)).
Proof.
  intros Hh. unfold set_status. cbn [ui_hardware]. destruct (bool_decide (status = _)); [apply hardware_begin|].
  destruct (bool_decide _); [|done]. by apply hardware_off.
Qed.

(** ** The authenticator's call *)

(** How Trussed uses the interface: it does not refresh again before it has asked
    whether it is interrupted, never after it was, and its response fits. *)
Fixpoint well_behaved (polled : bool) (c : Call) : Prop :=
  match c with
  | Finished _ response => (length response ≤ MAX_MESSAGE_SIZE)%nat
  | SetStatus _ k => well_behaved polled k
  | Refresh k => polled = false ∧ well_behaved true k
  | CheckUserPresence k => ∀ level, well_behaved polled (k level)
  | GetStatus k => ∀ status, well_behaved polled (k status)
  | IsInterrupted k => well_behaved false (k false) ∧ well_behaved true (k true)
  | AccessStore _ k => ∀ r, well_behaved polled (k r)
  end.

(** A call that makes no request of the block driver. *)
Fixpoint storeless (c : Call) : Prop :=
  match c with
  | Finished _ _ => True
  | SetStatus _ k | Refresh k => storeless k
  | CheckUserPresence k => ∀ level, storeless (k level)
  | GetStatus k => ∀ status, storeless (k status)
  | IsInterrupted k => ∀ interrupted, storeless (k interrupted)
  | AccessStore _ _ => False
  end.

(** [tr] is what a call may ask of the block driver, each request with the answer it got. *)
Fixpoint makes (c : Call) (tr : list (store_op * result FsError store_answer)) : Prop :=
  match c with
  | Finished _ _ => tr = []
  | SetStatus _ k | Refresh k => makes k tr
  | CheckUserPresence k => ∃ level, makes (k level) tr
  | GetStatus k => ∃ status, makes (k status) tr
  | IsInterrupted k => ∃ interrupted, makes (k interrupted) tr
  | AccessStore op k => ∃ r rest, tr = (op, r) :: rest ∧ makes (k r) rest
  end.

Lemma makes_nothing c : ∀ tr, storeless c → makes c tr → tr = [].
Proof. induction c; cbn [storeless makes]; naive_solver. Qed.

(** The requests made of the driver, each with its answer, and the flash after them. *)
Inductive stored {B} `{CredentialStore B} : list (store_op * result FsError store_answer) → B → B → Prop :=
  | stored_nil b : stored [] b b
  | stored_cons op r tr b b1 b2 : cs_run op b = (r, b1) → stored tr b1 b2 → stored ((op, r) :: tr) b b2.

(** What a call does to the flash is what its requests do. *)
Lemma run_call_stored {B} `{CredentialStore B} moments call : ∀ i c (b : B) x c' b',
  run_call moments i call c b = Some (x, c', b') →
  ∃ tr, stored tr b b' ∧ makes call tr.
Proof.
  induction call as [succeeded response|status k IH|k IH|k IH|k IH|k IH|op k IH];
    intros i c b x c' b' E; cbn [run_call makes] in *.
  - injection E as _ _ <-. exists []. split; [constructor|done].
  - by eapply IH.
  - apply bind_Some in E as ([l c1] & _ & E). apply bind_Some in E as ([[[[s r] l'] c2] b2] & E & [= _ _ <-]).
    by eapply IH.
  - apply bind_Some in E as ([level c1] & _ & E). destruct (IH _ _ _ _ _ _ _ E) as (tr & Hs & Hn). eauto.
  - destruct (IH _ _ _ _ _ _ _ E) as (tr & Hs & Hn). eauto.
  - destruct (IH _ _ _ _ _ _ _ E) as (tr & Hs & Hn). eauto.
  - destruct (cs_run op b) as [r b1] eqn:Er. destruct (IH _ _ _ _ _ _ _ E) as (tr & Hs & Hn).
    exists ((op, r) :: tr). split; [by econstructor|eauto].
Qed.

(** The runtime while the authenticator works on [a]: the request is there and the
    flag says so, or a poll has interrupted it. *)
Definition working (a : AppRequest) (polled : bool) (rt : UsbRuntime) : Prop :=
  runtime_ok rt ∧
  (app_request (ctaphid rt) = Some a ∧ interrupt_flag rt = Some FlagWorking ∨
   polled = true ∧ interrupt_flag rt = Some FlagInterrupted ∧
   (app_request (ctaphid rt) = Some a ∨ init_only (ar_channel a) (ctaphid rt))).

Lemma working_true a rt : working a false rt → working a true rt.
Proof. intros [Hr [?|(? & _)]]; [|done]. split; [done|by left]. Qed.

Lemma refresh_working a m c : working a false (ck_runtime c) →
  ∃ dropped c', ui_refresh m c = Some (dropped, c') ∧ ck_interface c' = ck_interface c ∧
    working a true (ck_runtime c') ∧ Forall (harmless a) dropped ∧ (dropped = [] → ck_runtime c' = ck_runtime c).
Proof.
  intros Hw. unfold ui_refresh.
  destruct (bool_decide _); [|exists [], c; split; [done|]; split; [done|]; split; [by apply working_true|done]].
  destruct Hw as [Hr [[Ha Hf]|(? & _)]]; [|done].
  destruct (poll_wait_serving (mo_ms m) (mo_endpoint m) _ a Hr Ha) as (e & rt' & -> & Hr' & He & Hs).
  cbn [mbind option_bind]. eexists _, _. split; [done|]. split; [done|]. split; [|split; [by apply list.Forall_singleton|done]].
  split; [done|]. destruct Hs as [[Ha' [[F _]|[F _]]]|[Hi [F _]]]; rewrite Hf in F; [by left|right..];
    (split; [done|]; split; [exact F|]); [by left|by right].
Qed.

Lemma run_call_ok {B} `{CredentialStore B} a moments call : ∀ polled i c (b : B), working a polled (ck_runtime c) →
  hardware_ok (ui_hardware (ck_interface c)) → well_behaved polled call →
  ∃ succeeded response dropped c' b', run_call moments i call c b = Some (succeeded, response, dropped, c', b') ∧
    (length response ≤ MAX_MESSAGE_SIZE)%nat ∧ working a true (ck_runtime c') ∧ Forall (harmless a) dropped ∧
    (dropped = [] → ctaphid (ck_runtime c') = ctaphid (ck_runtime c)).
Proof.
  induction call as [succeeded response|status k IH|k IH|k IH|k IH|k IH|op k IH]; intros polled i c b Hw Hh Hc; cbn [run_call].
  - exists succeeded, response, [], c, b. destruct polled; (split; [done|]); [|apply working_true in Hw]; done.
  - destruct (IH polled (S i) (ui_set_status status (moments i) c) b) as (s & r & l & c' & b' & E & Hr & Hw' & Hl & Hd); [| |done|].
    + unfold ui_set_status. destruct (bool_decide _); [|done]. destruct Hw as [[] Hw]. by split.
    + by apply hardware_status.
    + exists s, r, l, c', b'. split; [done|]. split_and!; [done..|]. intros Hn. rewrite (Hd Hn).
      unfold ui_set_status. by destruct (bool_decide _).
  - destruct Hc as [-> Hc]. destruct (refresh_working a (moments i) c Hw) as (l0 & c0 & -> & Hi & Hw0 & Hl0 & Hd0).
    cbn [mbind option_bind].
    destruct (IH true (S i) c0 b) as (s & r & l & c' & b' & -> & Hr & Hw' & Hl & Hd); [done|by rewrite Hi|done|].
    cbn [mbind option_bind]. eexists s, r, _, c', b'. split; [done|]. split_and!; [done|done|by apply Forall_app|].
    intros [-> ->]%app_eq_nil. rewrite Hd, Hd0; done.
  - unfold ui_check_user_presence, check_user_presence. destruct (bool_decide _).
    { cbn [mbind option_bind]. destruct c as [ui rt]. by apply (IH _ polled). }
    destruct (hw_poll_ok (mo_button_low (moments i)) (mo_now (moments i)) (presence_cancelled (ck_runtime c)) _ Hh)
      as (res & hw & E & Hh'). unfold reading_of. cbn [rd_button_low rd_now rd_cancelled]. rewrite E.
    cbn [mbind option_bind]. by apply (IH _ polled (S i) (mkCockpit (mkUserInterface hw _) (ck_runtime c)) b).
  - by apply (IH _ polled).
  - destruct Hc as [Hf Ht]. destruct Hw as [Hr [[Ha F]|(-> & F & Ha)]]; rewrite F; cbn [fmap option_fmap option_map default].
    + apply (IH false false); [|done|exact Hf]. split; [done|by left].
    + apply (IH true true); [|done|exact Ht]. split; [done|by right].
  - destruct (cs_run op b) as [r b1]. by apply (IH _ polled).
Qed.

(** ** The reply *)

Lemma reply_runtime_ok payload rt : runtime_ok rt → (length payload ≤ MAX_MESSAGE_SIZE)%nat →
  ∃ r h', reply_runtime payload rt = Some (r, with_ctaphid h' rt) ∧ runtime_ok (with_ctaphid h' rt) ∧
    match app_request (ctaphid rt) with
    | None => r = Err NoPendingRequest ∧ h' = ctaphid rt
    | Some a => r = Ok tt ∧ app_request h' = None ∧
        transmit h' = Some (mkTransmitState (ar_channel a) (ar_command a) (length payload) 0 0)
    end.
Proof.
  intros Hr Hl. destruct (wp_elim _ _ _ (reply_wp payload _ (ro_hid _ Hr))) as (r & h' & E & Hok & Hc).
  unfold reply_runtime. rewrite E. cbn [mbind option_bind]. exists r, h'. split; [done|]. split.
  { apply runtime_with; [done|by eapply size_reply|done]. }
  destruct (app_request (ctaphid rt)) as [a|]; [|done]. destruct Hc as [Ha Hc].
  rewrite (proj2 (Nat.ltb_ge _ _)) in Hc by (rewrite (ro_size _ Hr); lia). naive_solver.
Qed.

(** The engine after the request [a] was served: its answer is queued, or the request
    was lost to a resynchronisation, a protocol violation or a transport error. *)
Definition answered (a : AppRequest) (rt : UsbRuntime) : Prop :=
  app_request (ctaphid rt) = None ∧
  ∃ n, transmit (ctaphid rt) = Some (mkTransmitState (ar_channel a) (ar_command a) n 0 0).
Definition lost (a : AppRequest) (rt : UsbRuntime) : Prop := init_only (ar_channel a) (ctaphid rt).

(** A reply in a state that still holds [a] or lost it. *)
Lemma reply_attended a payload rt : runtime_ok rt → (length payload ≤ MAX_MESSAGE_SIZE)%nat →
  app_request (ctaphid rt) = Some a ∨ lost a rt →
  ∃ r rt', reply_runtime payload rt = Some (r, rt') ∧ runtime_ok rt' ∧ interrupt_flag rt' = interrupt_flag rt ∧
    (r = Ok tt ∧ app_request (ctaphid rt) = Some a ∧ answered a rt' ∨
     r = Err NoPendingRequest ∧ lost a rt ∧ rt' = rt).
Proof.
  intros Hr Hl Ha. destruct (reply_runtime_ok payload rt Hr Hl) as (r & h' & E & Hr' & Hc).
  exists r, (with_ctaphid h' rt). split; [done|]. split; [done|]. split; [done|].
  destruct Ha as [Ha|Ha]; [rewrite Ha in Hc; left|rewrite (proj1 Ha) in Hc; right].
  - destruct Hc as (-> & Hn & Ht). split; [done|]. split; [done|]. split; [done|]. by eexists.
  - destruct Hc as [-> ->]. split; [done|]. split; [done|]. by destruct rt.
Qed.

Lemma complete_cbor_ok a succeeded response rt : runtime_ok rt → (length response ≤ MAX_MESSAGE_SIZE)%nat →
  app_request (ctaphid rt) = Some a ∨ lost a rt →
  ∃ c rt', complete_cbor succeeded response reply_runtime rt = Some (Ok c, zeroize response, rt') ∧ runtime_ok rt' ∧
    interrupt_flag rt' = interrupt_flag rt ∧
    (app_request (ctaphid rt) = Some a ∧ answered a rt' ∧
       c = (if succeeded && bool_decide (head response = Some 0) then Succeeded else Failed) ∨
     lost a rt ∧ c = Interrupted ∧ rt' = rt).
Proof.
  intros Hr Hl Ha. unfold complete_cbor.
  assert (∃ payload, (length payload ≤ MAX_MESSAGE_SIZE)%nat ∧
    (if succeeded && negb (length response =? 0)%nat then reply_runtime response rt else reply_runtime [0x7f] rt) =
    reply_runtime payload rt) as (payload & Hp & ->).
  { destruct (_ && _); [by exists response|]. exists [0x7f]. split; [|done]. unfold MAX_MESSAGE_SIZE. simpl. lia. }
  destruct (reply_attended a payload rt Hr Hp Ha) as (r & rt' & -> & Hr' & Hf & Hc). cbn [mbind option_bind].
  destruct Hc as [(-> & ? & ?)|(-> & ? & ->)]; (eexists _, _; split; [done|]; split; [done|]; split; [done|]);
    [by left|by right].
Qed.

Lemma complete_update_ok a response rt : runtime_ok rt → (length response ≤ MAX_MESSAGE_SIZE)%nat →
  app_request (ctaphid rt) = Some a ∨ lost a rt →
  ∃ c rt', complete_update response reply_runtime rt = Some (Ok c, zeroize response, rt') ∧ runtime_ok rt' ∧
    interrupt_flag rt' = interrupt_flag rt ∧
    (app_request (ctaphid rt) = Some a ∧ answered a rt' ∨ lost a rt ∧ rt' = rt).
Proof.
  intros Hr Hl Ha. unfold complete_update.
  destruct (reply_attended a response rt Hr Hl Ha) as (r & rt' & -> & Hr' & Hf & Hc). cbn [mbind option_bind].
  destruct Hc as [(-> & ? & ?)|(-> & ? & ->)]; (eexists _, _; split; [done|]; split; [done|]; split; [done|]);
    [by left|by right].
Qed.

(** ** More readings do not change an answer *)

Lemma confirm_loop_more more readings : ∀ hw x, confirm_loop readings hw = Some x →
  confirm_loop (readings ++ more) hw = Some x.
Proof.
  induction readings as [|r readings IH]; intros hw x; [done|]. cbn [confirm_loop app].
  destruct (hw_poll _ _ _ _) as [[[answer|] hw']|]; cbn [mbind option_bind]; [done|apply IH|done].
Qed.

Lemma confirm_more more now timeout_ms long readings hw x : confirm now timeout_ms long readings hw = Some x →
  confirm now timeout_ms long (readings ++ more) hw = Some x.
Proof.
  unfold confirm. intros E. apply bind_Some in E as (y & E & Ex). by rewrite (confirm_loop_more _ _ _ _ E).
Qed.

(** [c'] does what [c] does, where [c] does anything. *)
Definition extends {S E A} (c c' : step S E A) : Prop := ∀ s x, c s = Some x → c' s = Some x.

Lemma extends_bind {S E A A'} (c c' : step S E A) (k k' : A → step S E A') :
  extends c c' → (∀ a, extends (k a) (k' a)) → extends (c ≫= k) (c' ≫= k').
Proof.
  intros Hc Hk s x. unfold mbind, step_bind. destruct (c s) as [[[a|e] s1]|] eqn:Es; [..|done]; rewrite (Hc _ _ Es);
    [apply Hk|done].
Qed.

Lemma extends_refl {S E A} (c : step S E A) : extends c c.
Proof. by intros s x. Qed.

Section more.
Context `{Sha256} {B D R : Type} `{UpdateBackend B} `{MaintenanceFlash B} `{Efuse D} `{Registers R}.

Lemma maintenance_more more (p : Platform) c request (w : World (F := B) (D := D)) x :
  maintenance_handle p c request w = Some x →
  maintenance_handle p (mkCircumstances (ci_idle c) (ci_now c) (ci_readings c ++ more) (ci_cancelled c)) request w = Some x.
Proof.
  unfold maintenance_handle. destruct (negb _); [done|]. intros E. apply bind_Some in E as (y & E & Ex).
  assert (extends (maintenance_body (D := D) (F := B) p c request)
    (maintenance_body p (mkCircumstances (ci_idle c) (ci_now c) (ci_readings c ++ more) (ci_cancelled c)) request)) as Hext.
  { unfold maintenance_body. cbn [ci_idle ci_now ci_readings ci_cancelled].
    repeat first [apply extends_refl | apply extends_bind; intros | case_match].
    intros wa ya. unfold confirm_presence. intros E0. apply bind_Some in E0 as (z & E0 & Ez).
    unfold confirm_maintenance_user_presence in *. by rewrite (confirm_more _ _ _ _ _ _ _ E0). }
  by rewrite (Hext _ _ E).
Qed.

Lemma vendor_more more (e : Environment R) now readings cancelled request response (s : S2Handlers (B := B) (D := D)) x :
  vendor_handle (waiting e now readings cancelled) request response s = Some x →
  vendor_handle (waiting e now (readings ++ more) cancelled) request response s = Some x.
Proof.
  unfold vendor_handle, dispatch. cbn [diagnostics security_status update confirm_update s2_handlers]. intros E.
  apply bind_Some in E as ([[d r1] s1] & E1 & E).
  assert (s2_diagnostics (waiting e now (readings ++ more) cancelled) request response s = Some (d, r1, s1)) as ->.
  { unfold s2_diagnostics, first_diagnostic_response, or_else in *.
    change (preview_diagnostic (waiting e now (readings ++ more) cancelled) request (B := B) (D := D))
      with (preview_diagnostic (waiting e now readings cancelled) request (B := B) (D := D)).
    change (memory_diagnostic (waiting e now (readings ++ more) cancelled) request (B := B) (D := D))
      with (memory_diagnostic (waiting e now readings cancelled) request (B := B) (D := D)).
    apply bind_Some in E1 as (y & E1 & Ey).
    apply bind_Some in E1 as (z & E1 & Ez). unfold maintenance_diagnostic in *.
    cbn [en_features waiting] in *. destruct (ft_security_epoch_maintenance _) eqn:Ef.
    - apply bind_Some in E1 as (v & E1 & Ev). apply (maintenance_more more) in E1.
      unfold circumstances_of in *. cbn [waiting en_platform en_maintenance ci_idle ci_now ci_readings ci_cancelled] in *.
      rewrite E1. cbn [mbind option_bind]. rewrite Ev. cbn [mbind option_bind]. rewrite Ez. exact Ey.
    - injection E1 as <-. cbn [mbind option_bind]. rewrite Ez. exact Ey. }
  cbn [mbind option_bind]. apply bind_Some in E as ([[n r2] s2] & E2 & E). cbn [waiting en_status] in *. rewrite E2. cbn [mbind option_bind].
  destruct (_ =? _); [|done]. apply bind_Some in E as (y & E3 & E).
  unfold s2_confirm_update in *. apply bind_Some in E3 as (z & E3 & Ez). cbn [en_now en_readings waiting] in *.
  unfold confirm_update_user_presence in *. rewrite (confirm_more _ _ _ _ _ _ _ E3). cbn [mbind option_bind].
  rewrite Ez. exact E.
Qed.
End more.

(** ** The wait of a dispatch *)

Section wait.
Context {A : Type} (run : list Reading → bool → option A) (moments : nat → Moment) (a : AppRequest) (limit : Z) (last : nat).

(** A reading that ends the wait for any of the two prompts. *)
Definition stops (r : Reading) : Prop := limit ≤ rd_now r ∨ rd_cancelled r = true.
Hypothesis run_stops : ∀ readings cancelled, Exists stops readings → is_Some (run readings cancelled).
Hypothesis late : limit ≤ mo_now (moments (S last)).

Definition attending (rt : UsbRuntime) : Prop :=
  runtime_ok rt ∧ interrupt_flag rt = Some FlagIdle ∧
  (app_request (ctaphid rt) = Some a ∨ lost a rt ∧ presence_cancelled rt = true).

Lemma poll_attending now ep rt : runtime_ok rt → interrupt_flag rt = Some FlagIdle → app_request (ctaphid rt) = Some a →
  ∃ e rt', poll_wait now ep rt = Some (e, rt') ∧ harmless a e ∧ attending rt'.
Proof.
  intros Hr Hf Ha. destruct (poll_wait_serving now ep rt a Hr Ha) as (e & rt' & -> & Hr' & He & Hs).
  exists e, rt'. split; [done|]. split; [done|]. split; [done|].
  destruct Hs as [[Ha' [[F _]|[F _]]]|[Hl [F P]]]; rewrite Hf in F; (split; [done|]); [by left..|by right].
Qed.

Lemma await_answered fuel readings rt x : run readings (presence_cancelled rt) = Some x →
  await fuel moments run readings rt = Some (x, [], rt).
Proof. intros E. destruct fuel; cbn [await]; by rewrite E. Qed.

Lemma await_ok n : ∀ fuel readings rt, (length readings + n = S last)%nat → (n ≤ fuel)%nat →
  (n = 0%nat → Exists stops readings) →
  runtime_ok rt → interrupt_flag rt = Some FlagIdle → app_request (ctaphid rt) = Some a →
  ∃ x dropped rt', await fuel moments run readings rt = Some (x, dropped, rt') ∧
    (∃ readings' cancelled, run readings' cancelled = Some x) ∧ attending rt' ∧ Forall (harmless a) dropped ∧
    (dropped = [] → rt' = rt).
Proof.
  induction n as [|n IH]; intros fuel readings rt Hn Hfuel Hstop Hr Hf Ha;
    (destruct (run readings (presence_cancelled rt)) as [x|] eqn:Er;
     [exists x, [], rt; split; [by apply await_answered|]; split_and!; [by eexists _, _|split; [done|]; split; [done|by left]|done|done]|]).
  { destruct (run_stops readings (presence_cancelled rt)) as [x Ex]; [by apply Hstop|congruence]. }
  destruct fuel as [|fuel]; [lia|]. cbn [await]. rewrite Er.
  set (rt0 := match readings with [] => _ | _ => rt end). set (m := moments (S (length readings))).
  assert (runtime_ok rt0 ∧ interrupt_flag rt0 = Some FlagIdle ∧ app_request (ctaphid rt0) = Some a) as (Hr0 & Hf0 & Ha0)
    by (unfold rt0; destruct readings; [destruct Hr|]; done).
  destruct (poll_attending (mo_ms m) (mo_endpoint m) rt0 Hr0 Hf0 Ha0) as (e & rt1 & -> & He & Hr1 & Hf1 & Ha1).
  cbn [mbind option_bind]. set (readings' := readings ++ [reading_of m rt1]).
  destruct (presence_cancelled rt1) eqn:Ep.
  - destruct (run_stops readings' (presence_cancelled rt1)) as [x Ex].
    { apply Exists_app. right. apply Exists_cons_hd. by right. }
    rewrite (await_answered _ _ _ _ Ex). cbn [mbind option_bind]. exists x, [e], rt1. split; [done|].
    split; [by exists readings', (presence_cancelled rt1)|]. split; [split; [done|]; split; [done|by rewrite Ep]|]. split; [by apply list.Forall_singleton|done].
  - destruct Ha1 as [Ha1|[_ ?]]; [|congruence].
    destruct (IH fuel readings' rt1) as (x & dropped & rt2 & -> & Hx & Hw & Hd & _); [| |..|done|done|done|].
    + unfold readings'. rewrite length_app. simpl. lia.
    + lia.
    + intros ->. apply Exists_app. right. apply Exists_cons_hd. left. cbn [reading_of rd_now].
      unfold m. by replace (length readings) with last by lia.
    + cbn [mbind option_bind]. exists x, (e :: dropped), rt2. split; [done|]. split; [done|]. split; [done|].
      split; [by constructor|done].
Qed.
End wait.

(** ** One turn *)

(** Confirming the running image writes a boot record, not a slot. *)
Class ConfirmationView (B : Type) `{FlashView B, !ImageConfirmation B} := {
  iv_slots : ∀ version secure_version b r b',
    ic_confirm_running_image version secure_version b = (r, b') → ∀ s a, slot_mem b' s a = slot_mem b s a;
}.

(** The credential store is not in a slot. *)
Class CredentialStoreView (B : Type) `{FlashView B, !CredentialStore B} := {
  sv_slots : ∀ op b r b', cs_run op b = (r, b') → ∀ s a, slot_mem b' s a = slot_mem b s a;
}.

Section turns.
Context `{Sha256} {B D R : Type} `{UpdateView B} `{!MaintenanceFlash B} `{!MaintenanceView B} `{EfuseView D} `{Registers R}.
Context `{!ImageConfirmation B} `{!ConfirmationView B} `{!CredentialStore B} `{!CredentialStoreView B}.
Abbreviation machine := (Machine (B := B) (D := D)).

(** Between the turns: no request byte is left in the buffer, no gate is armed and the
    interrupt flag is idle. *)
Record machine_ok (m : machine) : Prop := {
  ma_runtime : runtime_ok (mc_runtime m);
  ma_flag : interrupt_flag (mc_runtime m) = Some FlagIdle;
  ma_updater : updater_ok (sh_updater (mc_handlers m));
  ma_hardware : hw_gate (sh_hardware (mc_handlers m)) = None;
  ma_request : mc_request m = zeros MAX_MESSAGE_SIZE;
}.

Definition flash_of (m : machine) : B := uu_backend (sh_updater (mc_handlers m)).

(** The confirmation of the running image, and what it answers. *)
Definition confirming (build : Build) (b : B) (r : result ConfirmError bool) (b' : B) : Prop :=
  bd_confirm_signed_update build = true ∧
  ic_confirm_running_image (bd_app_version build) (bd_secure_version build) b = (r, b').

(** The flash after the requests the authenticator makes of the driver in a turn. *)
Definition served (t : Turn) (b b' : B) : Prop :=
  ∃ payload tr, makes (tn_authenticator t payload) tr ∧ stored tr b b'.

(** What a turn that serves the request [a] on [m] comes to. *)
Definition turned (build : Build) (t : Turn) (a : AppRequest) (m : machine) (r : result Panic (machine * list Event)) : Prop :=
  match r with
  | Ok (m', dropped) =>
      machine_ok m' ∧ Forall (harmless a) dropped ∧
      (answered a (mc_runtime m') ∨ lost a (mc_runtime m') ∧ dropped ≠ []) ∧
      (ar_command a = Cbor → ∃ b, served t (flash_of m) b ∧ (flash_of m' = b ∨
         answered a (mc_runtime m') ∧ ∃ done, confirming build b (Ok done) (flash_of m')))
  | Err p => ∃ error b b', p = ConfirmationFailed error ∧ ar_command a = Cbor ∧
      served t (flash_of m) b ∧ confirming build b (Err error) b'
  end.

Lemma take_request_ok m a : machine_ok m → app_request (ctaphid (mc_runtime m)) = Some a →
  ∃ payload request, take_request m = Some (Ok (payload, request)) ∧
    clear_request request (length payload) = zeros MAX_MESSAGE_SIZE.
Proof.
  intros Hm Ha. unfold take_request, copy_request.
  pose proof (request_payload_ok _ (ro_hid _ (ma_runtime _ Hm))) as Hp. unfold request_payload in *. rewrite Ha in *.
  cbn [fmap option_fmap option_map] in *. destruct (subslice _ _ _) as [payload|] eqn:Es; [|done].
  cbn [mbind option_bind]. assert (length payload ≤ MAX_MESSAGE_SIZE)%nat as Hl.
  { rewrite <- (ro_size _ (ma_runtime _ Hm)). unfold subslice in Es. destruct (_ && _) eqn:Eb; [|done]. injection Es as <-.
    apply andb_true_iff in Eb as [Ea Eb]. apply Nat.leb_le in Ea, Eb. unfold buffer_size. rewrite length_slice; lia. }
  rewrite (ma_request _ Hm). unfold copy_at. rewrite length_zeros, (proj2 (Nat.leb_le _ _)) by lia.
  cbn [mbind option_bind]. eexists _, _. split; [done|]. unfold clear_request. rewrite put_zeros.
  etrans; [apply (put_app [] (payload ++ _)); done|]. rewrite length_zeros, drop_app_length. cbn [app]. unfold zeros.
  rewrite <- replicate_add. f_equal. lia.
Qed.

Lemma slots_kept_ok (u : UsbUpdater B) b : updater_ok u →
  (∀ s a, slot_mem b s a = slot_mem (uu_backend u) s a) → updater_ok (with_backend b u).
Proof.
  intros [Hs Hv Hi] Hm. split; [|done|done].
  intros s0 E0. destruct (Hs s0 E0) as [Hsh Hv0]. split; [done|]. intros Hp. destruct (Hv0 Hp) as [Hf Hg].
  split; [rewrite Hf|rewrite Hg]; apply mem_read_ext; intros; symmetry; apply Hm.
Qed.

Lemma stored_slots tr b b' : stored tr b b' → ∀ s a, slot_mem b' s a = slot_mem b s a.
Proof.
  induction 1 as [|op r tr b b1 b2 E _ IH]; intros s a; [done|]. rewrite IH. by eapply sv_slots.
Qed.

Lemma confirm_image_ok build (s : S2Handlers (B := B) (D := D)) r s' : confirm_image build s = (r, s') →
  updater_ok (sh_updater s) → updater_ok (sh_updater s') ∧ sh_hardware s' = sh_hardware s ∧
    ic_confirm_running_image (bd_app_version build) (bd_secure_version build) (uu_backend (sh_updater s)) =
      (r, uu_backend (sh_updater s')).
Proof.
  unfold confirm_image. destruct (ic_confirm_running_image _ _ _) as [r1 b] eqn:E. intros [= <- <-] Hu.
  split; [|done]. by apply slots_kept_ok, (iv_slots _ _ _ _ _ E).
Qed.

Lemma cbor_turn_ok build t m a : machine_ok m → app_request (ctaphid (mc_runtime m)) = Some a → ar_command a = Cbor →
  (∀ payload, well_behaved false (tn_authenticator t payload)) →
  ∃ r, cbor_turn build t m = Some r ∧ turned build t a m r.
Proof.
  intros Hm Ha Hcbor Ht. unfold cbor_turn. destruct (take_request_ok m a Hm Ha) as (payload & request & -> & Hreq).
  cbn [mbind option_bind]. set (ui := mkUserInterface _ _). set (c := mkCockpit ui _).
  destruct (run_call_ok a (tn_moments t) (tn_authenticator t payload) false 0 c (flash_of m))
    as (s & response & dropped & c' & b & E & Hl & Hw & Hd & Hn).
  { split; [by destruct (ma_runtime _ Hm)|]. left. split; [done|]. cbn. by rewrite (ma_flag _ Hm). }
  { apply hardware_off. apply (ma_hardware _ Hm). }
  { apply Ht. }
  fold (flash_of m). rewrite E. apply run_call_stored in E as (tr & Hst & Htr).
  assert (served t (flash_of m) b) as Hserved by (by exists payload, tr).
  cbn [mbind option_bind]. set (rt := set_idle (ck_runtime c')).
  destruct Hw as [Hr Hw]. assert (runtime_ok rt ∧ interrupt_flag rt = Some FlagIdle) as [Hr' Hf].
  { split; [by destruct Hr|]. cbn. by destruct Hw as [[_ ->]|(_ & -> & _)]. }
  assert (app_request (ctaphid rt) = Some a ∨ lost a rt) as Ha' by (destruct Hw as [[? _]|(_ & _ & Ho)]; [by left|exact Ho]).
  destruct (complete_cbor_ok a s response rt Hr' Hl Ha') as (completion & rt' & -> & Hr2 & Hf2 & Hc).
  cbn [mbind option_bind]. set (m' := mkMachine rt' _ _ _). eexists. split; [done|].
  assert (machine_ok m') as Hm' by (split; [done|exact (eq_trans Hf2 Hf)|apply slots_kept_ok; [apply (ma_updater _ Hm)|by eapply stored_slots]|done|exact Hreq]).
  assert (answered a rt' ∨ lost a rt' ∧ dropped ≠ []) as Hans.
  { destruct Hc as [(_ & ? & _)|(Hlost & _ & ->)]; [by left|right]. split; [done|]. intros ->.
    unfold lost, init_only in Hlost. change (ctaphid rt) with (ctaphid (ck_runtime c')) in Hlost.
    rewrite Hn in Hlost by done. destruct Hlost as [Hlost _]. cbn in Hlost. congruence. }
  assert (∀ l, l = dropped → turned build t a m (Ok (m', l))) as Hplain.
  { intros l ->. split_and!; [done..|]. intros _. exists b. split; [done|by left]. }
  unfold finish_cbor. destruct completion; [|by apply Hplain..].
  destruct (bd_confirm_signed_update build) eqn:Eb; [|by apply Hplain].
  destruct (confirm_image build _) as [[confirmed|error] s2] eqn:Ec;
    destruct (confirm_image_ok _ _ _ _ Ec (ma_updater _ Hm')) as (Hu & Hh & Ei); [|by eexists error, b, _].
  assert (answered a rt') as Hdone by (destruct Hc as [(_ & ? & _)|(_ & ? & _)]; done).
  split; [|split_and!; [done|by left|]; intros _; exists b; split; [done|]; right; split; [done|]; by exists confirmed].
  split; [done|exact (eq_trans Hf2 Hf)|done| |exact Hreq]. cbn [mc_handlers]. rewrite Hh. done.
Qed.
(** *** A vendor request *)

#[local] Instance any_backend_frame : BackendFrame B (λ _ _, True).
Proof. split; [split; done|done..]. Qed.
#[local] Instance any_maintenance_frame : MaintenanceFrame B (λ _ _, True).
Proof. by split. Qed.

Lemma outside_stops (e : Environment R) now readings cancelled : 0 ≤ now →
  Exists (stops (u64_saturating_add now 30000)) readings → outside_ok (waiting e now readings cancelled).
Proof.
  intros Hn Hs. split; [done|]. split; [done|].
  split; (eapply list.Exists_impl; [exact Hs|]); intros r [Hr|Hr]; red; auto; left; simpl in *;
    unfold u64_saturating_add, UPDATE_USER_PRESENCE_TIMEOUT_MS in *; lia.
Qed.

Lemma vendor_result (e : Environment R) now readings cancelled payload (s : S2Handlers (B := B) (D := D)) n response s' :
  0 ≤ now → updater_ok (sh_updater s) → hw_gate (sh_hardware s) = None →
  vendor_handle (waiting e now readings cancelled) payload (zeros 64) s = Some (n, response, s') →
  (n ≤ 64)%nat ∧ length response = 64%nat ∧ updater_ok (sh_updater s') ∧ hw_gate (sh_hardware s') = None.
Proof.
  intros Hn Hu Hh E. destruct (vendor_frame (λ _ _, True) _ _ _ _ _ _ _ E) as [_ Hrel].
  apply (vendor_more [mkReading false (u64_saturating_add now 30000) false]) in E.
  destruct (vendor_served_aux (waiting e now (readings ++ [mkReading false (u64_saturating_add now 30000) false]) cancelled)
    payload (zeros 64) s) as (n1 & r1 & s1 & E1 & Hn1 & Hl1 & Hs1); [done|done|..].
  { apply outside_stops; [done|]. apply Exists_app. right. apply Exists_cons_hd. by left. }
  rewrite E in E1. injection E1 as <- <- <-. split; [done|]. split; [done|]. split; [apply Hs1|].
  destruct Hrel as [->|]; done.
Qed.

(** The waits of a turn end: its clock reaches the deadline of the longer prompt. *)
Definition waits_end (t : Turn) (last : nat) : Prop :=
  0 ≤ mo_now (tn_moments t 0%nat) ∧
  u64_saturating_add (mo_now (tn_moments t 0%nat)) 30000 ≤ mo_now (tn_moments t (S last)).

Lemma update_turn_ok build fuel (e : Environment R) t m a last : machine_ok m →
  app_request (ctaphid (mc_runtime m)) = Some a → ar_command a = Update → waits_end t last → (S last ≤ fuel)%nat →
  ∃ r, update_turn fuel e t m = Some r ∧ turned build t a m r.
Proof.
  intros Hm Ha Hup [Hnow Hlate] Hfuel. unfold update_turn.
  destruct (take_request_ok m a Hm Ha) as (payload & request & -> & Hreq). cbn [mbind option_bind].
  set (now := mo_now (tn_moments t 0%nat)) in *. set (run := λ readings cancelled, vendor_handle _ _ _ _).
  destruct (await_ok run (tn_moments t) a (u64_saturating_add now 30000) last) with (n := S last) (fuel := fuel)
    (readings := @nil Reading) (rt := mc_runtime m) as ([[n response] s] & dropped & rt & -> & (readings & cancelled & Er) & Hw & Hd & Hn);
    [|done|done|done|done|apply Hm|apply Hm|done|].
  { intros readings cancelled Hs. unfold run.
    destruct (vendor_served_aux (waiting e now readings cancelled) payload (zeros 64) (mc_handlers m))
      as (n & r & s & -> & _); [apply Hm|done|by apply outside_stops|done]. }
  cbn [mbind option_bind]. destruct Hw as (Hr & Hf & Ha'). unfold run in Er.
  destruct (vendor_result _ _ _ _ _ _ _ _ _ Hnow (ma_updater _ Hm) (ma_hardware _ Hm) Er) as (Hn' & Hl & Hu & Hh).
  destruct (subslice_Some response 0 n ltac:(lia)) as [-> Hl']. cbn [mbind option_bind].
  destruct (complete_update_ok a (slice response 0 n) rt Hr) as (c & rt' & -> & Hr2 & Hf2 & Hc).
  { unfold MAX_MESSAGE_SIZE. lia. }
  { destruct Ha' as [?|[? _]]; [by left|by right]. }
  cbn [mbind option_bind]. eexists. split; [done|]. split; [split; [done|exact (eq_trans Hf2 Hf)|done|done|exact Hreq]|].
  split; [done|]. split; [|by rewrite Hup]. destruct Hc as [[_ ?]|[Hlost ->]]; [by left|right]. split; [done|]. intros ->.
  rewrite Hn in Hlost by done. destruct Hlost as [Hlost _]. congruence.
Qed.

(** *** The poll and the request it brings *)

Definition poll_turn (t : Turn) (m : machine) : machine :=
  mkMachine (mc_runtime m) (with_updater (UsbUpdate.poll (sh_updater (mc_handlers m))) (mc_handlers m)) (mc_status m) (mc_request m).

Lemma poll_event_ok t (m : machine) : machine_ok m →
  ∃ e rt, poll_at (tn_ms t) (tn_endpoint t) (mc_runtime m) = Some (e, rt) ∧ announced e (ctaphid rt) ∧
    machine_ok (mkMachine rt (mc_handlers (poll_turn t m)) (mc_status m) (mc_request m)).
Proof.
  intros Hm. destruct (poll_at_ok (tn_ms t) (tn_endpoint t) _ (ma_runtime _ Hm)) as (e & rt & -> & Hr & Ha & Hf).
  exists e, rt. split; [done|]. split; [done|]. split; [done| | |apply Hm|apply Hm].
  - cbn [mc_runtime]. destruct Hf as [[-> _]|[-> _]]; by rewrite (ma_flag _ Hm).
  - cbn [mc_handlers poll_turn sh_updater with_updater]. apply poll_ok, Hm.
Qed.
(** The request an event announces. *)
Definition announces (e : Event) (a : AppRequest) : Prop :=
  e = EvCbor (ar_channel a) (ar_length a) ∧ ar_command a = Cbor ∨
  e = EvUpdate (ar_channel a) (ar_length a) ∧ ar_command a = Update.

(** What is assumed of the outside in one turn. *)
Definition turn_ok (last : nat) (t : Turn) : Prop :=
  (∀ payload, well_behaved false (tn_authenticator t payload)) ∧ waits_end t last.

Lemma iterate_ok build fuel (e : Environment R) t m last : machine_ok m → turn_ok last t → (S last ≤ fuel)%nat →
  ∃ ev rt, poll_at (tn_ms t) (tn_endpoint t) (mc_runtime m) = Some (ev, rt) ∧
    ∃ r, iterate fuel build e t m = Some r ∧
      ((∃ m', r = Ok (m', []) ∧ machine_ok m' ∧ mc_runtime m' = rt ∧ ∀ a, ¬ announces ev a) ∨
       ∃ a, announces ev a ∧ app_request (ctaphid rt) = Some a ∧ turned build t a (poll_turn t m) r).
Proof.
  intros Hm [Hauth Hwait] Hfuel. destruct (poll_event_ok t m Hm) as (ev & rt & E & Ha & Hm').
  exists ev, rt. split; [done|]. unfold iterate. rewrite E. cbn [mbind option_bind].
  destruct ev as [|c n|c n|c]; cbn [announced] in Ha.
  - eexists. split; [done|]. left. eexists. split; [done|]. split; [exact Hm'|]. split; [done|]. intros a [[]|[]]; done.
  - destruct (cbor_turn_ok build t _ (mkAppRequest c Cbor n) Hm' Ha eq_refl Hauth) as (r & Er & Ht).
    exists r. split; [exact Er|]. right. exists (mkAppRequest c Cbor n). split; [by left|]. split; [done|exact Ht].
  - destruct (update_turn_ok build fuel e t _ (mkAppRequest c Update n) last Hm' Ha eq_refl Hwait Hfuel) as (r & Er & Ht).
    exists r. split; [exact Er|]. right. exists (mkAppRequest c Update n). split; [by right|]. split; [done|exact Ht].
  - eexists. split; [done|]. left. eexists. split; [done|]. split; [exact Hm'|]. split; [done|]. intros a [[]|[]]; done.
Qed.

(** C34: The main loop serves whatever the host sends: from a sound state every turn, and
    so every run of turns, ends without a panic and in a sound state again (the
    transport and update invariants hold, no gate is armed, the interrupt flag is
    idle, no byte of a request is left in the buffer), provided the waits for the
    button are bounded by the clock and the authenticator keeps to the protocol of
    the user interface.  The only way out of the loop is the [expect] on the
    confirmation of the running image, in a build that confirms. *)
Theorem main_loop_serves build fuel last (turns : list (Environment R * Turn)) m :
  machine_ok m → Forall (turn_ok last) turns.*2 → (S last ≤ fuel)%nat →
  ∃ r, run_turns fuel build turns m = Some r ∧
    match r with
    | Ok m' => machine_ok m'
    | Err p => ∃ error, p = ConfirmationFailed error ∧ bd_confirm_signed_update build = true
    end.
Proof.
  intros Hm Hts Hfuel. revert m Hm. induction turns as [|[e t] turns IH]; intros m Hm; cbn [run_turns]; [by eexists|].
  apply list.Forall_cons in Hts as [Ht Hts].
  destruct (iterate_ok build fuel e t m last Hm Ht Hfuel) as (ev & rt & _ & r & -> & Hr). cbn [mbind option_bind].
  destruct Hr as [(m' & -> & Hm' & _)|(a & _ & _ & Hturn)]; [by apply IH|].
  destruct r as [[m' dropped]|p]; [apply IH; [done|apply Hturn]|].
  destruct Hturn as (error & b & b' & -> & _ & _ & Hb & _). exists (Err (ConfirmationFailed error)). split; [done|]. by exists error.
Qed.

(** C35: A request is served alone: while the loop works on the request an event
    announced, however long it waits for the button, no poll delivers another
    request (a dropped event is none, or the cancellation of this one), and at the
    end either the reply is queued on its own channel and for its own command, or the
    request was lost during a wait to a resynchronisation, a protocol violation or a
    transport error, and nothing but the answer to that INIT is queued.  A CBOR turn
    changes flash only by what the authenticator asks of the block driver of the
    credential store, and by the confirmation of the running image, after that and
    only in a turn that queued the reply. *)
Theorem request_served_alone build fuel last (e : Environment R) t m ev rt a r :
  machine_ok m → turn_ok last t → (S last ≤ fuel)%nat →
  poll_at (tn_ms t) (tn_endpoint t) (mc_runtime m) = Some (ev, rt) → announces ev a →
  iterate fuel build e t m = Some r →
  app_request (ctaphid rt) = Some a ∧
  match r with
  | Ok (m', dropped) =>
      Forall (harmless a) dropped ∧
      (answered a (mc_runtime m') ∨ lost a (mc_runtime m') ∧ dropped ≠ []) ∧
      (ar_command a = Cbor → ∃ b, served t (flash_of (poll_turn t m)) b ∧ (flash_of m' = b ∨
         answered a (mc_runtime m') ∧ ∃ done, confirming build b (Ok done) (flash_of m')))
  | Err p => ∃ error b b', p = ConfirmationFailed error ∧ ar_command a = Cbor ∧
      served t (flash_of (poll_turn t m)) b ∧ confirming build b (Err error) b'
  end.
Proof.
  intros Hm Ht Hfuel Hp Ha Hr. destruct (iterate_ok build fuel e t m last Hm Ht Hfuel) as (ev' & rt' & E & r' & E' & H').
  rewrite Hp in E. injection E as <- <-. rewrite Hr in E'. injection E' as <-.
  destruct H' as [(m' & _ & _ & _ & Hno)|(a' & Ha' & Happ & Hturn)]; [by destruct (Hno a)|].
  assert (a' = a) as ->.
  { destruct a, a', Ha as [[-> H1']|[-> H1']], Ha' as [[K H2']|[K H2']]; simpl in *; congruence. }
  split; [done|]. destruct r as [[m' dropped]|p]; [|exact Hturn]. apply Hturn.
Qed.
End turns.

(** The model backend has no credential store: the driver refuses. *)
#[export] Instance model_credentials : CredentialStore model := {| cs_run := λ _ b, (Err FS_IO, b) |}.
#[export] Instance model_credentials_view : CredentialStoreView model.
Proof. split. by intros op b r b' [= _ <-] s a. Qed.

(** ** Witnesses: a message-sized engine with one channel and the model backend *)

#[export] Instance model_confirmation : ImageConfirmation model := {|
  ic_confirm_running_image := λ _ _ b, (Ok true, b);
|}.
#[export] Instance model_confirmation_view : ConfirmationView model.
Proof. split. by intros version secure_version b r b' [= _ <-] s a. Qed.

Definition message_engine : CtapHid :=
  mkCtapHid (zeros MAX_MESSAGE_SIZE) (zeros MAX_MESSAGE_SIZE) None None None None no_errors 1 (mkDeviceVersion 0 1 0) 0x0c.
Definition sample_machine : Machine (B := model) (D := efuse_model) :=
  mkMachine (mkUsbRuntime message_engine (Some FlagIdle) 0 false) sample_handlers UiIdle (zeros MAX_MESSAGE_SIZE).
Definition quiet_endpoint : Endpoint := mkEndpoint false (Err WouldBlock) (Err WouldBlock).

(** The button is held at the second moment; the third is past the deadline. *)
Definition sample_moments (i : nat) : Moment :=
  mkMoment (100 * Z.of_nat i) quiet_endpoint (i =? 1)%nat (40000 * Z.of_nat i).

(** An authenticator that asks for consent once. *)
Definition sample_authenticator (request : bytes) : Call :=
  SetStatus WaitingForUserPresence (Refresh (IsInterrupted (λ interrupted,
    if interrupted then Finished false []
    else CheckUserPresence (λ level, Finished true (match level with ConsentNormal => [0] | ConsentNone => [0x27] end))))).

Definition sample_turn (command : Command) (payload : bytes) : Turn :=
  mkTurn 7 (mkEndpoint true (Ok (init_report 1 (command_number command) (length payload) payload)) (Ok 64%nat))
    sample_moments sample_authenticator.
Definition sample_build : Build := mkBuild [48; 46; 49] 3 true.

Lemma message_ok : hid_ok message_engine.
Proof. apply (hid_allocated 1 (with_last_channel 0 message_engine)); [by split|done|by apply (hid_new 1024 (mkDeviceVersion 0 1 0) 0x0c)]. Qed.

Lemma sample_machine_ok : machine_ok sample_machine.
Proof.
  split; [split; [exact message_ok|reflexivity]|reflexivity|apply model_updater_ok; unfold model_total; lia|reflexivity..].
Qed.

Lemma sample_turn_ok command payload : turn_ok 0 (sample_turn command payload).
Proof.
  split; [|split; vm_compute; discriminate]. intros request. cbn [well_behaved tn_authenticator sample_turn sample_authenticator].
  split; [done|]. unfold MAX_MESSAGE_SIZE. split; [intros []; simpl; lia|simpl; lia].
Qed.

Lemma main_loop_serves_witness :
  ∃ r, run_turns 1 sample_build [(sample_environment, sample_turn Cbor [4]); (sample_environment, sample_turn Update [0])]
         sample_machine = Some r ∧
    match r with
    | Ok m' => machine_ok m'
    | Err p => ∃ error, p = ConfirmationFailed error ∧ bd_confirm_signed_update sample_build = true
    end.
Proof.
  apply (main_loop_serves sample_build 1 0 _ sample_machine sample_machine_ok); [|apply le_n].
  apply Forall_cons; [apply (sample_turn_ok Cbor [4])|]. apply Forall_cons; [apply (sample_turn_ok Update [0])|apply Forall_nil].
Defined.

Lemma request_served_alone_witness :
  ∃ rt m' dropped, poll_at 7 (tn_endpoint (sample_turn Cbor [4])) (mc_runtime sample_machine) = Some (EvCbor 1 1, rt) ∧
    iterate 1 sample_build sample_environment (sample_turn Cbor [4]) sample_machine = Some (Ok (m', dropped)) ∧
    Forall (harmless (mkAppRequest 1 Cbor 1)) dropped ∧ answered (mkAppRequest 1 Cbor 1) (mc_runtime m').
Proof.
  assert (option_map fst (poll_at 7 (tn_endpoint (sample_turn Cbor [4])) (mc_runtime sample_machine)) = Some (EvCbor 1 1)) as Hp
    by (vm_compute; reflexivity).
  destruct (poll_at 7 _ _) as [[ev rt]|] eqn:Ep; [|discriminate Hp]. injection Hp as ->.
  assert (match iterate 1 sample_build sample_environment (sample_turn Cbor [4]) sample_machine with
          | Some (Ok (m', _)) => bool_decide (ts_command <$> transmit (ctaphid (mc_runtime m')) = Some Cbor)
          | _ => false end = true) as Hi by (vm_compute; reflexivity).
  destruct (iterate 1 _ _ _ _) as [[[m' dropped]|]|] eqn:Ei; [|discriminate Hi..].
  exists rt, m', dropped. split; [reflexivity|]. split; [reflexivity|].
  destruct (request_served_alone sample_build 1 0 sample_environment (sample_turn Cbor [4]) sample_machine _ rt
    (mkAppRequest 1 Cbor 1) _ sample_machine_ok (sample_turn_ok Cbor [4]) (le_n _) Ep (or_introl (conj eq_refl eq_refl)) Ei)
    as (_ & Hd & Ha & _).
  split; [exact Hd|]. destruct Ha as [Ha|[[_ Hl] _]]; [exact Ha|].
  apply bool_decide_eq_true in Hi. destruct (transmit _) as [tx|]; [|discriminate Hi]. injection Hi as Hi.
  destruct (Hl tx eq_refl) as [_ K]. rewrite Hi in K. discriminate K.
Defined.
