(* ===== verification/MainLoopRelease.v ===== *)
(** * The main loop on the release backend

    The confirmation of the running image is [ota.rs]'s, on the encrypted flash: it
    rewrites one boot record at most.  The authenticator reaches flash only through the
    block driver of the credential store.  With the frame of the vendor requests this
    says what any run of the main loop can change in flash, and who changes it. *)

From stdpp Require Import base tactics numbers list option.
From S2P Require Import Prelude Interfaces SignedImage UsbUpdate UsbUpdateSafety UsbUpdateFrame Rom FlashEncryption.
From S2P Require Import FlashWindows.
From S2P Require Import FlashOperations Ota OtaRecords OtaDevice OtaActivation EspBackend EspView ModelRom Storage.
From S2P Require Import CtapHid CtapHidSafety Presence Epoch EpochTransaction EpochProgrammer EpochMaintenance.
From S2P Require Import MemoryProtection SecurityStatus VendorCommands VendorFrame StorageTheorems VendorRelease.
From S2P Require Import ModelBackend.
From S2P Require Import EpochTheorems EpochMaintenanceTheorems MemoryProtectionTheorems EspTheorems UsbRuntime.
From S2P Require Import UsbRuntimeTheorems MainLoop MainLoopTheorems.

(** ** What a run of the loop does to the flash *)

(** Work that [R] allows, with the requests the authenticator makes of the driver in
    between. *)
Inductive loop_work {B} `{CredentialStore B} (R : B → B → Prop) :
    list (store_op * result FsError store_answer) → B → B → Prop :=
  | lw_own b b' : R b b' → loop_work R [] b b'
  | lw_store op r tr b b1 b2 b3 : R b b1 → cs_run op b1 = (r, b2) → loop_work R tr b2 b3 →
      loop_work R ((op, r) :: tr) b b3.

Section work.
Context {B} `{CredentialStore B} (R : B → B → Prop) `{!PreOrder R}.

Lemma loop_work_own b b1 b2 tr : R b b1 → loop_work R tr b1 b2 → loop_work R tr b b2.
Proof. intros Hr W. inversion W; subst; [apply lw_own|eapply lw_store; [|done..]]; by etrans. Qed.

Lemma loop_work_trans tr1 tr2 b1 b2 b3 : loop_work R tr1 b1 b2 → loop_work R tr2 b2 b3 → loop_work R (tr1 ++ tr2) b1 b3.
Proof.
  intros W W2. induction W as [b b' Hr|op r tr b b1' b2' b3' Hr E _ IH]; cbn [app].
  - by eapply loop_work_own.
  - eapply lw_store; [done..|by apply IH].
Qed.

Lemma stored_work tr b b' : stored tr b b' → loop_work R tr b b'.
Proof. induction 1; [by apply lw_own|by eapply lw_store]. Qed.

Lemma loop_work_nil b b' : loop_work R [] b b' → R b b'.
Proof. by inversion 1. Qed.
End work.

Section frame.
Context `{Sha256} {B D G : Type} (R : B → B → Prop) `{UpdateBackend B, !BackendFrame B R, !MaintenanceFlash B, !MaintenanceFrame B R}.
Context `{Efuse D} `{Registers G} `{!ImageConfirmation B} `{!CredentialStore B}.
Hypothesis confirm_related : ∀ version secure_version b r b',
  ic_confirm_running_image version secure_version b = (r, b') → R b b'.
#[local] Existing Instance bf_preorder.
Abbreviation machine := (Machine (B := B) (D := D)).

Lemma await_result {A} (run : list Reading → bool → option A) moments fuel : ∀ readings rt x dropped rt',
  await fuel moments run readings rt = Some (x, dropped, rt') → ∃ readings' cancelled, run readings' cancelled = Some x.
Proof.
  induction fuel as [|fuel IH]; intros readings rt x dropped rt'; cbn [await];
    (destruct (run readings (presence_cancelled rt)) as [y|] eqn:Er; [intros [= <- _ _]; by eexists _, _|]); [done|].
  intros E. apply bind_Some in E as ([e rt1] & _ & E). apply bind_Some in E as ([[y l] rt2] & E & [= <- _ _]). by eapply IH.
Qed.

(** A turn that serves no CBOR request. *)
Definition no_cbor (t : Turn) (m : machine) : Prop :=
  ∀ ev rt c n, poll_at (tn_ms t) (tn_endpoint t) (mc_runtime m) = Some (ev, rt) → ev ≠ EvCbor c n.
(** What the authenticator of the turn may ask of the driver, whatever its request is. *)
Definition asks (t : Turn) (tr : list (store_op * result FsError store_answer)) : Prop :=
  ∃ payload, makes (tn_authenticator t payload) tr.

Lemma finish_frame build completion (m m' : machine) dropped l :
  finish_cbor build completion m dropped = Ok (m', l) → R (flash_of m) (flash_of m').
Proof.
  unfold finish_cbor. intros E. destruct completion as [[]|]; [|by injection E as <- _..|done].
  destruct (bd_confirm_signed_update build); [|by injection E as <- _].
  unfold confirm_image in E. destruct (ic_confirm_running_image _ _ _) as [[b|] b'] eqn:Ec; [|done].
  injection E as <- _. by eapply confirm_related.
Qed.

Lemma cbor_frame build t (m m' : machine) dropped : cbor_turn build t m = Some (Ok (m', dropped)) →
  ∃ payload tr, loop_work R tr (flash_of m) (flash_of m') ∧ makes (tn_authenticator t payload) tr.
Proof.
  unfold cbor_turn. intros E. apply bind_Some in E as (taken & _ & E). destruct taken as [[payload request]|]; [|done].
  apply bind_Some in E as ([[[[s response] l] c] b] & Ec & E). apply run_call_stored in Ec as (tr & Hst & Htr).
  apply bind_Some in E as ([[completion z] rt'] & _ & [= E]). apply finish_frame in E.
  exists payload, (tr ++ []). split; [|by rewrite app_nil_r].
  eapply (loop_work_trans R); [by apply (stored_work R)|by apply lw_own].
Qed.

Lemma iterate_frame fuel build (e : Environment G) t (m m' : machine) dropped :
  iterate fuel build e t m = Some (Ok (m', dropped)) →
  ∃ tr, loop_work R tr (flash_of m) (flash_of m') ∧ (no_cbor t m → tr = []) ∧ (tr = [] ∨ asks t tr).
Proof.
  unfold iterate. intros E. apply bind_Some in E as ([ev rt] & Ep & E).
  set (m1 := mkMachine _ _ _ _) in E. assert (R (flash_of m) (flash_of m1)) as Hpoll.
  { unfold flash_of, m1. cbn [mc_handlers sh_updater with_updater]. unfold UsbUpdate.poll.
    destruct (uu_session _) as [s|]; [|reflexivity]. destruct (ub_now_ms _) as [now b] eqn:En. simpl. by eapply bf_now. }
  destruct ev as [|c n|c n|c]; [|..|].
  2: { destruct (cbor_frame _ _ _ _ _ E) as (payload & tr & W & Htr). exists tr. split; [by eapply (loop_work_own R)|].
       split; [intros Hno; by destruct (Hno _ _ c n Ep)|right; by exists payload]. }
  all: exists []; split; [apply lw_own|by split; [|left]].
  - by injection E as <- _.
  - etrans; [exact Hpoll|]. unfold update_turn in E. apply bind_Some in E as (taken & _ & E).
    destruct taken as [[payload request]|]; [|done].
    apply bind_Some in E as ([[[[k response] s] l] rt'] & Ew & E). apply await_result in Ew as (readings & cancelled & Er).
    apply bind_Some in E as (r & _ & E). apply bind_Some in E as ([[completion z] rt2] & _ & [= E]).
    destruct completion; [|done]. injection E as <- _. apply (vendor_frame R _ _ _ _ _ _ _ Er).
  - by injection E as <- _.
Qed.

(** A run of turns, and what their authenticators ask, turn by turn. *)
Lemma run_turns_frame fuel build (turns : list (Environment G * Turn)) : ∀ m m' : machine,
  run_turns fuel build turns m = Some (Ok m') →
  ∃ trs, loop_work R (concat trs) (flash_of m) (flash_of m') ∧ Forall2 (λ t tr, tr = [] ∨ asks t tr) turns.*2 trs.
Proof.
  induction turns as [|[e t] turns IH]; intros m m'; cbn [run_turns].
  { intros [= <-]. exists []. split; [by apply lw_own|constructor]. }
  intros E. apply bind_Some in E as ([[m1 l]|p] & E1 & E); [|done].
  destruct (iterate_frame _ _ _ _ _ _ _ E1) as (tr & W1 & _ & Hn), (IH _ _ E) as (trs & W2 & Hns).
  exists (tr :: trs). split; [by eapply (loop_work_trans R)|by constructor].
Qed.
End frame.

(** ** Confirmation on the device *)

Section release.
Context {M : Type} `{RomView M}.
Implicit Types d : Device M.

Lemma confirm_frame version secure_version desc d :
  wp (confirm_running_image version secure_version desc)
    (λ _ d', d' = d ∨ ∃ i, (i = 0 ∨ i = 1) ∧ only_record i d d') d.
Proof.
  apply wp_bind, wp_running_app_offset; [|by left]. intros off _.
  apply wp_bind, wp_bind, wp_read_flash_any; [intros r0 _ _|by left].
  apply wp_bind, wp_read_flash_any; [intros r1 _ _|by left]. apply wp_ret.
  destruct (active_entry _) as [i|] eqn:Ha; [|apply wp_ret; by left].
  destruct (active_entry_spec _ _ Ha) as (Hi & _).
  cbv zeta. destruct (negb _); [apply wp_ret; by left|].
  destruct (slot_offset _) as [app_offset|]; [|apply wp_ret; by left].
  apply wp_bind, wp_read_flash_any; [intros descriptor _ _|by left].
  destruct (negb _); [apply wp_ret; by left|].
  apply wp_bind. eapply wp_mono; [by apply replace_frame, length_encode_with_state|].
  intros [[]|e] d' W; [apply wp_ret|]; right; eauto.
Qed.

Lemma confirm_keeps version secure_version desc d : otadata_ok d →
  wp (confirm_running_image version secure_version desc) (λ r d', ∀ b, r = Ok b → otadata_ok d') d.
Proof.
  intros Ho. apply wp_bind, wp_running_app_offset; [|done]. intros off _.
  apply wp_bind, wp_bind, wp_read_flash_any; [intros r0 _ _|done].
  apply wp_bind, wp_read_flash_any; [intros r1 _ _|done]. apply wp_ret.
  destruct (active_entry _) as [i|] eqn:Ha; [|by apply wp_ret].
  destruct (active_entry_spec _ _ Ha) as (Hi & _).
  cbv zeta. destruct (negb _); [by apply wp_ret|].
  destruct (slot_offset _) as [app_offset|]; [|by apply wp_ret].
  apply wp_bind, wp_read_flash_any; [intros descriptor _ _|done].
  destruct (negb _); [by apply wp_ret|].
  apply wp_bind, wp_replace_and_verify; [done|done|by apply length_encode_with_state|].
  intros d' [[]|e] _ Hr; [apply wp_ret|done]. intros _ _ _. exact (proj1 (Hr eq_refl)).
Qed.

Lemma confirm_ok version secure_version desc d :
  wp (confirm_running_image version secure_version desc)
    (λ r d', match r with Ok _ => otadata_ok d → otadata_ok d' | Err _ => True end) d.
Proof.
  destruct (wp_elim _ _ _ (confirm_frame version secure_version desc d)) as (r & d' & E & _). unfold wp. rewrite E.
  destruct r as [b|]; [|done]. intros Ho.
  by apply (wp_run _ _ _ _ _ E (confirm_keeps version secure_version desc d Ho) b).
Qed.

(** As for the activation, a failure raises the ghost flag. *)
Definition esp_confirm (version : bytes) (secure_version : Z) (b : esp) : result ConfirmError bool * esp :=
  match confirm_running_image version secure_version (eb_descriptor b) (eb_device b) as o
    return match o with
           | Some (Ok _, d') => otadata_ok (eb_device b) → otadata_ok d'
           | Some (Err _, _) => True
           | None => False
           end → result ConfirmError bool * esp with
  | Some (Ok r, d') => λ K, (Ok r, mkEsp d' (eb_descriptor b) (eb_faulted b) (λ hf, K (eb_ok b hf)))
  | Some (Err e, d') => λ _, (Err e, mkEsp d' (eb_descriptor b) true (λ hf, False_rect _ (diff_true_false hf)))
  | None => λ K, False_rect _ K
  end (confirm_ok version secure_version (eb_descriptor b) (eb_device b)).

Lemma esp_confirm_spec version secure_version b r b' : esp_confirm version secure_version b = (r, b') →
  confirm_running_image version secure_version (eb_descriptor b) (eb_device b) = Some (r, eb_device b') ∧
  (eb_device b' = eb_device b ∨ ∃ i, (i = 0 ∨ i = 1) ∧ only_record i (eb_device b) (eb_device b')).
Proof.
  unfold esp_confirm. generalize (confirm_ok version secure_version (eb_descriptor b) (eb_device b)).
  pose proof (confirm_frame version secure_version (eb_descriptor b) (eb_device b)) as W. revert W. unfold wp.
  destruct (confirm_running_image _ _ _ _) as [[[x|e] d']|]; intros W K E; [..|done]; injection E as <- <-; by split.
Qed.

#[export] Instance esp_confirmation : ImageConfirmation (esp (M := M)) := {| ic_confirm_running_image := esp_confirm |}.

#[export] Instance esp_confirmation_view : ConfirmationView (esp (M := M)).
Proof.
  split. intros version secure_version b r b' E s a. change (slots b' s a = slots b s a).
  apply esp_confirm_spec in E as [_ [Hd|(i & Hi & W)]]; [unfold slots; by rewrite Hd|by eapply record_slots].
Qed.
Context (spiflash_read : M → Z → option (list Z)).
#[local] Existing Instance esp_maintenance_flash.

Lemma confirm_kept version secure_version (b : esp (M := M)) r b' :
  ic_confirm_running_image version secure_version b = (r, b') → store_kept b b'.
Proof.
  intros E. apply esp_confirm_spec in E as [_ [Hd|(i & Hi & W)]]; [red; by rewrite Hd|by eapply kept_record].
Qed.

(** ** The driver of the credential store *)

(** An offset that is not a [usize] does not exist in the code; the interface rejects it. *)
Definition store_request (op : store_op) : fs_step (M := M) store_answer :=
  if (0 <=? so_offset op) && (so_offset op <=? U32_MAX) then run_op op else throw FS_IO.

Lemma store_request_wp op d : wp (store_request op) (driver_step op d) d.
Proof.
  unfold store_request. destruct (_ && _) eqn:E; [|apply wp_throw, refused_step].
  bool_to_prop. apply run_op_any. lia.
Qed.

Lemma store_request_ok op d : wp (store_request op) (λ _ d', otadata_ok d → otadata_ok d') d.
Proof.
  unfold store_request. destruct (_ && _) eqn:E; [|by apply wp_throw]. bool_to_prop.
  eapply wp_mono; [apply run_op_any; lia|]. intros r d' S Ho Hi.
  destruct (ds_within _ _ _ _ S) as [->|[Hp W]]; [auto|].
  apply (mutated_apart _ _ _ _ _ _ (mutated_here _ _ _ _ W)); [|apply Ho; by rewrite <- (proj1 W)].
  apply apart_store; [apply otadata_in|done|lia|done].
Qed.

Definition esp_store (op : store_op) (b : esp) : result FsError store_answer * esp :=
  match store_request op (eb_device b) as o
    return match o with Some (_, d') => otadata_ok (eb_device b) → otadata_ok d' | None => False end →
           result FsError store_answer * esp with
  | Some (r, d') => λ K, (r, mkEsp d' (eb_descriptor b) (eb_faulted b) (λ hf, K (eb_ok b hf)))
  | None => λ K, False_rect _ K
  end (store_request_ok op (eb_device b)).

#[export] Instance esp_credentials : CredentialStore (esp (M := M)) := {| cs_run := esp_store |}.

Lemma esp_store_spec op (b : esp (M := M)) r b' : cs_run op b = (r, b') →
  driver_step op (eb_device b) r (eb_device b') ∧ (0 ≤ so_offset op ∨ eb_device b' = eb_device b).
Proof.
  cbn [cs_run esp_credentials]. unfold esp_store. generalize (store_request_ok op (eb_device b)).
  pose proof (store_request_wp op (eb_device b)) as W. revert W. unfold wp.
  destruct (store_request op (eb_device b)) as [[x d']|] eqn:Er; intros W K E; [|done]. injection E as <- <-.
  split; [done|]. cbn [eb_device]. unfold store_request in Er.
  destruct (_ && _) eqn:Ea; [bool_to_prop; left; lia|right]. by injection Er as _ <-.
Qed.

(** The partition of the credential store. *)
Definition credential_area (a : Z) : Prop := FIDO_STORE_OFFSET ≤ a < FLASH_SIZE.

(** The driver changes nothing outside it. *)
Lemma esp_store_outside op (b : esp (M := M)) r b' : cs_run op b = (r, b') →
  ∀ a, ¬ credential_area a →
    flash (dv_rom (eb_device b')) a = flash (dv_rom (eb_device b)) a.
Proof.
  intros E a Ha. destruct (esp_store_spec _ _ _ _ E) as [S Ho].
  destruct (ds_within _ _ _ _ S) as [->|[Hp [_ W]]]; [done|]. destruct Ho as [Ho|Ho]; [|by rewrite Ho].
  apply (wi_flash _ _ _ _ W). unfold credential_area, in_partition, FIDO_STORE_OFFSET, FIDO_STORE_SIZE, FLASH_SIZE in *. lia.
Qed.

#[export] Instance esp_credentials_view : CredentialStoreView (esp (M := M)).
Proof.
  split. intros op b r b' E s a. change (slots b' s a = slots b s a). unfold slots, slot_flash.
  destruct (update_slot_offset s) as [base|] eqn:Eb; [|done]. destruct (_ && _) eqn:Ea; [|done]. bool_to_prop.
  apply (esp_store_outside _ _ _ _ E). apply slot_base in Eb.
  unfold credential_area, FIDO_STORE_OFFSET, FLASH_SIZE, FIDO_STORE_SIZE, OTA_0_OFFSET, OTA_1_OFFSET, OTA_SLOT_SIZE in *. lia.
Qed.

(** ** The partition of the credential store, seen from the authenticator *)

(** The same bytes, and erased where it was. *)
Definition same_nor (n n' : nor) : Prop := ∀ a, 0 ≤ a < FIDO_STORE_SIZE →
  nor_byte n' a = nor_byte n a ∧ (nor_erased n a → nor_erased n' a).

(** A run of the NOR device of [StorageTheorems] with nothing else in between.  Once a write
    or an erase has failed, the cache may be stale and what a read answers is not known. *)
Inductive partition_run : bool → list (store_op * result FsError store_answer) → nor → nor → Prop :=
  | pr_done fresh n n' : same_nor n n' → partition_run fresh [] n n'
  | pr_request (fresh : bool) op r tr n n1 n2 n3 : same_nor n n1 →
      (if fresh then nor_step op n1 r n2 else nor_effect op n1 r n2) →
      partition_run (fresh && negb (stale_after op r)) tr n2 n3 → partition_run fresh ((op, r) :: tr) n n3.

Lemma kept_nor (b b' : esp (M := M)) : store_kept b b' →
  same_nor (nor_of (dv_rom (eb_device b))) (nor_of (dv_rom (eb_device b'))).
Proof.
  intros K a Ha. cbn [nor_of nor_byte nor_erased].
  assert (¬ firmware_area (FIDO_STORE_OFFSET + a)) as Hn
    by (unfold firmware_area, FIDO_STORE_OFFSET, FLASH_SIZE, FIDO_STORE_SIZE in *; lia).
  split; [by apply (ke_flash _ _ K)|by apply (ke_erased _ _ K)].
Qed.

(** The window the store is read through. *)
Definition store_open (b : esp (M := M)) : Prop :=
  dv_initialized (eb_device b) = true → window_ok (dv_rom (eb_device b)) FIDO_STORE_MAPPING.

Lemma kept_open (b b' : esp (M := M)) : store_kept b b' → store_open b → store_open b'.
Proof. intros K O Hi. apply (ke_window _ _ K), O. by rewrite <- (ke_initialized _ _ K). Qed.

Lemma driver_open op r (b b' : esp (M := M)) : driver_step op (eb_device b) r (eb_device b') →
  stale_after op r = false → store_open b → store_open b'.
Proof.
  intros S Hs O Hi. apply (ds_window _ _ _ _ S Hs), O.
  destruct (ds_within _ _ _ _ S) as [Hd|[_ [Hw _]]]; [by rewrite <- Hd|by rewrite <- Hw].
Qed.

Lemma work_partition tr (b b' : esp (M := M)) fresh : loop_work store_kept tr b b' → (fresh = true → store_open b) →
  partition_run fresh tr (nor_of (dv_rom (eb_device b))) (nor_of (dv_rom (eb_device b'))) ∧
  (fresh = true → Forall (λ x, stale_after x.1 x.2 = false) tr → store_open b').
Proof.
  intros W. revert fresh. induction W as [b b' K|op r tr b b1 b2 b3 K E _ IH]; intros fresh O.
  { split; [apply pr_done; by apply kept_nor|]. intros Hf _. eapply kept_open; [done|auto]. }
  destruct (esp_store_spec _ _ _ _ E) as [S _].
  assert (fresh = true → store_open b1) as O1 by (intros Hf; eapply kept_open; [done|auto]).
  destruct (IH (fresh && negb (stale_after op r))) as [P2 O3].
  { intros [-> Hs%negb_true_iff]%andb_true_iff. eapply driver_open; [done..|auto]. }
  split.
  - eapply pr_request; [by apply kept_nor| |exact P2]. destruct fresh; [apply (ds_answer _ _ _ _ S); by apply O1|apply S].
  - intros -> [Hs Hf]%list.Forall_cons. apply O3; [|done]. cbn in Hs. by rewrite Hs.
Qed.

Lemma work_outside tr (b b' : esp (M := M)) : loop_work store_kept tr b b' →
  ∀ a, ¬ firmware_area a → ¬ credential_area a → flash (dv_rom (eb_device b')) a = flash (dv_rom (eb_device b)) a.
Proof.
  intros W a Hf Hc. induction W as [b b' K|op r tr b b1 b2 b3 K E _ IH]; [by apply (ke_flash _ _ K)|].
  rewrite IH, (esp_store_outside _ _ _ _ E) by done. by apply (ke_flash _ _ K).
Qed.

(** What happened to the flash outside the firmware, with the requests [tr] of the
    authenticator. *)
Definition credentials_follow (tr : list (store_op * result FsError store_answer)) (b b' : esp (M := M)) : Prop :=
  let d := eb_device b in let d' := eb_device b' in
  (∀ a, ¬ firmware_area a → ¬ credential_area a → flash (dv_rom d') a = flash (dv_rom d) a) ∧
  partition_run true tr (nor_of (dv_rom d)) (nor_of (dv_rom d')) ∧
  ∀ o len, 0 ≤ o → (0 < len)%nat →
    (Forall (λ x, stale_after x.1 x.2 = false) tr →
       option_map fst (store_read o len d') =
       Some (if (o + Z.of_nat len <=? FIDO_STORE_SIZE) && dv_initialized d'
             then Ok (mem_read (nor_byte (nor_of (dv_rom d'))) o len) else Err FS_IO)) ∧
    (tr = [] → option_map fst (store_read o len d') = option_map fst (store_read o len d)).

Lemma work_follows tr (b b' : esp (M := M)) : loop_work store_kept tr b b' → store_open b → credentials_follow tr b b'.
Proof.
  intros W O. destruct (work_partition tr b b' true W (λ _, O)) as [P O']. split; [by eapply work_outside|]. split; [done|].
  intros o len Ho Hl. split.
  - intros Hf. rewrite store_read_spec by first [done|exact (O' eq_refl Hf)]. cbn [option_map fst nor_byte nor_of].
    by rewrite mem_read_shift.
  - intros ->. apply (store_kept_reads b b'); [by apply loop_work_nil|done..].
Qed.

(** C36: Credentials are changed by the authenticator alone, and only through the block
    driver of their partition.  Through any turn of the main loop, and so any run of
    turns, whatever the host sends and the button does, flash outside the OTA data, the two
    application slots and the credential partition keeps every byte.  The partition goes
    through a run of the NOR device littlefs expects: the requests the authenticator makes
    of the driver, each answered as that device answers, with no change between them, so
    that neither the update session, the vendor requests nor the confirmation of the
    running image touches it.  A turn that serves no CBOR request, or whose authenticator
    makes no request of the driver, leaves every byte of it and every read of it as it
    was; as long as no write or erase of the driver has failed, a read returns the bytes
    of the partition.  The driver in turn reaches nothing but the partition. *)
Theorem credentials_only_by_authenticator `{Sha256} {D G : Type} `{Efuse D} `{Registers G} fuel build :
  (∀ (e : Environment G) t (m m' : Machine (B := esp (M := M)) (D := D)) dropped,
     iterate (H2 := esp_maintenance_flash spiflash_read) fuel build e t m = Some (Ok (m', dropped)) →
     store_open (flash_of m) →
     ∃ tr, credentials_follow tr (flash_of m) (flash_of m') ∧ (no_cbor t m → tr = []) ∧ (tr = [] ∨ asks t tr)) ∧
  (∀ turns (m m' : Machine (B := esp (M := M)) (D := D)),
     run_turns (H2 := esp_maintenance_flash spiflash_read) fuel build turns m = Some (Ok m') →
     store_open (flash_of m) →
     ∃ trs, credentials_follow (concat trs) (flash_of m) (flash_of m') ∧
       Forall2 (λ t tr, tr = [] ∨ asks t tr) turns.*2 trs) ∧
  (∀ op (b : esp (M := M)) r b', cs_run op b = (r, b') →
     ∀ a, ¬ credential_area a → flash (dv_rom (eb_device b')) a = flash (dv_rom (eb_device b)) a).
Proof.
  split_and!.
  - intros e t m m' dropped E O. destruct (iterate_frame store_kept confirm_kept _ _ _ _ _ _ _ E) as (tr & W & Hn).
    exists tr. split; [by apply work_follows|done].
  - intros turns m m' E O. destruct (run_turns_frame store_kept confirm_kept _ _ _ _ _ E) as (trs & W & Hn).
    exists trs. split; [by apply work_follows|done].
  - apply esp_store_outside.
Qed.
End release.

(** ** Witness: an activation, then a request that rewrites a block of the store *)

Definition release_machine : Machine (B := esp (M := model_rom)) (D := efuse_model) :=
  mkMachine (mkUsbRuntime message_engine (Some FlagIdle) 0 false) release_handlers UiIdle (zeros MAX_MESSAGE_SIZE).

(** An authenticator that erases a block of its store and writes the start of it. *)
Definition writing_authenticator (request : bytes) : Call :=
  AccessStore (SO_Erase 0x1000 4096) (λ _, AccessStore (SO_Write 0x1000 (replicate 32 7)) (λ r,
    match r with Ok _ => Finished true [0] | Err _ => Finished false [] end)).
Definition writing_turn : Turn :=
  mkTurn 7 (tn_endpoint (sample_turn Cbor [4])) sample_moments writing_authenticator.
(** A turn in which the host only collects the reply. *)
Definition collecting_turn : Turn := mkTurn 7 (mkEndpoint true (Err WouldBlock) (Ok 64%nat)) sample_moments writing_authenticator.
Definition release_turns : list (Environment pms * Turn) :=
  (release_environment,.) <$> [sample_turn Update (advance_request 1); collecting_turn; writing_turn].
Abbreviation release_run :=
  (run_turns (H2 := esp_maintenance_flash (λ _ _, None)) 1 sample_build release_turns release_machine).

(** The first turn activates the other slot and leaves the store; the run rewrites a block
    of it, and is a run of the device the authenticator sees. *)
Lemma credentials_only_by_authenticator_witness :
  (∃ m1 dropped, iterate (H2 := esp_maintenance_flash (λ _ _, None)) 1 sample_build release_environment
       (sample_turn Update (advance_request 1)) release_machine = Some (Ok (m1, dropped)) ∧
     boots (records_of (eb_device (flash_of m1))) = Some OTA_1_OFFSET ∧
     option_map fst (store_read 0x1000 32 (eb_device (flash_of m1))) =
       option_map fst (store_read 0x1000 32 (eb_device (flash_of release_machine)))) ∧
  (∃ m' trs, release_run = Some (Ok m') ∧ credentials_follow (concat trs) (flash_of release_machine) (flash_of m') ∧
     option_map fst (store_read 0x1000 32 (eb_device (flash_of m'))) = Some (Ok (replicate 32 7))).
Proof.
  destruct (credentials_only_by_authenticator (M := model_rom) (λ _ _, None) (D := efuse_model) (G := pms) 1 sample_build)
    as (Hturn & Hrun & _).
  assert (store_open (flash_of release_machine)) as O.
  { intros _. apply store_window; [apply release_windows|reflexivity]. }
  split.
  - assert (Hx : match iterate (H2 := esp_maintenance_flash (λ _ _, None)) 1 sample_build release_environment
        (sample_turn Update (advance_request 1)) release_machine with
      | Some (Ok (m1, _)) => bool_decide (boots (records_of (eb_device (flash_of m1))) = Some OTA_1_OFFSET)
      | _ => false end = true) by (vm_compute; reflexivity).
    destruct (iterate _ _ _ _ _) as [[[m1 dropped]|p]|] eqn:E; [|discriminate Hx..].
    destruct (Hturn _ _ _ _ _ E O) as (tr & (_ & _ & Hr) & Hno & _).
    exists m1, dropped. split; [reflexivity|]. split; [exact (proj1 (bool_decide_eq_true _) Hx)|].
    apply (Hr 0x1000 32%nat); [done|apply Nat.ltb_lt; reflexivity|]. apply Hno. intros ev rt c n Ep.
    assert (Hp : option_map fst (poll_at 7 (tn_endpoint (sample_turn Update (advance_request 1))) (mc_runtime release_machine)) =
      Some (EvUpdate 1 5)) by (vm_compute; reflexivity).
    change (poll_at (tn_ms _) _ _) with (poll_at 7 (tn_endpoint (sample_turn Update (advance_request 1))) (mc_runtime release_machine)) in Ep.
    rewrite Ep in Hp. injection Hp as ->. discriminate.
  - assert (Hx : match release_run with
      | Some (Ok m') => bool_decide (option_map fst (store_read 0x1000 32 (eb_device (flash_of m'))) = Some (Ok (replicate 32 7)))
      | _ => false end = true) by (vm_compute; reflexivity).
    destruct (run_turns _ _ _ _) as [[m'|p]|] eqn:E; [|discriminate Hx..].
    destruct (Hrun _ _ _ E O) as (trs & Hf & _). exists m', trs. split; [reflexivity|]. split; [exact Hf|].
    exact (proj1 (bool_decide_eq_true _) Hx).
Defined.
