(* ===== verification/FidoClient.v ===== *)
(** * The Trussed client of the authenticator

    What [src/third_party/fido-authenticator] calls: the requests of [trussed-core], one
    constructor each, and the pure functions of [ctap-types], [subtle], [cosey] and
    [cbor-smol].  [syscall!] and [try_syscall!] are macros of
    [src/third_party/trussed-core/src/client.rs]: the first panics on an error reply, the
    second returns it. *)

From stdpp Require Import base tactics numbers list option strings.
From S2P Require Import Prelude Interfaces.

(** ** Types of the crates *)

(** [KeyId], [Id(u128)] in [trussed-core]. *)
Abbreviation KeyId := Z.

Inductive Location := Volatile | Internal.
Inductive Mechanism := Chacha8Poly1305 | Aes256Gcm.
Inductive ConsentError := ConsentTimedOut | ConsentInterrupted | ConsentOther.

#[export] Instance Location_eq_dec : EqDecision Location.
Proof. solve_decision. Defined.

(** [trussed-core::config], without ML-DSA. *)
Definition MAX_MESSAGE_LENGTH : nat := 1024.
Definition MAX_MEDIUM_DATA_LENGTH : nat := 256.

(** The constructors of [ctap_types::Error] the modelled code returns. *)
Inductive CtapError :=
  | InvalidParameter | InvalidLength | MissingParameter | NotAllowed | Other
  | PinInvalid | PinBlocked | PinAuthInvalid | PinAuthBlocked | PinNotSet | PinRequired
  | PinPolicyViolation | UnauthorizedPermission | InvalidOption | KeyStoreFull
  | UserActionTimeout | KeepaliveCancel | OperationDenied | LimitExceeded.

#[export] Instance CtapError_eq_dec : EqDecision CtapError.
Proof. solve_decision. Defined.

(** Constants and pure functions of the crates.  [Permissions] is a set of bits. *)
Class FidoCrates := {
  MAKE_CREDENTIAL : Z;
  GET_ASSERTION : Z;
  CREDENTIAL_MANAGEMENT : Z;
  BIO_ENROLLMENT : Z;
  LARGE_BLOB_WRITE : Z;
  AUTHENTICATOR_CONFIGURATION : Z;
  DEFAULT_MIN_PIN_LENGTH : Z;
  MAX_PIN_LENGTH : nat;
  MAX_RP_ID_LENGTH : nat;
  MAX_MIN_PIN_LENGTH_RP_IDS : nat;
  ct_eq : bytes → bytes → bool;
  EcdhEsHkdf256PublicKey : Type;
  cose_serialize : EcdhEsHkdf256PublicKey → option bytes;
  cose_deserialize : bytes → option EcdhEsHkdf256PublicKey;
}.

(** [Permissions::all()], [contains], [intersects], [from_bits_truncate]. *)
Definition permission_bits `{FidoCrates} : list Z :=
  [MAKE_CREDENTIAL; GET_ASSERTION; CREDENTIAL_MANAGEMENT; BIO_ENROLLMENT; LARGE_BLOB_WRITE;
   AUTHENTICATOR_CONFIGURATION].
Definition all_permissions `{FidoCrates} : Z := foldr Z.lor 0 permission_bits.
Definition from_bits_truncate `{FidoCrates} (bits : Z) : Z := Z.land bits all_permissions.
Definition contains (p q : Z) : bool := Z.land p q =? q.
Definition intersects (p q : Z) : bool := negb (Z.land p q =? 0).

(** The flags are single bits, all different; [ct_eq] of [subtle] is equality; the limits
    are those of CTAP 2.1, sections 6.5.1 and 6.5.5.3. *)
Class FidoCratesView `{FidoCrates} := {
  permission_exponents : list nat;
  permission_bits_eq : permission_bits = (λ k, 2 ^ Z.of_nat k) <$> permission_exponents;
  permission_exponents_NoDup : NoDup permission_exponents;
  ct_eq_true : ∀ a b, ct_eq a b = true ↔ a = b;
  pin_length_limits : 0 < DEFAULT_MIN_PIN_LENGTH ≤ Z.of_nat MAX_PIN_LENGTH ∧ (MAX_PIN_LENGTH < 64)%nat;
}.

(** ** The requests *)

(** The requests of [trussed_core::api] the authenticator makes, with the part of each
    reply it reads.  Files are in [Location::Internal]. *)
Inductive request : Type → Type :=
  | Uptime : request Z
  | ConfirmUserPresent (strong : bool) (timeout_milliseconds : Z) : request (result ConsentError unit)
  | DeleteKey (key : KeyId) : request bool
  | DeleteAllKeys (location : Location) : request unit
  | GenerateSecretKey (size : nat) : request KeyId
  | GenerateKey (mechanism : Mechanism) : request KeyId
  | GenerateP256PrivateKey : request KeyId
  | DeriveP256PublicKey (key : KeyId) : request KeyId
  | SerializeP256 (key : KeyId) : request bytes
  | DeserializeP256Key (serialized : bytes) : request KeyId
  | Agree (private_key public_key : KeyId) : request KeyId
  | DeriveKeySha256 (key : KeyId) : request KeyId
  | HkdfExtract (ikm : KeyId) : request KeyId
  | HkdfExpand (okm : KeyId) (info : bytes) (length : nat) : request KeyId
  | SignHmacSha256 (key : KeyId) (data : bytes) : request bytes
  | HashSha256 (data : bytes) : request bytes
  | RandomBytes (count : nat) : request bytes
  | EncryptCbc (key : KeyId) (message iv : bytes) : request bytes
  | WrapKeyCbc (wrapping_key key : KeyId) (iv : bytes) : request bytes
  | DecryptCbc (key : KeyId) (message iv : bytes) : request (option bytes)
  | EntryMetadata (path : string) : request bool
  | ReadFile (path : string) : request bytes
  | WriteFile (path : string) (data : bytes) : request unit
  | RemoveFile (path : string) : request unit
  | RenameFile (from to : string) : request unit
  | RemoveDirAll (path : string) : request unit.

(** A client answers a request with a reply, or with an error. *)
Class FidoClient (T : Type) := tc_call : ∀ {A}, request A → T → option A * T.

(** The files a request may change, and the keys it may remove. *)
Definition touches {A} (r : request A) (p : string) : bool :=
  match r with
  | WriteFile q _ | RemoveFile q => bool_decide (p = q)
  | RenameFile q q' => bool_decide (p = q) || bool_decide (p = q')
  | RemoveDirAll dir => String.prefix (dir +:+ "/") p
  | _ => false
  end.
Definition removes {A} (r : request A) (k : KeyId) : bool :=
  match r with
  | DeleteKey k' => bool_decide (k = k')
  | DeleteAllKeys _ => true
  | _ => false
  end.

(** Requests that leave a key behind. *)
Definition makes_key {A} (r : request A) : bool :=
  match r with
  | GenerateSecretKey _ | GenerateKey _ | GenerateP256PrivateKey | DeriveP256PublicKey _ | DeserializeP256Key _
  | Agree _ _ | DeriveKeySha256 _ | HkdfExtract _ | HkdfExpand _ _ _ => true
  | _ => false
  end.

(** What the code relies on.  The store holds files and keys; a read returns the contents,
    and a request changes only the files and keys it names.  A write, a removal or a
    renaming that reports an error may have happened.  A deletion that answers
    [success: true] removed the key; one that answers [success: false] found none, or
    failed to remove it, or removed it and failed after that. *)
Class FidoClientView (T : Type) `{FidoClient T} := {
  tc_file : T → string → option bytes;
  tc_key : T → KeyId → Prop;
  tc_frame : ∀ A (r : request A) t a t' p, tc_call r t = (a, t') → touches r p = false →
    tc_file t' p = tc_file t p;
  tc_key_frame : ∀ A (r : request A) t a t' k, tc_call r t = (a, t') → removes r k = false →
    tc_key t k → tc_key t' k;
  tc_key_back : ∀ A (r : request A) t a t' k, tc_call r t = (a, t') → makes_key r = false →
    tc_key t' k → tc_key t k;
  tc_read : ∀ t p d t', tc_call (ReadFile p) t = (Some d, t') → tc_file t p = Some d;
  tc_metadata : ∀ t p b t', tc_call (EntryMetadata p) t = (Some b, t') → b = bool_decide (is_Some (tc_file t p));
  tc_write_Some : ∀ t p d t', tc_call (WriteFile p d) t = (Some tt, t') → tc_file t' p = Some d;
  tc_write_None : ∀ t p d t', tc_call (WriteFile p d) t = (None, t') →
    tc_file t' p = tc_file t p ∨ tc_file t' p = Some d;
  tc_remove_Some : ∀ t p t', tc_call (RemoveFile p) t = (Some tt, t') → tc_file t' p = None;
  tc_remove_None : ∀ t p t', tc_call (RemoveFile p) t = (None, t') →
    tc_file t' p = tc_file t p ∨ tc_file t' p = None;
  tc_rename_Some : ∀ t p q t', tc_call (RenameFile p q) t = (Some tt, t') → p ≠ q →
    is_Some (tc_file t p) ∧ tc_file t' p = None ∧ tc_file t' q = tc_file t p;
  tc_rename_None : ∀ t p q t', tc_call (RenameFile p q) t = (None, t') → p ≠ q →
    tc_file t' p = tc_file t p ∧ tc_file t' q = tc_file t q ∨
    is_Some (tc_file t p) ∧ tc_file t' p = None ∧ tc_file t' q = tc_file t p;
  tc_delete : ∀ t k t', tc_call (DeleteKey k) t = (Some true, t') → ¬ tc_key t' k;
  tc_random_bytes : ∀ t n d t', tc_call (RandomBytes n) t = (Some d, t') → length d = n ∧ Forall is_byte d;
}.

(** ** The macros *)

Section macros.
Context {T : Type} `{FidoClient T}.

(** A step that works on a client, with an authenticator error. *)
Definition f_step : Type → Type := step T CtapError.

(** [syscall!(..)], and [try_syscall!(..).map_err(|_| error)?]. *)
Definition syscall {A} (r : request A) : f_step A := λ t,
  match tc_call r t with
  | (Some a, t) => Some (Ok a, t)
  | (None, _) => None
  end.
Definition try_syscall {A} (r : request A) (error : CtapError) : f_step A := call_or (tc_call r) error.

(** [try_syscall!(..).ok()]. *)
Definition ok_syscall {A} (r : request A) : f_step (option A) := call (tc_call r).
End macros.

(** ** Rules for requests *)

Section frames.
Context {T : Type} `{FidoClientView T}.

Lemma wp_try_syscall {A} (r : request A) e (Q : result CtapError A → T → Prop) t :
  (∀ a t', tc_call r t = (Some a, t') → Q (Ok a) t') → (∀ t', tc_call r t = (None, t') → Q (Err e) t') →
  wp (try_syscall r e) Q t.
Proof. apply wp_call_or. Qed.

Lemma wp_ok_syscall {A} (r : request A) (Q : result CtapError (option A) → T → Prop) t :
  (∀ a t', tc_call r t = (a, t') → Q (Ok a) t') → wp (ok_syscall r) Q t.
Proof. apply wp_call. Qed.
End frames.

(** A request that changes no file and no key. *)
Definition quiet {A} (r : request A) : Prop :=
  (∀ p, touches r p = false) ∧ (∀ k, removes r k = false) ∧ makes_key r = false.
Definition same_store {T} `{FidoClientView T} (t t' : T) : Prop :=
  (∀ p, tc_file t' p = tc_file t p) ∧ (∀ k, tc_key t' k ↔ tc_key t k).

Section quiet.
Context {T : Type} `{FidoClientView T}.

#[export] Instance same_store_preorder : PreOrder (same_store (T := T)).
Proof. split; [by split|]. intros t1 t2 t3 [F1 K1] [F2 K2]. split; intros; by rewrite ?F2, ?K2. Qed.

Lemma wp_quiet {A} (r : request A) e (Q : result CtapError A → T → Prop) t : quiet r →
  (∀ a t', same_store t t' → tc_call r t = (Some a, t') → Q (Ok a) t') → (∀ t', same_store t t' → Q (Err e) t') →
  wp (try_syscall r e) Q t.
Proof.
  intros (Ht & Hr & Hm) HS HN.
  assert (∀ a t', tc_call r t = (a, t') → same_store t t') as Hs.
  { intros a t' K. split; [intros p; by eapply tc_frame|].
    intros k. split; [by eapply tc_key_back|by eapply tc_key_frame]. }
  apply wp_try_syscall; intros; eauto.
Qed.

Lemma wp_metadata p e (Q : result CtapError bool → T → Prop) t :
  (∀ t', same_store t t' → Q (Ok (bool_decide (is_Some (tc_file t p)))) t') →
  (∀ t', same_store t t' → Q (Err e) t') → wp (try_syscall (EntryMetadata p) e) Q t.
Proof.
  intros HS HN. apply wp_quiet; [done|intros b t' S K|done]. rewrite (tc_metadata _ _ _ _ K). by apply HS.
Qed.

Lemma wp_read_file p e (Q : result CtapError bytes → T → Prop) t :
  (∀ d t', same_store t t' → tc_file t p = Some d → Q (Ok d) t') →
  (∀ t', same_store t t' → Q (Err e) t') → wp (try_syscall (ReadFile p) e) Q t.
Proof. intros HS HN. apply wp_quiet; [done|intros d t' S K|done]. eapply HS; [done|]. by eapply tc_read. Qed.
End quiet.

(** [cbor_serialize_to] a buffer of [capacity] bytes. *)
Definition fit (capacity : nat) (encoded : option bytes) : option bytes :=
  data ← encoded; if (length data <=? capacity)%nat then Some data else None.

(** ** Steps on a part of the state *)

Definition zoom {S S' E A} (get : S → S') (set : S' → S → S) (c : step S' E A) : step S E A := λ s,
  match c (get s) with
  | Some (r, s') => Some (r, set s' s)
  | None => None
  end.

Section zoom.
Context {S S' E : Type} (get : S → S') (set : S' → S → S).

Lemma wp_zoom {A} (c : step S' E A) (Q : result E A → S → Prop) s :
  wp c (λ r s', Q r (set s' s)) (get s) → wp (zoom get set c) Q s.
Proof. unfold wp, zoom. destruct (c (get s)) as [[r s']|]; done. Qed.

Lemma preserves_zoom {A} (R : S → S → Prop) (R' : S' → S' → Prop) (c : step S' E A) :
  (∀ s s', R' (get s) s' → R s (set s' s)) → preserves R' c → preserves R (zoom get set c).
Proof.
  intros HR Hc s r s1. unfold zoom. destruct (c (get s)) as [[r' s']|] eqn:Ec; [|done].
  intros [= <- <-]. eapply HR, Hc, Ec.
Qed.

Lemma zoom_run {A} (c : step S' E A) s r s1 : zoom get set c s = Some (r, s1) →
  ∃ s', c (get s) = Some (r, s') ∧ s1 = set s' s.
Proof. unfold zoom. destruct (c (get s)) as [[r' s']|]; [intros [= <- <-]; eauto|done]. Qed.
End zoom.

(** A component beside its client. *)
Definition on_client {S T E A} (c : step T E A) : step (S * T) E A :=
  zoom snd (λ t s, (fst s, t)) c.

(** [x = value]. *)
Definition assign {S T E} (f : S → S) : step (S * T) E unit := modify (λ s, (f (fst s), snd s)).
Definition field {S T E A} (f : S → A) : step (S * T) E A := s ← get_state; mret (f (fst s)).

Lemma wp_field {S T E A} (f : S → A) (Q : result E A → S * T → Prop) s : Q (Ok (f (fst s))) s → wp (field f) Q s.
Proof. done. Qed.
