(* ===== verification/PinToken.v ===== *)
(** * PIN/UV tokens

    [src/third_party/fido-authenticator/src/ctap2/pin.rs]: the token with its timers,
    permissions and relying party, the two token slots, and the PIN/UV protocols on the
    Trussed client.  A [Duration] is a number of nanoseconds. *)

From stdpp Require Import base tactics numbers list option strings.
From S2P Require Import Prelude Interfaces FidoClient.

Definition PIN_TOKEN_LENGTH : nat := 32.
Definition INITIAL_USAGE_LIMIT : Z := 30 * 10 ^ 9.
Definition MAX_USAGE_PERIOD : Z := 600 * 10 ^ 9.

Inductive PinProtocolVersion := V1 | V2.

#[export] Instance PinProtocolVersion_eq_dec : EqDecision PinProtocolVersion.
Proof. solve_decision. Defined.

Definition PinProtocolVersion_u8 (version : PinProtocolVersion) : Z :=
  match version with V1 => 1 | V2 => 2 end.

(** [String<256>]: a UTF-8 string of at most 256 bytes. *)
Definition String256_try_from (id : bytes) : option bytes :=
  if (length id <=? 256)%nat then Some id else None.

(** [RpScope<'a>]. *)
Inductive RpScope :=
  | ScopeAll
  | ScopeRpId (id : bytes)
  | ScopeRpIdHash (hash : bytes).

Record Rp := mkRp { rp_name : bytes; rp_hash : bytes }.

Record PinTokenState := mkPinTokenState {
  permissions : Z;
  rp : option Rp;
  is_user_present : bool;
  is_user_verified : bool;
  is_in_use : bool;
  issued_at : option Z;
  last_observed : Z;
  has_been_used : bool;
}.

(** [PinTokenState::default()]. *)
Definition PinTokenState_default : PinTokenState :=
  mkPinTokenState 0 None false false false None 0 false.

Record PinToken := mkPinToken { key_id : KeyId; token_state : PinTokenState }.

Definition on_token_state (f : PinTokenState → PinTokenState) (token : PinToken) : PinToken :=
  mkPinToken (key_id token) (f (token_state token)).

(** ** The timer of a token *)

(** [now.checked_sub(issued)]. *)
Definition Duration_checked_sub (now issued : Z) : option Z :=
  if issued <=? now then Some (now - issued) else None.

Definition observe (now : Z) (s : PinTokenState) : PinTokenState :=
  let elapsed := issued ← issued_at s; Duration_checked_sub now issued in
  if negb (is_in_use s)
     || (now <? last_observed s)
     || match elapsed with
        | None => true
        | Some elapsed =>
            (MAX_USAGE_PERIOD <=? elapsed)
            || (negb (has_been_used s) && (INITIAL_USAGE_LIMIT <=? elapsed))
        end
  then PinTokenState_default
  else mkPinTokenState (permissions s) (rp s) false (is_user_verified s) (is_in_use s)
         (issued_at s) now (has_been_used s).

(** ** What a token allows

    The methods of [PinToken] as steps on the token. *)

Section token.
Context `{FidoCrates, Sha256}.

Definition require_permissions (requested : Z) : step PinToken CtapError unit :=
  token ← get_state;
  if is_in_use (token_state token) && contains (permissions (token_state token)) requested
  then mret tt else throw PinAuthInvalid.

Definition is_valid_for_rp (token : PinToken) (scope : RpScope) : bool :=
  match rp (token_state token) with
  | Some rp =>
      match scope with
      | ScopeAll => false
      | ScopeRpId id => bytes_eqb (rp_name rp) id
      | ScopeRpIdHash hash => bytes_eqb (rp_hash rp) hash
      end
  | None => true
  end.

Definition require_valid_for_rp (scope : RpScope) : step PinToken CtapError unit :=
  token ← get_state;
  if is_in_use (token_state token) && is_valid_for_rp token scope
  then mret tt else throw PinAuthInvalid.

Definition mark_used : step PinToken CtapError unit :=
  modify (on_token_state (λ s, mkPinTokenState (permissions s) (rp s) (is_user_present s)
    (is_user_verified s) (is_in_use s) (issued_at s) (last_observed s) true)).

Definition require_user_verified : step PinToken CtapError unit :=
  token ← get_state;
  if is_in_use (token_state token) && is_user_verified (token_state token)
  then mret tt else throw PinAuthInvalid.

Definition with_rp (r : option Rp) : PinToken → PinToken :=
  on_token_state (λ s, mkPinTokenState (permissions s) r (is_user_present s) (is_user_verified s)
    (is_in_use s) (issued_at s) (last_observed s) (has_been_used s)).

Definition bind_rp_if_unset (id : bytes) : step PinToken CtapError unit :=
  token ← get_state;
  match rp (token_state token) with
  | None =>
      name ← ok_or (String256_try_from id) InvalidParameter;
      modify (with_rp (Some (mkRp name (sha256 id))))
  | Some _ => mret tt
  end;;
  require_valid_for_rp (ScopeRpId id).
End token.

(** ** The protocol state *)

(** [enum SharedSecret]. *)
Inductive SharedSecret :=
  | SS_V1 (key_id : KeyId)
  | SS_V2 (hmac_key_id aes_key_id : KeyId).

Record PinProtocolState := mkPinProtocolState {
  key_agreement_key : KeyId;
  shared_secret_slot : option SharedSecret;
  pin_token_v1 : option PinToken;
  pin_token_v2 : option PinToken;
}.

(** [pin_token(&self)], and the slot it borrows. *)
Definition pin_token (version : PinProtocolVersion) (s : PinProtocolState) : option PinToken :=
  match version with V1 => pin_token_v1 s | V2 => pin_token_v2 s end.
Definition set_pin_token (version : PinProtocolVersion) (token : option PinToken) (s : PinProtocolState)
  : PinProtocolState :=
  match version with
  | V1 => mkPinProtocolState (key_agreement_key s) (shared_secret_slot s) token (pin_token_v2 s)
  | V2 => mkPinProtocolState (key_agreement_key s) (shared_secret_slot s) (pin_token_v1 s) token
  end.
Definition set_shared_secret (secret : option SharedSecret) (s : PinProtocolState) : PinProtocolState :=
  mkPinProtocolState (key_agreement_key s) secret (pin_token_v1 s) (pin_token_v2 s).
Definition set_key_agreement_key (key : KeyId) (s : PinProtocolState) : PinProtocolState :=
  mkPinProtocolState key (shared_secret_slot s) (pin_token_v1 s) (pin_token_v2 s).

Section shared_secret.
Context {T : Type} `{FidoClient T}.

Definition aes_key_id (secret : SharedSecret) : KeyId :=
  match secret with SS_V1 key_id => key_id | SS_V2 _ aes => aes end.
Definition hmac_key_id (secret : SharedSecret) : KeyId :=
  match secret with SS_V1 key_id => key_id | SS_V2 hmac _ => hmac end.

Definition generate_iv (secret : SharedSecret) : f_step (T := T) bytes :=
  match secret with
  | SS_V1 _ => mret (zeros 16)
  | SS_V2 _ _ => syscall (RandomBytes 16)
  end.

(** The IV in front of the ciphertext, where [resize_zero] may run out of capacity. *)
Definition prepend_iv (secret : SharedSecret) (iv ciphertext : bytes) : f_step (T := T) bytes :=
  match secret with
  | SS_V1 _ => mret ciphertext
  | SS_V2 _ _ =>
      assert_that (length iv + length ciphertext <=? MAX_MESSAGE_LENGTH)%nat;;
      mret (iv ++ ciphertext)
  end.

Definition encrypt (secret : SharedSecret) (data : bytes) : f_step (T := T) bytes :=
  iv ← generate_iv secret;
  ciphertext ← syscall (EncryptCbc (aes_key_id secret) data iv);
  prepend_iv secret iv ciphertext.

Definition wrap (secret : SharedSecret) (key : KeyId) : f_step (T := T) bytes :=
  iv ← generate_iv secret;
  wrapped_key ← syscall (WrapKeyCbc (aes_key_id secret) key iv);
  prepend_iv secret iv wrapped_key.

Definition decrypt (secret : SharedSecret) (data : bytes) : f_step (T := T) (option bytes) :=
  let decrypt_from iv data :=
    reply ← ok_syscall (DecryptCbc (aes_key_id secret) data iv);
    mret (reply ≫= id) in
  match secret with
  | SS_V1 _ => decrypt_from [] data
  | SS_V2 _ _ =>
      if (length data <? 16)%nat then mret None
      else decrypt_from (take 16 data) (drop 16 data)
  end.

Definition delete_secret (secret : SharedSecret) : f_step (T := T) unit :=
  match secret with
  | SS_V1 key_id => syscall (DeleteKey key_id);; mret tt
  | SS_V2 hmac aes => syscall (DeleteKey hmac);; syscall (DeleteKey aes);; mret tt
  end.
End shared_secret.

Section protocol.
Context {T : Type} `{FidoCrates, Sha256, FidoClient T}.

(** The protocol beside the client. *)
Definition t_step : Type → Type := step (PinProtocolState * T) CtapError.
Definition client {A} (c : f_step (T := T) A) : t_step A := on_client c.

Definition generate_key_agreement_key : f_step (T := T) KeyId := syscall GenerateP256PrivateKey.

Definition PinProtocolState_new : f_step (T := T) PinProtocolState :=
  key ← generate_key_agreement_key;
  mret (mkPinProtocolState key None None None).

Definition delete_token (token : PinToken) : f_step (T := T) unit :=
  syscall (DeleteKey (key_id token));; mret tt.

Definition delete_option {X} (delete : X → f_step (T := T) unit) (o : option X) : f_step (T := T) unit :=
  match o with Some x => delete x | None => mret tt end.

Definition PinProtocolState_reset (s : PinProtocolState) : f_step (T := T) unit :=
  delete_option delete_token (pin_token_v1 s);;
  delete_option delete_token (pin_token_v2 s);;
  syscall (DeleteKey (key_agreement_key s));;
  delete_option delete_secret (shared_secret_slot s).

(** [for slot in [&mut self.pin_token_v1, &mut self.pin_token_v2]]. *)
Definition observe_slot (now : Z) (version : PinProtocolVersion) : t_step bool :=
  slot ← field (pin_token version);
  match slot with
  | None => mret false
  | Some token =>
      let token := on_token_state (observe now) token in
      assign (set_pin_token version (Some token));;
      if negb (is_in_use (token_state token)) then
        assign (set_pin_token version None);;
        client (delete_token token);;
        mret true
      else mret false
  end.
Definition state_observe_usage_timer (now : Z) : t_step bool :=
  expired1 ← observe_slot now V1;
  expired2 ← observe_slot now V2;
  mret (expired1 || expired2).

Definition reset_slot (version : PinProtocolVersion) : t_step unit :=
  slot ← field (pin_token version);
  assign (set_pin_token version None);;
  client (delete_option delete_token slot).
Definition reset_pin_tokens : t_step unit := reset_slot V1;; reset_slot V2.

Definition consume_token (token : PinToken) : PinToken :=
  on_token_state (λ s, mkPinTokenState (Z.land (permissions s) LARGE_BLOB_WRITE) (rp s) false false
    (is_in_use s) (issued_at s) (last_observed s) (has_been_used s)) token.
Definition consume_user_presence (s : PinProtocolState) : PinProtocolState :=
  mkPinProtocolState (key_agreement_key s) (shared_secret_slot s)
    (consume_token <$> pin_token_v1 s) (consume_token <$> pin_token_v2 s).

(** ** [impl PinProtocol]: [version] is the protocol the platform selected *)

Definition observe_usage_timer : t_step unit :=
  now ← client (ok_syscall Uptime);
  match now with
  | Some now => state_observe_usage_timer now;; mret tt
  | None => reset_pin_tokens;; throw PinAuthInvalid
  end.

Definition regenerate : t_step unit :=
  key ← field key_agreement_key;
  client (syscall (DeleteKey key));;
  secret ← field shared_secret_slot;
  assign (set_shared_secret None);;
  client (delete_option delete_secret secret);;
  key ← client generate_key_agreement_key;
  assign (set_key_agreement_key key).

Definition fresh_token (now : Z) (key : KeyId) : PinToken :=
  mkPinToken key (mkPinTokenState 0 None false true true (Some now) now false).

Definition begin_using_pin_token (version : PinProtocolVersion) : t_step unit :=
  now ← client (try_syscall Uptime Other);
  key ← client (syscall (GenerateSecretKey PIN_TOKEN_LENGTH));
  assign (set_pin_token version (Some (fresh_token now key))).

Definition reset_and_begin_using_pin_token (version : PinProtocolVersion) : t_step unit :=
  reset_pin_tokens;;
  begin_using_pin_token version.

(** A method of the token in the slot, which the source borrows. *)
Definition with_token {A} (version : PinProtocolVersion) (c : step PinToken CtapError A) : t_step A := λ s,
  match pin_token version (fst s) with
  | None => None
  | Some token =>
      match c token with
      | Some (r, token) => Some (r, (set_pin_token version (Some token) (fst s), snd s))
      | None => None
      end
  end.

(** [impl PinTokenMut]. *)
Definition Rp_new (id : bytes) : f_step (T := T) Rp :=
  assert_that (length id <=? MAX_MESSAGE_LENGTH)%nat;;
  hash ← syscall (HashSha256 id);
  assert_that (length hash =? 32)%nat;;
  mret (mkRp id hash).

Definition restrict (version : PinProtocolVersion) (granted : Z) (rp_id : option bytes) : t_step unit :=
  with_token version (modify (on_token_state (λ s, mkPinTokenState granted (rp s) (is_user_present s)
    (is_user_verified s) (is_in_use s) (issued_at s) (last_observed s) (has_been_used s))));;
  rp ← match rp_id with
       | Some id => rp ← client (Rp_new id); mret (Some rp)
       | None => mret None
       end;
  with_token version (modify (with_rp rp)).

Definition encrypt_token (version : PinProtocolVersion) (secret : SharedSecret) : t_step bytes :=
  slot ← field (pin_token version);
  token ← checked slot;
  wrapped ← client (wrap secret (key_id token));
  if (length wrapped <=? 48)%nat then mret wrapped else throw Other.

Definition key_agreement_public_key : t_step EcdhEsHkdf256PublicKey :=
  key ← field key_agreement_key;
  public_key ← client (syscall (DeriveP256PublicKey key));
  serialized_cose_key ← client (syscall (SerializeP256 public_key));
  cose_key ← checked (cose_deserialize serialized_cose_key);
  client (syscall (DeleteKey public_key));;
  mret cose_key.

Definition verify (version : PinProtocolVersion) (key : KeyId) (data signature : bytes) : t_step bool :=
  actual_signature ← client (syscall (SignHmacSha256 key data));
  expected_signature ←
    match version with
    | V1 => assert_that (16 <=? length actual_signature)%nat;; mret (take 16 actual_signature)
    | V2 => mret actual_signature
    end;
  mret (ct_eq expected_signature signature).

Definition verify_pin_token (version : PinProtocolVersion) (data signature : bytes) : t_step unit :=
  observe_usage_timer;;
  slot ← field (pin_token version);
  token ← ok_or slot PinAuthInvalid;
  if is_in_use (token_state token) then
    valid ← verify version (key_id token) data signature;
    if valid : bool then mret tt else throw PinAuthInvalid
  else throw PinAuthInvalid.

Definition verify_pin_auth (version : PinProtocolVersion) (secret : SharedSecret) (data pin_auth : bytes)
  : t_step unit :=
  valid ← verify version (hmac_key_id secret) data pin_auth;
  if valid : bool then mret tt else throw PinAuthInvalid.

(** ** The shared secret *)

Definition kdf_v1 (input : KeyId) : f_step (T := T) (option SharedSecret) :=
  key ← syscall (DeriveKeySha256 input);
  mret (Some (SS_V1 key)).

Definition hkdf_info (s : string) : bytes := ascii_bytes s.

Definition kdf_v2 (input : KeyId) : f_step (T := T) (option SharedSecret) :=
  okm ← ok_syscall (HkdfExtract input);
  match okm with
  | None => mret None
  | Some okm =>
      hmac ← ok_syscall (HkdfExpand okm (hkdf_info "CTAP2 HMAC key") 32);
      aes ← ok_syscall (HkdfExpand okm (hkdf_info "CTAP2 AES key") 32);
      syscall (DeleteKey okm);;
      mret (hmac ← hmac; aes ← aes; Some (SS_V2 hmac aes))
  end.

Definition kdf (version : PinProtocolVersion) (input : KeyId) : f_step (T := T) (option SharedSecret) :=
  match version with V1 => kdf_v1 input | V2 => kdf_v2 input end.

Definition shared_secret_impl (version : PinProtocolVersion) (peer_key : EcdhEsHkdf256PublicKey)
  : t_step (option SharedSecret) :=
  match cose_serialize peer_key with
  | None => mret None
  | Some serialized_peer_key =>
      imported ← client (ok_syscall (DeserializeP256Key serialized_peer_key));
      match imported with
      | None => mret None
      | Some peer_key =>
          key ← field key_agreement_key;
          agreed ← client (ok_syscall (Agree key peer_key));
          client (syscall (DeleteKey peer_key));;
          match agreed with
          | None => mret None
          | Some pre_shared_secret =>
              old ← field shared_secret_slot;
              assign (set_shared_secret None);;
              client (delete_option delete_secret old);;
              secret ← client (kdf version pre_shared_secret);
              client (syscall (DeleteKey pre_shared_secret));;
              match secret with
              | None => mret None
              | Some secret =>
                  assign (set_shared_secret (Some secret));;
                  mret (Some secret)
              end
          end
      end
  end.

Definition shared_secret (version : PinProtocolVersion) (peer_key : EcdhEsHkdf256PublicKey) : t_step SharedSecret :=
  secret ← shared_secret_impl version peer_key;
  ok_or secret InvalidParameter.
End protocol.
