(* ===== verification/FidoState.v ===== *)
(** * The state of the authenticator

    [src/third_party/fido-authenticator/src/state.rs]: the state kept in
    [persistent-state.cbor] with its failure latch, and the state of a power cycle.  The
    identity and the reading of cached credentials are left out. *)

From stdpp Require Import base tactics numbers list option strings.
From S2P Require Import Prelude Interfaces FidoClient PinToken.

(** ** Configuration *)

(** [CredentialIdVersion] of [credential.rs], with [credential-id-format-v2]. *)
Inductive CredentialIdVersion := CredentialV1 | CredentialV2.

#[export] Instance CredentialIdVersion_eq_dec : EqDecision CredentialIdVersion.
Proof. solve_decision. Defined.

(** [FirmwareVersion] and [Config] of [lib.rs].  The large-blob configuration is only
    tested for being there. *)
Record FirmwareVersion := mkFirmwareVersion {
  default_version : Z;
  credential_id_v1 : option Z;
  credential_id_v2 : option Z;
}.
Record Config := mkConfig {
  ctap1_transport : bool;
  max_msg_size : nat;
  skip_up_timeout : option Z;
  max_resident_credential_count : option Z;
  large_blobs : option unit;
  nfc_transport : bool;
  ccid_transport : bool;
  firmware_version : option FirmwareVersion;
  credential_id_version : option CredentialIdVersion;
  long_touch_for_reset : bool;
  fido2_up_timeout_ms : option Z;
}.

Definition FIDO2_UP_TIMEOUT : Z := 30000.
Definition supports_large_blobs (config : Config) : bool := bool_decide (is_Some (large_blobs config)).
Definition fido2_up_timeout (config : Config) : Z := default FIDO2_UP_TIMEOUT (fido2_up_timeout_ms config).
Definition FirmwareVersion_value (version : FirmwareVersion) (format : CredentialIdVersion) : Z :=
  default (default_version version)
    match format with
    | CredentialV1 => credential_id_v1 version
    | CredentialV2 => credential_id_v2 version
    end.

(** ** The persistent state *)

Record PersistentState := mkPersistentState {
  initialised : bool;
  persistence_failed : bool;
  ps_credential_id_version : option CredentialIdVersion;
  ps_key_encryption_key : option KeyId;
  ps_key_wrapping_key : option KeyId;
  ps_mismatches : Z;
  pin_hash : option bytes;
  pin_code_point_length : Z;
  timestamp : Z;
  ps_min_pin_length : Z;
  min_pin_length_rp_ids : list bytes;
  force_pin_change : bool;
  always_uv : bool;
}.

(** [PersistentState::default()]. *)
Definition PersistentState_default : PersistentState :=
  mkPersistentState false false None None None 0 None 0 0 0 [] false false.

(** Assignments to its fields. *)
Section setters.
Implicit Types p : PersistentState.
Definition set_flags (ready failed : bool) p : PersistentState :=
  mkPersistentState ready failed (ps_credential_id_version p) (ps_key_encryption_key p) (ps_key_wrapping_key p)
    (ps_mismatches p) (pin_hash p) (pin_code_point_length p) (timestamp p) (ps_min_pin_length p)
    (min_pin_length_rp_ids p) (force_pin_change p) (always_uv p).
Definition set_initialised p := set_flags true (persistence_failed p) p.
Definition latch_persistence_failure p := set_flags (initialised p) true p.
Definition set_keys (encryption wrapping : option KeyId) p : PersistentState :=
  mkPersistentState (initialised p) (persistence_failed p) (ps_credential_id_version p) encryption wrapping
    (ps_mismatches p) (pin_hash p) (pin_code_point_length p) (timestamp p) (ps_min_pin_length p)
    (min_pin_length_rp_ids p) (force_pin_change p) (always_uv p).
Definition set_mismatches (n : Z) p : PersistentState :=
  mkPersistentState (initialised p) (persistence_failed p) (ps_credential_id_version p) (ps_key_encryption_key p)
    (ps_key_wrapping_key p) n (pin_hash p) (pin_code_point_length p) (timestamp p) (ps_min_pin_length p)
    (min_pin_length_rp_ids p) (force_pin_change p) (always_uv p).
Definition set_timestamp (n : Z) p : PersistentState :=
  mkPersistentState (initialised p) (persistence_failed p) (ps_credential_id_version p) (ps_key_encryption_key p)
    (ps_key_wrapping_key p) (ps_mismatches p) (pin_hash p) (pin_code_point_length p) n (ps_min_pin_length p)
    (min_pin_length_rp_ids p) (force_pin_change p) (always_uv p).
Definition set_pin_fields (hash : bytes) (code_points : Z) (force : bool) p : PersistentState :=
  mkPersistentState (initialised p) (persistence_failed p) (ps_credential_id_version p) (ps_key_encryption_key p)
    (ps_key_wrapping_key p) (ps_mismatches p) (Some hash) code_points (timestamp p) (ps_min_pin_length p)
    (min_pin_length_rp_ids p) force (always_uv p).
Definition set_policy (min_length : Z) (rp_ids : list bytes) (force uv : bool) p : PersistentState :=
  mkPersistentState (initialised p) (persistence_failed p) (ps_credential_id_version p) (ps_key_encryption_key p)
    (ps_key_wrapping_key p) (ps_mismatches p) (pin_hash p) (pin_code_point_length p) (timestamp p) min_length
    rp_ids force uv.
End setters.

(** [cbor-smol] on the state: the fields marked [serde(skip)] are not stored. *)
Class PersistentCbor := {
  cbor_serialize : PersistentState → option bytes;
  cbor_deserialize : bytes → option PersistentState;
}.
Definition skip_fields (p : PersistentState) : PersistentState := set_flags false false p.
Class PersistentCborView `{PersistentCbor} := {
  cbor_roundtrip : ∀ p d, cbor_serialize p = Some d → cbor_deserialize d = Some (skip_fields p);
  cbor_skipped : ∀ d p, cbor_deserialize d = Some p → skip_fields p = p;
  cbor_widths : ∀ d p, cbor_deserialize d = Some p →
    is_byte (ps_mismatches p) ∧ is_u32 (timestamp p) ∧ (∀ h, pin_hash p = Some h → length h = 16%nat);
}.

Definition RESET_RETRIES : Z := 8.
Definition FILENAME : string := "persistent-state.cbor".
Definition INITIALIZATION_MARKER_FILENAME : string := "persistent-state.init".
Definition INITIALIZATION_MARKER : bytes := ascii_bytes "rissokey-persistent-state-init-v1" ++ [10].

Definition reset_value (config : Config) : PersistentState :=
  mkPersistentState false false (credential_id_version config) None None 0 None 0 1 0 [] false false.

(** [saturating_sub] on [u8]. *)
Definition u8_saturating_sub (a b : Z) : Z := Z.max 0 (a - b).

Section readers.
Implicit Types p : PersistentState.
Definition id_version p : CredentialIdVersion := default CredentialV1 (ps_credential_id_version p).
Definition pin_is_set p : bool := bool_decide (is_Some (pin_hash p)).
Definition retries p : Z := u8_saturating_sub RESET_RETRIES (ps_mismatches p).
Definition ps_pin_blocked p : bool := RESET_RETRIES <=? ps_mismatches p.
Definition min_pin_length `{FidoCrates} p : Z := Z.max (ps_min_pin_length p) DEFAULT_MIN_PIN_LENGTH.
End readers.

Section persistent.
Context {T : Type} `{FidoCrates, FidoClient T, PersistentCbor} (config : Config).

(** ** Loading *)

Definition entry_exists (path : string) : f_step (T := T) bool := try_syscall (EntryMetadata path) Other.

Definition load : f_step (T := T) (option PersistentState) :=
  exists_ ← entry_exists FILENAME;
  if negb exists_ then mret None
  else
    data ← try_syscall (ReadFile FILENAME) Other;
    state ← ok_or (cbor_deserialize data) Other;
    mret (Some state).

Definition verify_initialization_marker : f_step (T := T) unit :=
  marker ← try_syscall (ReadFile INITIALIZATION_MARKER_FILENAME) Other;
  return_if (negb (bytes_eqb marker INITIALIZATION_MARKER)) Other.

Definition remove_initialization_marker : f_step (T := T) unit :=
  try_syscall (RemoveFile INITIALIZATION_MARKER_FILENAME) Other.

(** The methods of [PersistentState]. *)
Definition s_step : Type → Type := step (PersistentState * T) CtapError.

Definition return_if_failed : s_step unit :=
  failed ← field persistence_failed;
  return_if failed Other.

(** [if result.is_err() { self.latch_persistence_failure() } result]. *)
Definition latching {A} (c : s_step A) : s_step A := λ s,
  match c s with
  | Some (Err e, s) => Some (Err e, (latch_persistence_failure (fst s), snd s))
  | result => result
  end.

Definition save : s_step unit :=
  return_if_failed;;
  latching (
    state ← field id;
    data ← ok_or (fit MAX_MESSAGE_LENGTH (cbor_serialize state)) Other;
    on_client (try_syscall (WriteFile FILENAME data) Other)).

Definition delete_key_or (key : option KeyId) : f_step (T := T) unit :=
  match key with
  | Some key => try_syscall (DeleteKey key) Other;; mret tt
  | None => mret tt
  end.

Definition persistent_reset : s_step unit :=
  return_if_failed;;
  latching (
    key ← field ps_key_encryption_key; on_client (delete_key_or key);;
    key ← field ps_key_wrapping_key; on_client (delete_key_or key));;
  assign (λ _, set_initialised (reset_value config));;
  save.

(** A method called on [initial_state], whose error latches [self]. *)
Definition save_initial_state : s_step PersistentState := λ s,
  match save (set_initialised (reset_value config), snd s) with
  | Some (Ok _, s') => Some (Ok (fst s'), (fst s, snd s'))
  | Some (Err e, s') => Some (Err e, (latch_persistence_failure (fst s), snd s'))
  | None => None
  end.

Definition load_if_not_initialised : s_step unit :=
  return_if_failed;;
  ready ← field initialised;
  if ready : bool then mret tt
  else
    loaded ← on_client load;
    state ←
      match loaded with
      | Some previous_state =>
          marked ← on_client (entry_exists INITIALIZATION_MARKER_FILENAME);
          (if marked : bool then
             on_client (verify_initialization_marker;; remove_initialization_marker)
           else mret tt);;
          mret previous_state
      | None =>
          on_client verify_initialization_marker;;
          initial_state ← save_initial_state;
          on_client remove_initialization_marker;;
          mret initial_state
      end;
    assign (λ _, set_initialised state).

(** ** The signature counter and the keys *)

Definition signature_counter : s_step Z :=
  now ← field timestamp;
  if 0 <? now then
    bytes ← on_client (syscall (RandomBytes 1));
    increment ← checked (bytes !! 0%nat);
    assign (set_timestamp (default 0 (u32_add now (increment + 1))));;
    save;;
    mret now
  else mret now.

Definition generate_key (version : CredentialIdVersion) : f_step (T := T) KeyId :=
  try_syscall (GenerateKey match version with CredentialV1 => Chacha8Poly1305 | CredentialV2 => Aes256Gcm end) Other.

(** The old key goes after the new one is saved. *)
Definition delete_old_key (old : option KeyId) : f_step (T := T) unit :=
  match old with
  | Some old =>
      success ← try_syscall (DeleteKey old) Other;
      return_if (negb success) Other
  | None => mret tt
  end.

Definition rotate_key_encryption_key : s_step KeyId :=
  return_if_failed;;
  latching (
    state ← field id;
    let old := ps_key_encryption_key state in
    key ← on_client (generate_key (id_version state));
    assign (λ p, set_keys (Some key) (ps_key_wrapping_key p) p);;
    save;;
    on_client (delete_old_key old);;
    mret key).

Definition key_encryption_key : s_step KeyId :=
  return_if_failed;;
  key ← field ps_key_encryption_key;
  match key with
  | Some key => mret key
  | None => rotate_key_encryption_key
  end.

Definition rotate_key_wrapping_key : s_step KeyId :=
  return_if_failed;;
  latching (
    state ← field id;
    let old := ps_key_wrapping_key state in
    key ← on_client (generate_key (id_version state));
    assign (λ p, set_keys (ps_key_encryption_key p) (Some key) p);;
    save;;
    on_client (delete_old_key old);;
    mret key).

Definition key_wrapping_key : s_step KeyId :=
  return_if_failed;;
  key ← field ps_key_wrapping_key;
  match key with
  | Some key => mret key
  | None => rotate_key_wrapping_key
  end.

(** ** PIN retries and policy *)

Definition ps_reset_retries : s_step unit :=
  mismatches ← field ps_mismatches;
  if 0 <? mismatches then assign (set_mismatches 0);; save else mret tt.

Definition ps_decrement_retries : s_step unit :=
  mismatches ← field ps_mismatches;
  if mismatches <? RESET_RETRIES then
    assign (set_mismatches (mismatches + 1));;
    save;;
    mismatches ← field ps_mismatches;
    return_if (mismatches =? 0) PinBlocked
  else mret tt.

Definition set_pin_hash (hash : bytes) (code_points : Z) : s_step unit :=
  stored ← field pin_hash;
  if match stored with Some stored => ct_eq stored hash | None => false end then mret tt
  else assign (set_pin_fields hash code_points false);; save.

Definition set_min_pin_length (new_value : Z) : s_step unit :=
  cur ← field min_pin_length;
  if new_value <? cur then throw PinPolicyViolation
  else if new_value =? cur then mret tt
  else
    assign (λ p, set_policy new_value (min_pin_length_rp_ids p) (force_pin_change p) (always_uv p) p);;
    save.

Definition set_min_pin_length_rp_ids (rp_ids : list bytes) : s_step unit :=
  assign (λ p, set_policy (ps_min_pin_length p) rp_ids (force_pin_change p) (always_uv p) p);;
  save.

Definition set_force_pin_change (value : bool) : s_step unit :=
  current ← field force_pin_change;
  if Bool.eqb current value then mret tt
  else
    assign (λ p, set_policy (ps_min_pin_length p) (min_pin_length_rp_ids p) value (always_uv p) p);;
    save.

Definition toggle_always_uv : s_step unit :=
  assign (λ p, set_policy (ps_min_pin_length p) (min_pin_length_rp_ids p) (force_pin_change p) (negb (always_uv p)) p);;
  save.
End persistent.

(** ** The runtime state *)

(** The continuations of earlier commands; the assertion's extension inputs and the
    large-blob cursor are left out. *)
Record CachedCredential := mkCachedCredential { cc_timestamp : Z; cc_path : string }.
Record CredentialManagementEnumerateRps := mkEnumerateRps { er_remaining : Z; er_rp_id_hash : bytes }.
Record CredentialManagementEnumerateCredentials := mkEnumerateCredentials { ec_remaining : Z; ec_prev_filename : string }.
Record ActiveGetAssertionData := mkActiveGetAssertionData {
  last_assertion : Z;
  aa_rp_id_hash : bytes;
  client_data_hash : bytes;
  uv_performed : bool;
  up_performed : bool;
  multiple_credentials : bool;
}.

Record RuntimeState := mkRuntimeState {
  pin_protocol : option PinProtocolState;
  rt_mismatches : Z;
  cached_credentials : list CachedCredential;
  active_get_assertion : option ActiveGetAssertionData;
  cached_rp : option CredentialManagementEnumerateRps;
  cached_rk : option CredentialManagementEnumerateCredentials;
}.

Definition RuntimeState_default : RuntimeState := mkRuntimeState None 0 [] None None None.

Definition POWERCYCLE_RETRIES : Z := 3.

Section runtime_fields.
Implicit Types r : RuntimeState.
Definition set_rt_mismatches (n : Z) r : RuntimeState :=
  mkRuntimeState (pin_protocol r) n (cached_credentials r) (active_get_assertion r) (cached_rp r) (cached_rk r).
Definition set_pin_protocol (s : option PinProtocolState) r : RuntimeState :=
  mkRuntimeState s (rt_mismatches r) (cached_credentials r) (active_get_assertion r) (cached_rp r) (cached_rk r).

Definition rt_decrement_retries r : RuntimeState :=
  if rt_mismatches r <? POWERCYCLE_RETRIES then set_rt_mismatches (rt_mismatches r + 1) r else r.
Definition rt_reset_retries r : RuntimeState := set_rt_mismatches 0 r.
Definition rt_pin_blocked r : bool := POWERCYCLE_RETRIES <=? rt_mismatches r.

Definition clear_credential_continuations r : RuntimeState :=
  mkRuntimeState (pin_protocol r) (rt_mismatches r) [] None None None.
Definition discard_authorizations r : RuntimeState := mkRuntimeState None (rt_mismatches r) [] None None None.
Definition consume_token_user_presence `{FidoCrates} r : RuntimeState :=
  set_pin_protocol (consume_user_presence <$> pin_protocol r) r.
End runtime_fields.

Section runtime.
Context {T : Type} `{FidoCrates, Sha256, FidoClient T}.

Definition r_step : Type → Type := step (RuntimeState * T) CtapError.

(** A method of the protocol, when there is one. *)
Definition on_protocol {A} (s : PinProtocolState) (c : t_step A) : r_step A :=
  zoom (λ r, (s, snd r)) (λ p r, (set_pin_protocol (Some (fst p)) (fst r), snd p)) c.

(** [pin_protocol(..)] with [get_or_insert_with], then a method of the protocol. *)
Definition with_protocol {A} (c : t_step A) : r_step A :=
  current ← field pin_protocol;
  s ← match current with
      | Some s => mret s
      | None =>
          s ← on_client PinProtocolState_new;
          assign (set_pin_protocol (Some s));;
          mret s
      end;
  on_protocol s c.

Definition invalidate_pin_tokens : r_step unit :=
  current ← field pin_protocol;
  match current with
  | Some s => on_protocol s reset_pin_tokens
  | None => mret tt
  end;;
  assign clear_credential_continuations.

Definition observe_pin_tokens : r_step unit :=
  current ← field pin_protocol;
  match current with
  | None => mret tt
  | Some s =>
      now ← on_client (ok_syscall Uptime);
      match now with
      | Some now =>
          expired ← on_protocol s (state_observe_usage_timer now);
          if expired : bool then invalidate_pin_tokens else mret tt
      | None => invalidate_pin_tokens
      end
  end.

Definition runtime_reset : r_step unit :=
  on_client (try_syscall (DeleteAllKeys Volatile) Other);;
  assign (λ r, mkRuntimeState None 0 [] None None None).
End runtime.
