(* ===== verification/ResidentReplacement.v ===== *)
(** * Replacing a resident credential

    The end of [make_credential] and [recover_resident_replacement] of
    [src/third_party/fido-authenticator/src/ctap2.rs]: a new credential for an account that
    has one is staged, a journal is published by a renaming, and recovery, which the
    dispatcher also runs before every command, carries the journal out. *)

From stdpp Require Import base tactics numbers list option strings.
From S2P Require Import Prelude FidoClient.

Definition RK_STAGE : string := "rk-new".
Definition RK_JOURNAL_STAGE : string := "rk-transaction-new".
Definition RK_JOURNAL : string := "rk-transaction".
Definition RK_DIR : string := "rk".

(** [struct ResidentReplacement]. *)
Record Replacement := mkReplacement { old_path : string; old_key : KeyId; new_path : string }.

(** [credential::Key], without the wrapped key. *)
Inductive CredentialKey := ResidentKey (key : KeyId) | WrappedKey.

(** [cbor-smol] on a journal and on a stored credential, of which the code here reads the
    key, and [Path::parent] of littlefs. *)
Class ReplacementCbor := {
  journal_serialize : Replacement → option bytes;
  journal_deserialize : bytes → option Replacement;
  credential_key : bytes → option CredentialKey;
  path_parent : string → option string;
}.
Class ReplacementCborView `{ReplacementCbor} := {
  journal_roundtrip : ∀ j d, journal_serialize j = Some d → journal_deserialize d = Some j;
  path_parent_rk : ∀ p, path_parent p = Some RK_DIR → String.prefix (RK_DIR +:+ "/") p = true;
}.

Section replacement.
Context {T : Type} `{FidoClient T, ReplacementCbor}.

Definition file_exists (path : string) : f_step (T := T) bool := try_syscall (EntryMetadata path) Other.

Definition in_rk_dir (path : string) : bool := bool_decide (path_parent path = Some RK_DIR).

Definition recover_resident_replacement : f_step (T := T) unit :=
  present ← file_exists RK_JOURNAL;
  if negb present then mret tt
  else
    bytes ← try_syscall (ReadFile RK_JOURNAL) Other;
    journal ← ok_or (journal_deserialize bytes) Other;
    return_if (bool_decide (old_path journal = new_path journal)
               || negb (in_rk_dir (old_path journal))
               || negb (in_rk_dir (new_path journal))) Other;;
    staged ← file_exists RK_STAGE;
    (if staged : bool then try_syscall (RenameFile RK_STAGE (new_path journal)) Other else mret tt);;
    new ← try_syscall (ReadFile (new_path journal)) Other;
    key ← ok_or (credential_key new) Other;
    return_if (negb match key with ResidentKey key => negb (key =? old_key journal) | WrappedKey => false end) Other;;
    old_there ← file_exists (old_path journal);
    (if old_there : bool then try_syscall (RemoveFile (old_path journal)) Other else mret tt);;
    try_syscall (DeleteKey (old_key journal)) Other;;
    try_syscall (RemoveFile RK_JOURNAL) Other.

(** The steps of [make_credential] for an account that has a credential, once the response
    is complete: [serialized] is the new record and [private_key] its key, which an error
    before the renaming deletes. *)
Definition stage_replacement (serialized : bytes) (journal : Replacement) : f_step (T := T) unit :=
  return_if (bool_decide (old_path journal = new_path journal)) Other;;
  try_syscall (WriteFile RK_STAGE serialized) KeyStoreFull;;
  bytes ← ok_or (fit MAX_MESSAGE_LENGTH (journal_serialize journal)) Other;
  try_syscall (WriteFile RK_JOURNAL_STAGE bytes) KeyStoreFull.

Definition replace_resident (serialized : bytes) (journal : Replacement) (private_key : KeyId)
  : f_step (T := T) unit := λ t,
  match stage_replacement serialized journal t with
  | Some (Ok _, t) =>
      (try_syscall (RenameFile RK_JOURNAL_STAGE RK_JOURNAL) Other;;
       recover_resident_replacement) t
  | Some (Err e, t) => (ok_syscall (DeleteKey private_key);; throw e) t
  | None => None
  end.
End replacement.
