(* ===== verification/Utf8.v ===== *)
(** * UTF-8

    [core::str::from_utf8] and [str::chars], which the authenticator uses to measure a PIN
    in code points: the decoder by the byte ranges of the standard library, and the proof
    that it inverts the encoding of Unicode and accepts nothing else. *)

From stdpp Require Import base tactics numbers list option.
From S2P Require Import Prelude.

Definition between (lo b hi : Z) : bool := (lo <=? b) && (b <=? hi).
Definition continuation (b : Z) : bool := between 0x80 b 0xbf.

(** The range of the second byte of a sequence of three or four. *)
Definition second_of_three (first second : Z) : bool :=
  if first =? 0xe0 then between 0xa0 second 0xbf
  else if first =? 0xed then between 0x80 second 0x9f
  else continuation second.
Definition second_of_four (first second : Z) : bool :=
  if first =? 0xf0 then between 0x90 second 0xbf
  else if first =? 0xf4 then between 0x80 second 0x8f
  else continuation second.

(** The code points, or [None] for [Utf8Error]. *)
Fixpoint from_utf8 (l : bytes) : option (list Z) :=
  match l with
  | [] => Some []
  | a :: l =>
      if between 0 a 0x7f then cons a <$> from_utf8 l
      else if between 0xc2 a 0xdf then
        match l with
        | b :: l =>
            if continuation b then cons ((a - 0xc0) * 64 + (b - 0x80)) <$> from_utf8 l else None
        | [] => None
        end
      else if between 0xe0 a 0xef then
        match l with
        | b :: c :: l =>
            if second_of_three a b && continuation c
            then cons ((a - 0xe0) * 4096 + (b - 0x80) * 64 + (c - 0x80)) <$> from_utf8 l else None
        | _ => None
        end
      else if between 0xf0 a 0xf4 then
        match l with
        | b :: c :: d :: l =>
            if second_of_four a b && continuation c && continuation d
            then cons ((a - 0xf0) * 262144 + (b - 0x80) * 4096 + (c - 0x80) * 64 + (d - 0x80)) <$> from_utf8 l
            else None
        | _ => None
        end
      else None
  end.

(** The encoding, from the definition of UTF-8. *)
Definition scalar_value (c : Z) : Prop := 0 ≤ c < 0xd800 ∨ 0xe000 ≤ c < 0x110000.
Definition encode_utf8 (c : Z) : bytes :=
  if c <? 0x80 then [c]
  else if c <? 0x800 then [0xc0 + c / 64; 0x80 + c mod 64]
  else if c <? 0x10000 then [0xe0 + c / 4096; 0x80 + c / 64 mod 64; 0x80 + c mod 64]
  else [0xf0 + c / 262144; 0x80 + c / 4096 mod 64; 0x80 + c / 64 mod 64; 0x80 + c mod 64].
Definition to_utf8 (s : list Z) : bytes := s ≫= encode_utf8.

(** The digits of a code point in base 64. *)
Lemma digits64 c : c = c / 64 * 64 + c mod 64 ∧ 0 ≤ c mod 64 < 64.
Proof. pose proof (Z.div_mod c 64). pose proof (Z.mod_pos_bound c 64). lia. Qed.

Lemma between_true lo b hi : between lo b hi = true ↔ lo ≤ b ≤ hi.
Proof. unfold between. rewrite andb_true_iff, !Z.leb_le. done. Qed.
Lemma between_false lo b hi : between lo b hi = false ↔ ¬ (lo ≤ b ≤ hi).
Proof. rewrite <- between_true. by destruct (between lo b hi). Qed.

Lemma second_of_three_true a b : second_of_three a b = true ↔
  0x80 ≤ b ≤ 0xbf ∧ (a = 0xe0 → 0xa0 ≤ b) ∧ (a = 0xed → b ≤ 0x9f).
Proof.
  unfold second_of_three, continuation. destruct (Z.eqb_spec a 0xe0); [|destruct (Z.eqb_spec a 0xed)];
    rewrite between_true; lia.
Qed.
Lemma second_of_four_true a b : second_of_four a b = true ↔
  0x80 ≤ b ≤ 0xbf ∧ (a = 0xf0 → 0x90 ≤ b) ∧ (a = 0xf4 → b ≤ 0x8f).
Proof.
  unfold second_of_four, continuation. destruct (Z.eqb_spec a 0xf0); [|destruct (Z.eqb_spec a 0xf4)];
    rewrite between_true; lia.
Qed.

(** One character in front of a text. *)
Lemma from_utf8_encode c l : scalar_value c → from_utf8 (encode_utf8 c ++ l) = cons c <$> from_utf8 l.
Proof.
  intros Hc. unfold scalar_value in Hc. pose proof (digits64 c) as [E0 H0].
  pose proof (digits64 (c / 64)) as [E1 H1]. pose proof (digits64 (c / 64 / 64)) as [E2 H2].
  rewrite (Z.div_div c 64 64) in *; [|lia..]. change (64 * 64) with 4096 in *.
  rewrite (Z.div_div c 4096 64) in *; [|lia..]. change (4096 * 64) with 262144 in *.
  unfold encode_utf8.
  destruct (Z.ltb_spec c 0x80); [|destruct (Z.ltb_spec c 0x800); [|destruct (Z.ltb_spec c 0x10000)]];
    cbn [app from_utf8]; repeat match goal with
    | |- context [between ?lo ?b ?hi] =>
        (rewrite (proj2 (between_true lo b hi)) by lia) || (rewrite (proj2 (between_false lo b hi)) by lia)
    end.
  - done.
  - unfold continuation. rewrite (proj2 (between_true _ _ _)) by lia. by replace (_ + _) with c by lia.
  - unfold continuation. rewrite (proj2 (second_of_three_true _ _)), (proj2 (between_true _ _ _)) by lia.
    cbn [andb]. by replace (_ + _) with c by lia.
  - unfold continuation. rewrite (proj2 (second_of_four_true _ _)), !(proj2 (between_true _ _ _)) by lia.
    cbn [andb]. by replace (_ + _) with c by lia.
Qed.

Lemma from_utf8_to_utf8 s : Forall scalar_value s → from_utf8 (to_utf8 s) = Some s.
Proof.
  induction 1 as [|c s Hc _ IH]; [done|]. cbn [to_utf8 mbind list_bind].
  rewrite from_utf8_encode by done. change (s ≫= encode_utf8) with (to_utf8 s). by rewrite IH.
Qed.

(** The decoder accepts encodings only. *)
Lemma to_utf8_cons c s : to_utf8 (c :: s) = encode_utf8 c ++ to_utf8 s.
Proof. done. Qed.

Lemma div_digits a b c n : 0 < n → 0 ≤ b < n → a = c * n + b → a / n = c ∧ a mod n = b.
Proof.
  intros Hn Hb ->. rewrite Z.add_comm, Z.div_add, Z.mod_add by lia.
  rewrite Z.div_small, Z.mod_small by lia. lia.
Qed.

(** The encoding of a code point given by its digits. *)
Lemma encode_two x y : 2 ≤ x < 32 → 0 ≤ y < 64 → encode_utf8 (x * 64 + y) = [0xc0 + x; 0x80 + y].
Proof.
  intros Hx Hy. destruct (div_digits (x * 64 + y) y x 64) as [E1 E2]; [lia..|].
  unfold encode_utf8. rewrite (proj2 (Z.ltb_ge _ _)), (proj2 (Z.ltb_lt _ _)), E1, E2 by lia. done.
Qed.
Lemma encode_three x y z : 0 ≤ x < 16 → 0 ≤ y < 64 → 0 ≤ z < 64 → 0x800 ≤ x * 4096 + y * 64 + z →
  encode_utf8 (x * 4096 + y * 64 + z) = [0xe0 + x; 0x80 + y; 0x80 + z].
Proof.
  intros Hx Hy Hz Hb. destruct (div_digits (x * 4096 + y * 64 + z) z (x * 64 + y) 64) as [E1 E2]; [lia..|].
  destruct (div_digits (x * 64 + y) y x 64) as [E3 E4]; [lia..|].
  destruct (div_digits (x * 4096 + y * 64 + z) (y * 64 + z) x 4096) as [E5 _]; [lia..|].
  unfold encode_utf8. rewrite (proj2 (Z.ltb_ge _ _)), (proj2 (Z.ltb_ge _ 0x800)), (proj2 (Z.ltb_lt _ _)) by lia.
  by rewrite E5, E1, E2, E4.
Qed.
Lemma encode_four w x y z : 0 ≤ w < 8 → 0 ≤ x < 64 → 0 ≤ y < 64 → 0 ≤ z < 64 →
  0x10000 ≤ w * 262144 + x * 4096 + y * 64 + z →
  encode_utf8 (w * 262144 + x * 4096 + y * 64 + z) = [0xf0 + w; 0x80 + x; 0x80 + y; 0x80 + z].
Proof.
  intros Hw Hx Hy Hz Hb. set (c := w * 262144 + x * 4096 + y * 64 + z) in *.
  destruct (div_digits c z (w * 4096 + x * 64 + y) 64) as [E1 E2]; [lia..|].
  destruct (div_digits (w * 4096 + x * 64 + y) y (w * 64 + x) 64) as [_ E4]; [lia..|].
  destruct (div_digits c (y * 64 + z) (w * 64 + x) 4096) as [E5 _]; [lia..|].
  destruct (div_digits (w * 64 + x) x w 64) as [_ E6]; [lia..|].
  destruct (div_digits c (x * 4096 + y * 64 + z) w 262144) as [E7 _]; [lia..|].
  unfold encode_utf8. rewrite !(proj2 (Z.ltb_ge _ _)) by lia. by rewrite E7, E5, E1, E2, E4, E6.
Qed.

Definition decodes (l : bytes) : Prop := ∀ s, from_utf8 l = Some s → Forall scalar_value s ∧ l = to_utf8 s.

Lemma decodes_cons c l l' s : decodes l → scalar_value c → encode_utf8 c ++ l = l' →
  cons c <$> from_utf8 l = Some s → Forall scalar_value s ∧ l' = to_utf8 s.
Proof.
  intros D Hc <-. destruct (from_utf8 l) as [s'|] eqn:E; [|done]. intros [= <-].
  destruct (D _ E) as [Hs ->]. by split; [constructor|].
Qed.

Ltac byte_ranges := repeat match goal with
  | H : (_ && _)%bool = true |- _ => apply andb_true_iff in H as [? ?]
  | H : continuation _ = true |- _ => unfold continuation in H
  | H : between _ _ _ = true |- _ => apply between_true in H
  | H : between _ _ _ = false |- _ => apply between_false in H
  | H : second_of_three _ _ = true |- _ => apply second_of_three_true in H
  | H : second_of_four _ _ = true |- _ => apply second_of_four_true in H
  end.

Lemma from_utf8_decodes l : decodes l.
Proof.
  remember (length l) as n eqn:En. revert l En. induction (lt_wf n) as [n _ IH]. intros l ->.
  destruct l as [|a l]; [by intros s [= <-]|]. intros s. cbn [from_utf8].
  assert (∀ l', (length l' < length (a :: l))%nat → decodes l') as D by (intros l' Hl; by eapply IH). clear IH.
  destruct (between 0 a 0x7f) eqn:Ea.
  { apply decodes_cons; [apply D; simpl; lia|byte_ranges; unfold scalar_value; lia|].
    byte_ranges. unfold encode_utf8. by rewrite (proj2 (Z.ltb_lt _ _)) by lia. }
  destruct (between 0xc2 a 0xdf) eqn:E2.
  { destruct l as [|b l]; [done|]. destruct (continuation b) eqn:Eb; [|done]. byte_ranges.
    apply decodes_cons; [apply D; simpl; lia|unfold scalar_value; lia|].
    rewrite encode_two by lia. cbn [app]. f_equal; [lia|]. f_equal; lia. }
  destruct (between 0xe0 a 0xef) eqn:E3.
  { destruct l as [|b [|c l]]; [done..|]. destruct (_ && _) eqn:Eb; [|done]. byte_ranges.
    apply decodes_cons; [apply D; simpl; lia|unfold scalar_value; lia|].
    rewrite encode_three by lia. cbn [app]. repeat f_equal; lia. }
  destruct (between 0xf0 a 0xf4) eqn:E4; [|done].
  destruct l as [|b [|c [|d l]]]; [done..|]. destruct (_ && _) eqn:Eb; [|done]. byte_ranges.
  apply decodes_cons; [apply D; simpl; lia|unfold scalar_value; lia|].
  rewrite encode_four by lia. cbn [app]. repeat f_equal; lia.
Qed.

Lemma from_utf8_iff l s : from_utf8 l = Some s ↔ Forall scalar_value s ∧ l = to_utf8 s.
Proof. split; [apply from_utf8_decodes|]. intros [Hs ->]. by apply from_utf8_to_utf8. Qed.
