(* ===== verification/ClientPin.v ===== *)
(** * Commands that use the PIN

    [authenticatorClientPIN], [authenticatorConfig], [authenticatorReset], the PIN checks of
    the other commands, and the dispatch around them:
    [src/third_party/fido-authenticator/src/ctap2.rs] and [dispatch.rs]. *)

From stdpp Require Import base tactics numbers list option strings.
From S2P Require Import Prelude Interfaces FidoClient PinToken FidoState ResidentReplacement Utf8.

(** ** The authenticator *)

Record Authenticator (T : Type) := mkAuthenticator {
  trussed : T;
  persistent : PersistentState;
  runtime : RuntimeState;
}.
Arguments mkAuthenticator {T}.
Arguments trussed {T}.
Arguments persistent {T}.
Arguments runtime {T}.

(** [Authenticator::new], with [State::new]. *)
Definition new_authenticator {T} (t : T) : Authenticator T :=
  mkAuthenticator t PersistentState_default RuntimeState_default.

(** ** Requests *)

(** [PinV1Subcommand]; the rest of the enumeration answers as the two before it. *)
Inductive PinSubcommand :=
  | GetRetries | GetKeyAgreement | SetPin | ChangePin | GetPinToken
  | GetPinUvAuthTokenUsingPinWithPermissions
  | GetPinUvAuthTokenUsingUvWithPermissions | GetUVRetries | OtherPinSubcommand.

#[export] Instance PinSubcommand_eq_dec : EqDecision PinSubcommand.
Proof. solve_decision. Defined.

Record PinRequest `{FidoCrates} := mkPinRequest {
  sub_command : PinSubcommand;
  pr_protocol : option Z;
  key_agreement : option EcdhEsHkdf256PublicKey;
  pin_auth : option bytes;
  new_pin_enc : option bytes;
  pin_hash_enc : option bytes;
  pr_permissions : option Z;
  pr_rp_id : option bytes;
}.
Record PinResponse `{FidoCrates} := mkPinResponse {
  res_retries : option Z;
  res_key_agreement : option EcdhEsHkdf256PublicKey;
  res_pin_token : option bytes;
}.

Arguments mkPinRequest {_}.
Arguments mkPinResponse {_}.

(** [AuthenticatorOptions]. *)
Record AuthenticatorOptions := mkOptions { opt_rk : option bool; opt_up : option bool; opt_uv : option bool }.

(** [authenticatorConfig] and [authenticatorCredentialManagement], with the CBOR of their
    parameters, [None] where it does not fit the buffer. *)
Inductive ConfigSubcommand := SetMinPINLength | ToggleAlwaysUv | EnableLongTouchForReset | OtherConfigSubcommand.
Record ConfigParams := mkConfigParams {
  new_min_pin_length : option Z;
  cp_rp_ids : option (list bytes);
  force_change_pin : option bool;
  cp_cbor : option bytes;
}.
Record ConfigRequest := mkConfigRequest {
  cr_sub_command : ConfigSubcommand;
  cr_code : Z;
  cr_params : option ConfigParams;
  cr_protocol : option Z;
  cr_pin_auth : option bytes;
}.

Inductive CmSubcommand :=
  | GetCredsMetadata | EnumerateRpsBegin | EnumerateRpsGetNextRp | EnumerateCredentialsBegin
  | EnumerateCredentialsGetNextCredential | DeleteCredential | UpdateUserInformation | OtherCmSubcommand.
Record CmParams := mkCmParams { cm_rp_id_hash : option bytes; cm_cbor : option bytes }.
Record CmRequest := mkCmRequest {
  cm_sub_command : CmSubcommand;
  cm_code : Z;
  cm_params : option CmParams;
  cm_protocol : option Z;
  cm_pin_auth : option bytes;
}.

(** [pin.iter().rposition(|&b| b != 0)]. *)
Fixpoint rposition_nonzero (l : bytes) : option nat :=
  match l with
  | [] => None
  | b :: l =>
      match rposition_nonzero l with
      | Some last => Some (S last)
      | None => if b =? 0 then None else Some O
      end
  end.
Definition stripped_length (pin : bytes) : nat := match rposition_nonzero pin with Some last => S last | None => O end.

Section commands.
Context {T : Type} `{FidoCrates, Sha256, FidoClient T, PersistentCbor, ReplacementCbor} (config : Config).

Definition a_step : Type → Type := step (Authenticator T) CtapError.

Definition on_trussed {A} (c : f_step A) : a_step A :=
  zoom trussed (λ t a, mkAuthenticator t (persistent a) (runtime a)) c.
Definition on_persistent {A} (c : s_step A) : a_step A :=
  zoom (λ a, (persistent a, trussed a)) (λ s a, mkAuthenticator (snd s) (fst s) (runtime a)) c.
Definition on_runtime {A} (c : r_step A) : a_step A :=
  zoom (λ a, (runtime a, trussed a)) (λ s a, mkAuthenticator (snd s) (persistent a) (fst s)) c.
Definition set_runtime (f : RuntimeState → RuntimeState) : a_step unit :=
  modify (λ a, mkAuthenticator (trussed a) (persistent a) (f (runtime a))).
Definition latch_failure : a_step unit :=
  modify (λ a, mkAuthenticator (trussed a) (latch_persistence_failure (persistent a)) (runtime a)).
Definition stored {A} (f : PersistentState → A) : a_step A := a ← get_state; mret (f (persistent a)).

(** [self.pin_protocol(..)], then a method of it. *)
Definition on_pin {A} (c : t_step A) : a_step A := on_runtime (with_protocol c).

(** ** [impl State] *)

Definition decrement_retries : a_step unit := on_persistent ps_decrement_retries;; set_runtime rt_decrement_retries.
Definition reset_retries : a_step unit := on_persistent ps_reset_retries;; set_runtime rt_reset_retries.
Definition pin_blocked : a_step unit :=
  a ← get_state;
  return_if (ps_pin_blocked (persistent a)) PinBlocked;;
  return_if (rt_pin_blocked (runtime a)) PinAuthBlocked.

(** [UserPresence] for [Conforming]. *)
Definition consent (strong : bool) : a_step unit :=
  result ← on_trussed (syscall (ConfirmUserPresent strong (fido2_up_timeout config)));
  match result with
  | Ok _ => mret tt
  | Err ConsentTimedOut => throw UserActionTimeout
  | Err ConsentInterrupted => throw KeepaliveCancel
  | Err ConsentOther => throw OperationDenied
  end.
Definition user_present : a_step unit := consent false.
Definition user_present_strong : a_step unit := consent true.

(** ** [authenticatorClientPIN] *)

Definition pin_protocols : list PinProtocolVersion := [V2; V1].
Definition parse_pin_protocol (version : Z) : option PinProtocolVersion :=
  if (0 <=? version) && (version <=? U8_MAX)
  then List.find (λ p, PinProtocolVersion_u8 p =? version) pin_protocols else None.

(** The value computed before the subcommand is examined, and [pin_protocol?]. *)
Definition selected_protocol (version : option Z) : a_step PinProtocolVersion :=
  version ← ok_or version MissingParameter;
  ok_or (parse_pin_protocol version) InvalidParameter.

(** [hash_sha256(pin).hash[..16]]. *)
Definition pin_digest (pin : bytes) : a_step bytes :=
  hash ← on_trussed (syscall (HashSha256 pin));
  assert_that (16 <=? length hash)%nat;;
  mret (take 16 hash).

(** [from_utf8(pin).map(|s| s.chars().count()).unwrap_or(pin.len()) as u8]. *)
Definition code_points_u8 (pin : bytes) : Z :=
  Z.of_nat match from_utf8 pin with Some s => length s | None => length pin end mod 256.

Definition hash_store_pin (pin : bytes) : a_step unit :=
  hash ← pin_digest pin;
  on_persistent (set_pin_hash hash (code_points_u8 pin)).

Definition decrypt_pin_check_length (secret : SharedSecret) (pin_enc : bytes) : a_step bytes :=
  return_if (length pin_enc <? 64)%nat PinPolicyViolation;;
  decrypted ← on_trussed (decrypt secret pin_enc);
  pin ← ok_or decrypted Other;
  let stripped_len := stripped_length pin in
  return_if (MAX_PIN_LENGTH <? stripped_len)%nat PinPolicyViolation;;
  s ← ok_or (from_utf8 (take stripped_len pin)) PinPolicyViolation;
  min_pin_length ← stored min_pin_length;
  return_if (Z.of_nat (length s) <? min_pin_length) PinPolicyViolation;;
  mret (take stripped_len pin).

Definition decrypt_pin_hash_and_maybe_escalate (version : PinProtocolVersion) (secret : SharedSecret)
    (pin_hash_enc : bytes) : a_step unit :=
  hash ← on_trussed (decrypt secret pin_hash_enc);
  stored_pin_hash ← stored pin_hash;
  stored_pin_hash ← ok_or stored_pin_hash PinNotSet;
  if match hash with Some hash => ct_eq hash stored_pin_hash | None => false end then mret tt
  else
    on_pin regenerate;;
    pin_blocked;;
    throw PinInvalid.

Definition empty_response : PinResponse := mkPinResponse None None None.

Definition set_pin (r : PinRequest) : a_step PinResponse :=
  platform_kek ← ok_or (key_agreement r) MissingParameter;
  new_pin_enc ← ok_or (new_pin_enc r) MissingParameter;
  pin_auth ← ok_or (pin_auth r) MissingParameter;
  version ← selected_protocol (pr_protocol r);
  already ← stored pin_is_set;
  return_if already PinAuthInvalid;;
  secret ← on_pin (shared_secret version platform_kek);
  on_pin (verify_pin_auth version secret new_pin_enc pin_auth);;
  new_pin ← decrypt_pin_check_length secret new_pin_enc;
  on_trussed (delete_secret secret);;
  hash_store_pin new_pin;;
  map_err reset_retries Other;;
  mret empty_response.

(** [data.extend_from_slice(..)] twice, on [MediumData]. *)
Definition medium_data (a b : bytes) : option bytes :=
  if (length a + length b <=? MAX_MEDIUM_DATA_LENGTH)%nat then Some (a ++ b) else None.

Definition invalidate_tokens : a_step unit := on_runtime invalidate_pin_tokens.

(** The debit, the comparison, and the reset of the retries, which three subcommands make. *)
Definition check_pin (version : PinProtocolVersion) (secret : SharedSecret) (pin_hash_enc : bytes) : a_step unit :=
  decrement_retries;;
  decrypt_pin_hash_and_maybe_escalate version secret pin_hash_enc;;
  reset_retries.

(** Each of them in two parts: up to the debit, and after the reset. *)
Definition change_pin_request (r : PinRequest) : a_step (PinProtocolVersion * SharedSecret * bytes * bytes) :=
  platform_kek ← ok_or (key_agreement r) MissingParameter;
  pin_hash_enc ← ok_or (pin_hash_enc r) MissingParameter;
  new_pin_enc ← ok_or (new_pin_enc r) MissingParameter;
  pin_auth ← ok_or (pin_auth r) MissingParameter;
  version ← selected_protocol (pr_protocol r);
  pin_blocked;;
  secret ← on_pin (shared_secret version platform_kek);
  data ← ok_or (medium_data new_pin_enc pin_hash_enc) InvalidParameter;
  on_pin (verify_pin_auth version secret data pin_auth);;
  mret (version, secret, pin_hash_enc, new_pin_enc).

Definition change_pin_store (version : PinProtocolVersion) (secret : SharedSecret) (new_pin_enc : bytes)
  : a_step PinResponse :=
  new_pin ← decrypt_pin_check_length secret new_pin_enc;
  on_trussed (delete_secret secret);;
  new_pin_hash ← pin_digest new_pin;
  a ← get_state;
  return_if (force_pin_change (persistent a)
             && match pin_hash (persistent a) with Some stored => ct_eq stored new_pin_hash | None => false end)
    PinPolicyViolation;;
  invalidate_tokens;;
  on_persistent (set_pin_hash new_pin_hash (code_points_u8 new_pin));;
  on_persistent (set_force_pin_change false);;
  on_pin reset_pin_tokens;;
  mret empty_response.

Definition change_pin (r : PinRequest) : a_step PinResponse :=
  '(version, secret, pin_hash_enc, new_pin_enc) ← change_pin_request r;
  check_pin version secret pin_hash_enc;;
  change_pin_store version secret new_pin_enc.

(** From the new token to the response. *)
Definition grant_token (version : PinProtocolVersion) (secret : SharedSecret) (granted : Z) (rp_id : option bytes)
  : a_step PinResponse :=
  invalidate_tokens;;
  on_pin (reset_and_begin_using_pin_token version);;
  rp_id ← match rp_id with
          | Some id => id ← ok_or (String256_try_from id) InvalidParameter; mret (Some id)
          | None => mret None
          end;
  on_pin (restrict version granted rp_id);;
  token ← on_pin (encrypt_token version secret);
  on_trussed (delete_secret secret);;
  mret (mkPinResponse None None (Some token)).

Definition get_pin_token_request (r : PinRequest) : a_step (PinProtocolVersion * SharedSecret * bytes) :=
  key_agreement ← ok_or (key_agreement r) MissingParameter;
  pin_hash_enc ← ok_or (pin_hash_enc r) MissingParameter;
  version ← selected_protocol (pr_protocol r);
  return_if (bool_decide (is_Some (pr_permissions r)) || bool_decide (is_Some (pr_rp_id r))) InvalidParameter;;
  pin_blocked;;
  secret ← on_pin (shared_secret version key_agreement);
  mret (version, secret, pin_hash_enc).

Definition get_pin_token (r : PinRequest) : a_step PinResponse :=
  '(version, secret, pin_hash_enc) ← get_pin_token_request r;
  check_pin version secret pin_hash_enc;;
  force ← stored force_pin_change;
  return_if force PinInvalid;;
  grant_token version secret (Z.lor MAKE_CREDENTIAL GET_ASSERTION) None.

Definition get_pin_uv_auth_token_request (r : PinRequest)
  : a_step (PinProtocolVersion * SharedSecret * bytes * Z) :=
  key_agreement ← ok_or (key_agreement r) MissingParameter;
  pin_hash_enc ← ok_or (pin_hash_enc r) MissingParameter;
  permissions ← ok_or (pr_permissions r) MissingParameter;
  return_if (negb (Z.land permissions 0x40 =? 0)) UnauthorizedPermission;;
  version ← selected_protocol (pr_protocol r);
  let permissions := from_bits_truncate permissions in
  return_if (permissions =? 0) InvalidParameter;;
  return_if (intersects permissions (Z.lor MAKE_CREDENTIAL GET_ASSERTION) && bool_decide (pr_rp_id r = None))
    MissingParameter;;
  let unauthorized_permissions :=
    if supports_large_blobs config then BIO_ENROLLMENT else Z.lor BIO_ENROLLMENT LARGE_BLOB_WRITE in
  return_if (intersects permissions unauthorized_permissions) UnauthorizedPermission;;
  pin_blocked;;
  secret ← on_pin (shared_secret version key_agreement);
  mret (version, secret, pin_hash_enc, permissions).

Definition get_pin_uv_auth_token (r : PinRequest) : a_step PinResponse :=
  '(version, secret, pin_hash_enc, permissions) ← get_pin_uv_auth_token_request r;
  check_pin version secret pin_hash_enc;;
  force ← stored force_pin_change;
  return_if force PinPolicyViolation;;
  grant_token version secret permissions (pr_rp_id r).

Definition client_pin (r : PinRequest) : a_step PinResponse :=
  match sub_command r with
  | GetRetries => n ← stored retries; mret (mkPinResponse (Some n) None None)
  | GetKeyAgreement =>
      version ← selected_protocol (pr_protocol r);
      key ← on_pin key_agreement_public_key;
      mret (mkPinResponse None (Some key) None)
  | SetPin => set_pin r
  | ChangePin => change_pin r
  | GetPinToken => get_pin_token r
  | GetPinUvAuthTokenUsingPinWithPermissions => get_pin_uv_auth_token r
  | GetPinUvAuthTokenUsingUvWithPermissions | GetUVRetries | OtherPinSubcommand => throw InvalidParameter
  end.

(** ** The PIN checks of the other commands *)

(** Returns whether user verification was performed. *)
Definition pin_prechecks (options : option AuthenticatorOptions) (pin_auth : option bytes)
    (pin_protocol : option Z) (data : bytes) (permissions : Z) (rp_id : bytes) : a_step bool :=
  a ← get_state;
  let p := persistent a in
  let option_of (f : AuthenticatorOptions → option bool) := o ← options; f o in
  return_if (force_pin_change p) PinPolicyViolation;;
  return_if (always_uv p && bool_decide (pin_auth = None)
             && (negb (permissions =? GET_ASSERTION) || default true (option_of opt_up))) PinRequired;;
  (if bool_decide (pin_auth = Some []) then
     user_present;;
     throw (if pin_is_set p then PinInvalid else PinNotSet)
   else mret tt);;
  version ← match pin_auth with
            | Some _ => version ← selected_protocol pin_protocol; mret (Some version)
            | None => mret None
            end;
  return_if (negb (pin_is_set p)
             && (bool_decide (option_of opt_uv = Some true) || bool_decide (is_Some pin_auth))) InvalidOption;;
  return_if (bool_decide (pin_auth = None) && bool_decide (option_of opt_uv = Some true)) InvalidOption;;
  if pin_is_set p then
    match pin_auth, version with
    | Some pin_auth, Some version =>
        on_pin (verify_pin_token version data pin_auth;;
                with_token version (require_permissions permissions;;
                                    require_valid_for_rp (ScopeRpId rp_id);;
                                    require_user_verified;;
                                    bind_rp_if_unset rp_id;;
                                    mark_used));;
        mret true
    | Some _, None => throw PinAuthInvalid
    | None, _ => return_if (bool_decide (option_of opt_rk = Some true)) PinRequired;; mret false
    end
  else mret false.

Definition verify_credential_management_pin_auth (r : CmRequest) : a_step unit :=
  rp_scope ←
    match cm_sub_command r with
    | EnumerateCredentialsBegin =>
        hash ← ok_or (params ← cm_params r; cm_rp_id_hash params) MissingParameter;
        mret (ScopeRpIdHash hash)
    | _ => mret ScopeAll
    end;
  match cm_sub_command r with
  | GetCredsMetadata | EnumerateRpsBegin | EnumerateCredentialsBegin | DeleteCredential | UpdateUserInformation =>
      version ← selected_protocol (cm_protocol r);
      data ←
        match cm_sub_command r with
        | EnumerateCredentialsBegin | DeleteCredential | UpdateUserInformation =>
            params ← ok_or (cm_params r) MissingParameter;
            cbor ← ok_or (cm_cbor params) LimitExceeded;
            mret (cm_code r :: cbor)
        | _ => mret [cm_code r]
        end;
      pin_auth ← ok_or (cm_pin_auth r) MissingParameter;
      map_err (on_pin (verify_pin_token version data pin_auth)) PinAuthInvalid;;
      on_pin (with_token version (require_permissions CREDENTIAL_MANAGEMENT;;
                                  require_valid_for_rp rp_scope;;
                                  mark_used))
  | EnumerateRpsGetNextRp | EnumerateCredentialsGetNextCredential => mret tt
  | OtherCmSubcommand => throw InvalidParameter
  end.

(** ** [authenticatorConfig] *)

Definition force_change : a_step unit :=
  invalidate_tokens;;
  on_persistent (set_force_pin_change true).

Definition config_set_min_pin_length (r : ConfigRequest) : a_step unit :=
  params ← ok_or (cr_params r) MissingParameter;
  current ← stored min_pin_length;
  let new_min_pin_length := default current (new_min_pin_length params) in
  return_if (new_min_pin_length <? current) PinPolicyViolation;;
  (if bool_decide (force_change_pin params = Some true) then
     is_set ← stored pin_is_set;
     return_if (negb is_set) PinNotSet;;
     force_change
   else mret tt);;
  a ← get_state;
  (if (pin_code_point_length (persistent a) <? new_min_pin_length) && pin_is_set (persistent a)
   then force_change else mret tt);;
  on_persistent (set_min_pin_length new_min_pin_length);;
  match cp_rp_ids params with
  | Some (id :: ids) =>
      return_if (existsb (λ id, MAX_RP_ID_LENGTH <? length id)%nat (id :: ids)
                 || (MAX_MIN_PIN_LENGTH_RP_IDS <? length (id :: ids))%nat) KeyStoreFull;;
      map_err (on_persistent (set_min_pin_length_rp_ids (id :: ids))) KeyStoreFull
  | _ => mret tt
  end.

Definition config_command (r : ConfigRequest) : a_step unit :=
  match cr_sub_command r with
  | SetMinPINLength | ToggleAlwaysUv => mret tt
  | EnableLongTouchForReset => return_if (negb (long_touch_for_reset config)) InvalidParameter
  | OtherConfigSubcommand => throw InvalidParameter
  end;;
  a ← get_state;
  let p := persistent a in
  let toggle_always_uv_bypass :=
    match cr_sub_command r with ToggleAlwaysUv => true | _ => false end && negb (pin_is_set p) && always_uv p in
  (if negb toggle_always_uv_bypass && (pin_is_set p || always_uv p) then
     pin_auth ← ok_or (cr_pin_auth r) PinRequired;
     version ← selected_protocol (cr_protocol r);
     cbor ← match cr_params r with
            | Some params => ok_or (cp_cbor params) InvalidLength
            | None => mret []
            end;
     on_pin (verify_pin_token version (replicate 32 0xff ++ [0x0d; cr_code r] ++ cbor) pin_auth;;
             with_token version (require_permissions AUTHENTICATOR_CONFIGURATION;; mark_used))
   else mret tt);;
  match cr_sub_command r with
  | SetMinPINLength => config_set_min_pin_length r
  | ToggleAlwaysUv => on_persistent toggle_always_uv
  | EnableLongTouchForReset => return_if (negb (long_touch_for_reset config)) InvalidParameter
  | OtherConfigSubcommand => throw InvalidParameter
  end.

(** ** [authenticatorReset] *)

(** [if cleanup.is_err() { latch } cleanup], and the closure of [runtime.reset]. *)
Definition or_latch (c : a_step unit) : a_step unit := λ a,
  match c a with
  | Some (Err e, a) => (latch_failure;; throw e) a
  | result => result
  end.

Definition remove_if_there (path : string) : f_step unit :=
  there ← try_syscall (EntryMetadata path) Other;
  if there : bool then try_syscall (RemoveFile path) Other else mret tt.

Definition reset_cleanup : f_step unit :=
  try_syscall (DeleteAllKeys Internal) Other;;
  try_syscall (RemoveDirAll RK_DIR) Other;;
  remove_if_there RK_STAGE;;
  remove_if_there RK_JOURNAL_STAGE;;
  remove_if_there RK_JOURNAL.

(** [large_blobs::reset], in the internal store. *)
Definition large_blobs_reset : f_step unit := ok_syscall (RemoveFile "large-blob-array");; mret tt.

Definition reset : a_step unit :=
  uptime ← on_trussed (syscall Uptime);
  return_if (10 <? uptime / 10 ^ 9) NotAllowed;;
  (if long_touch_for_reset config then user_present_strong else user_present);;
  set_runtime discard_authorizations;;
  or_latch (on_trussed reset_cleanup);;
  on_trussed large_blobs_reset;;
  on_persistent (persistent_reset config);;
  or_latch (on_runtime runtime_reset).

(** ** Removing a credential *)

Definition delete_resident_key_by_path (rk_path : string) : a_step unit :=
  credential_data ← on_trussed (try_syscall (ReadFile rk_path) Other);
  let key := match credential_key credential_data with Some (ResidentKey key) => Some key | _ => None end in
  set_runtime clear_credential_continuations;;
  or_latch (on_trussed (
    try_syscall (RemoveFile rk_path) Other;;
    match key with
    | Some key =>
        success ← try_syscall (DeleteKey key) Other;
        return_if (negb success) Other
    | None => mret tt
    end)).

(** ** Dispatch *)

(** [if persistence_failed() { discard_authorizations() } result]. *)
Definition discarding {A} (c : a_step A) : a_step A := λ a,
  match c a with
  | Some (r, a) =>
      Some (r, if persistence_failed (persistent a)
               then mkAuthenticator (trussed a) (persistent a) (discard_authorizations (runtime a)) else a)
  | None => None
  end.

(** The command is the deserialized request; one that does not parse is an error here. *)
Definition try_get_ctap2_response {A} (command : a_step A) : a_step A :=
  on_persistent (load_if_not_initialised config);;
  on_runtime observe_pin_tokens;;
  on_trussed recover_resident_replacement;;
  discarding command.

Definition try_handle_ctap2 {A} (command : a_step A) : a_step A :=
  on_persistent (load_if_not_initialised config);;
  try_get_ctap2_response command.
End commands.
