(* ===== verification/ModelFido.v ===== *)
(** * A concrete client

    Files and keys in memory, a clock that can be set, and a toy for each primitive: it
    discharges the laws of [FidoClient], [FidoState] and [ResidentReplacement], and the
    witnesses evaluate on it. *)

From Stdlib Require Import Ascii String.
From stdpp Require Import base tactics numbers list option strings gmap.
From S2P Require Import Prelude Interfaces FidoClient PinToken FidoState ResidentReplacement.

(** A key is its location and its material. *)
Record model_client := mkModelClient {
  mc_files : gmap string bytes;
  mc_keys : gmap Z (Location * bytes);
  mc_next : Z;
  mc_clock : option Z;
}.

Section calls.
Implicit Types t : model_client.
Definition mc_with_keys (keys : gmap Z (Location * bytes)) t : model_client :=
  mkModelClient (mc_files t) keys (mc_next t) (mc_clock t).
Definition mc_with_files (files : gmap string bytes) t : model_client :=
  mkModelClient files (mc_keys t) (mc_next t) (mc_clock t).
Definition mc_make (location : Location) (material : bytes) t : option KeyId * model_client :=
  (Some (mc_next t), mkModelClient (mc_files t) (<[mc_next t := (location, material)]> (mc_keys t)) (mc_next t + 1) (mc_clock t)).
Definition mc_material (k : KeyId) t : option bytes := snd <$> mc_keys t !! k.

(** A key made from the material of another. *)
Definition mc_derive (k : KeyId) (f : bytes → bytes) t : option KeyId * model_client :=
  match mc_material k t with
  | Some m => mc_make Volatile (f m) t
  | None => (None, t)
  end.

(** A tag of 32 bytes. *)
Definition mc_tag (l : bytes) : bytes := le_encode 32 (foldr (λ b a, b + 257 * a + 1) 7 l).

Definition mc_request {A} (r : request A) t : option A * model_client :=
  match r in request A return option A * model_client with
  | Uptime => (mc_clock t, t)
  | ConfirmUserPresent _ _ => (Some (Ok tt), t)
  | DeleteKey k => (Some (bool_decide (is_Some (mc_keys t !! k))), mc_with_keys (base.delete k (mc_keys t)) t)
  | DeleteAllKeys location => (Some tt, mc_with_keys (filter (λ kv, fst (snd kv) ≠ location) (mc_keys t)) t)
  | GenerateSecretKey n => mc_make Volatile (replicate n (mc_next t)) t
  | GenerateKey _ => mc_make Internal [mc_next t] t
  | GenerateP256PrivateKey => mc_make Volatile [mc_next t] t
  | DeriveP256PublicKey k => mc_derive k id t
  | SerializeP256 k => (mc_material k t, t)
  | DeserializeP256Key d => mc_make Volatile d t
  | Agree k k' => match mc_material k t, mc_material k' t with
                  | Some m, Some m' => mc_make Volatile (m ++ m') t
                  | _, _ => (None, t)
                  end
  | DeriveKeySha256 k => mc_derive k mc_tag t
  | HkdfExtract k => mc_derive k mc_tag t
  | HkdfExpand k info n => mc_derive k (λ m, take n (mc_tag (m ++ info))) t
  | SignHmacSha256 k d => (m ← mc_material k t; Some (mc_tag (m ++ d)), t)
  | HashSha256 d => (Some (mc_tag d), t)
  | RandomBytes n => (Some (zeros n), t)
  | EncryptCbc k d _ => (_ ← mc_material k t; Some d, t)
  | WrapKeyCbc k k' _ => (_ ← mc_material k t; mc_material k' t, t)
  | DecryptCbc k d _ => (_ ← mc_material k t; Some (Some d), t)
  | EntryMetadata p => (Some (bool_decide (is_Some (mc_files t !! p))), t)
  | ReadFile p => (mc_files t !! p, t)
  | WriteFile p d => (Some tt, mc_with_files (<[p := d]> (mc_files t)) t)
  | RemoveFile p => match mc_files t !! p with
                    | Some _ => (Some tt, mc_with_files (base.delete p (mc_files t)) t)
                    | None => (None, t)
                    end
  | RenameFile p q => match mc_files t !! p with
                      | Some d => (Some tt, mc_with_files (<[q := d]> (base.delete p (mc_files t))) t)
                      | None => (None, t)
                      end
  | RemoveDirAll dir => (Some tt, mc_with_files (filter (λ kv, String.prefix (dir +:+ "/") (fst kv) = false) (mc_files t)) t)
  end.
End calls.

#[export] Instance model_fido : FidoClient model_client := λ A r t, mc_request r t.

(** ** The laws *)

Lemma mc_make_files l m t a t' : mc_make l m t = (a, t') → mc_files t' = mc_files t ∧ ∀ k, is_Some (mc_keys t !! k) → is_Some (mc_keys t' !! k).
Proof. intros [= <- <-]. split; [done|]. intros k Hk. cbn. by apply lookup_insert_is_Some'; right. Qed.

Lemma mc_derive_files k f t a t' : mc_derive k f t = (a, t') → mc_files t' = mc_files t ∧ ∀ k, is_Some (mc_keys t !! k) → is_Some (mc_keys t' !! k).
Proof. unfold mc_derive. destruct (mc_material k t); [apply mc_make_files|by intros [= <- <-]]. Qed.

Lemma mc_kept {A} (r : request A) t a t' : mc_request r t = (a, t') →
  (∀ p, touches r p = false → mc_files t' !! p = mc_files t !! p) ∧
  (∀ k, removes r k = false → is_Some (mc_keys t !! k) → is_Some (mc_keys t' !! k)).
Proof.
  destruct r; cbn [mc_request touches removes]; intros K;
    repeat case_match; try (by apply mc_make_files in K as [-> ?]; auto); try (by apply mc_derive_files in K as [-> ?]; auto);
    try (by injection K as <- <-); injection K as <- <-; cbn [mc_with_files mc_with_keys mc_files mc_keys];
    (split; [intros p Hp|intros q Hk ?]); try done; bool_to_prop.
  - by rewrite lookup_delete_ne.
  - by rewrite lookup_insert_ne.
  - by rewrite lookup_delete_ne.
  - by rewrite lookup_insert_ne, lookup_delete_ne.
  - rewrite map_lookup_filter. destruct (mc_files t !! p); [|done]. cbn. by rewrite option_guard_True.
Qed.

Lemma mc_back {A} (r : request A) t a t' k : mc_request r t = (a, t') → makes_key r = false →
  is_Some (mc_keys t' !! k) → is_Some (mc_keys t !! k).
Proof.
  destruct r; cbn [mc_request makes_key]; intros K Hm; try done; repeat case_match; injection K as <- <-;
    cbn [mc_with_files mc_with_keys mc_files mc_keys]; try done.
  - rewrite lookup_delete_is_Some. tauto.
  - rewrite map_lookup_filter. destruct (mc_keys t !! k); [done|]. by intros [? ?].
Qed.

#[export] Instance model_fido_view : FidoClientView model_client.
Proof.
  refine {| tc_file t p := mc_files t !! p; tc_key t k := is_Some (mc_keys t !! k) |}; cbv [tc_call model_fido].
  - intros A r t a t' p K. by apply (mc_kept r t a t').
  - intros A r t a t' k K. by apply (mc_kept r t a t').
  - intros A r t a t' k. apply mc_back.
  - by intros t p d t' [= E _].
  - by intros t p b t' [= <- _].
  - intros t p d t' [= <-]. apply lookup_insert_eq.
  - by intros t p d t' [=].
  - intros t p t'. cbn. case_match; intros [= <-]. apply lookup_delete_eq.
  - intros t p t'. cbn. case_match; intros [=]. left. by subst.
  - intros t p q t'. cbn. case_match eqn:E; intros [= <-] Hne. split; [done|]. cbn.
    rewrite lookup_insert_ne, lookup_delete_eq, lookup_insert_eq by done. done.
  - intros t p q t'. cbn. case_match; intros [=]. left. by subst.
  - intros t k t' [= _ <-]. cbn. rewrite lookup_delete_eq. by intros [].
  - intros t n d t' [= <- _]. split; [apply length_replicate|]. apply Forall_replicate. done.
Defined.

(** ** The crates *)

#[export] Instance model_crates : FidoCrates := {|
  MAKE_CREDENTIAL := 1; GET_ASSERTION := 2; CREDENTIAL_MANAGEMENT := 4; BIO_ENROLLMENT := 8;
  LARGE_BLOB_WRITE := 16; AUTHENTICATOR_CONFIGURATION := 32;
  DEFAULT_MIN_PIN_LENGTH := 4; MAX_PIN_LENGTH := 63; MAX_RP_ID_LENGTH := 32; MAX_MIN_PIN_LENGTH_RP_IDS := 8;
  ct_eq := bytes_eqb;
  EcdhEsHkdf256PublicKey := bytes; cose_serialize := Some; cose_deserialize := Some;
|}.

#[export] Instance model_crates_view : FidoCratesView.
Proof.
  refine {| permission_exponents := [0; 1; 2; 3; 4; 5]%nat |}.
  - done.
  - apply (bool_decide_unpack _). by vm_compute.
  - apply bytes_eqb_true.
  - vm_compute. repeat split; by try lia.
Defined.

(** A state without relying parties, as a list of fields. *)
Definition opt_code (o : option Z) : list Z := match o with Some k => [1; k] | None => [0; 0] end.
Definition opt_decode (a b : Z) : option Z := if a =? 1 then Some b else None.

Definition storable (p : PersistentState) : Prop :=
  is_byte (ps_mismatches p) ∧ is_u32 (timestamp p) ∧ length (default (zeros 16) (pin_hash p)) = 16%nat ∧
  min_pin_length_rp_ids p = [].
#[export] Instance storable_dec p : Decision (storable p).
Proof. unfold storable, is_byte, is_u32. solve_decision. Defined.

Definition mc_fields (p : PersistentState) : list Z :=
  match ps_credential_id_version p with None => 0 | Some CredentialV1 => 1 | Some CredentialV2 => 2 end ::
  Z.b2z (bool_decide (is_Some (pin_hash p))) :: ps_mismatches p :: pin_code_point_length p :: timestamp p ::
  ps_min_pin_length p :: Z.b2z (force_pin_change p) :: Z.b2z (always_uv p) ::
  opt_code (ps_key_encryption_key p) ++ opt_code (ps_key_wrapping_key p) ++ default (zeros 16) (pin_hash p).

Definition mc_serialize (p : PersistentState) : option bytes :=
  if decide (storable p) then Some (mc_fields p) else None.
Definition mc_deserialize (d : bytes) : option PersistentState :=
  match d with
  | v :: h :: m :: c :: ts :: l :: f :: u :: a :: k :: a' :: k' :: hash =>
      let p := mkPersistentState false false
                 (if v =? 1 then Some CredentialV1 else if v =? 2 then Some CredentialV2 else None)
                 (opt_decode a k) (opt_decode a' k') m (if h =? 1 then Some hash else None) c ts l [] (f =? 1) (u =? 1) in
      if decide (storable p) then Some p else None
  | _ => None
  end.

#[export] Instance model_cbor : PersistentCbor := {| cbor_serialize := mc_serialize; cbor_deserialize := mc_deserialize |}.

Lemma mc_deserialize_Some d p : mc_deserialize d = Some p → skip_fields p = p ∧ storable p.
Proof.
  unfold mc_deserialize. do 12 (destruct d as [|? d]; [done|]). case_decide as S; [|done]. by intros [= <-].
Qed.

#[export] Instance model_cbor_view : PersistentCborView.
Proof.
  split; cbn.
  - intros p d. unfold mc_serialize. case_decide as S; [|done]. intros [= <-].
    destruct p as [i f v ek wk m h c ts l ids fp uv]. destruct S as (Hm & Ht & Hh & Hids). cbn in Hids. subst ids.
    assert (mc_deserialize (mc_fields (mkPersistentState i f v ek wk m h c ts l [] fp uv)) =
      (let p := mkPersistentState false false v ek wk m h c ts l [] fp uv in
       if decide (storable p) then Some p else None)) as ->.
    { destruct v as [[]|], ek, wk, h, fp, uv; done. }
    cbn zeta. rewrite decide_True; [done|]. by split_and!.
  - intros d p E. by apply mc_deserialize_Some in E as [? _].
  - intros d p E. apply mc_deserialize_Some in E as [_ (Hm & Ht & Hh & _)]. split_and!; [done|done|].
    intros hash E. by rewrite E in Hh.
Defined.

(** A journal is its two names behind their lengths; a credential is its key. *)
Definition name_code (s : string) : bytes := Z.of_nat (String.length s) :: ascii_bytes s.
Definition name_decode (d : bytes) : option (string * bytes) :=
  match d with
  | n :: d => Some (string_of_list_ascii (Ascii.ascii_of_N ∘ Z.to_N <$> take (Z.to_nat n) d), drop (Z.to_nat n) d)
  | [] => None
  end.

Definition mc_journal (j : Replacement) : bytes := old_key j :: name_code (old_path j) ++ name_code (new_path j).
Definition mc_journal_decode (d : bytes) : option Replacement :=
  match d with
  | k :: d =>
      '(old, d) ← name_decode d;
      '(new, _) ← name_decode d;
      Some (mkReplacement old k new)
  | [] => None
  end.

Lemma length_ascii_bytes s : length (ascii_bytes s) = String.length s.
Proof. unfold ascii_bytes. rewrite length_fmap. induction s; simpl; congruence. Qed.

Lemma ascii_bytes_string s : string_of_list_ascii (Ascii.ascii_of_N ∘ Z.to_N <$> ascii_bytes s) = s.
Proof.
  unfold ascii_bytes. rewrite <- list_fmap_compose.
  transitivity (string_of_list_ascii (list_ascii_of_string s)); [|apply string_of_list_ascii_of_string].
  f_equal. transitivity (id <$> list_ascii_of_string s); [|apply list_fmap_id].
  apply list_fmap_ext. intros _ c _. cbn. by rewrite N2Z.id, ascii_N_embedding.
Qed.

Lemma name_roundtrip s d : name_decode (name_code s ++ d) = Some (s, d).
Proof.
  unfold name_code, name_decode. cbn [app]. rewrite Nat2Z.id, <- length_ascii_bytes.
  by rewrite take_app_length, drop_app_length, ascii_bytes_string.
Qed.

(** The parent of a name in a directory. *)
Fixpoint mc_parent (s : string) : option string :=
  match s with
  | EmptyString => None
  | String c s =>
      if decide (c = "/"%char) then Some EmptyString else String c <$> mc_parent s
  end.

Lemma mc_parent_prefix s dir : mc_parent s = Some dir → String.prefix (dir +:+ "/") s = true.
Proof.
  revert dir. induction s as [|c s IH]; intros dir; cbn [mc_parent]; [done|].
  case_decide as E; [intros [= <-]; subst; by destruct s|].
  destruct (mc_parent s) as [dir'|]; [|done]. intros [= <-].
  specialize (IH dir' eq_refl). change (String.prefix (String c (dir' +:+ "/")) (String c s) = true).
  cbn [String.prefix]. by destruct (ascii_dec c c).
Qed.

#[export] Instance model_replacement : ReplacementCbor := {|
  journal_serialize j := Some (mc_journal j);
  journal_deserialize := mc_journal_decode;
  credential_key d := match d with [k] => Some (ResidentKey k) | [] => Some WrappedKey | _ => None end;
  path_parent := mc_parent;
|}.

#[export] Instance model_replacement_view : ReplacementCborView.
Proof.
  split; cbn.
  - intros [old k new] d [= <-]. unfold mc_journal, mc_journal_decode. cbn [old_key old_path new_path].
    rewrite name_roundtrip. cbn [mbind option_bind]. by rewrite <- (app_nil_r (name_code new)), name_roundtrip.
  - intros p. apply mc_parent_prefix.
Defined.
