(* ===== verification/ResidentTheorems.v ===== *)
(** * A replaced credential is never lost

    Whatever request fails, and wherever the power goes, the account keeps a usable
    credential: the old one before the journal is published, the new one once it is, and
    only the new one after a recovery that succeeds. *)

From stdpp Require Import base tactics numbers list option strings sets.
From S2P Require Import Prelude FidoClient ResidentReplacement ModelFido.

Section replacement.
Context {T : Type} `{FidoClientView T, ReplacementCborView}.
Context (j : Replacement) (d0 d1 : bytes) (k1 : KeyId).

(** What [make_credential] hands over: two records of the directory, with two keys. *)
Definition fit_to_replace : Prop :=
  old_path j ≠ new_path j ∧ in_rk_dir (old_path j) = true ∧ in_rk_dir (new_path j) = true ∧
  credential_key d1 = Some (ResidentKey k1) ∧ k1 ≠ old_key j.

(** Before the journal, while it is carried out, and after. *)
Definition untouched (t : T) : Prop :=
  tc_file t RK_JOURNAL = None ∧ tc_file t (old_path j) = Some d0 ∧ tc_file t (new_path j) = None ∧
  tc_key t (old_key j).
Definition unpublished (t : T) : Prop :=
  tc_file t RK_STAGE = Some d1 ∧ tc_file t (old_path j) = Some d0 ∧ tc_file t (new_path j) = None ∧
  tc_key t (old_key j).
Definition published (t : T) : Prop :=
  tc_file t RK_STAGE = None ∧ tc_file t (new_path j) = Some d1 ∧
  (tc_file t (old_path j) = None ∨ tc_file t (old_path j) = Some d0 ∧ tc_key t (old_key j)).
Definition journalled (t : T) : Prop :=
  (∃ d, tc_file t RK_JOURNAL = Some d ∧ journal_deserialize d = Some j) ∧ tc_key t k1 ∧
  (unpublished t ∨ published t).
Definition replaced (t : T) : Prop :=
  tc_file t RK_JOURNAL = None ∧ tc_file t (new_path j) = Some d1 ∧ tc_file t (old_path j) = None ∧
  tc_key t k1.

(** Nothing else changed: no other file, and no other key is gone. *)
Definition others_kept (t t' : T) : Prop :=
  (∀ p, p ∉ [RK_STAGE; RK_JOURNAL_STAGE; RK_JOURNAL; old_path j; new_path j] → tc_file t' p = tc_file t p) ∧
  (∀ k, k ≠ old_key j → k ≠ k1 → tc_key t k → tc_key t' k).

#[export] Instance others_kept_preorder : PreOrder others_kept.
Proof.
  split; [by split|]. intros t1 t2 t3 [F1 K1] [F2 K2]. split; [|naive_solver].
  intros p Hp. by rewrite F2, F1.
Qed.

(** The last requests of a run from [t] to [t']: the deletion of the old key was answered
    with [success: false], and the journal was removed. *)
Definition deletion_refused (t t' : T) : Prop :=
  ∃ t1 t2, others_kept t t1 ∧ tc_call (DeleteKey (old_key j)) t1 = (Some false, t2) ∧
    tc_call (RemoveFile RK_JOURNAL) t2 = (Some tt, t').

(** What success means: the new credential is in place, the old record is gone, and its key
    too unless the client did not say that it deleted it. *)
Definition succeeded (t t' : T) : Prop :=
  replaced t' ∧ (¬ tc_key t' (old_key j) ∨ deletion_refused t t').

(** A record with its key. *)
Definition usable (t : T) : Prop :=
  tc_file t (old_path j) = Some d0 ∧ tc_key t (old_key j) ∨ tc_file t (new_path j) = Some d1 ∧ tc_key t k1.

(** The names of the directory are none of the journal's. *)
Lemma rk_names p : in_rk_dir p = true → p ≠ RK_STAGE ∧ p ≠ RK_JOURNAL_STAGE ∧ p ≠ RK_JOURNAL.
Proof.
  unfold in_rk_dir. rewrite bool_decide_eq_true. intros Hp%path_parent_rk.
  repeat split; intros ->; by vm_compute in Hp.
Qed.

Context (Hfit : fit_to_replace).

Lemma names_apart : old_path j ≠ new_path j ∧
  (old_path j ≠ RK_STAGE ∧ old_path j ≠ RK_JOURNAL_STAGE ∧ old_path j ≠ RK_JOURNAL) ∧
  (new_path j ≠ RK_STAGE ∧ new_path j ≠ RK_JOURNAL_STAGE ∧ new_path j ≠ RK_JOURNAL).
Proof. destruct Hfit as (Hne & Ho & Hn & _). auto using rk_names. Qed.

(** A request moves the store from one of these states to another: what it does to the
    files and keys they speak of. *)
Ltac apart := solve [done | apply bool_decide_eq_false; naive_solver congruence
  | apply orb_false_iff; split; apply bool_decide_eq_false; naive_solver congruence].
Ltac effects K :=
  pose proof names_apart as (? & (? & ? & ?) & (? & ? & ?));
  let F := fresh "F" in let G := fresh "G" in let B := fresh "B" in
  pose proof (λ p, tc_frame _ _ _ _ _ p K) as F; cbn [touches] in F;
  pose proof (λ k, tc_key_frame _ _ _ _ _ k K) as G; cbn [removes] in G;
  pose proof (λ k, tc_key_back _ _ _ _ _ k K) as B; cbn [makes_key] in B.

Lemma others_kept_call {A} (r : request A) t a t' : tc_call r t = (a, t') →
  (∀ p, touches r p = true → p ∈ [RK_STAGE; RK_JOURNAL_STAGE; RK_JOURNAL; old_path j; new_path j]) →
  (∀ k, removes r k = true → k = old_key j ∨ k = k1) → others_kept t t'.
Proof.
  intros K Hp Hk. split.
  - intros p Hout. apply (tc_frame _ r _ _ _ _ K). destruct (touches r p) eqn:E; [|done]. by apply Hp in E.
  - intros k Hk1 Hk2. apply (tc_key_frame _ r _ _ _ _ K). destruct (removes r k) eqn:E; [|done].
    apply Hk in E. naive_solver.
Qed.

Lemma others_kept_same t t' : same_store t t' → others_kept t t'.
Proof. intros [F K]. split; [auto|]. intros k _ _. apply K. Qed.

Lemma journalled_same t t' : same_store t t' → journalled t → journalled t'.
Proof.
  intros [F K]. unfold journalled, unpublished, published. rewrite !F, !K. done.
Qed.
Lemma untouched_same t t' : same_store t t' → untouched t → untouched t'.
Proof. intros [F K]. unfold untouched. by rewrite !F, !K. Qed.

Lemma succeeded_after t0 t t' : others_kept t0 t → succeeded t t' → succeeded t0 t'.
Proof.
  intros O [R [G|(t1 & t2 & O1 & K)]]; (split; [done|]); [by left|right]. exists t1, t2. split; [by etrans|done].
Qed.

(** Publishing the staged record. *)
Lemma rename_journalled t : journalled t → unpublished t →
  wp (try_syscall (RenameFile RK_STAGE (new_path j)) Other)
    (λ r t', journalled t' ∧ others_kept t t' ∧ (r = Ok tt → published t')) t.
Proof.
  intros [[d [Hd Hdj]] [Hk _]] (Hs & Ho & Hn & Hold).
  assert (∀ a t', tc_call (RenameFile RK_STAGE (new_path j)) t = (a, t') →
    tc_file t' RK_JOURNAL = Some d ∧ tc_key t' k1 ∧ tc_file t' (old_path j) = Some d0 ∧ tc_key t' (old_key j) ∧
    others_kept t t') as Hkept.
  { intros a t' K. effects K. split_and!; [rewrite F; [done|apart]|by apply G|rewrite F; [done|apart]|by apply G|].
    eapply (others_kept_call _ _ _ _ K); cbn; [|done].
    intros p [?%bool_decide_eq_true|?%bool_decide_eq_true]%orb_true_iff; subst; set_solver. }
  pose proof names_apart as (_ & _ & [Hne _]).
  apply wp_try_syscall; [intros [] t' K|intros t' K]; destruct (Hkept _ _ K) as (Hj' & Hk' & Ho' & Hold' & Hoth).
  - destruct (tc_rename_Some _ _ _ _ K) as (_ & Hs' & Hn'); [done|]. rewrite Hs in Hn'.
    assert (published t') by (unfold published; tauto).
    split_and!; [|done|done]. split; [eauto|]. by split; [|right].
  - split_and!; [|done|done]. split; [eauto|]. split; [done|].
    destruct (tc_rename_None _ _ _ _ K) as [[Hs' Hn']|(_ & Hs' & Hn')]; [done|left|right];
      unfold unpublished, published; rewrite ?Hs', ?Hn'; tauto.
Qed.

(** Removing the old record, once the new one is published. *)
Lemma remove_published t : journalled t → published t →
  wp (try_syscall (RemoveFile (old_path j)) Other)
    (λ r t', journalled t' ∧ others_kept t t' ∧ (r = Ok tt → published t' ∧ tc_file t' (old_path j) = None)) t.
Proof.
  intros [[d [Hd Hdj]] [Hk _]] (Hs & Hn & Ho).
  assert (∀ a t', tc_call (RemoveFile (old_path j)) t = (a, t') →
    journalled t' ∧ others_kept t t' ∧ published t') as Hkept.
  { intros a t' K. effects K.
    assert (others_kept t t').
    { eapply (others_kept_call _ _ _ _ K); cbn; [|done]. intros p ?%bool_decide_eq_true; subst; set_solver. }
    assert (tc_file t' (old_path j) = None ∨ tc_file t' (old_path j) = tc_file t (old_path j)) as Hrem.
    { destruct a as [[]|]; [left; by eapply tc_remove_Some|]. destruct (tc_remove_None _ _ _ K); auto. }
    assert (published t') as Hp.
    { unfold published. rewrite (F RK_STAGE), (F (new_path j)) by apart. split_and!; [done|done|].
      destruct Hrem as [->| ->]; [by left|]. destruct Ho as [->|[-> Hold]]; [by left|right]. auto. }
    split_and!; [|done|done]. unfold journalled. rewrite (F RK_JOURNAL) by apart.
    split; [eauto|]. split; [by apply G|by right]. }
  apply wp_try_syscall; [intros [] t' K|intros t' K]; destruct (Hkept _ _ K) as (? & ? & ?); split_and!; try done.
  intros _. split; [done|]. by eapply tc_remove_Some.
Qed.

(** Deleting the old key and the journal. *)
Lemma finish_published t : journalled t → published t → tc_file t (old_path j) = None →
  wp (try_syscall (DeleteKey (old_key j)) Other;; try_syscall (RemoveFile RK_JOURNAL) Other)
    (λ r t', others_kept t t' ∧ (r = Ok tt → succeeded t t') ∧ (journalled t' ∨ replaced t')) t.
Proof.
  intros [[d [Hd Hdj]] [Hk _]] (Hs & Hn & _) Ho. destruct Hfit as (_ & _ & _ & _ & Hk1).
  assert (∀ a t', tc_call (DeleteKey (old_key j)) t = (a, t') →
    others_kept t t' ∧ (∀ p, tc_file t' p = tc_file t p) ∧ tc_key t' k1) as Hdel.
  { intros a t' K. effects K. split_and!; [|auto|].
    - eapply (others_kept_call _ _ _ _ K); cbn; [done|]. intros k ?%bool_decide_eq_true. by left.
    - apply G; [by apply bool_decide_eq_false|done]. }
  assert (∀ t', (∀ p, tc_file t' p = tc_file t p) → tc_key t' k1 → journalled t' ∧ published t') as Hsame.
  { intros t' F K1. unfold journalled, published. rewrite !F. split; [split; [eauto|]|]; [split; [done|right]|];
      unfold published; rewrite ?F; tauto. }
  apply wp_bind, wp_try_syscall; [intros b t1 K|intros t1 K]; destruct (Hdel _ _ K) as (Hoth & F & Hk').
  2:{ destruct (Hsame _ F Hk'). split_and!; auto. done. }
  destruct (Hsame _ F Hk') as [Hj1 Hp1].
  assert (∀ a t2, tc_call (RemoveFile RK_JOURNAL) t1 = (a, t2) →
    others_kept t t2 ∧ tc_key t2 k1 ∧ (b = true → ¬ tc_key t2 (old_key j)) ∧
    ∀ p, p ≠ RK_JOURNAL → tc_file t2 p = tc_file t p) as Hrem.
  { intros a t2 K2. effects K2.
    split_and!; [etrans; [exact Hoth|]|by apply G|intros -> ?; by eapply (tc_delete _ _ _ K), B|].
    - eapply (others_kept_call _ _ _ _ K2); cbn; [|done]. intros p ?%bool_decide_eq_true; subst; set_solver.
    - intros p Hp. rewrite F0; [auto|by apply bool_decide_eq_false]. }
  pose proof names_apart as (_ & (_ & _ & Ho2) & (_ & _ & Hn2)).
  apply wp_try_syscall; [intros [] t2 K2|intros t2 K2]; destruct (Hrem _ _ K2) as (Hoth2 & Hk2 & Hold2 & F2).
  - assert (replaced t2). { unfold replaced. rewrite (tc_remove_Some _ _ _ K2), !F2; auto. }
    split_and!; auto. intros _. split; [done|]. destruct b; [left; auto|right]. by exists t, t1.
  - split_and!; [done|done|]. destruct (tc_remove_None _ _ _ K2) as [E|E]; [left|right].
    + rewrite F in E. apply Hsame; [|done]. intros p. destruct (decide (p = RK_JOURNAL)) as [->|]; auto.
    + unfold replaced. rewrite E, !F2; auto.
Qed.

(** The end of a recovery, and all of it. *)
Definition recovered (t0 : T) (r : result CtapError unit) (t' : T) : Prop :=
  others_kept t0 t' ∧ (r = Ok tt → succeeded t0 t') ∧ (journalled t' ∨ replaced t').

Lemma recovered_err t0 t e : others_kept t0 t → journalled t → recovered t0 (Err e) t.
Proof. intros. split_and!; [done|done|by left]. Qed.

Lemma published_same t t' : same_store t t' → published t → published t'.
Proof. intros [F K]. unfold published. by rewrite !F, !K. Qed.

Lemma recover_published t0 t : others_kept t0 t → journalled t → published t →
  wp (new ← try_syscall (ReadFile (new_path j)) Other;
      key ← ok_or (credential_key new) Other;
      return_if (negb match key with ResidentKey key => negb (key =? old_key j) | WrappedKey => false end) Other;;
      old_there ← file_exists (old_path j);
      (if old_there : bool then try_syscall (RemoveFile (old_path j)) Other else mret tt);;
      try_syscall (DeleteKey (old_key j)) Other;;
      try_syscall (RemoveFile RK_JOURNAL) Other) (recovered t0) t.
Proof.
  intros H0t J P. pose proof Hfit as (_ & _ & _ & Hkey & Hne).
  assert (∀ t1, same_store t t1 → others_kept t0 t1 ∧ journalled t1 ∧ published t1) as Hq.
  { intros t1 S. split_and!; [etrans; [done|by apply others_kept_same]|by eapply journalled_same|by eapply published_same]. }
  apply wp_bind, wp_read_file; [intros new t1 S1 Enew|intros t1 S1; apply recovered_err; by apply Hq].
  assert (new = d1) as -> by (destruct P as (_ & Hn & _); congruence).
  rewrite Hkey. apply wp_bind, wp_ret, wp_bind, wp_return_if; intros Eg.
  { apply Z.eqb_neq in Hne. by rewrite Hne in Eg. }
  destruct (Hq _ S1) as (O1 & J1 & P1). clear Hq Enew Eg.
  assert (∀ t2, same_store t1 t2 → others_kept t0 t2 ∧ journalled t2 ∧ published t2) as Hq.
  { intros t2 S. split_and!; [etrans; [done|by apply others_kept_same]|by eapply journalled_same|by eapply published_same]. }
  apply wp_bind, wp_metadata; [intros t2 S2|intros t2 S2; apply recovered_err; by apply Hq].
  destruct (Hq _ S2) as (O2 & J2 & P2). apply wp_bind.
  assert (wp (if bool_decide (is_Some (tc_file t1 (old_path j))) then try_syscall (RemoveFile (old_path j)) Other else mret tt)
    (λ r t', journalled t' ∧ others_kept t0 t' ∧ (r = Ok tt → published t' ∧ tc_file t' (old_path j) = None)) t2) as W.
  { case_bool_decide as E.
    - eapply wp_mono; [by apply remove_published|]. intros r t' (? & ? & ?). split_and!; [done|by etrans|done].
    - apply wp_ret. split_and!; [done|done|]. intros _. split; [done|]. rewrite (proj1 S2). by apply eq_None_not_Some. }
  eapply wp_mono; [exact W|]. intros [[]|e] t3 (J3 & O3 & HP); [|by apply recovered_err].
  destruct HP as [P3 N3]; [done|]. eapply wp_mono; [by apply finish_published|].
  intros r t' (? & HR & ?). split_and!; [by etrans| |done]. intros E. eapply succeeded_after; [done|by apply HR].
Qed.

Lemma recover_journalled t : journalled t → wp recover_resident_replacement (recovered t) t.
Proof.
  intros J. pose proof Hfit as (Hne & Ho & Hn & _). pose proof J as [[d [Hd Hdj]] _].
  apply wp_bind, wp_metadata; [intros t1 S1|intros t1 S1; apply recovered_err; [by apply others_kept_same|by eapply journalled_same]].
  rewrite bool_decide_true by eauto. cbn [negb].
  apply wp_bind, wp_read_file; [intros d' t2 S2 Ed|intros t2 S2; apply recovered_err].
  2:{ etrans; by apply others_kept_same. } 2:{ by do 2 (eapply journalled_same; [eassumption|]). }
  rewrite (proj1 S1) in Ed. assert (d' = d) as -> by congruence. rewrite Hdj.
  apply wp_bind, wp_ret, wp_bind, wp_return_if; intros Eg.
  { by rewrite bool_decide_false, Ho, Hn in Eg. }
  assert (journalled t2) as J2 by (by do 2 (eapply journalled_same; [eassumption|])).
  assert (others_kept t t2) as O2 by (etrans; by apply others_kept_same).
  clear dependent t1. clear Eg. apply wp_bind, wp_metadata; [intros t3 S3|intros t3 S3; apply recovered_err].
  2:{ etrans; [done|by apply others_kept_same]. } 2:{ by eapply journalled_same. }
  assert (journalled t3) as J3 by (by eapply journalled_same).
  assert (others_kept t t3) as O3 by (etrans; [done|by apply others_kept_same]).
  apply wp_bind. case_bool_decide as Es.
  - assert (unpublished t3) as U.
    { destruct J3 as (_ & _ & [U|(Hs & _)]); [done|]. rewrite <- (proj1 S3), Hs in Es. by destruct Es. }
    eapply wp_mono; [by apply rename_journalled|]. intros [[]|e] t4 (J4 & O4 & HP); [|apply recovered_err; [by etrans|done]].
    apply recover_published; [by etrans|done|by apply HP].
  - apply wp_ret, recover_published; [done..|]. destruct J3 as (_ & _ & [(Hs & _)|P]); [|done].
    rewrite <- (proj1 S3), Hs in Es. by destruct Es.
Qed.

(** *** The commit *)

Lemma stage_untouched t : untouched t → tc_key t k1 →
  wp (stage_replacement d1 j) (λ r t', others_kept t t' ∧ untouched t' ∧ tc_key t' k1 ∧
    (r = Ok tt → tc_file t' RK_STAGE = Some d1 ∧
       ∃ d, tc_file t' RK_JOURNAL_STAGE = Some d ∧ journal_serialize j = Some d)) t.
Proof.
  intros (HJ & Ho & Hn & Hk) Hk1. pose proof names_apart as (Hne & (? & ? & ?) & (? & ? & ?)).
  assert (∀ p d a t0 t', p = RK_STAGE ∨ p = RK_JOURNAL_STAGE → tc_call (WriteFile p d) t0 = (a, t') →
    others_kept t t0 → untouched t0 → tc_key t0 k1 → others_kept t t' ∧ untouched t' ∧ tc_key t' k1) as Hw.
  { intros p d a t0 t' Hp K O (HJ0 & Ho0 & Hn0 & Hk0) K0. effects K. split_and!; [etrans; [exact O|]| |by apply G].
    - eapply (others_kept_call _ _ _ _ K); cbn; [|done]. intros q ?%bool_decide_eq_true; subst. set_solver.
    - unfold untouched. rewrite !F by (apply bool_decide_eq_false; by destruct Hp; subst). by split_and!; [..|apply G]. }
  assert (others_kept t t) as O0 by done. assert (untouched t) as U0 by done.
  apply wp_bind, wp_return_if; intros Eg; [by apply bool_decide_eq_true in Eg|]. clear Eg.
  apply wp_bind, wp_try_syscall; [intros [] t1 K1|intros t1 K1];
    destruct (Hw _ _ _ _ _ (or_introl eq_refl) K1 O0 U0 Hk1) as (O1 & U1 & Hk1'); [|done].
  assert (Hs := tc_write_Some _ _ _ _ K1).
  apply wp_bind, wp_ok_or; [intros d Ed|done].
  assert (journal_serialize j = Some d) as Ed'.
  { unfold fit in Ed. destruct (journal_serialize j); [|done]. cbn in Ed. by case_match. }
  apply wp_try_syscall; [intros [] t2 K2|intros t2 K2];
    destruct (Hw _ _ _ _ _ (or_intror eq_refl) K2 O1 U1 Hk1') as (O2 & U2 & Hk2); split_and!; try done.
  intros _. split; [|exists d; split; [by eapply tc_write_Some|done]].
  rewrite <- Hs. apply (tc_frame _ _ _ _ _ _ K2). by apply bool_decide_eq_false.
Qed.

Lemma commit_staged t d : untouched t → tc_key t k1 → tc_file t RK_STAGE = Some d1 →
  tc_file t RK_JOURNAL_STAGE = Some d → journal_serialize j = Some d →
  wp (try_syscall (RenameFile RK_JOURNAL_STAGE RK_JOURNAL) Other)
    (λ r t', others_kept t t' ∧ match r with Ok _ => journalled t' | Err _ => untouched t' ∨ journalled t' end) t.
Proof.
  intros (HJ & Ho & Hn & Hk) Hk1 Hs Hd Ej. pose proof names_apart as (Hne & (? & ? & ?) & (? & ? & ?)).
  assert (∀ a t', tc_call (RenameFile RK_JOURNAL_STAGE RK_JOURNAL) t = (a, t') → others_kept t t' ∧
    (tc_file t' RK_JOURNAL = None → untouched t') ∧ (tc_file t' RK_JOURNAL = Some d → journalled t')) as Hr.
  { intros a t' K. effects K.
    assert (∀ p, p ≠ RK_JOURNAL_STAGE → p ≠ RK_JOURNAL → tc_file t' p = tc_file t p) as F'.
    { intros p ??. apply F, orb_false_iff. by rewrite !bool_decide_eq_false. }
    split_and!.
    - eapply (others_kept_call _ _ _ _ K); cbn; [|done].
      intros p [?%bool_decide_eq_true|?%bool_decide_eq_true]%orb_true_iff; subst; set_solver.
    - intros E. unfold untouched. rewrite E, !F' by done. by split_and!; [..|apply G].
    - intros E. split; [exists d; split; [done|by apply journal_roundtrip]|]. split; [by apply G|left].
      unfold unpublished. rewrite !F' by done. by split_and!; [..|apply G]. }
  apply wp_try_syscall; [intros [] t' K|intros t' K]; destruct (Hr _ _ K) as (O & HN & HS); (split; [done|]).
  - apply HS. by destruct (tc_rename_Some _ _ _ _ K) as (_ & _ & ->).
  - destruct (tc_rename_None _ _ _ _ K) as [[_ E]|(_ & _ & E)]; [done|left; apply HN|right; apply HS]; by rewrite E.
Qed.
End replacement.

(** C16: replacing a resident credential is atomic.  Whatever requests fail, the commit ends
    with the old credential untouched, with a journal that recovery will carry out, or with
    the new credential in place and the old record gone; it reports success only in the
    last case.  A recovery, run any number of times, ends in the same states and succeeds
    only with the new credential in place; without a journal it does nothing.  After a
    success the old key is gone too, except where the client answered its deletion with
    [success: false], which the code does not look at.  In each of these states the account
    has a record with its key, and no other file or key of the store is touched. *)
Theorem resident_replacement_atomic {T : Type} `{FidoClientView T, ReplacementCborView}
    (j : Replacement) (d0 d1 : bytes) (k1 : KeyId) :
  fit_to_replace j d1 k1 →
  (∀ t, untouched j d0 t → tc_key t k1 →
     wp (replace_resident d1 j k1) (λ r t', others_kept j k1 t t' ∧ (r = Ok tt → succeeded j d1 k1 t t') ∧
       (untouched j d0 t' ∨ journalled j d0 d1 k1 t' ∨ replaced j d1 k1 t')) t) ∧
  (∀ t, journalled j d0 d1 k1 t →
     wp recover_resident_replacement (λ r t', others_kept j k1 t t' ∧ (r = Ok tt → succeeded j d1 k1 t t') ∧
       (journalled j d0 d1 k1 t' ∨ replaced j d1 k1 t')) t) ∧
  (∀ t, tc_file t RK_JOURNAL = None → wp recover_resident_replacement (λ _ t', same_store t t') t) ∧
  (∀ t, untouched j d0 t ∨ journalled j d0 d1 k1 t ∨ replaced j d1 k1 t → usable j d0 d1 k1 t).
Proof.
  intros Hfit. split_and!.
  - intros t U K. unfold wp, replace_resident. destruct (wp_elim _ _ _ (stage_untouched j d0 d1 k1 Hfit t U K))
      as ([[]|e] & t1 & -> & O1 & U1 & K1 & HS).
    + destruct HS as (Hs & d & Hd & Ej); [done|]. apply wp_bind.
      eapply wp_mono; [by apply (commit_staged j d0 d1 k1 Hfit t1 d)|]. intros [[]|e] t2 [O2 HJ].
      * eapply wp_mono; [by apply (recover_journalled j d0 d1 k1 Hfit)|]. intros r t3 (O3 & HR & HD).
        split_and!; [by etrans; [|etrans]| |tauto].
        intros E. eapply succeeded_after; [|by apply HR]. by etrans.
      * split_and!; [by etrans|done|tauto].
    + apply wp_bind, wp_ok_syscall. intros a t2 K2. apply wp_throw. destruct Hfit as (_ & _ & _ & _ & Hne).
      destruct U1 as (HJ & Ho & Hn & Hk). split_and!; [etrans; [exact O1|]|done|left; split_and!].
      1: eapply (others_kept_call _ _ _ _ _ _ K2); cbn; [done|]; intros k ?%bool_decide_eq_true; by right.
      4: apply (tc_key_frame _ _ _ _ _ _ K2); [by apply bool_decide_eq_false, not_eq_sym|done].
      all: by rewrite (tc_frame _ _ _ _ _ _ K2).
  - intros t. by apply recover_journalled.
  - intros t E. apply wp_bind, wp_metadata; [intros t' S|done]. rewrite E. by apply wp_ret.
  - intros t [(_ & ? & _ & ?)|[(_ & ? & [(_ & ? & _ & ?)|(_ & ? & _)])|(_ & ? & _ & ?)]]; unfold usable; auto.
Qed.

Definition sample_journal : Replacement := mkReplacement "rk/old" 5 "rk/new".
Definition sample_store : model_client :=
  mkModelClient {["rk/old" := [5]; "dat" := [1]]} {[5 := (Internal, [5]); 6 := (Internal, [6])]} 7 None.

(** A client that removes no key when it is asked for one, and says so. *)
Record refusing_client := mkRefusing { rc_store : model_client }.
#[export] Instance refusing_fido : FidoClient refusing_client := λ A r,
  match r in request A return refusing_client → option A * refusing_client with
  | DeleteKey _ => λ t, (Some false, t)
  | r => λ t, let '(a, t') := mc_request r (rc_store t) in (a, mkRefusing t')
  end.

Definition is_delete_key {A} (r : request A) : bool := match r with DeleteKey _ => true | _ => false end.

Lemma refusing_call {A} (r : request A) t a t' : refusing_fido A r t = (a, t') →
  is_delete_key r = true ∧ t' = t ∨ is_delete_key r = false ∧ mc_request r (rc_store t) = (a, rc_store t').
Proof.
  destruct r; unfold refusing_fido; intros K;
    try (by left; injection K as <- <-); right; (split; [done|]);
    destruct (mc_request _ _); by injection K as <- <-.
Qed.

Lemma refusing_plain {A} (r : request A) t a t' : is_delete_key r = false → refusing_fido A r t = (a, t') →
  tc_call r (rc_store t) = (a, rc_store t').
Proof. intros Hr K. destruct (refusing_call _ _ _ _ K) as [[E _]|[_ E]]; [congruence|done]. Qed.

#[export] Instance refusing_view : FidoClientView refusing_client.
Proof.
  refine {| tc_file t p := mc_files (rc_store t) !! p; tc_key t k := is_Some (mc_keys (rc_store t) !! k) |};
    cbv [tc_call].
  - intros A r t a t' p K Hp. destruct (refusing_call _ _ _ _ K) as [[_ ->]|[_ E]]; [done|by apply (mc_kept r _ _ _ E)].
  - intros A r t a t' k K Hk. destruct (refusing_call _ _ _ _ K) as [[_ ->]|[_ E]]; [done|by apply (mc_kept r _ _ _ E)].
  - intros A r t a t' k K Hk. destruct (refusing_call _ _ _ _ K) as [[_ ->]|[_ E]]; [done|by apply (mc_back r _ _ _ _ E)].
  - intros t p d t' K%refusing_plain; [|done]. pose proof (tc_read _ _ _ _ K) as E. exact E.
  - intros t p b t' K%refusing_plain; [|done]. pose proof (tc_metadata _ _ _ _ K) as E. exact E.
  - intros t p d t' K%refusing_plain; [|done]. pose proof (tc_write_Some _ _ _ _ K) as E. exact E.
  - intros t p d t' K%refusing_plain; [|done]. pose proof (tc_write_None _ _ _ _ K) as E. exact E.
  - intros t p t' K%refusing_plain; [|done]. pose proof (tc_remove_Some _ _ _ K) as E. exact E.
  - intros t p t' K%refusing_plain; [|done]. pose proof (tc_remove_None _ _ _ K) as E. exact E.
  - intros t p q t' K%refusing_plain; [|done]. pose proof (tc_rename_Some _ _ _ _ K) as E. exact E.
  - intros t p q t' K%refusing_plain; [|done]. pose proof (tc_rename_None _ _ _ _ K) as E. exact E.
  - by intros t k t' [=].
  - intros t n d t' K%refusing_plain; [|done]. pose proof (tc_random_bytes _ _ _ _ K) as E. exact E.
Defined.

(** Success is then reported with the private key of the old credential still stored, and
    the journal, with its name, removed. *)
Lemma old_key_left_behind : ∃ t,
  replace_resident [6] sample_journal 6 (mkRefusing sample_store) = Some (Ok tt, t) ∧
  tc_file t RK_JOURNAL = None ∧ tc_file t (old_path sample_journal) = None ∧ tc_key t (old_key sample_journal).
Proof.
  eexists. split; [vm_compute; reflexivity|]. split_and!; [by vm_compute..|]. vm_compute. by eexists.
Qed.

Lemma sample_fits : fit_to_replace sample_journal [6] 6.
Proof. vm_compute. repeat split; discriminate. Qed.

(** On both clients: the key is gone, or its deletion was refused. *)
Lemma resident_replacement_atomic_witness :
  (∃ t, replace_resident [6] sample_journal 6 sample_store = Some (Ok tt, t) ∧ replaced sample_journal [6] 6 t ∧
     tc_file t "dat" = Some [1]) ∧
  (∃ t, replace_resident [6] sample_journal 6 (mkRefusing sample_store) = Some (Ok tt, t) ∧
     deletion_refused sample_journal 6 (mkRefusing sample_store) t).
Proof.
  split.
  - destruct (resident_replacement_atomic (T := model_client) sample_journal [5] [6] 6 sample_fits) as (HR & _).
    destruct (wp_elim _ _ _ (HR sample_store ltac:(vm_compute; repeat split; by eexists) ltac:(vm_compute; by eexists)))
      as (r & t & E & (F & _) & HK & _).
    assert (r = Ok tt) as -> by (vm_compute in E; by injection E).
    exists t. split_and!; [done|by apply HK|]. rewrite (F "dat"%string); [done|]. apply (bool_decide_unpack _). by vm_compute.
  - destruct (resident_replacement_atomic (T := refusing_client) sample_journal [5] [6] 6 sample_fits) as (HR & _).
    destruct (wp_elim _ _ _ (HR (mkRefusing sample_store) ltac:(vm_compute; repeat split; by eexists) ltac:(vm_compute; by eexists)))
      as (r & t & E & _ & HK & _).
    assert (r = Ok tt) as -> by (vm_compute in E; by injection E).
    exists t. split; [done|]. destruct HK as [_ [Hn|Hd]]; [done| |done].
    destruct Hn. vm_compute in E. injection E as <-. vm_compute. by eexists.
Defined.
