(* ===== verification/FidoStateTheorems.v ===== *)
(** * The persistent state

    The start fails closed; the state in memory is the stored one until a save fails, and
    nothing is done after that; the signature counter only grows. *)

From stdpp Require Import base tactics numbers list option strings gmap.
From S2P Require Import Prelude Interfaces ModelBackend FidoClient PinToken FidoState ModelFido.

(** ** Requests that leave the stored state alone *)

Section kept.
Context {T : Type} `{FidoCrates, Sha256, FidoClientView T, PersistentCborView}.

Definition state_kept (t t' : T) : Prop := tc_file t' FILENAME = tc_file t FILENAME.

#[export] Instance state_kept_preorder : PreOrder state_kept.
Proof. split; [done|]. intros t1 t2 t3 E1 E2. unfold state_kept in *. congruence. Qed.

Lemma preserves_syscall {A} (r : request A) : touches r FILENAME = false → preserves state_kept (syscall r).
Proof.
  intros Hr t x t'. unfold syscall. destruct (tc_call r t) as [[a|] t1] eqn:K; intros [= <- <-]. by eapply tc_frame.
Qed.
Lemma preserves_try_syscall {A} (r : request A) e : touches r FILENAME = false → preserves state_kept (try_syscall r e).
Proof. intros Hr. apply preserves_call_or. intros t a t' K. by eapply tc_frame. Qed.
Lemma preserves_ok_syscall {A} (r : request A) : touches r FILENAME = false → preserves state_kept (ok_syscall r).
Proof. intros Hr. apply preserves_call. intros t a t' K. by eapply tc_frame. Qed.
End kept.

#[export] Hint Extern 2 (preserves state_kept (syscall _)) => apply preserves_syscall; reflexivity : preserves.
#[export] Hint Extern 2 (preserves state_kept (try_syscall _ _)) => apply preserves_try_syscall; reflexivity : preserves.
#[export] Hint Extern 2 (preserves state_kept (ok_syscall _)) => apply preserves_ok_syscall; reflexivity : preserves.

(** A component beside the client: the client's relation, whatever the component does. *)
Definition on_second {S T} (R : T → T → Prop) (s s' : S * T) : Prop := R (snd s) (snd s').
#[export] Instance on_second_preorder {S T} (R : T → T → Prop) `{!PreOrder R} : PreOrder (on_second (S := S) R).
Proof. split; [intros [x y]; unfold on_second; simpl; reflexivity|]. intros [] [] []. unfold on_second. simpl. by etrans. Qed.

Lemma preserves_on_client {S T E A} (R : T → T → Prop) (c : step T E A) :
  preserves R c → preserves (on_second (S := S) R) (on_client c).
Proof. by apply preserves_zoom. Qed.
Lemma preserves_assign {S T E} (R : T → T → Prop) `{!PreOrder R} (f : S → S) :
  preserves (E := E) (on_second R) (assign f).
Proof. apply preserves_modify. intros s. unfold on_second. simpl. reflexivity. Qed.
Lemma preserves_field {S T E A} (R : T → T → Prop) `{!PreOrder R} (f : S → A) :
  preserves (E := E) (on_second R) (field f).
Proof. unfold field. preserve. Qed.
#[export] Hint Resolve preserves_on_client preserves_assign preserves_field : preserves.

(** ** The protocol and the runtime state never touch the file *)

Section protocol.
Context {T : Type} `{FidoCrates, Sha256, FidoClientView T, PersistentCborView}.
Abbreviation kept c := (preserves (S := T) state_kept c).
Abbreviation kept2 c := (preserves (on_second state_kept) c).

Lemma preserves_assert {S E} (R : S → S → Prop) `{!PreOrder R} c : preserves (E := E) R (assert_that c).
Proof. unfold assert_that. preserve. Qed.
Hint Resolve preserves_assert : preserves.

Lemma delete_secret_kept s : kept (delete_secret s).
Proof. unfold delete_secret. preserve. Qed.
Lemma delete_token_kept token : kept (delete_token token).
Proof. unfold delete_token. preserve. Qed.
Hint Resolve delete_secret_kept delete_token_kept : preserves.
Lemma delete_option_kept {X} (f : X → f_step unit) o : (∀ x, kept (f x)) → kept (delete_option f o).
Proof. intros. unfold delete_option. preserve. Qed.
Hint Resolve delete_option_kept : preserves.

Lemma generate_iv_kept s : kept (generate_iv s).
Proof. unfold generate_iv. preserve. Qed.
Lemma prepend_iv_kept s iv d : kept (prepend_iv s iv d).
Proof. unfold prepend_iv. preserve. Qed.
Hint Resolve generate_iv_kept prepend_iv_kept : preserves.
Lemma wrap_kept s k : kept (wrap s k).
Proof. unfold wrap. preserve. Qed.
Lemma decrypt_kept s d : kept (decrypt s d).
Proof. unfold decrypt. preserve. Qed.
Lemma Rp_new_kept id : kept (Rp_new id).
Proof. unfold Rp_new. preserve. Qed.
Lemma new_protocol_kept : kept PinProtocolState_new.
Proof. unfold PinProtocolState_new, generate_key_agreement_key. preserve. Qed.
Lemma kdf_kept v k : kept (kdf v k).
Proof. unfold kdf, kdf_v1, kdf_v2. preserve. Qed.
Hint Resolve wrap_kept decrypt_kept Rp_new_kept new_protocol_kept kdf_kept : preserves.

Lemma client_kept {A} (c : f_step A) : kept c → kept2 (client c).
Proof. apply preserves_on_client. Qed.
Hint Resolve client_kept : preserves.

Lemma with_token_kept {A} v (c : step PinToken CtapError A) : kept2 (with_token v c).
Proof.
  intros [s t] r s'. unfold with_token. destruct (pin_token v _) as [token|]; [|done].
  destruct (c token) as [[x token']|]; [|done]. by intros [= <- <-].
Qed.
Hint Resolve with_token_kept : preserves.

Lemma observe_slot_kept now v : kept2 (observe_slot now v).
Proof. unfold observe_slot. preserve. Qed.
Hint Resolve observe_slot_kept : preserves.
Lemma state_observe_kept now : kept2 (state_observe_usage_timer now).
Proof. unfold state_observe_usage_timer. preserve. Qed.
Lemma reset_slot_kept v : kept2 (reset_slot v).
Proof. unfold reset_slot. preserve. Qed.
Hint Resolve state_observe_kept reset_slot_kept : preserves.
Lemma reset_pin_tokens_kept : kept2 reset_pin_tokens.
Proof. unfold reset_pin_tokens. preserve. Qed.
Hint Resolve reset_pin_tokens_kept : preserves.
Lemma observe_usage_timer_kept : kept2 observe_usage_timer.
Proof. unfold observe_usage_timer. preserve. Qed.
Lemma regenerate_kept : kept2 regenerate.
Proof. unfold regenerate, generate_key_agreement_key. preserve. Qed.
Lemma begin_kept v : kept2 (reset_and_begin_using_pin_token v).
Proof. unfold reset_and_begin_using_pin_token, begin_using_pin_token. preserve. Qed.
Lemma restrict_kept v p id : kept2 (restrict v p id).
Proof. unfold restrict. preserve. Qed.
Lemma encrypt_token_kept v s : kept2 (encrypt_token v s).
Proof. unfold encrypt_token. preserve. Qed.
Lemma public_key_kept : kept2 key_agreement_public_key.
Proof. unfold key_agreement_public_key. preserve. Qed.
Lemma verify_kept v k d sig : kept2 (verify v k d sig).
Proof. unfold verify. preserve. Qed.
Hint Resolve observe_usage_timer_kept verify_kept : preserves.
Lemma verify_pin_token_kept v d sig : kept2 (verify_pin_token v d sig).
Proof. unfold verify_pin_token. preserve. Qed.
Lemma verify_pin_auth_kept v s d sig : kept2 (verify_pin_auth v s d sig).
Proof. unfold verify_pin_auth. preserve. Qed.
Lemma shared_secret_kept v peer : kept2 (shared_secret v peer).
Proof. unfold shared_secret, shared_secret_impl. preserve. Qed.

(** The runtime state. *)
Lemma on_protocol_kept {A} s (c : t_step A) : kept2 c → kept2 (on_protocol s c).
Proof. by apply preserves_zoom. Qed.
Hint Resolve on_protocol_kept : preserves.
Lemma with_protocol_kept {A} (c : t_step A) : kept2 c → kept2 (with_protocol c).
Proof. intros. unfold with_protocol. preserve. Qed.
Lemma invalidate_kept : kept2 invalidate_pin_tokens.
Proof. unfold invalidate_pin_tokens. preserve. Qed.
Hint Resolve invalidate_kept : preserves.
Lemma observe_pin_tokens_kept : kept2 observe_pin_tokens.
Proof. unfold observe_pin_tokens. preserve. Qed.
Lemma runtime_reset_kept : kept2 runtime_reset.
Proof. unfold runtime_reset. preserve. Qed.
End protocol.

#[export] Hint Resolve preserves_assert delete_secret_kept delete_option_kept decrypt_kept regenerate_kept begin_kept
  restrict_kept encrypt_token_kept public_key_kept verify_pin_token_kept verify_pin_auth_kept shared_secret_kept
  reset_pin_tokens_kept with_token_kept with_protocol_kept invalidate_kept observe_pin_tokens_kept
  runtime_reset_kept : preserves.

(** ** The state in memory and the stored state *)

Section durable.
Context {T : Type} `{FidoCrates, Sha256, FidoClientView T, PersistentCborView}.
Implicit Types (s : PersistentState * T) (p q : PersistentState).

(** What a start would find. *)
Definition durable (t : T) : option PersistentState := d ← tc_file t FILENAME; cbor_deserialize d.

(** An authenticator that still trusts its memory holds what is stored. *)
Definition coherent s : Prop :=
  initialised (fst s) = true → persistence_failed (fst s) = false → durable (snd s) = Some (skip_fields (fst s)).

Lemma durable_kept t t' : state_kept t t' → durable t' = durable t.
Proof. unfold state_kept, durable. by intros ->. Qed.

Lemma latch_failed p : persistence_failed p = true → latch_persistence_failure p = p.
Proof. destruct p. cbn. by intros ->. Qed.
Lemma skip_latch p : skip_fields (latch_persistence_failure p) = skip_fields p.
Proof. done. Qed.

(** What [save] does. *)
Definition saved s (r : result CtapError unit) s' : Prop :=
  match r with
  | Ok _ => fst s' = fst s ∧ persistence_failed (fst s) = false ∧ durable (snd s') = Some (skip_fields (fst s))
  | Err e => e = Other ∧ fst s' = latch_persistence_failure (fst s) ∧
      (durable (snd s') = durable (snd s) ∨
       persistence_failed (fst s) = false ∧ durable (snd s') = Some (skip_fields (fst s)))
  end.

Lemma save_wp s : wp save (saved s) s.
Proof.
  destruct s as [p t]. apply wp_bind. unfold return_if_failed, field. wp_steps; cbn in *.
  { split; [done|]. split; [by rewrite latch_failed|by left]. }
  unfold wp, latching, mbind, step_bind, fit, mbind, option_bind. cbn.
  destruct (cbor_serialize p) as [d|] eqn:Ed; [|split_and!; [done|done|by left]].
  destruct (length d <=? _)%nat; [|split_and!; [done|done|by left]].
  apply cbor_roundtrip in Ed. cbn. unfold on_client, zoom, try_syscall, call_or. cbn.
  destruct (tc_call (WriteFile FILENAME d) t) as [[[]|] t'] eqn:K; cbn.
  - split_and!; [done..|]. unfold durable. by rewrite (tc_write_Some _ _ _ _ K).
  - split_and!; [done..|]. unfold durable.
    destruct (tc_write_None _ _ _ _ K) as [-> | ->]; [by left|right; split; [done|exact Ed]].
Qed.

(** ** How an operation may change the stored state

    [G] relates the stored state before to the stored state after; an operation on a
    coherent state leaves a coherent state, whatever fails. *)
Definition evolves (G : PersistentState → PersistentState → Prop) s s' : Prop :=
  initialised (fst s) = true → coherent s →
  initialised (fst s') = true ∧ coherent s' ∧
  (∀ q, durable (snd s) = Some q → ∃ q', durable (snd s') = Some q' ∧ G q q').

Context (G : PersistentState → PersistentState → Prop) `{!PreOrder G}.

#[export] Instance evolves_preorder : PreOrder (evolves G).
Proof.
  split.
  - intros s Hi Hc. split_and!; [done..|]. intros q ->. by exists q.
  - intros s1 s2 s3 R1 R2 Hi Hc. destruct (R1 Hi Hc) as (Hi2 & Hc2 & HD2). destruct (R2 Hi2 Hc2) as (Hi3 & Hc3 & HD3).
    split_and!; [done..|]. intros q (q2 & (q3 & ? & ?)%HD3 & ?)%HD2. exists q3. split; [done|by etrans].
Qed.

Lemma evolves_kept s s' : fst s' = fst s → state_kept (snd s) (snd s') → evolves G s s'.
Proof.
  intros E K Hi Hc. unfold coherent in *. rewrite E, (durable_kept _ _ K). split_and!; [done..|].
  intros q ->. by exists q.
Qed.

Lemma preserves_client_evolves {A} (c : f_step A) : preserves state_kept c → preserves (evolves G) (on_client c).
Proof. apply preserves_zoom. intros s t K. by apply evolves_kept. Qed.

Lemma preserves_field_evolves {A} (f : PersistentState → A) : preserves (evolves G) (field f : s_step A).
Proof. unfold field. preserve. Qed.

Lemma evolves_latch s s' : evolves G s s' → evolves G s (latch_persistence_failure (fst s'), snd s').
Proof. intros R Hi Hc. destruct (R Hi Hc) as (Hi' & Hc' & HD). split_and!; [done|by intros _|done]. Qed.

Lemma preserves_latching {A} (c : s_step A) : preserves (evolves G) c → preserves (evolves G) (latching c).
Proof.
  intros Hc s r s'. unfold latching. destruct (c s) as [[[a|e] s1]|] eqn:Ec; [| |done]; intros [= <- <-].
  - by eapply Hc.
  - by eapply evolves_latch, Hc.
Qed.

Lemma preserves_return_if_failed : preserves (evolves G) (return_if_failed : s_step unit).
Proof. unfold return_if_failed. apply preserves_bind; [apply _|apply preserves_field_evolves|intros; preserve]. Qed.

(** A change of some fields and the save after it. *)
Definition keeps_flags (f : PersistentState → PersistentState) : Prop :=
  ∀ p, initialised (f p) = initialised p ∧ persistence_failed (f p) = persistence_failed p.

Lemma update_run (f : PersistentState → PersistentState) s r s' : keeps_flags f →
  (assign f;; save) s = Some (r, s') → saved (f (fst s), snd s) r s'.
Proof. intros Hf E. eapply (wp_run _ _ _ _ _ E). apply wp_bind, wp_modify, save_wp. Qed.

Lemma preserves_update f : keeps_flags f → (∀ p, G (skip_fields p) (skip_fields (f p))) →
  preserves (evolves G) (assign f;; save : s_step unit).
Proof.
  intros Hf HG s r s' E Hi Hc. apply update_run in E; [|done]. destruct (Hf (fst s)) as [Fi Ff].
  assert (∀ q, persistence_failed (fst s) = false → durable (snd s) = Some q → G q (skip_fields (f (fst s)))) as HGq.
  { intros q Hnf Eq. rewrite (Hc Hi Hnf) in Eq. injection Eq as <-. apply HG. }
  destruct r as [[]|e]; cbn in E.
  - destruct E as (Ep & Hnf & Hd). rewrite Ep. split_and!; [congruence|by intros _ _; rewrite Hd, Ep|].
    intros q Eq. eexists. split; [exact Hd|]. apply HGq; [congruence|done].
  - destruct E as (-> & Ep & Hd). rewrite Ep. split_and!; [cbn; congruence|unfold coherent; by rewrite Ep|].
    intros q Eq. destruct Hd as [Hd|[Hnf Hd]]; rewrite Hd; [by exists q|].
    eexists. split; [done|]. apply HGq; [congruence|done].
Qed.

Lemma preserves_update_then {A} f (k : unit → s_step A) : keeps_flags f →
  (∀ p, G (skip_fields p) (skip_fields (f p))) → (∀ a, preserves (evolves G) (k a)) →
  preserves (evolves G) (assign f;; u ← save; k u : s_step A).
Proof.
  intros Hf HG Hk s r s'. assert ((assign f;; u ← save; k u) s = ((assign f;; save) ≫= k) s) as -> by done.
  apply preserves_bind; [apply _|by apply preserves_update|done].
Qed.
End durable.

#[export] Hint Resolve preserves_client_evolves preserves_field_evolves preserves_latching preserves_return_if_failed : preserves.

(** Walks through an operation: [tac] shows that each change is allowed. *)
Ltac evolve tac :=
  repeat (intros; cbv zeta; lazymatch goal with
    | |- preserves _ (mbind (λ _, save) (assign _)) => apply preserves_update; [typeclasses eauto|done|tac]
    | |- preserves _ (mbind _ (assign _)) => apply preserves_update_then; [typeclasses eauto|done|tac|]
    | |- preserves _ (latching _) => apply preserves_latching
    | |- preserves _ (mbind _ _) => apply preserves_bind; [typeclasses eauto | |]
    | |- preserves _ (match ?x with _ => _ end) => destruct x
    | |- preserves _ _ => solve [eauto with preserves typeclass_instances]
    end).

(** ** The operations *)

Section operations.
Context {T : Type} `{FidoCrates, Sha256, FidoClientView T, PersistentCborView}.
Context (G : PersistentState → PersistentState → Prop) `{!PreOrder G}.
Abbreviation ev c := (preserves (S := PersistentState * T) (evolves G) c).

(** Changes of the stored fields an operation may make. *)
Definition allows (f : PersistentState → PersistentState) : Prop := ∀ p, G (skip_fields p) (skip_fields (f p)).

Lemma delete_key_or_kept key : preserves (S := T) state_kept (delete_key_or key).
Proof. unfold delete_key_or. preserve. Qed.
Lemma delete_old_key_kept old : preserves (S := T) state_kept (delete_old_key old).
Proof. unfold delete_old_key. preserve. Qed.
Lemma generate_key_kept v : preserves (S := T) state_kept (generate_key v).
Proof. unfold generate_key. preserve. Qed.
Hint Resolve delete_key_or_kept delete_old_key_kept generate_key_kept : preserves.

Lemma key_encryption_key_evolves : (∀ a b, allows (set_keys a b)) → ev key_encryption_key ∧ ev rotate_key_encryption_key.
Proof.
  intros Hk. assert (ev rotate_key_encryption_key) as R.
  { unfold rotate_key_encryption_key. evolve ltac:(intros p; apply Hk). }
  split; [|done]. unfold key_encryption_key. preserve.
Qed.

Lemma key_wrapping_key_evolves : (∀ a b, allows (set_keys a b)) → ev key_wrapping_key ∧ ev rotate_key_wrapping_key.
Proof.
  intros Hk. assert (ev rotate_key_wrapping_key) as R.
  { unfold rotate_key_wrapping_key. evolve ltac:(intros p; apply Hk). }
  split; [|done]. unfold key_wrapping_key. preserve.
Qed.

Lemma signature_counter_evolves : (∀ n, allows (set_timestamp n)) → ev signature_counter.
Proof. intros Ht. unfold signature_counter. evolve ltac:(apply Ht). Qed.

Lemma policy_evolves : (∀ m ids f u, allows (λ p, set_policy (m p) (ids p) (f p) (u p) p)) →
  (∀ n, ev (set_min_pin_length n)) ∧ (∀ ids, ev (set_min_pin_length_rp_ids ids)) ∧
  (∀ v, ev (set_force_pin_change v)) ∧ ev toggle_always_uv.
Proof.
  intros Hp. split_and!; intros.
  - unfold set_min_pin_length. evolve ltac:(apply (Hp (λ _, n) min_pin_length_rp_ids force_pin_change always_uv)).
  - unfold set_min_pin_length_rp_ids. evolve ltac:(apply (Hp ps_min_pin_length (λ _, ids) force_pin_change always_uv)).
  - unfold set_force_pin_change. evolve ltac:(apply (Hp ps_min_pin_length min_pin_length_rp_ids (λ _, v) always_uv)).
  - unfold toggle_always_uv.
    evolve ltac:(apply (Hp ps_min_pin_length min_pin_length_rp_ids force_pin_change (λ p, negb (always_uv p)))).
Qed.

Lemma retries_evolve : (∀ n, allows (set_mismatches n)) → ev ps_decrement_retries ∧ ev ps_reset_retries.
Proof.
  intros Hm. split; [unfold ps_decrement_retries|unfold ps_reset_retries]; evolve ltac:(apply Hm).
Qed.

Lemma set_pin_hash_evolves hash n : allows (set_pin_fields hash n false) → ev (set_pin_hash hash n).
Proof. intros Hp. unfold set_pin_hash. evolve ltac:(apply Hp). Qed.

(** An initialised state is not loaded again. *)
Lemma load_initialised config s r s' : initialised (fst s) = true →
  load_if_not_initialised config s = Some (r, s') →
  s' = s ∧ r = if persistence_failed (fst s) then Err Other else Ok tt.
Proof.
  intros Hi E. refine (wp_run _ (λ r s', s' = s ∧ r = _) _ _ _ E _).
  unfold load_if_not_initialised, return_if_failed, field. wp_steps; try congruence.
  - by match goal with Hf : persistence_failed _ = true |- _ => rewrite Hf end.
  - by match goal with Hf : persistence_failed _ = false |- _ => rewrite Hf end.
Qed.
End operations.

(** ** Starting *)

Section load.
Context {T : Type} `{FidoCrates, Sha256, FidoClientView T, PersistentCborView} (config : Config).
Implicit Types (s : PersistentState * T) (t : T).

(** The exact marker of the provisioning image. *)
Definition marked t : Prop := tc_file t INITIALIZATION_MARKER_FILENAME = Some INITIALIZATION_MARKER.

(** What a start accepts: a stored state that parses, with no marker or the exact one, or
    the exact marker and no state. *)
Definition acceptable t (q : PersistentState) : Prop :=
  durable t = Some q ∧ (tc_file t INITIALIZATION_MARKER_FILENAME = None ∨ marked t) ∨
  tc_file t FILENAME = None ∧ marked t ∧ q = reset_value config.

(** The files a start does not name, and every key, are as they were. *)
Definition bystanders t t' : Prop :=
  (∀ p, p ≠ FILENAME → p ≠ INITIALIZATION_MARKER_FILENAME → tc_file t' p = tc_file t p) ∧
  (∀ k, tc_key t' k ↔ tc_key t k).

(** The state file is the one that was there, byte for byte, unless there was none; what is
    stored is [q]. *)
Definition state_settled t t' (q : PersistentState) : Prop :=
  durable t' = Some q ∧ (state_kept t t' ∨ tc_file t FILENAME = None).
Definition marker_kept_or_gone t t' : Prop :=
  tc_file t' INITIALIZATION_MARKER_FILENAME = tc_file t INITIALIZATION_MARKER_FILENAME ∨
  tc_file t' INITIALIZATION_MARKER_FILENAME = None.

(** A start that fails leaves every byte of the store as it was; only where there was an
    exact marker beside a state that is accepted can it have got as far as that state and
    the removal of the marker. *)
Definition load_outcome s (r : result CtapError unit) s' : Prop :=
  bystanders (snd s) (snd s') ∧
  match r with
  | Ok _ => ∃ q, acceptable (snd s) q ∧ fst s' = set_initialised q ∧ state_settled (snd s) (snd s') q ∧
      tc_file (snd s') INITIALIZATION_MARKER_FILENAME = None
  | Err e => e = Other ∧ (fst s' = fst s ∨ fst s' = latch_persistence_failure (fst s)) ∧
      (same_store (snd s) (snd s') ∨
       marked (snd s) ∧ marker_kept_or_gone (snd s) (snd s') ∧
       ∃ q, acceptable (snd s) q ∧ state_settled (snd s) (snd s') q)
  end.

Lemma bystanders_same t t' : same_store t t' → bystanders t t'.
Proof. intros [F K]. split; [intros p _ _; apply F|apply K]. Qed.
#[export] Instance bystanders_preorder : PreOrder bystanders.
Proof.
  split; [by split|]. intros t1 t2 t3 [B1 K1] [B2 K2]. split; [intros p P1 P2; by rewrite B2, B1|].
  intros k. by rewrite K2.
Qed.

(** A request that names one file leaves the others and the keys. *)
Lemma names_one_file {A} (r : request A) t a t' p : tc_call r t = (a, t') → (∀ q, q ≠ p → touches r q = false) →
  (∀ k, removes r k = false) → makes_key r = false →
  (∀ q, q ≠ p → tc_file t' q = tc_file t q) ∧ (∀ k, tc_key t' k ↔ tc_key t k).
Proof.
  intros K Ht Hr Hm. split; [intros q Hq; eapply tc_frame; eauto|].
  intros k. split; [by eapply tc_key_back|by eapply tc_key_frame].
Qed.

Lemma durable_same t t' : same_store t t' → durable t' = durable t.
Proof. intros [F _]. apply durable_kept, F. Qed.

Lemma load_wp t : wp load (λ r t', same_store t t' ∧
  match r with
  | Ok (Some q) => durable t = Some q
  | Ok None => tc_file t FILENAME = None
  | Err e => e = Other
  end) t.
Proof.
  unfold load, entry_exists. apply wp_bind, wp_metadata; [intros t1 S1|done].
  case_bool_decide as E; cbn [negb].
  - apply wp_bind, wp_read_file; [intros d t2 S2 Ed|by intros t2 S2; split; [etrans|]].
    rewrite (proj1 S1) in Ed. apply wp_bind, wp_ok_or; [intros q Eq|intros _; by split; [etrans|]].
    apply wp_ret. split; [by etrans|]. unfold durable. by rewrite Ed.
  - apply wp_ret. split; [done|]. by apply eq_None_not_Some.
Qed.

Lemma verify_marker_wp t : wp verify_initialization_marker (λ r t', same_store t t' ∧
  match r with Ok _ => marked t | Err e => e = Other end) t.
Proof.
  unfold verify_initialization_marker. apply wp_bind, wp_read_file; [intros d t1 S1 Ed|done].
  apply wp_return_if; intros Em; bool_to_prop; (split; [done|]); [done|]. apply bytes_eqb_true in Em. by rewrite Em in Ed.
Qed.

Lemma remove_marker_wp t : wp remove_initialization_marker (λ r t', bystanders t t' ∧ state_kept t t' ∧
  marker_kept_or_gone t t' ∧
  match r with Ok _ => tc_file t' INITIALIZATION_MARKER_FILENAME = None | Err e => e = Other end) t.
Proof.
  assert (∀ a t', tc_call (RemoveFile INITIALIZATION_MARKER_FILENAME) t = (a, t') →
    bystanders t t' ∧ state_kept t t') as Hr.
  { intros a t' K. destruct (names_one_file _ _ _ _ INITIALIZATION_MARKER_FILENAME K) as [F Hk]; [|done..|].
    - intros q Hq. by apply bool_decide_eq_false.
    - split; [split; [intros q _ Hq; by apply F|done]|by apply F]. }
  apply wp_try_syscall; [intros [] t' K|intros t' K]; destruct (Hr _ _ K) as [B S]; split_and!; try done.
  - right. by eapply tc_remove_Some.
  - by eapply tc_remove_Some.
  - destruct (tc_remove_None _ _ _ K); [by left|by right].
Qed.

Lemma wp_on_client {S E A} (c : step T E A) (Q : result E A → S * T → Prop) (s : S * T) :
  wp c (λ r t', Q r (fst s, t')) (snd s) → wp (on_client c) Q s.
Proof. unfold wp, on_client, zoom. by destruct (c (snd s)) as [[]|]. Qed.

(** What [save] does to the files: only the state file can change, and a failed save leaves
    it, or has written it. *)
Definition saved_files s (r : result CtapError unit) s' : Prop :=
  (∀ p, p ≠ FILENAME → tc_file (snd s') p = tc_file (snd s) p) ∧ (∀ k, tc_key (snd s') k ↔ tc_key (snd s) k) ∧
  match r with
  | Ok _ => True
  | Err _ => same_store (snd s) (snd s') ∨ durable (snd s') = Some (skip_fields (fst s))
  end.

Lemma save_files s : wp save (saved_files s) s.
Proof.
  destruct s as [p t]. apply wp_bind. unfold return_if_failed, field. wp_steps; [split_and!; try done; by left|].
  cbn [fst snd]. unfold latching, wp, mbind, step_bind, fit, mbind, option_bind. cbn.
  destruct (cbor_serialize p) as [d|] eqn:Ed; [|split_and!; try done; by left].
  destruct (length d <=? _)%nat; [|split_and!; try done; by left]. apply cbor_roundtrip in Ed. cbn.
  unfold on_client, zoom, try_syscall, call_or. cbn.
  destruct (tc_call (WriteFile FILENAME d) t) as [o t'] eqn:K.
  destruct (names_one_file _ _ _ _ FILENAME K) as [F Hk]; [intros q Hq; by apply bool_decide_eq_false|done..|].
  destruct o as [[]|]; cbn; split_and!; try done.
  destruct (tc_write_None _ _ _ _ K) as [E|E]; [left|right; unfold durable; cbn; by rewrite E].
  split; [|done]. intros q. cbn. destruct (decide (q = FILENAME)) as [->|Hq]; [done|by apply F].
Qed.

(** The stored state was read. *)
Lemma load_previous q s t0 : same_store t0 (snd s) → durable t0 = Some q →
  wp (marked ← on_client (entry_exists INITIALIZATION_MARKER_FILENAME);
      (if marked : bool then on_client (verify_initialization_marker;; remove_initialization_marker) else mret tt);;
      mret q)
    (λ r s', fst s' = fst s ∧ bystanders t0 (snd s') ∧ state_kept t0 (snd s') ∧
       match r with
       | Ok q' => q' = q ∧ (tc_file t0 INITIALIZATION_MARKER_FILENAME = None ∨ marked t0) ∧
           tc_file (snd s') INITIALIZATION_MARKER_FILENAME = None
       | Err e => e = Other ∧ (same_store t0 (snd s') ∨ marked t0 ∧ marker_kept_or_gone t0 (snd s'))
       end) s.
Proof.
  intros S0 Eq. assert (∀ t, same_store t0 t → bystanders t0 t ∧ state_kept t0 t) as HS.
  { intros t S. split; [by apply bystanders_same|apply S]. }
  apply wp_bind, wp_on_client, wp_metadata; intros t1 S1; assert (same_store t0 t1) as S01 by by etrans.
  2:{ split_and!; try done; try apply HS; try done. by left. }
  apply wp_bind. cbn [fst snd]. case_bool_decide as E.
  - apply wp_on_client, wp_bind. eapply wp_mono; [apply verify_marker_wp|]. intros [[]|e] t2 [S2 Hm].
    all: cbn [fst snd] in *; assert (same_store t0 t2) as S02 by by etrans.
    2:{ split_and!; try done; try apply HS; try done. by left. }
    eapply wp_mono; [apply remove_marker_wp|]. intros r t3 (B3 & D3 & M3 & HR). destruct (HS _ S02) as [B2 D2].
    assert (marked t0) as M0 by (unfold marked in *; by rewrite <- (proj1 S01)).
    assert (marker_kept_or_gone t0 t3) as M03 by (unfold marker_kept_or_gone; by rewrite <- (proj1 S02)).
    destruct r as [[]|e]; [apply wp_ret|]; split_and!; try done; try (by etrans); by right.
  - apply wp_ret, wp_ret. destruct (HS t1) as [B1 D1]; [done|]. split_and!; try done.
    + left. rewrite <- (proj1 S0). by apply eq_None_not_Some.
    + cbn. rewrite (proj1 S1). by apply eq_None_not_Some.
Qed.

(** The store has no state: the marker decides. *)
Lemma load_first s t0 : same_store t0 (snd s) → tc_file t0 FILENAME = None →
  wp (on_client verify_initialization_marker;;
      initial_state ← save_initial_state config;
      on_client remove_initialization_marker;;
      mret initial_state)
    (λ r s', bystanders t0 (snd s') ∧
       match r with
       | Ok q => marked t0 ∧ q = set_initialised (reset_value config) ∧ fst s' = fst s ∧
           durable (snd s') = Some (reset_value config) ∧ tc_file (snd s') INITIALIZATION_MARKER_FILENAME = None
       | Err e => e = Other ∧ (fst s' = fst s ∨ fst s' = latch_persistence_failure (fst s)) ∧
           (same_store t0 (snd s') ∨
            marked t0 ∧ marker_kept_or_gone t0 (snd s') ∧ durable (snd s') = Some (reset_value config))
       end) s.
Proof.
  intros S0 Enone. apply wp_bind, wp_on_client. eapply wp_mono; [apply verify_marker_wp|].
  intros [[]|e] t1 [S1 Hm]; cbn [fst snd]; assert (same_store t0 t1) as S01 by by etrans.
  2:{ split; [by apply bystanders_same|]. split_and!; [done|by left|by left]. }
  assert (marked t0) as M0 by (unfold marked in *; by rewrite <- (proj1 S0)).
  apply wp_bind. unfold wp at 1, save_initial_state. cbn [fst snd].
  destruct (wp_elim _ _ _ (wp_conj _ _ _ _ (save_wp (set_initialised (reset_value config), t1))
    (save_files (set_initialised (reset_value config), t1)))) as (r & [p2 t2] & -> & HS & F2 & K2 & HE).
  assert (bystanders t0 t2) as B02.
  { etrans; [by apply bystanders_same|]. split; [intros p Hp _; by apply F2|done]. }
  assert (tc_file t2 INITIALIZATION_MARKER_FILENAME = tc_file t0 INITIALIZATION_MARKER_FILENAME) as M2.
  { cbn [snd] in F2. rewrite F2 by done. apply S01. }
  destruct r as [[]|e]; cbn in HS, HE |- *.
  - destruct HS as (-> & _ & D2). apply wp_bind, wp_on_client. eapply wp_mono; [apply remove_marker_wp|].
    intros [[]|e] t3 (B3 & D3 & M3 & HR); cbn [fst snd] in *; apply durable_kept in D3; rewrite D2 in D3.
    + apply wp_ret. split_and!; try done. by etrans.
    + split; [by etrans|]. split_and!; [done|by left|right]. split_and!; [done| |done].
      unfold marker_kept_or_gone in *. by rewrite <- M2.
  - destruct HS as (-> & -> & _). split; [done|]. split_and!; [done|by right|].
    destruct HE as [HE|HE]; [left; by etrans|right]. split_and!; [done|by left|done].
Qed.

(** A start that has not loaded anything yet. *)
Lemma load_ends s : initialised (fst s) = false → persistence_failed (fst s) = false →
  wp (load_if_not_initialised config) (load_outcome s) s.
Proof.
  intros Hi Hf. unfold load_if_not_initialised, return_if_failed, field. wp_steps; try congruence.
  apply wp_on_client. eapply wp_mono; [apply load_wp|]. intros [[q|]|e] t1 [S1 HL].
  3:{ split; [by apply bystanders_same|]. split_and!; [done|by left|by left]. }
  all: apply wp_bind.
  - eapply wp_mono; [apply (load_previous q (fst s, t1) (snd s)); done|].
    intros [q'|e] s2 (E & B & D & HR); pose proof (durable_kept _ _ D) as D'; rewrite HL in D'.
    + destruct HR as (-> & Hm & Hn). apply wp_modify. split; [done|]. exists q. split; [by left|].
      split_and!; try done. split; [done|by left].
    + destruct HR as [-> HR]. split; [done|]. split_and!; [done|left; by rewrite E|].
      destruct HR as [HR|[Hm HR]]; [by left|right]. split_and!; [done..|]. exists q.
      split; [left; split; [done|by right]|split; [done|by left]].
  - eapply wp_mono; [apply (load_first (fst s, t1) (snd s)); done|]. intros [q'|e] s2 (B & HR).
    + destruct HR as (Hm & -> & E & D & Hn). apply wp_modify. split; [done|].
      exists (reset_value config). split; [by right|]. split_and!; try done. split; [done|by right].
    + destruct HR as (-> & E & D). split; [done|]. split_and!; [done..|].
      destruct D as [D|(Hm & HR & D)]; [by left|right]. split_and!; [done..|]. exists (reset_value config).
      split; [by right|split; [done|by right]].
Qed.

(** A state that is refused: it does not parse, or something other than the exact marker
    stands beside it, or there is none and no exact marker. *)
Lemma refused_untouched s r s' : (∀ q, ¬ acceptable (snd s) q) → load_outcome s r s' →
  r = Err Other ∧ same_store (snd s) (snd s').
Proof.
  intros Hn [_ HL]. destruct r as [[]|e].
  - destruct HL as (q & Ha & _). by destruct (Hn q).
  - destruct HL as (-> & _ & [HS|(_ & _ & q & Ha & _)]); [done|by destruct (Hn q)].
Qed.

Lemma unreadable_refused t : is_Some (tc_file t FILENAME) → durable t = None → ∀ q, ¬ acceptable t q.
Proof. intros [d Ed] Hn q [[E _]|[E _]]; congruence. Qed.
End load.

(** C14: the authenticator starts from its stored state or not at all.  A start that has not
    loaded anything yet ends, whatever requests fail.  It succeeds only when the stored
    state parses (beside no marker or the exact one), or when there is no state and the
    exact provisioning marker; then the memory holds that state, or the initial state, it
    is the one stored, and the marker is gone.  Otherwise it is an error: the memory is not
    initialised, and every file and key is as it was, unless there was the exact marker
    beside an acceptable state (or beside none): then the marker may be gone, and where
    there was no state file there may be the initial one.  A state file that was there is
    never written nor removed, in particular one that does not parse: with it the start
    fails and changes nothing at all. *)
Theorem load_fails_closed {T : Type} `{FidoCrates, Sha256, FidoClientView T, PersistentCborView} config
    (s : PersistentState * T) :
  initialised (fst s) = false → persistence_failed (fst s) = false →
  wp (load_if_not_initialised config) (λ r s',
    load_outcome config s r s' ∧
    (is_Some (tc_file (snd s) FILENAME) → state_kept (snd s) (snd s')) ∧
    (is_Some (tc_file (snd s) FILENAME) → durable (snd s) = None →
       r = Err Other ∧ same_store (snd s) (snd s'))) s.
Proof.
  intros Hi Hf. eapply wp_mono; [by apply load_ends|]. intros r s' HL. split_and!; [done| |].
  - intros [d Ed]. destruct HL as [_ HL]. destruct r as [[]|e].
    + destruct HL as (q & _ & _ & [_ [K|K]] & _); [done|congruence].
    + destruct HL as (_ & _ & [S|(_ & _ & q & _ & _ & [K|K])]); [apply S|done|congruence].
  - intros Hd Hn. eapply refused_untouched; [|done]. by apply unreadable_refused.
Qed.

Definition sample_config : Config :=
  mkConfig false 1024 None (Some 8) None false false None (Some CredentialV2) false None.
Definition empty_store : model_client := mkModelClient ∅ ∅ 1 (Some 0).
Definition with_file (name : string) (d : bytes) (t : model_client) : model_client :=
  mc_with_files (<[name := d]> (mc_files t)) t.
Definition marked_store : model_client := with_file INITIALIZATION_MARKER_FILENAME INITIALIZATION_MARKER empty_store.
Definition garbled_store : model_client := with_file FILENAME [1; 2; 3] marked_store.

Lemma load_fails_closed_witness :
  let start t := load_if_not_initialised sample_config (PersistentState_default, t) in
  (∃ s, start marked_store = Some (Ok tt, s) ∧ load_outcome sample_config (PersistentState_default, marked_store) (Ok tt) s) ∧
  (∃ s, start garbled_store = Some (Err Other, s) ∧ same_store garbled_store (snd s)) ∧
  (∃ s, start empty_store = Some (Err Other, s) ∧
     load_outcome sample_config (PersistentState_default, empty_store) (Err Other) s).
Proof.
  pose proof (λ t, wp_elim _ _ _ (load_fails_closed sample_config (PersistentState_default, t) eq_refl eq_refl)) as Hw.
  cbv zeta. split_and!.
  - destruct (Hw marked_store) as (r & s & E & HL & _). exists s.
    assert (r = Ok tt) as -> by (vm_compute in E; by injection E). done.
  - destruct (Hw garbled_store) as (r & s & E & _ & _ & HG). destruct HG as [-> HS]; [|by vm_compute|by exists s].
    exists [1; 2; 3]. by vm_compute.
  - destruct (Hw empty_store) as (r & s & E & HL & _). exists s.
    assert (r = Err Other) as -> by (vm_compute in E; by injection E). done.
Defined.
