(* ===== verification/CounterTheorems.v ===== *)
(** * The signature counter

    Over any sequence of signatures, other operations, failed writes and reboots, the
    counter values that leave the device grow. *)

From stdpp Require Import base tactics numbers list option strings gmap.
From Stdlib Require Import Sorted.
From S2P Require Import Prelude Interfaces ModelBackend FidoClient PinToken FidoState ModelFido FidoStateTheorems.

Section counter.
Context {T : Type} `{FidoCrates, Sha256, FidoClientView T, PersistentCborView} (config : Config).
Implicit Types (s : PersistentState * T) (q : PersistentState).

(** What is stored has no flags. *)
Lemma durable_skipped (t : T) q : durable t = Some q → q = skip_fields q.
Proof. unfold durable. destruct (tc_file t FILENAME) as [d|]; [|done]. intros E. symmetry. by eapply cbor_skipped. Qed.

(** Loading leads from a coherent state to a coherent state, initialised if it succeeds. *)
Lemma load_settles s r s' : coherent s → load_if_not_initialised config s = Some (r, s') →
  coherent s' ∧ (r = Ok tt → initialised (fst s') = true ∧ persistence_failed (fst s') = false) ∧
  (r ≠ Ok tt → initialised (fst s') = initialised (fst s)) ∧
  (durable (snd s') = durable (snd s) ∨ tc_file (snd s) FILENAME = None).
Proof.
  intros Hc E. destruct (initialised (fst s)) eqn:Hi.
  { destruct (load_initialised _ _ _ _ Hi E) as [-> ->]. split_and!; [done| |done|by left].
    destruct (persistence_failed (fst s)) eqn:Ef; [done|]. by intros _. }
  destruct (persistence_failed (fst s)) eqn:Hf.
  { assert (r = Err Other ∧ s' = s) as [-> ->]; [|by split_and!; try left].
    refine (wp_run _ (λ r s', r = Err Other ∧ s' = s) _ _ _ E _). unfold load_if_not_initialised, return_if_failed, field.
    wp_steps; try congruence. done. }
  pose proof (wp_run _ _ _ _ _ E (load_ends config s Hi Hf)) as [_ HL]. destruct r as [[]|e].
  - destruct HL as (q' & Ha & Ep & [Hq' _] & _).
    assert (q' = skip_fields q') as Es by (destruct Ha as [[Hq _]|(_ & _ & ->)]; [by eapply durable_skipped|done]).
    assert (persistence_failed q' = false) as Hf' by by rewrite Es.
    split_and!; [|..|done|].
    + intros _ _. rewrite Hq', Ep. by f_equal.
    + intros _. rewrite Ep. split; [done|]. cbn. by rewrite Hf'.
    + destruct Ha as [[Hq _]|(Hn & _)]; [left; congruence|by right].
  - destruct HL as (-> & HE & Hd).
    assert (initialised (fst s') = false) as Hi' by (destruct HE as [-> | ->]; done).
    split_and!; [intros K; congruence|done|done|]. 
    destruct Hd as [Hd|(_ & _ & q & _ & _ & [Hd|Hn])]; [left; apply durable_kept, Hd|left; by apply durable_kept|by right].
Qed.

(** It keeps a stored state. *)
Lemma load_coherent q s r s' : coherent s → durable (snd s) = Some q → load_if_not_initialised config s = Some (r, s') →
  coherent s' ∧ durable (snd s') = Some q ∧
  (r = Ok tt → initialised (fst s') = true ∧ persistence_failed (fst s') = false).
Proof.
  intros Hc Hd E. destruct (load_settles _ _ _ Hc E) as (Hc' & Hok & _ & [Hq|Hn]).
  - split_and!; [done|congruence|done].
  - unfold durable in Hd. by rewrite Hn in Hd.
Qed.

(** What other operations do to the counter. *)
Definition same_counter (p q : PersistentState) : Prop := timestamp q = timestamp p.
#[export] Instance same_counter_preorder : PreOrder same_counter.
Proof. split; [done|]. intros p q r E1 E2. unfold same_counter in *. congruence. Qed.

(** A run of the device, with the counters it returned: signatures that succeed or fail,
    loads, other operations, which leave the counter alone, and power cuts. *)
Inductive counted s : list Z → PersistentState * T → Prop :=
  | counted_start : counted s [] s
  | counted_signature l s1 n s2 : counted s l s1 → initialised (fst s1) = true →
      signature_counter s1 = Some (Ok n, s2) → counted s (l ++ [n]) s2
  | counted_failure l s1 e s2 : counted s l s1 → initialised (fst s1) = true →
      signature_counter s1 = Some (Err e, s2) → counted s l s2
  | counted_load l s1 r s2 : counted s l s1 → load_if_not_initialised config s1 = Some (r, s2) → counted s l s2
  | counted_other {A} l s1 (c : s_step A) r s2 : counted s l s1 → initialised (fst s1) = true →
      preserves (evolves same_counter) c → c s1 = Some (r, s2) → counted s l s2
  | counted_boot l s1 t' : counted s l s1 → tc_file t' FILENAME = tc_file (snd s1) FILENAME →
      counted s l (PersistentState_default, t').

Definition below_counter (l : list Z) q : Prop := timestamp q = 0 ∨ Forall (λ n, n < timestamp q) (filter (λ n, 0 < n) l).

(** One signature: the new value is stored before the old one leaves. *)
Definition signed s q (r : result CtapError Z) s' : Prop :=
  initialised (fst s') = true ∧ coherent s' ∧ ∃ q', durable (snd s') = Some q' ∧
  (timestamp q' = timestamp q ∨ 0 < timestamp q < timestamp q' ∨ timestamp q' = 0) ∧
  match r with
  | Ok n => n ≤ 0 ∨ n = timestamp q ∧ (n < timestamp q' ∨ timestamp q' = 0)
  | Err _ => True
  end.

Lemma signature_counter_run s q r s' : initialised (fst s) = true → coherent s → durable (snd s) = Some q →
  signature_counter s = Some (r, s') → signed s q r s'.
Proof.
  intros Hi Hc Hd E. unfold signature_counter in E. unfold mbind at 1, step_bind at 1, field at 1 in E.
  unfold mbind at 1, step_bind at 1 in E. cbn in E.
  destruct (0 <? timestamp (fst s)) eqn:Hpos; bool_to_prop.
  2:{ injection E as <- <-. split_and!; [done..|]. exists q. split_and!; [done|by left|left; lia]. }
  unfold mbind at 1, step_bind at 1, on_client, zoom, syscall in E. destruct s as [p t]. cbn [fst snd] in *.
  destruct (tc_call (RandomBytes 1) t) as [[bs|] t1] eqn:Er; [|done].
  assert (durable t1 = durable t) as Hd1 by (apply durable_kept; by eapply tc_frame).
  destruct (tc_random_bytes _ _ _ _ Er) as [Hl Hb].
  destruct bs as [|b [|? ?]]; [done| |done]. cbn in E.
  assert (0 ≤ b) by (apply Forall_cons in Hb as [[? _] _]; lia). clear Hl Hb Er.
  set (ts := default 0 (u32_add (timestamp p) (b + 1))) in E.
  assert (timestamp p < ts ∨ ts = 0) as Hts.
  { subst ts. unfold u32_add. case_match; cbn; [left; lia|by right]. }
  set (p1 := set_timestamp ts p) in *.
  assert (timestamp p1 = ts) as Ep1 by done.
  assert (E2 : (save ≫= λ _, mret (timestamp p)) (p1, t1) = Some (r, s')) by done. clear E.
  unfold mbind, step_bind in E2. destruct (wp_elim _ _ _ (save_wp (p1, t1))) as (r1 & [p2 t2] & Es & HS).
  rewrite Es in E2. destruct r1 as [[]|e]; injection E2 as <- <-; cbn in HS.
  - destruct HS as (-> & Hnf & Hd2). assert (q = skip_fields p) as -> by (pose proof (Hc Hi Hnf); cbn in *; congruence).
    split_and!; [done|by intros _ _|]. exists (skip_fields p1). cbn. split_and!; [done|lia|right]. lia.
  - destruct HS as (-> & -> & Hd2). split_and!; [done|by intros _|].
    destruct Hd2 as [Hd2|[Hnf Hd2]].
    + exists q. cbn. rewrite Hd2, Hd1. split_and!; [done|by left|done].
    + assert (q = skip_fields p) as -> by (pose proof (Hc Hi Hnf); cbn in *; congruence).
      exists (skip_fields p1). cbn. split_and!; [done|lia|done].
Qed.

(** The counters so far, and the next one. *)
Lemma signed_below l s q r s' : below_counter l q → signed s q r s' →
  ∃ q', durable (snd s') = Some q' ∧ below_counter l q' ∧
  ∀ n, r = Ok n → below_counter (l ++ [n]) q' ∧ (0 < n → Forall (λ m, m < n) (filter (λ m, 0 < m) l)).
Proof.
  intros Hl (_ & _ & q' & Hd & Ht & Hn). exists q'. split; [done|].
  assert (below_counter l q') as Hl'.
  { destruct Hl as [Hz|Hl]; [left; lia|]. destruct Ht as [E|[E|E]]; [right|right|by left].
    - by rewrite E.
    - eapply Forall_impl; [exact Hl|]. intros x. cbn. lia. }
  split; [done|]. intros n ->. unfold below_counter. rewrite filter_app.
  destruct (decide (0 < n)) as [Hpos|Hneg].
  - rewrite filter_cons_True, filter_nil by done. destruct Hn as [Hn|[-> Hlt]]; [lia|].
    assert (Forall (λ m, m < timestamp q) (filter (λ m, 0 < m) l)) as Hb by (destruct Hl; [lia|done]).
    split; [|done]. destruct Hl' as [?|?]; [by left|]. destruct Hlt; [right|by left].
    apply Forall_app. split; [done|]. by repeat constructor.
  - rewrite filter_cons_False, filter_nil, app_nil_r by done. split; [done|lia].
Qed.

(** The state of a run. *)
Definition counter_invariant l s : Prop :=
  coherent s ∧ StronglySorted Z.lt (filter (λ n, 0 < n) l) ∧ ∃ q, durable (snd s) = Some q ∧ below_counter l q.

Lemma StronglySorted_snoc (l : list Z) n : StronglySorted Z.lt l → Forall (λ m, m < n) l → StronglySorted Z.lt (l ++ [n]).
Proof.
  induction 1 as [|x l Hs IH Hx]; cbn [app]; intros Hn; [by repeat constructor|].
  apply Forall_cons in Hn as [??]. constructor; [by apply IH|]. apply Forall_app. split; [done|by repeat constructor].
Qed.

Lemma counted_invariant s l s' : counter_invariant [] s → counted s l s' → counter_invariant l s'.
Proof.
  intros H0'. induction 1 as [|l s1 n s2 _ IH Hi E|l s1 e s2 _ IH Hi E|l s1 r s2 _ IH E|A l s1 c r s2 _ IH Hi Hc E|l s1 t' _ IH E];
    [done|..]; destruct IH as (Hco & Hso & q & Hd & Hb).
  - pose proof (signature_counter_run _ _ _ _ Hi Hco Hd E) as Hsig. pose proof Hsig as (_ & Hco2 & _).
    destruct (signed_below _ _ _ _ _ Hb Hsig) as (q' & Hd' & _ & Hn). destruct (Hn n eq_refl) as [Hb' Hlt].
    split; [done|]. split; [|by exists q']. rewrite filter_app. destruct (decide (0 < n)) as [Hp|Hp].
    + rewrite filter_cons_True, filter_nil by done. by apply StronglySorted_snoc, Hlt.
    + by rewrite filter_cons_False, filter_nil, app_nil_r by done.
  - pose proof (signature_counter_run _ _ _ _ Hi Hco Hd E) as Hsig. pose proof Hsig as (_ & Hco2 & _).
    destruct (signed_below _ _ _ _ _ Hb Hsig) as (q' & Hd' & Hb' & _). split; [done|]. split; [done|by exists q'].
  - destruct (load_coherent _ _ _ _ Hco Hd E) as (Hco2 & Hd2 & _). split; [done|]. split; [done|by exists q].
  - destruct (Hc _ _ _ E Hi Hco) as (_ & Hco2 & HD). destruct (HD _ Hd) as (q' & Hd' & Hq').
    split; [done|]. split; [done|]. exists q'. split; [done|]. unfold below_counter. by rewrite Hq'.
  - split; [intros ?; done|]. split; [done|]. exists q. split; [|done]. cbn.
    rewrite <- Hd. by apply durable_kept.
Qed.
End counter.


(** Two signatures, a change of policy, a power cut, and a third. *)
Definition stored_store : model_client :=
  with_file FILENAME (mc_fields (set_timestamp 41 (reset_value sample_config))) empty_store.
Definition then_run {A} (c : s_step A) (s : PersistentState * model_client) : PersistentState * model_client :=
  match c s with Some (_, s) => s | None => s end.
Definition loaded0 := then_run (load_if_not_initialised sample_config) (PersistentState_default, stored_store).
Definition signed1 := then_run signature_counter loaded0.
Definition toggled := then_run toggle_always_uv signed1.
Definition signed2 := then_run signature_counter toggled.
Definition rebooted := then_run (load_if_not_initialised sample_config) (PersistentState_default, snd signed2).
Definition signed3 := then_run signature_counter rebooted.

