(* ===== verification/ClientPinSafety.v ===== *)
(** * What the commands leave alone

    Postconditions of handlers that may panic, and the frames of the PIN commands: the
    protocol never touches the stored state, and only the PIN check changes the retries. *)

From stdpp Require Import base tactics numbers list option strings.
From S2P Require Import Prelude Interfaces FidoClient PinToken FidoState ResidentReplacement Utf8 ClientPin FidoStateTheorems.

(** ** Partial correctness

    [wlp c Q s]: unless it panics, [c] ends from [s] in a result and a state of [Q]. *)
Definition wlp {S E A} (c : step S E A) (Q : result E A → S → Prop) (s : S) : Prop :=
  ∀ r s', c s = Some (r, s') → Q r s'.

Section wlp.
Context {S E : Type}.

Lemma wlp_ret {A} (a : A) (Q : result E A → S → Prop) s : Q (Ok a) s → wlp (mret a) Q s.
Proof. by intros HQ r s' [= <- <-]. Qed.
Lemma wlp_throw {A} e (Q : result E A → S → Prop) s : Q (Err e) s → wlp (throw e) Q s.
Proof. by intros HQ r s' [= <- <-]. Qed.
Lemma wlp_get (Q : result E S → S → Prop) s : Q (Ok s) s → wlp get_state Q s.
Proof. by intros HQ r s' [= <- <-]. Qed.
Lemma wlp_modify f (Q : result E unit → S → Prop) s : Q (Ok tt) (f s) → wlp (modify f) Q s.
Proof. by intros HQ r s' [= <- <-]. Qed.
Lemma wlp_bind {A A'} (c : step S E A) (k : A → step S E A') Q s :
  wlp c (λ r s', match r with Ok a => wlp (k a) Q s' | Err e => Q (Err e) s' end) s → wlp (c ≫= k) Q s.
Proof.
  intros Hc r s'. unfold mbind, step_bind. destruct (c s) as [[[a|e] s1]|] eqn:Ec; [| |done].
  - by apply (Hc _ _ Ec).
  - intros [= <- <-]. by apply (Hc _ _ Ec).
Qed.
Lemma wlp_mono {A} (c : step S E A) (Q Q' : result E A → S → Prop) s :
  wlp c Q s → (∀ r s', Q r s' → Q' r s') → wlp c Q' s.
Proof. unfold wlp. eauto. Qed.
Lemma wlp_conj {A} (c : step S E A) (Q Q' : result E A → S → Prop) s :
  wlp c Q s → wlp c Q' s → wlp c (λ r s', Q r s' ∧ Q' r s') s.
Proof. unfold wlp. eauto. Qed.
Lemma wlp_return_if (c : bool) e (Q : result E unit → S → Prop) s :
  (c = true → Q (Err e) s) → (c = false → Q (Ok tt) s) → wlp (return_if c e) Q s.
Proof. destruct c; cbn; intros H1 H2 r s' [= <- <-]; auto. Qed.
Lemma wlp_ok_or {A} (o : option A) e (Q : result E A → S → Prop) s :
  (∀ a, o = Some a → Q (Ok a) s) → (o = None → Q (Err e) s) → wlp (ok_or o e) Q s.
Proof. destruct o; cbn; intros H1 H2 r s' [= <- <-]; auto. Qed.
Lemma wlp_preserves {A} (R : S → S → Prop) (c : step S E A) (Q : result E A → S → Prop) s :
  preserves R c → (∀ r s', R s s' → Q r s') → wlp c Q s.
Proof. intros Hc HQ r s' Ec. by eapply HQ, Hc. Qed.
Lemma wlp_wp {A} (c : step S E A) (Q : result E A → S → Prop) s : wp c Q s → wlp c Q s.
Proof. intros Hw r s' Ec. by apply (wp_run _ _ _ _ _ Ec Hw). Qed.
End wlp.

Ltac wlp_step :=
  lazymatch goal with
  | |- wlp (_ ≫= _) _ _ => apply wlp_bind
  | |- wlp (mret _) _ _ => apply wlp_ret
  | |- wlp (throw _) _ _ => apply wlp_throw
  | |- wlp get_state _ _ => apply wlp_get
  | |- wlp (modify _) _ _ => apply wlp_modify
  | |- wlp (return_if _ _) _ _ => apply wlp_return_if; intros
  | |- wlp (ok_or _ _) _ _ => apply wlp_ok_or; intros
  | |- wlp (if ?c then _ else _) _ _ => destruct c eqn:?
  end; cbv beta iota.
Ltac wlp_steps := repeat wlp_step.

(** ** Work of the protocol *)

Section frames.
Context {T : Type} `{FidoCrates, Sha256, FidoClientView T, PersistentCborView, ReplacementCborView} (config : Config).
Implicit Types a : Authenticator T.

(** The runtime state beside the client: the retries of the power cycle and the stored
    state are as they were. *)
Definition runtime_kept (s s' : RuntimeState * T) : Prop :=
  rt_mismatches (fst s') = rt_mismatches (fst s) ∧ state_kept (snd s) (snd s').
#[export] Instance runtime_kept_preorder : PreOrder runtime_kept.
Proof.
  split; [done|]. intros s1 s2 s3 [E1 K1] [E2 K2]. unfold runtime_kept. split; [congruence|by etrans].
Qed.

Lemma on_client_runtime_kept {A} (c : f_step A) : preserves state_kept c → preserves runtime_kept (on_client c).
Proof. by apply preserves_zoom. Qed.
Lemma field_runtime_kept {A} (f : RuntimeState → A) : preserves (E := CtapError) runtime_kept (field f).
Proof. unfold field. preserve. Qed.
Lemma on_protocol_runtime_kept {A} p (c : t_step A) : preserves (on_second state_kept) c → preserves runtime_kept (on_protocol p c).
Proof. by apply preserves_zoom. Qed.
Lemma assign_runtime_kept (f : RuntimeState → RuntimeState) : (∀ r, rt_mismatches (f r) = rt_mismatches r) →
  preserves (E := CtapError) runtime_kept (assign f).
Proof. intros Hf. apply preserves_modify. intros s. split; [apply Hf|done]. Qed.
Hint Resolve on_client_runtime_kept field_runtime_kept on_protocol_runtime_kept new_protocol_kept state_observe_kept : preserves.
Hint Extern 2 (preserves runtime_kept (assign _)) => apply assign_runtime_kept; done : preserves.

Lemma with_protocol_runtime_kept {A} (c : t_step A) : preserves (on_second state_kept) c → preserves runtime_kept (with_protocol c).
Proof. intros. unfold with_protocol. preserve. Qed.
Lemma invalidate_runtime_kept : preserves runtime_kept invalidate_pin_tokens.
Proof. unfold invalidate_pin_tokens. preserve. Qed.
Hint Resolve invalidate_runtime_kept : preserves.
Lemma observe_runtime_kept : preserves runtime_kept observe_pin_tokens.
Proof. unfold observe_pin_tokens. preserve. Qed.

(** ** The authenticator *)

Definition stored_part a : PersistentState * T := (persistent a, trussed a).

(** Protocol work. *)
Definition kept a a' : Prop :=
  persistent a' = persistent a ∧ rt_mismatches (runtime a') = rt_mismatches (runtime a) ∧
  state_kept (trussed a) (trussed a').
#[export] Instance kept_preorder : PreOrder kept.
Proof.
  split; [done|]. intros a1 a2 a3 (E1 & R1 & K1) (E2 & R2 & K2). unfold kept. split_and!; [congruence..|by etrans].
Qed.

Lemma on_trussed_kept {A} (c : f_step A) : preserves state_kept c → preserves kept (on_trussed c).
Proof. by apply preserves_zoom. Qed.
Lemma on_runtime_kept {A} (c : r_step A) : preserves runtime_kept c → preserves kept (on_runtime c).
Proof. apply preserves_zoom. by intros a s [E K]. Qed.
Lemma on_pin_kept {A} (c : t_step A) : preserves (on_second state_kept) c → preserves kept (on_pin c).
Proof. intros. by apply on_runtime_kept, with_protocol_runtime_kept. Qed.
Lemma stored_kept {A} (f : PersistentState → A) : preserves kept (stored f : a_step A).
Proof. unfold stored. preserve. Qed.
Hint Resolve on_trussed_kept on_runtime_kept on_pin_kept stored_kept observe_runtime_kept
  prepend_iv_kept verify_kept observe_usage_timer_kept : preserves.

Lemma selected_protocol_kept v : preserves kept (selected_protocol v : a_step _).
Proof. unfold selected_protocol. preserve. Qed.
Lemma pin_blocked_kept : preserves kept (pin_blocked : a_step unit).
Proof. unfold pin_blocked. preserve. Qed.
Lemma consent_kept strong : preserves kept (consent config strong).
Proof. unfold consent. preserve. Qed.
Lemma pin_digest_kept pin : preserves kept (pin_digest pin : a_step bytes).
Proof. unfold pin_digest. preserve. Qed.
Lemma check_length_kept secret enc : preserves kept (decrypt_pin_check_length secret enc : a_step bytes).
Proof. unfold decrypt_pin_check_length. preserve. Qed.
Hint Resolve selected_protocol_kept pin_blocked_kept consent_kept pin_digest_kept check_length_kept : preserves.

Lemma escalate_kept v secret enc : preserves kept (decrypt_pin_hash_and_maybe_escalate v secret enc : a_step unit).
Proof. unfold decrypt_pin_hash_and_maybe_escalate. preserve. Qed.
Lemma invalidate_tokens_kept : preserves kept (invalidate_tokens : a_step unit).
Proof. unfold invalidate_tokens. preserve. Qed.
Hint Resolve invalidate_tokens_kept : preserves.
Lemma grant_token_kept v secret p id : preserves kept (grant_token v secret p id : a_step PinResponse).
Proof. unfold grant_token. preserve. Qed.
Lemma change_pin_request_kept r : preserves kept (change_pin_request r : a_step _).
Proof. unfold change_pin_request. preserve. Qed.
Lemma get_pin_token_request_kept r : preserves kept (get_pin_token_request r : a_step _).
Proof. unfold get_pin_token_request. preserve. Qed.
Lemma get_pin_uv_auth_token_request_kept r : preserves kept (get_pin_uv_auth_token_request config r : a_step _).
Proof. unfold get_pin_uv_auth_token_request. preserve. Qed.
Lemma authorized_kept {A} v d sig (c : step PinToken CtapError A) :
  preserves (on_second (S := PinProtocolState) (T := T) state_kept) (verify_pin_token v d sig;; with_token v c).
Proof. preserve. Qed.
Hint Resolve authorized_kept : preserves.
Lemma pin_prechecks_kept o auth v d p id : preserves kept (pin_prechecks config o auth v d p id : a_step bool).
Proof. unfold pin_prechecks, user_present. preserve. Qed.
Lemma credential_management_kept r : preserves kept (verify_credential_management_pin_auth r : a_step unit).
Proof. unfold verify_credential_management_pin_auth. preserve. Qed.

(** ** Operations of the stored state

    [settles G a a']: from an initialised and coherent state, whatever fails, to another,
    with the stored state moved as [G] says; [moves] also keeps the retries of the power
    cycle. *)
Definition settles (G : PersistentState → PersistentState → Prop) a a' : Prop :=
  evolves G (stored_part a) (stored_part a').
Definition moves (G : PersistentState → PersistentState → Prop) a a' : Prop :=
  rt_mismatches (runtime a') = rt_mismatches (runtime a) ∧ settles G a a'.

Section moves.
Context (G : PersistentState → PersistentState → Prop) `{!PreOrder G}.

#[export] Instance settles_preorder : PreOrder (settles G).
Proof. split; [intros a; unfold settles; reflexivity|]. intros a1 a2 a3 V1 V2. unfold settles in *. by etrans. Qed.
#[export] Instance moves_preorder : PreOrder (moves G).
Proof.
  split; [by split|]. intros a1 a2 a3 [E1 V1] [E2 V2]. split; [congruence|by etrans].
Qed.

Lemma kept_moves a a' : kept a a' → moves G a a'.
Proof. intros (E & R & K). split; [done|]. by apply evolves_kept. Qed.
Lemma preserves_kept_moves {A} (c : a_step A) : preserves kept c → preserves (moves G) c.
Proof. intros Hc s r s' E. by eapply kept_moves, Hc. Qed.
Lemma preserves_moves_settles {A} (c : a_step A) : preserves (moves G) c → preserves (settles G) c.
Proof. intros Hc s r s' E. by eapply Hc. Qed.
Lemma on_persistent_moves {A} (c : s_step A) : preserves (evolves G) c → preserves (moves G) (on_persistent c).
Proof. apply preserves_zoom. intros a s V. by split. Qed.
Lemma set_runtime_moves f : (∀ r, rt_mismatches (f r) = rt_mismatches r) → preserves (moves G) (set_runtime f : a_step unit).
Proof. intros Hf. apply preserves_modify. intros a. split; [apply Hf|unfold settles; reflexivity]. Qed.
Lemma set_runtime_settles f : preserves (settles G) (set_runtime f : a_step unit).
Proof. apply preserves_modify. intros a. unfold settles. reflexivity. Qed.
End moves.

(** ** Which commands leave the PIN and its retries alone *)

Definition same_pin (p q : PersistentState) : Prop := pin_hash q = pin_hash p ∧ ps_mismatches q = ps_mismatches p.
#[export] Instance same_pin_preorder : PreOrder same_pin.
Proof. split; [done|]. intros p q r [E1 F1] [E2 F2]. unfold same_pin. split; congruence. Qed.

Section policy.
Context (G : PersistentState → PersistentState → Prop) `{!PreOrder G}.
Context (Hpolicy : ∀ m ids f u p, G (skip_fields p) (skip_fields (set_policy (m p) (ids p) (f p) (u p) p))).

Hint Resolve preserves_kept_moves on_persistent_moves invalidate_tokens_kept stored_kept selected_protocol_kept : preserves.
Hint Extern 3 (preserves (moves G) (on_pin _)) => apply preserves_kept_moves, on_pin_kept; exact (authorized_kept _ _ _ _) : preserves.

Lemma set_min_moves n : preserves (moves G) (on_persistent (set_min_pin_length n)).
Proof. apply on_persistent_moves. by destruct (policy_evolves (T := T) G Hpolicy) as (? & _). Qed.
Lemma set_rp_ids_moves ids : preserves (moves G) (on_persistent (set_min_pin_length_rp_ids ids)).
Proof. apply on_persistent_moves. by destruct (policy_evolves (T := T) G Hpolicy) as (_ & ? & _). Qed.
Lemma set_force_moves v : preserves (moves G) (on_persistent (set_force_pin_change v)).
Proof. apply on_persistent_moves. by destruct (policy_evolves (T := T) G Hpolicy) as (_ & _ & ? & _). Qed.
Lemma toggle_moves : preserves (moves G) (on_persistent toggle_always_uv).
Proof. apply on_persistent_moves. by destruct (policy_evolves (T := T) G Hpolicy) as (_ & _ & _ & ?). Qed.
Hint Resolve set_min_moves set_rp_ids_moves set_force_moves toggle_moves : preserves.

Lemma force_change_moves : preserves (moves G) force_change.
Proof. unfold force_change. preserve. Qed.
Hint Resolve force_change_moves : preserves.
Lemma config_set_moves r : preserves (moves G) (config_set_min_pin_length r).
Proof. unfold config_set_min_pin_length. preserve. Qed.
Hint Resolve config_set_moves : preserves.
Lemma config_command_moves r : preserves (moves G) (config_command config r).
Proof. unfold config_command. preserve. Qed.
End policy.
End frames.
