(* ===== verification/PinAttempts.v ===== *)
(** * Guessing the PIN

    Every comparison with the stored PIN is paid for in the store before it is made; so,
    whatever else happens, eight wrong guesses end it, and three in one power cycle.  Then,
    what is accepted as a new PIN. *)

From stdpp Require Import base tactics numbers list option strings gmap.
From S2P Require Import Prelude Interfaces ModelBackend FidoClient PinToken FidoState ResidentReplacement Utf8 ClientPin ModelFido FidoStateTheorems CounterTheorems ClientPinSafety.

Section attempts.
Context {T : Type} `{FidoCrates, !FidoCratesView, Sha256, FidoClientView T, PersistentCborView, ReplacementCborView}.
Context (config : Config).
Implicit Types (a : Authenticator T) (q : PersistentState).

(** ** The work before a command *)

Lemma rk_not_state p : in_rk_dir p = true → p ≠ FILENAME.
Proof.
  unfold in_rk_dir. rewrite bool_decide_eq_true. intros Hp%path_parent_rk ->. by vm_compute in Hp.
Qed.

Lemma preserves_guard {S E A} (R : S → S → Prop) `{!PreOrder R} (c : bool) (e : E) (k : unit → step S E A) :
  (c = false → preserves R (k tt)) → preserves R (return_if c e ≫= k).
Proof.
  destruct c; intros Hk; [intros s r s' [= _ <-]; reflexivity|]. apply preserves_bind; [done|preserve|]. intros []. by apply Hk.
Qed.

Lemma recover_kept : preserves (S := T) state_kept recover_resident_replacement.
Proof.
  unfold recover_resident_replacement, file_exists. apply preserves_bind; [apply _|preserve|]. intros [|]; cbn [negb]; [|preserve].
  apply preserves_bind; [apply _|preserve|]. intros bytes. apply preserves_bind; [apply _|preserve|].
  intros journal. apply preserves_guard; [apply _|]. intros Eg. apply orb_false_iff in Eg as [[_ Eo]%orb_false_iff En].
  apply negb_false_iff, rk_not_state in Eo, En.
  assert (preserves (S := T) state_kept (try_syscall (RenameFile RK_STAGE (new_path journal)) Other)) as Hren.
  { apply preserves_try_syscall, orb_false_iff. split; apply bool_decide_eq_false; [done|congruence]. }
  assert (preserves (S := T) state_kept (try_syscall (RemoveFile (old_path journal)) Other)) as Hrem.
  { apply preserves_try_syscall, bool_decide_eq_false. congruence. }
  preserve.
Qed.

(** From a store with a PIN: what a device knows about it. *)
Definition knows q a : Prop := coherent (stored_part a) ∧ durable (trussed a) = Some q.

(** The prologue that dispatch runs before a command. *)
Definition prologue : a_step unit :=
  on_persistent (load_if_not_initialised config);;
  on_persistent (load_if_not_initialised config);;
  on_runtime observe_pin_tokens;;
  on_trussed recover_resident_replacement.

Definition ready q a : Prop :=
  knows q a ∧ initialised (persistent a) = true ∧ persistence_failed (persistent a) = false.

Lemma ready_memory q a : ready q a → q = skip_fields (persistent a).
Proof. intros ((Hc & Hd) & Hi & Hf). specialize (Hc Hi Hf). cbn in Hc. congruence. Qed.

Lemma kept_knows q a a' : kept a a' → knows q a → knows q a'.
Proof.
  intros (E & _ & K) [Hc Hd]. unfold knows, coherent, stored_part in *. cbn in *. by rewrite E, (durable_kept _ _ K).
Qed.
Lemma kept_ready q a a' : kept a a' → ready q a → ready q a'.
Proof. intros K (Hk & Hi & Hf). split; [by eapply kept_knows|]. by rewrite (proj1 K). Qed.

Lemma load_knows q a : knows q a → wlp (on_persistent (load_if_not_initialised config))
  (λ r a', knows q a' ∧ runtime a' = runtime a ∧ (r = Ok tt → ready q a')) a.
Proof.
  intros [Hc Hd] r a' E. apply zoom_run in E as ([p t] & E & ->).
  destruct (load_coherent config q _ _ _ Hc Hd E) as (Hc' & Hd' & Hok). cbn in *.
  assert (knows q (mkAuthenticator t p (runtime a))) as K by (by split).
  split_and!; [done|done|]. intros Er. by split; [|apply Hok].
Qed.

Lemma prologue_knows q a : knows q a → wlp prologue
  (λ r a', knows q a' ∧ rt_mismatches (runtime a') = rt_mismatches (runtime a) ∧ (r = Ok tt → ready q a')) a.
Proof.
  intros K. unfold prologue. apply wlp_bind. eapply wlp_mono; [by apply load_knows|].
  intros [[]|e] a1 (K1 & E1 & R1); [|split_and!; [done|by rewrite E1|done]]. specialize (R1 eq_refl).
  apply wlp_bind. eapply wlp_mono; [by apply load_knows|].
  intros [[]|e] a2 (K2 & E2 & R2); [|split_and!; [done|by rewrite E2, E1|done]]. specialize (R2 eq_refl).
  rewrite <- E1, <- E2. apply wlp_preserves with (R := kept).
  - apply preserves_bind; [apply _|apply on_runtime_kept, observe_runtime_kept|]. intros _. apply on_trussed_kept, recover_kept.
  - intros r a3 K3. split_and!; [by eapply kept_knows|apply K3|]. intros _. by eapply kept_ready.
Qed.

(** ** A guess

    The three subcommands that compare a PIN, up to the comparison. *)
Definition pin_check (r : PinRequest) : a_step (PinProtocolVersion * SharedSecret * bytes) :=
  match sub_command r with
  | ChangePin => '(version, secret, enc, _) ← change_pin_request r; mret (version, secret, enc)
  | GetPinToken => get_pin_token_request r
  | GetPinUvAuthTokenUsingPinWithPermissions =>
      '(version, secret, enc, _) ← get_pin_uv_auth_token_request config r; mret (version, secret, enc)
  | _ => throw InvalidParameter
  end.

Definition before_comparison (r : PinRequest) : a_step (PinProtocolVersion * SharedSecret * bytes) :=
  prologue;;
  check ← pin_check r;
  decrement_retries;;
  mret check.

(** Whether a request gets as far as a comparison, from where, and whether it is right. *)
Definition right_pin (secret : SharedSecret) (enc : bytes) a : bool :=
  match decrypt secret enc (trussed a), pin_hash (persistent a) with
  | Some (Ok (Some hash), _), Some stored => ct_eq hash stored
  | _, _ => false
  end.
Definition guess (r : PinRequest) a : option (bool * Authenticator T) :=
  match before_comparison r a with
  | Some (Ok (_, secret, enc), a') => Some (right_pin secret enc a', a')
  | _ => None
  end.

(** *** The guard in front of it *)

Definition unblocked a : Prop := ps_mismatches (persistent a) < RESET_RETRIES ∧ rt_mismatches (runtime a) < POWERCYCLE_RETRIES.

(** Protocol work that succeeds only when no counter is exhausted. *)
Definition guarded {A} (c : a_step A) : Prop :=
  preserves kept c ∧ ∀ a x a', c a = Some (Ok x, a') → unblocked a.

Lemma guarded_after {A A'} (c : a_step A) (k : A → a_step A') :
  preserves kept c → (∀ x, guarded (k x)) → guarded (c ≫= k).
Proof.
  intros Hc Hk. split; [apply preserves_bind; [apply _|done|intros; apply Hk]|].
  intros a y a' (x & a1 & E1 & E2)%bind_Ok. pose proof (Hc _ _ _ E1) as (Ep & Er & _).
  destruct (proj2 (Hk x) _ _ _ E2) as [? ?]. unfold unblocked. by rewrite <- Ep, <- Er.
Qed.
Lemma guarded_before {A A'} (c : a_step A) (k : A → a_step A') :
  guarded c → (∀ x, preserves kept (k x)) → guarded (c ≫= k).
Proof.
  intros [Hc Hg] Hk. split; [by apply preserves_bind; [apply _|..]|].
  intros a y a' (x & a1 & E1 & E2)%bind_Ok. by eapply Hg.
Qed.
Lemma guarded_pin_blocked : guarded pin_blocked.
Proof.
  split; [apply pin_blocked_kept|]. intros a x a' E. revert E.
  assert (wlp pin_blocked (λ r _, r = Ok x → unblocked a) a) as W; [|intros E; by eapply W].
  unfold pin_blocked, ps_pin_blocked, rt_pin_blocked, unblocked. wlp_steps; bool_to_prop; done.
Qed.

Hint Resolve selected_protocol_kept pin_blocked_kept on_pin_kept stored_kept verify_pin_auth_kept shared_secret_kept : preserves.

Ltac to_guard := cbv zeta; repeat lazymatch goal with
  | |- guarded (mbind _ pin_blocked) => apply guarded_before; [apply guarded_pin_blocked|intros; preserve]
  | |- guarded (mbind _ _) => apply guarded_after; [preserve|intros]
  end.

Lemma pin_check_guarded r : guarded (pin_check r).
Proof.
  unfold pin_check. destruct (sub_command r);
    try (split; [preserve|by intros a x a' [=]]).
  - apply guarded_before; [|intros [[[]]]; preserve]. unfold change_pin_request. to_guard.
  - unfold get_pin_token_request. to_guard.
  - apply guarded_before; [|intros [[[]]]; preserve]. unfold get_pin_uv_auth_token_request. to_guard.
Qed.

(** *** The debit *)

Definition debited q : PersistentState := set_mismatches (ps_mismatches q + 1) q.

Lemma ps_decrement_wp p t q : coherent (p, t) → durable t = Some q → initialised p = true → persistence_failed p = false →
  ps_mismatches p < RESET_RETRIES →
  wp ps_decrement_retries (λ r s', coherent s' ∧ match r with
    | Ok _ => durable (snd s') = Some (debited q) ∧ initialised (fst s') = true ∧ persistence_failed (fst s') = false
    | Err _ => durable (snd s') = Some q ∨ durable (snd s') = Some (debited q)
    end) (p, t).
Proof.
  intros Hc Hd Hi Hf Hlt. assert (q = skip_fields p) as Eq by (specialize (Hc Hi Hf); cbn in Hc; congruence).
  assert (0 ≤ ps_mismatches p) as Hpos.
  { assert (Hb : is_byte (ps_mismatches q)); [|rewrite Eq in Hb; apply Hb].
    unfold durable in Hd. destruct (tc_file t FILENAME) as [d|]; [|done]. by eapply cbor_widths. }
  assert (debited q = skip_fields (set_mismatches (ps_mismatches p + 1) p)) as Ed by by rewrite Eq.
  apply wp_bind, wp_field. cbn [fst]. rewrite (proj2 (Z.ltb_lt _ _)) by done.
  apply wp_bind, wp_modify, wp_bind. eapply wp_mono; [apply save_wp|]. intros [[]|e] [p1 t1] HS; cbn in HS.
  - destruct HS as (-> & _ & Hd1). apply wp_bind, wp_field, wp_return_if; cbn; intros Ez; bool_to_prop; [lia|].
    split_and!; [by intros _ _|by rewrite Ed|done..].
  - destruct HS as (_ & -> & Hd1). split; [by intros _ ?|]. rewrite Ed. cbn [snd]. by destruct Hd1 as [Hd1|[_ Hd1]]; [left|right]; rewrite Hd1.
Qed.

Lemma decrement_wlp q a : ready q a → unblocked a → wlp decrement_retries (λ r a', match r with
    | Ok _ => ready (debited q) a' ∧ rt_mismatches (runtime a') = rt_mismatches (runtime a) + 1
    | Err _ => (knows q a' ∨ knows (debited q) a') ∧ rt_mismatches (runtime a') = rt_mismatches (runtime a)
    end) a.
Proof.
  intros ((Hc & Hd) & Hi & Hf) [Hlt Hrt] r a' E. unfold decrement_retries in E.
  revert r a' E. change (wlp (on_persistent ps_decrement_retries;; set_runtime rt_decrement_retries) (λ r a', match r with
    | Ok _ => ready (debited q) a' ∧ rt_mismatches (runtime a') = rt_mismatches (runtime a) + 1
    | Err _ => (knows q a' ∨ knows (debited q) a') ∧ rt_mismatches (runtime a') = rt_mismatches (runtime a)
    end) a). apply wlp_bind. intros r a1 E.
  apply zoom_run in E as ([p t] & E & ->).
  pose proof (wp_run _ _ _ _ _ E (ps_decrement_wp _ _ _ Hc Hd Hi Hf Hlt)) as [Hc1 HR]. destruct r as [[]|e]; cbn in *.
  - apply wlp_modify. destruct HR as (Hd1 & Hi1 & Hf1). split; [by split_and!|]. cbn.
    unfold rt_decrement_retries. by rewrite (proj2 (Z.ltb_lt _ _)).
  - split; [|done]. by destruct HR; [left|right]; split.
Qed.

(** *** The whole check *)

Lemma before_comparison_ok q r a x a1 : knows q a → before_comparison r a = Some (Ok x, a1) →
  ready (debited q) a1 ∧ ps_mismatches q < RESET_RETRIES ∧
  rt_mismatches (runtime a) < POWERCYCLE_RETRIES ∧ rt_mismatches (runtime a1) = rt_mismatches (runtime a) + 1.
Proof.
  intros K (u & a0 & E0 & (y & a2 & E1 & (v & a3 & E2 & [= -> <-])%bind_Ok)%bind_Ok)%bind_Ok.
  destruct (prologue_knows _ _ K _ _ E0) as (_ & Er & R). destruct u. specialize (R eq_refl).
  destruct (pin_check_guarded r) as [Hk Hg]. pose proof (Hk _ _ _ E1) as K1. pose proof (kept_ready _ _ _ K1 R) as R2.
  destruct (Hg _ _ _ E1) as [Hlt Hrt].
  assert (unblocked a2) as U2 by (unfold unblocked; destruct K1 as (-> & -> & _); done).
  destruct (decrement_wlp _ _ R2 U2 _ _ E2) as [R3 Er3]. destruct K1 as (_ & Er1 & _).
  pose proof (ready_memory _ _ R) as Eq. split_and!; [exact R3|by rewrite Eq|lia|lia].
Qed.

(** *** A whole request *)

(** The three subcommands: up to the check, the check, and the rest. *)
Lemma pin_check_split r : sub_command r = ChangePin ∨ sub_command r = GetPinToken ∨
    sub_command r = GetPinUvAuthTokenUsingPinWithPermissions →
  ∃ (X : Type) (first : a_step X) (args : X → PinProtocolVersion * SharedSecret * bytes) (rest : X → a_step PinResponse),
    (∀ a, client_pin config r a = (x ← first; check_pin (args x).1.1 (args x).1.2 (args x).2;; rest x) a) ∧
    (∀ a, pin_check r a = (x ← first; mret (args x)) a).
Proof.
  assert (∀ (X : Type) (first : a_step X) (k k' : X → a_step PinResponse) a,
    (∀ x a, k x a = k' x a) → (first ≫= k) a = (first ≫= k') a) as Hext.
  { intros X first k k' a Hk. unfold mbind, step_bind. destruct (first a) as [[[]]|]; [apply Hk|done|done]. }
  unfold client_pin, pin_check. intros [-> |[-> | ->]].
  - exists _, (change_pin_request r), (λ x, x.1), (λ x, change_pin_store x.1.1.1 x.1.1.2 x.2). split.
    + intros a. apply Hext. by intros [[[v s] e] n].
    + intros a. unfold mbind, step_bind. by destruct (change_pin_request r a) as [[[[[[]]]|]]|].
  - exists _, (get_pin_token_request r), id,
      (λ x, force ← stored force_pin_change; return_if force PinInvalid;;
            grant_token x.1.1 x.1.2 (Z.lor MAKE_CREDENTIAL GET_ASSERTION) None). split.
    + intros a. apply Hext. by intros [[v s] e].
    + intros a. unfold mbind, step_bind. by destruct (get_pin_token_request r a) as [[[|]]|].
  - exists _, (get_pin_uv_auth_token_request config r), (λ x, x.1),
      (λ x, force ← stored force_pin_change; return_if force PinPolicyViolation;;
            grant_token x.1.1.1 x.1.1.2 x.2 (pr_rp_id r)). split.
    + intros a. apply Hext. by intros [[[v s] e] n].
    + intros a. unfold mbind, step_bind. by destruct (get_pin_uv_auth_token_request config r a) as [[[[[[]]]|]]|].
Qed.

(** A wrong PIN is an error, and the rest of the request is protocol work. *)
Lemma wrong_pin v secret enc a res a' : right_pin secret enc a = false →
  decrypt_pin_hash_and_maybe_escalate v secret enc a = Some (res, a') → (∃ e, res = Err e) ∧ kept a a'.
Proof.
  intros Hw E. split; [|by eapply escalate_kept]. revert E.
  assert (wlp (decrypt_pin_hash_and_maybe_escalate v secret enc) (λ r _, ∃ e, r = Err e) a) as W; [|intros E; by eapply W].
  unfold decrypt_pin_hash_and_maybe_escalate. apply wlp_bind. intros dec a1 E.
  apply zoom_run in E as (t & E & ->). unfold right_pin in Hw. rewrite E in Hw.
  destruct dec as [h|e]; [|by eexists]. unfold stored.
  apply wlp_bind, wlp_bind, wlp_get, wlp_ret, wlp_bind, wlp_ok_or; [intros st Hs|intros _; by eexists].
  cbn in Hs. rewrite Hs in Hw. rewrite Hw.
  apply wlp_bind. intros [] a2 _; [|by eexists]. apply wlp_bind. intros [] a3 _; [|by eexists].
  apply wlp_throw. by eexists.
Qed.

Lemma discarding_run {A} (c : a_step A) a r a' : discarding c a = Some (r, a') → ∃ a1, c a = Some (r, a1) ∧
  persistent a' = persistent a1 ∧ trussed a' = trussed a1 ∧ rt_mismatches (runtime a') = rt_mismatches (runtime a1).
Proof.
  unfold discarding. destruct (c a) as [[r1 a1]|]; [|done]. intros [= <- <-]. exists a1. by case_match.
Qed.

Lemma handle_split {A} (c : a_step A) a : try_handle_ctap2 config c a = (prologue;; discarding c) a.
Proof.
  unfold try_handle_ctap2, try_get_ctap2_response, prologue, mbind, step_bind.
  repeat match goal with |- context [match ?c ?a with Some _ => _ | None => _ end] =>
    let E := fresh in destruct (c a) as [[[]]|] eqn:E; cbn [fst snd]; try done end.
Qed.

Lemma knows_discarded q a a1 : persistent a = persistent a1 → trussed a = trussed a1 → knows q a1 → knows q a.
Proof. intros Ep Et K. unfold knows, stored_part in *. by rewrite Ep, Et. Qed.

(** What a request can do to the retries. *)
Definition outcome q r a (res : result CtapError PinResponse) a' : Prop :=
  match guess r a with
  | Some (true, _) => True
  | Some (false, _) => (∃ e, res = Err e) ∧ knows (debited q) a' ∧
      rt_mismatches (runtime a') = rt_mismatches (runtime a) + 1
  | None => (knows q a' ∨ knows (debited q) a' ∧ ps_mismatches q < RESET_RETRIES) ∧
      rt_mismatches (runtime a') = rt_mismatches (runtime a)
  end.

(** A request without a check is protocol work when a PIN is set. *)
Lemma no_check_kept q r a0 : ready q a0 → pin_hash q ≠ None →
  sub_command r ≠ ChangePin → sub_command r ≠ GetPinToken → sub_command r ≠ GetPinUvAuthTokenUsingPinWithPermissions →
  wlp (client_pin config r) (λ _ a', kept a0 a') a0.
Proof.
  intros R Hpin N1 N2 N3. unfold client_pin. destruct (sub_command r); try congruence.
  - apply wlp_preserves with (R := kept); [preserve|done].
  - apply wlp_preserves with (R := kept); [|done]. pose proof (public_key_kept (T := T)). preserve.
  - unfold set_pin. do 3 (apply wlp_bind, wlp_ok_or; [intros ? _|done]).
    apply wlp_bind. apply wlp_preserves with (R := kept); [apply selected_protocol_kept|].
    intros [v|e] b1 K1; [|done]. unfold stored. apply wlp_bind, wlp_bind, wlp_get, wlp_ret, wlp_bind, wlp_return_if; [done|].
    intros E. exfalso. rewrite (proj1 K1) in E. rewrite (ready_memory _ _ R) in Hpin. cbn in Hpin.
    unfold pin_is_set in E. apply bool_decide_eq_false in E. by apply E, not_eq_None_Some.
  - by apply wlp_throw.
  - by apply wlp_throw.
  - by apply wlp_throw.
Qed.

(** A request with a check, after the prologue. *)
Lemma check_outcome q r a0 res a1 : ready q a0 →
  sub_command r = ChangePin ∨ sub_command r = GetPinToken ∨ sub_command r = GetPinUvAuthTokenUsingPinWithPermissions →
  client_pin config r a0 = Some (res, a1) →
  match (check ← pin_check r; decrement_retries;; mret check) a0 with
  | Some (Ok (_, secret, enc), a3) => right_pin secret enc a3 = true ∨
      (∃ e, res = Err e) ∧ ready (debited q) a1 ∧ rt_mismatches (runtime a1) = rt_mismatches (runtime a0) + 1
  | _ => (knows q a1 ∨ knows (debited q) a1 ∧ ps_mismatches q < RESET_RETRIES) ∧
      rt_mismatches (runtime a1) = rt_mismatches (runtime a0)
  end.
Proof.
  intros R Hsub E. destruct (pin_check_split r Hsub) as (X & first & args & rest & E1 & E2).
  pose proof (pin_check_guarded r) as [Hk Hg]. rewrite E1 in E. clear E1.
  unfold mbind at 1, step_bind at 1 in E. unfold mbind at 1, step_bind at 1. pose proof (E2 a0) as Ec.
  unfold mbind, step_bind in Ec. destruct (first a0) as [[[x|e] a2]|] eqn:Ef; [| |done]; rewrite Ec.
  2:{ injection E as <- <-. pose proof (Hk _ _ _ Ec) as K. split; [left; by eapply kept_knows, R|apply K]. }
  pose proof (Hk _ _ _ Ec) as K. pose proof (kept_ready _ _ _ K R) as R2.
  pose proof (Hg _ _ _ Ec) as U. assert (unblocked a2) as U2 by (unfold unblocked; destruct K as (-> & -> & _); done).
  assert (ps_mismatches q < RESET_RETRIES) as Hlt by (rewrite (ready_memory _ _ R); apply U).
  destruct K as (_ & Er & _). destruct (args x) as [[v s] enc]. cbn in E.
  unfold check_pin, mbind, step_bind in E. unfold mbind, step_bind. cbn.
  destruct (decrement_retries a2) as [[[[]|e] a3]|] eqn:Ed; [| |done].
  2:{ injection E as <- <-. destruct (decrement_wlp _ _ R2 U2 _ _ Ed) as [HK Hr].
      split; [destruct HK; [by left|by right]|congruence]. }
  destruct (decrement_wlp _ _ R2 U2 _ _ Ed) as [R3 Hr]. cbn.
  destruct (right_pin s enc a3) eqn:Hright; [by left|right].
  destruct (decrypt_pin_hash_and_maybe_escalate v s enc a3) as [[r1 a4]|] eqn:Ew; [|done].
  destruct (wrong_pin _ _ _ _ _ _ Hright Ew) as [[e ->] K4]. injection E as <- <-.
  split; [by eexists|]. split; [by eapply kept_ready|]. rewrite (proj1 (proj2 K4)). lia.
Qed.

Lemma client_pin_outcome q r a res a' : knows q a → pin_hash q ≠ None →
  try_handle_ctap2 config (client_pin config r) a = Some (res, a') → outcome q r a res a'.
Proof.
  intros K Hpin E. rewrite handle_split in E. unfold outcome, guess, before_comparison.
  unfold mbind at 1, step_bind at 1 in E. unfold mbind at 1, step_bind at 1.
  destruct (prologue a) as [[[[]|e] a0]|] eqn:Ep; [| |done];
    destruct (prologue_knows _ _ K _ _ Ep) as (K0 & Er & R).
  2:{ injection E as <- <-. by split; [left|]. }
  specialize (R eq_refl). destruct (discarding_run _ _ _ _ E) as (a1 & E1 & Ep1 & Et1 & Er1). clear E.
  assert (∀ q', knows q' a1 → knows q' a') as HK by (intros q'; by apply knows_discarded).
  destruct (decide (sub_command r = ChangePin ∨ sub_command r = GetPinToken ∨
    sub_command r = GetPinUvAuthTokenUsingPinWithPermissions)) as [Hsub|Hsub].
  - pose proof (check_outcome _ _ _ _ _ R Hsub E1) as HO.
    destruct ((check ← pin_check r; decrement_retries;; mret check) a0) as [[[[[v s] enc]|e] a3]|] eqn:Eb.
    + destruct (right_pin s enc a3); [done|]. destruct HO as [|(He & R1 & Hr)]; [done|].
      split; [done|]. split; [apply HK, R1|congruence].
    + destruct HO as [HO Hr]. split; [naive_solver|congruence].
    + destruct HO as [HO Hr]. split; [naive_solver|congruence].
  - assert (kept a0 a1) as K1 by (eapply (no_check_kept q r a0 R Hpin); [tauto..|exact E1]).
    assert (match (check ← pin_check r; decrement_retries;; mret check) a0 with
      | Some (Ok (_, secret, enc), a') => Some (right_pin secret enc a', a') | _ => None end = None) as ->.
    { unfold pin_check. destruct (sub_command r); try done; tauto. }
    split; [left; by apply HK; eapply kept_knows|]. rewrite Er1, (proj1 (proj2 K1)). done.
Qed.

(** ** A run of guesses

    [guessing a n k a']: from [a], requests of the PIN, other commands that leave the PIN
    alone, failed writes and power cuts lead to [a'], with [n] comparisons, [k] of them
    since the last start, none of which succeeded.  A power cut may end a request after its
    debit: its comparison counts, whatever it gave. *)
Inductive guessing a : nat → nat → Authenticator T → Prop :=
  | guessing_start : guessing a 0 0 a
  | guessing_request n k a1 r res a2 : guessing a n k a1 →
      try_handle_ctap2 config (client_pin config r) a1 = Some (res, a2) → guess r a1 = None → guessing a n k a2
  | guessing_wrong n k a1 r res a2 b : guessing a n k a1 →
      try_handle_ctap2 config (client_pin config r) a1 = Some (res, a2) → guess r a1 = Some (false, b) →
      guessing a (S n) (S k) a2
  | guessing_cut n k a1 r right b t' : guessing a n k a1 → guess r a1 = Some (right, b) →
      tc_file t' FILENAME = tc_file (trussed b) FILENAME → guessing a (S n) 0 (new_authenticator t')
  | guessing_other {A} n k a1 (c : a_step A) res a2 : guessing a n k a1 → preserves (moves same_pin) c →
      try_handle_ctap2 config c a1 = Some (res, a2) → guessing a n k a2
  | guessing_boot n k a1 q q' t' : guessing a n k a1 → durable (trussed a1) = Some q → durable t' = Some q' →
      same_pin q q' → guessing a n 0 (new_authenticator t').

Definition guess_invariant q (n k : nat) a : Prop := ∃ q', knows q' a ∧ pin_hash q' = pin_hash q ∧
  ps_mismatches q + Z.of_nat n ≤ ps_mismatches q' ∧ (n = 0%nat ∨ ps_mismatches q' ≤ RESET_RETRIES) ∧
  Z.of_nat k ≤ rt_mismatches (runtime a) ≤ POWERCYCLE_RETRIES.

Lemma guess_debits q r a right b : knows q a → guess r a = Some (right, b) →
  ready (debited q) b ∧ ps_mismatches q < RESET_RETRIES ∧
  rt_mismatches (runtime a) < POWERCYCLE_RETRIES ∧ rt_mismatches (runtime b) = rt_mismatches (runtime a) + 1.
Proof.
  intros K. unfold guess. destruct (before_comparison r a) as [[[[[v s] enc]|e] a1]|] eqn:E; [|done|done].
  intros [= _ <-]. by eapply before_comparison_ok.
Qed.

Lemma other_command {A} q (c : a_step A) a res a' : knows q a → preserves (moves same_pin) c →
  try_handle_ctap2 config c a = Some (res, a') →
  ∃ q', knows q' a' ∧ same_pin q q' ∧ rt_mismatches (runtime a') = rt_mismatches (runtime a).
Proof.
  intros K Hc E. rewrite handle_split in E. unfold mbind, step_bind in E.
  destruct (prologue a) as [[[[]|e] a0]|] eqn:Ep; [| |done]; destruct (prologue_knows _ _ K _ _ Ep) as (K0 & Er & R).
  2:{ injection E as <- <-. by exists q. }
  destruct (R eq_refl) as ([Hco Hd] & Hi & _). destruct (discarding_run _ _ _ _ E) as (a1 & E1 & Ep1 & Et1 & Er1).
  destruct (Hc _ _ _ E1) as [Hr V]. destruct (V Hi Hco) as (_ & Hco1 & HD). destruct (HD _ Hd) as (q' & Hd' & Hq').
  exists q'. split; [|split; [done|congruence]]. apply (knows_discarded _ _ _ Ep1 Et1). by split.
Qed.

Lemma boot_knows q (t' : T) : durable t' = Some q → knows q (new_authenticator t').
Proof. by split. Qed.

Lemma guessing_invariant q a n k a' : pin_hash q ≠ None → guess_invariant q 0 0 a → guessing a n k a' →
  guess_invariant q n k a'.
Proof.
  intros Hpin H0'. induction 1 as [|n k a1 r res a2 _ IH E Hg|n k a1 r res a2 b _ IH E Hg
    |n k a1 r right b t' _ IH Hg Hf|A n k a1 c res a2 _ IH Hc E|n k a1 q1 q2 t' _ IH Hd1 Hd2 Hs]; [done|..];
    destruct IH as (q' & K & Hp & Hle & Hmax & Hk).
  - pose proof (client_pin_outcome q' r a1 res a2 K ltac:(congruence) E) as HO. unfold outcome in HO. rewrite Hg in HO.
    destruct HO as ([K'|[K' Hlt]] & Er).
    + exists q'. split_and!; [done..|lia|lia].
    + exists (debited q'). split_and!; [done..| | |lia|lia]; cbn; [lia|right; lia].
  - destruct (guess_debits _ _ _ _ _ K Hg) as (_ & Hlt & Hrt & _).
    pose proof (client_pin_outcome q' r a1 res a2 K ltac:(congruence) E) as HO. unfold outcome in HO. rewrite Hg in HO.
    destruct HO as (_ & K' & Er). exists (debited q'). split_and!; [done..| | |lia|lia]; cbn; [lia|right; lia].
  - destruct (guess_debits _ _ _ _ _ K Hg) as (((_ & Hd) & _) & Hlt & _).
    exists (debited q'). split_and!; [|done| | |done|done]; cbn; [|lia|right; lia].
    apply boot_knows. rewrite <- Hd. by apply durable_kept.
  - destruct (other_command _ _ _ _ _ K Hc E) as (q2 & K2 & [Hp2 Hm2] & Er).
    exists q2. split_and!; [done|congruence|lia|lia|lia|lia].
  - destruct K as [_ Hd]. assert (q1 = q') as -> by congruence. destruct Hs as [Hp2 Hm2].
    exists q2. split_and!; [by apply boot_knows|congruence|lia|lia|done|done].
Qed.
End attempts.

(** C9: guessing the PIN is bounded.  From the start of a device whose store holds a PIN and
    some failed attempts, take any run of PIN requests, other commands that leave the PIN
    alone (the policy commands among them), requests and writes that fail, and power cuts
    at any point, in which no comparison succeeds and the authenticator is not reset.  The
    comparisons, with the failed attempts that were stored, are at most eight, at most three
    of them since the last start; the stored PIN is the same, and each comparison was
    charged to the stored attempts; and when eight are stored no request gets to a
    comparison, not even with the right PIN. *)
Theorem pin_guesses_bounded {T : Type}
    `{FidoCrates, !FidoCratesView, Sha256, FidoClientView T, PersistentCborView, ReplacementCborView} config t q n k a :
  durable t = Some q → pin_hash q ≠ None → guessing config (new_authenticator t) n k a →
  (n = 0%nat ∨ ps_mismatches q + Z.of_nat n ≤ RESET_RETRIES) ∧ Z.of_nat k ≤ POWERCYCLE_RETRIES ∧
  ∃ q', durable (trussed a) = Some q' ∧ pin_hash q' = pin_hash q ∧
    ps_mismatches q + Z.of_nat n ≤ ps_mismatches q' ∧
    (RESET_RETRIES ≤ ps_mismatches q' → ∀ r, guess config r a = None).
Proof.
  intros Hd Hpin Hg. apply (guessing_invariant config q) in Hg; [|done|].
  - destruct Hg as (q' & K & Hp & Hle & Hmax & Hk). split; [lia|]. split; [lia|].
    exists q'. split_and!; [apply K|done|done|]. intros H8 r.
    destruct (guess config r a) as [[right b]|] eqn:Eg; [|done].
    destruct (guess_debits config _ _ _ _ _ K Eg) as (_ & Hlt & _). lia.
  - exists q. split_and!; [by apply boot_knows|done|lia|by left|done|done].
Qed.

(** Two wrong guesses, a change of policy, a power cut, and one more. *)
Definition sample_pin : bytes := [49; 50; 51; 52].
Definition pin_state : PersistentState := set_pin_fields (take 16 (mc_tag sample_pin)) 4 false (reset_value sample_config).
Definition pin_store : model_client := with_file FILENAME (mc_fields pin_state) empty_store.
Definition guess_request (hash : bytes) : PinRequest :=
  mkPinRequest GetPinToken (Some 1) (Some [9]) None None (Some hash) None None.
Definition wrong_guess : PinRequest := guess_request (zeros 16).
Definition right_guess : PinRequest := guess_request (take 16 (mc_tag sample_pin)).
Definition after {A} (c : a_step A) (a : Authenticator model_client) : Authenticator model_client :=
  match try_handle_ctap2 sample_config c a with Some (_, a) => a | None => a end.
Definition guessed1 := after (client_pin sample_config wrong_guess) (new_authenticator pin_store).
Definition guessed2 := after (client_pin sample_config wrong_guess) guessed1.
Definition changed := after (on_persistent toggle_always_uv) guessed2.
Definition restarted := new_authenticator (trussed changed).
Definition guessed3 := after (client_pin sample_config wrong_guess) restarted.

Lemma wrong_guess_step a n k : guessing sample_config (new_authenticator pin_store) n k a →
  (∃ res b, try_handle_ctap2 sample_config (client_pin sample_config wrong_guess) a =
    Some (res, after (client_pin sample_config wrong_guess) a) ∧ guess sample_config wrong_guess a = Some (false, b)) →
  guessing sample_config (new_authenticator pin_store) (S n) (S k) (after (client_pin sample_config wrong_guess) a).
Proof. intros Hg (res & b & E & Eg). by eapply guessing_wrong. Qed.

Lemma pin_guesses_bounded_witness :
  guessing sample_config (new_authenticator pin_store) 3 1 guessed3 ∧ (3%nat = 0%nat ∨ 0 + Z.of_nat 3 ≤ RESET_RETRIES).
Proof.
  assert (guessing sample_config (new_authenticator pin_store) 3 1 guessed3) as Hg.
  { apply wrong_guess_step; [|by vm_compute; do 2 eexists].
    apply (guessing_boot sample_config _ 2 2 changed (set_policy 0 [] false true (set_mismatches 2 pin_state))
      (set_policy 0 [] false true (set_mismatches 2 pin_state))); [|by vm_compute..].
    apply (guessing_other sample_config _ 2 2 guessed2 (on_persistent toggle_always_uv) (Ok tt)); [| |by vm_compute].
    - apply wrong_guess_step; [|by vm_compute; do 2 eexists].
      apply wrong_guess_step; [constructor|by vm_compute; do 2 eexists].
    - apply toggle_moves; [apply _|]. intros. by split. }
  split; [exact Hg|].
  destruct (pin_guesses_bounded sample_config pin_store pin_state 3 1 guessed3) as (Hn & _ & _);
    [by vm_compute|by vm_compute|exact Hg|exact Hn].
Defined.

(** ** What is accepted as a PIN

    The decrypted new PIN is taken up to its last byte that is not zero; the result is the
    encoding of enough code points, in few enough bytes. *)

(** Padding with zeros, and what is left without it. *)
Lemma rposition_zeros k : rposition_nonzero (zeros k) = None.
Proof. unfold zeros. induction k as [|k IH]; [done|]. cbn. by rewrite IH. Qed.

Lemma rposition_last l b k : b ≠ 0 → rposition_nonzero (l ++ b :: zeros k) = Some (length l).
Proof.
  intros Hb. induction l as [|c l IH]; cbn; [|by rewrite IH].
  rewrite rposition_zeros. by destruct (Z.eqb_spec b 0).
Qed.

Lemma rposition_None l : rposition_nonzero l = None → l = zeros (length l).
Proof.
  induction l as [|b l IH]; [done|]. cbn. destruct (rposition_nonzero l); [done|].
  destruct (Z.eqb_spec b 0) as [->|]; [|done]. intros _. unfold zeros in *. cbn. by rewrite <- IH.
Qed.

Lemma rposition_Some l n : rposition_nonzero l = Some n →
  ∃ l1 b k, l = l1 ++ b :: zeros k ∧ b ≠ 0 ∧ length l1 = n.
Proof.
  revert n. induction l as [|b l IH]; intros n; [done|]. cbn. destruct (rposition_nonzero l) as [m|] eqn:E.
  - intros [= <-]. destruct (IH m eq_refl) as (l1 & b1 & k & -> & Hb & Hl). exists (b :: l1), b1, k. cbn. by rewrite Hl.
  - destruct (Z.eqb_spec b 0); [done|]. intros [= <-]. exists [], b, (length l). split_and!; [|done|done].
    cbn. f_equal. by apply rposition_None.
Qed.

(** [pin] is [padded] without the zeros at its end. *)
Definition stripped (padded pin : bytes) : Prop := (∃ k, padded = pin ++ zeros k) ∧ last pin ≠ Some 0.

Lemma stripped_iff padded pin : stripped padded pin ↔ pin = take (stripped_length padded) padded.
Proof.
  unfold stripped_length. split.
  - intros [[k ->] Hl]. destruct pin as [|b pin' _] using rev_ind; [by cbn; rewrite rposition_zeros|].
    rewrite last_snoc in Hl. rewrite <- app_assoc. cbn. rewrite rposition_last by congruence.
    by rewrite (cons_middle b pin' (zeros k)), app_assoc, take_app_length' by (rewrite length_app; cbn; lia).
  - intros ->. destruct (rposition_nonzero padded) as [n|] eqn:E.
    + apply rposition_Some in E as (l1 & b & k & -> & Hb & <-). rewrite (cons_middle b l1 (zeros k)), app_assoc, take_app_length' by (rewrite length_app; cbn; lia).
      split; [by exists k|]. rewrite last_snoc. congruence.
    + apply rposition_None in E. split; [|done]. exists (length padded). by rewrite take_0.
Qed.

Lemma stripped_length_le l : (stripped_length l ≤ length l)%nat.
Proof.
  unfold stripped_length. destruct (rposition_nonzero l) as [n|] eqn:E; [|lia].
  apply rposition_Some in E as (l1 & b & k & -> & _ & <-). rewrite length_app. cbn. lia.
Qed.

(** The PINs a state accepts, padded. *)
Definition acceptable `{FidoCrates} (p : PersistentState) (padded pin : bytes) : Prop :=
  stripped padded pin ∧ (length pin ≤ MAX_PIN_LENGTH)%nat ∧
  ∃ s, Forall scalar_value s ∧ pin = to_utf8 s ∧ min_pin_length p ≤ Z.of_nat (length s).

(** C17: exactly the PINs of the policy are accepted.  When the platform sends at least 64
    encrypted bytes and they decrypt, the check answers, and changes nothing but the client,
    and the PIN it answers is what the decrypted bytes hold up to their padding of zeros: it
    is accepted if and only if it has at most 63 bytes and is the UTF-8 encoding of a
    sequence of Unicode scalar values, at least as many as the stored minimum; anything else
    is a violation of the policy. *)
Theorem pin_policy_exact {T : Type} `{FidoCrates, Sha256, FidoClient T, PersistentCbor, ReplacementCbor} secret enc padded t'
    (a : Authenticator T) :
  (64 ≤ length enc)%nat → decrypt secret enc (trussed a) = Some (Ok (Some padded), t') →
  ∃ r, decrypt_pin_check_length secret enc a = Some (r, mkAuthenticator t' (persistent a) (runtime a)) ∧
    (∀ pin, r = Ok pin ↔ acceptable (persistent a) padded pin) ∧ (∀ e, r = Err e → e = PinPolicyViolation).
Proof.
  intros Hlen Hdec. unfold decrypt_pin_check_length, mbind, step_bind.
  rewrite (proj2 (Nat.ltb_ge _ _)) by done. cbn -[Nat.ltb].
  unfold on_trussed, zoom. rewrite Hdec. cbn -[Nat.ltb].
  assert (∀ pin, acceptable (persistent a) padded pin ↔ pin = take (stripped_length padded) padded ∧
    (length pin ≤ MAX_PIN_LENGTH)%nat ∧ ∃ s, from_utf8 pin = Some s ∧ min_pin_length (persistent a) ≤ Z.of_nat (length s)) as Hacc.
  { intros pin. unfold acceptable. rewrite stripped_iff. setoid_rewrite from_utf8_iff. naive_solver. }
  setoid_rewrite Hacc. clear Hacc. set (pin := take (stripped_length padded) padded).
  assert (length pin = stripped_length padded) as El by (apply length_take_le, stripped_length_le).
  assert (∀ P : bytes → Prop, ¬ P pin → (∀ q, Err (A := bytes) PinPolicyViolation = Ok q ↔ q = pin ∧ P q) ∧
    ∀ e, Err (A := bytes) PinPolicyViolation = Err e → e = PinPolicyViolation) as Hno.
  { intros P HP. split; [|by intros e [= <-]]. intros q. split; [done|]. by intros [-> ?]. }
  destruct (Nat.ltb_spec MAX_PIN_LENGTH (stripped_length padded)); cbn -[Z.ltb from_utf8].
  { eexists. split; [done|]. apply Hno. intros [? _]. lia. }
  destruct (from_utf8 pin) as [s|] eqn:Es; cbn -[Z.ltb from_utf8].
  2:{ eexists. split; [done|]. apply Hno. rewrite Es. naive_solver. }
  unfold stored, mbind, step_bind. cbn -[Z.ltb from_utf8]. destruct (Z.ltb_spec (Z.of_nat (length s)) (min_pin_length (persistent a))).
  all: cbn -[Z.ltb from_utf8].
  { eexists. split; [done|]. apply Hno. rewrite Es. intros (_ & s' & [= <-] & ?). lia. }
  eexists. split; [done|]. split; [|done]. intros q. split; [intros [= <-]|by intros [-> _]].
  split_and!; [done|lia|]. by exists s.
Qed.

(** Four code points in five bytes, padded to 64. *)
Definition padded_pin : bytes := [0xc3; 0xa9; 49; 50; 51] ++ zeros 59.
Definition pin_machine : Authenticator model_client :=
  mkAuthenticator (mkModelClient ∅ (<[1 := (Volatile, [7])]> ∅) 2 (Some 0)) pin_state RuntimeState_default.

Lemma pin_policy_exact_witness : ∃ r, decrypt_pin_check_length (SS_V1 1) padded_pin pin_machine = Some (r, pin_machine) ∧
  (∀ pin, r = Ok pin ↔ acceptable pin_state padded_pin pin).
Proof.
  destruct (pin_policy_exact (SS_V1 1) padded_pin padded_pin (trussed pin_machine) pin_machine) as (r & E & Hr & _);
    [by vm_compute; lia|by vm_compute|]. exists r. split; [exact E|exact Hr].
Defined.
