(* ===== verification/StorageFailure.v ===== *)
(** * A failed write

    The memory of a running authenticator is what the store holds, until a write fails;
    then it refuses every command, and holds no authorisation. *)

From stdpp Require Import base tactics numbers list option strings gmap.
From S2P Require Import Prelude Interfaces ModelBackend FidoClient PinToken FidoState ResidentReplacement Utf8 ClientPin ModelFido FidoStateTheorems CounterTheorems ClientPinSafety PinAttempts.

Section failure.
Context {T : Type} `{FidoCrates, !FidoCratesView, Sha256, FidoClientView T, PersistentCborView, ReplacementCborView}.
Context (config : Config).
Implicit Types a : Authenticator T.

(** Any change of the stored state. *)
Definition any_state (p q : PersistentState) : Prop := True.
#[export] Instance any_state_preorder : PreOrder any_state.
Proof. by split. Qed.
Abbreviation settled c := (preserves (settles any_state) c).

Hint Resolve preserves_kept_moves on_persistent_moves preserves_moves_settles set_runtime_settles : preserves.

Lemma kept_settled {A} (c : a_step A) : preserves kept c → settled c.
Proof. intros. by apply preserves_moves_settles, preserves_kept_moves. Qed.
Lemma on_persistent_settled {A} (c : s_step A) : preserves (evolves any_state) c → settled (on_persistent c).
Proof. intros. by apply preserves_moves_settles, on_persistent_moves. Qed.

Lemma decrement_settled : settled decrement_retries.
Proof.
  unfold decrement_retries. apply preserves_bind; [apply _|apply on_persistent_settled|intros; by apply set_runtime_settles, _].
  by apply retries_evolve.
Qed.
Lemma reset_retries_settled : settled reset_retries.
Proof.
  unfold reset_retries. apply preserves_bind; [apply _|apply on_persistent_settled|intros; by apply set_runtime_settles, _].
  by apply retries_evolve.
Qed.
Lemma set_pin_hash_settled hash n : settled (on_persistent (set_pin_hash hash n)).
Proof. apply on_persistent_settled. by apply set_pin_hash_evolves. Qed.
Lemma set_force_settled v : settled (on_persistent (set_force_pin_change v)).
Proof. by apply preserves_moves_settles, set_force_moves. Qed.

(** The protocol work in them. *)
Hint Extern 3 (settled (on_pin _)) => apply kept_settled, on_pin_kept; eauto with preserves : preserves.
Hint Resolve decrement_settled reset_retries_settled set_pin_hash_settled set_force_settled kept_settled
  escalate_kept grant_token_kept change_pin_request_kept get_pin_token_request_kept get_pin_uv_auth_token_request_kept
  stored_kept selected_protocol_kept check_length_kept pin_digest_kept invalidate_tokens_kept on_trussed_kept : preserves.

Lemma check_pin_settled v s e : settled (check_pin v s e).
Proof. unfold check_pin. preserve. Qed.
Lemma hash_store_settled pin : settled (hash_store_pin pin).
Proof. unfold hash_store_pin. preserve. Qed.
Hint Resolve check_pin_settled hash_store_settled : preserves.

Lemma client_pin_settled r : settled (client_pin config r).
Proof.
  unfold client_pin, set_pin, change_pin, change_pin_store, get_pin_token, get_pin_uv_auth_token. preserve.
Qed.

(** ** [authenticatorReset] *)

Lemma restart_settled : preserves (evolves any_state) (assign (λ _, set_initialised (reset_value config));; save : s_step (T := T) unit).
Proof.
  intros s r s' E _ _. assert (saved (set_initialised (reset_value config), snd s) r s') as HS.
  { eapply (wp_run _ _ _ _ _ E). apply wp_bind, wp_modify, save_wp. }
  destruct r as [[]|e]; cbn in HS.
  - destruct HS as (Ep & _ & Hd). rewrite Ep. split_and!; [done|unfold coherent; by rewrite Ep|].
    intros q _. eexists. by split.
  - destruct HS as (-> & Ep & Hd). rewrite Ep. split_and!; [done|unfold coherent; by rewrite Ep|].
    intros q Hq. destruct Hd as [Hd|[_ Hd]]; rewrite Hd; eexists; by split.
Qed.

Lemma persistent_reset_settled : preserves (evolves any_state) (persistent_reset config : s_step (T := T) unit).
Proof.
  unfold persistent_reset. apply preserves_bind; [apply _|apply preserves_return_if_failed, _|intros _].
  apply preserves_bind; [apply _| |intros _; apply restart_settled].
  apply preserves_latching. pose proof (delete_key_or_kept (T := T)). preserve.
Qed.

Lemma or_latch_settled c : settled c → settled (or_latch c).
Proof.
  intros Hc a r a' E. unfold or_latch in E. destruct (c a) as [[[[]|e] a1]|] eqn:Ec; [| |done].
  - injection E as <- <-. by eapply Hc.
  - injection E as <- <-. exact (evolves_latch _ _ _ (Hc _ _ _ Ec)).
Qed.

Lemma cleanup_kept : preserves (S := T) state_kept reset_cleanup.
Proof. unfold reset_cleanup, remove_if_there. preserve. Qed.

Lemma reset_settled : settled (reset config).
Proof.
  assert (settled (on_trussed reset_cleanup)) by (apply kept_settled, on_trussed_kept, cleanup_kept).
  assert (settled (on_trussed large_blobs_reset)).
  { apply kept_settled, on_trussed_kept. unfold large_blobs_reset. preserve. }
  assert (settled (on_persistent (persistent_reset config))) by apply on_persistent_settled, persistent_reset_settled.
  assert (settled (on_runtime runtime_reset)).
  { apply preserves_zoom with (R' := on_second state_kept); [|apply runtime_reset_kept].
    intros a s K. by apply evolves_kept. }
  pose proof consent_kept. pose proof or_latch_settled.
  unfold reset, user_present, user_present_strong. preserve.
Qed.

(** ** Commands

    The PIN commands, the policy and reset commands, the signature counter and the keys of
    credentials, requests and protocol work that leave the stored state alone, and their
    sequences. *)
Inductive command : ∀ {A}, a_step A → Prop :=
  | command_ret {A} (x : A) : command (mret x)
  | command_throw {A} e : command (throw e : a_step A)
  | command_bind {A A'} (c : a_step A) (k : A → a_step A') : command c → (∀ x, command (k x)) → command (c ≫= k)
  | command_client_pin r : command (client_pin config r)
  | command_config r : command (config_command config r)
  | command_reset : command (reset config)
  | command_latch : command latch_failure
  | command_counter : command (on_persistent signature_counter)
  | command_encryption_key : command (on_persistent key_encryption_key)
  | command_wrapping_key : command (on_persistent key_wrapping_key)
  | command_protocol {A} (c : a_step A) : preserves kept c → command c.

Lemma command_settled {A} (c : a_step A) : command c → settled c.
Proof.
  induction 1 as [A x|A e|A A' c k _ IHc _ IHk|r|r| | | | | |A c Hc].
  - apply preserves_ret, _.
  - apply preserves_throw, _.
  - by apply preserves_bind; [apply _|..].
  - apply client_pin_settled.
  - by apply preserves_moves_settles, config_command_moves.
  - apply reset_settled.
  - apply preserves_modify. intros a. apply (evolves_latch any_state (stored_part a) (stored_part a)). reflexivity.
  - apply on_persistent_settled. by apply signature_counter_evolves.
  - apply on_persistent_settled. by apply key_encryption_key_evolves.
  - apply on_persistent_settled. by apply key_wrapping_key_evolves.
  - by apply kept_settled.
Qed.

(** ** The latch *)

(** No token, and no continuation of an earlier command. *)
Definition unauthorised a : Prop :=
  pin_protocol (runtime a) = None ∧ cached_credentials (runtime a) = [] ∧ active_get_assertion (runtime a) = None ∧
  cached_rp (runtime a) = None ∧ cached_rk (runtime a) = None.

Definition trusted a : Prop :=
  coherent (stored_part a) ∧
  (persistence_failed (persistent a) = true ∨ initialised (persistent a) = false → unauthorised a).

Lemma load_trusted a r a' : trusted a → on_persistent (load_if_not_initialised config) a = Some (r, a') →
  trusted a' ∧ (r = Ok tt → initialised (persistent a') = true ∧ persistence_failed (persistent a') = false).
Proof.
  intros [Hc Hu] E. apply zoom_run in E as ([p t] & E & ->).
  destruct (load_settles config _ _ _ Hc E) as (Hc' & Hok & Hi & _). cbn in *. split; [split; [done|]|done].
  cbn. intros Hbad. apply Hu. destruct r as [[]|e]; [destruct Hok as [E1 E2]; [done|]; destruct Hbad; congruence|].
  specialize (Hi ltac:(done)). destruct (initialised (persistent a)) eqn:Hia; [|by right].
  destruct (load_initialised config (persistent a, trussed a) _ _ Hia E) as [[= -> ->] _]. destruct Hbad; [by left|congruence].
Qed.

Lemma handle_trusted {A} (c : a_step A) a r a' : command c → trusted a → try_handle_ctap2 config c a = Some (r, a') →
  trusted a'.
Proof.
  intros Hc Ha E. unfold try_handle_ctap2, try_get_ctap2_response, mbind, step_bind in E.
  destruct (on_persistent (load_if_not_initialised config) a) as [[[[]|e] a0]|] eqn:E0; [| |done];
    destruct (load_trusted _ _ _ Ha E0) as [Ha0 _]; [|by injection E as <- <-].
  destruct (on_persistent (load_if_not_initialised config) a0) as [[[[]|e] a1]|] eqn:E1; [| |done];
    destruct (load_trusted _ _ _ Ha0 E1) as [Ha1 Hok]; [|by injection E as <- <-].
  destruct (Hok eq_refl) as [Hi Hf]. clear Hok.
  assert (∀ a2, kept a1 a2 → trusted a2 ∧ initialised (persistent a2) = true) as Hkept.
  { intros a2 (Ep & _ & K). split; [|by rewrite Ep]. split; [|rewrite Ep, Hi, Hf; by intros [|]].
    destruct Ha1 as [Hco _]. intros _ _. cbn. rewrite (durable_kept _ _ K), Ep. by apply Hco. }
  destruct (on_runtime observe_pin_tokens a1) as [[[[]|e] a2]|] eqn:E2; [| |done].
  all: assert (kept a1 a2) as K2 by (eapply on_runtime_kept; [apply observe_runtime_kept|exact E2]).
  2:{ injection E as <- <-. by apply Hkept. }
  destruct (on_trussed recover_resident_replacement a2) as [[[[]|e] a3]|] eqn:E3; [| |done].
  all: assert (kept a1 a3) as K3 by (etrans; [exact K2|]; eapply on_trussed_kept; [apply recover_kept|exact E3]).
  2:{ injection E as <- <-. by apply Hkept. }
  destruct (Hkept _ K3) as [[Hco _] Hi3]. unfold discarding in E. destruct (c a3) as [[x a4]|] eqn:E4; [|done].
  injection E as <- <-. destruct (command_settled c Hc _ _ _ E4 Hi3 Hco) as (Hi4 & Hco4 & _). cbn in Hi4.
  destruct (persistence_failed (persistent a4)) eqn:Ef; split; try done.
  intros [?|?]; congruence.
Qed.

(** A run of commands and power cuts. *)
Inductive commanded a : Authenticator T → Prop :=
  | commanded_start : commanded a a
  | commanded_command {A} a1 (c : a_step A) r a2 : commanded a a1 → command c →
      try_handle_ctap2 config c a1 = Some (r, a2) → commanded a a2
  | commanded_boot a1 t' : commanded a a1 → commanded a (new_authenticator t').
End failure.

(** C13: a failed write locks the authenticator.  Over any run from a start, of the PIN,
    policy and reset commands, the signature counter, the keys of credentials, protocol
    work, and their sequences, and of power cuts: as long as no write has failed, the state
    in memory is the stored state; once one has, no token and no continuation of a command
    is left, and from then until the next start every command is refused before it makes a
    request, and changes nothing. *)
Theorem storage_failure_locks {T : Type}
    `{FidoCrates, !FidoCratesView, Sha256, FidoClientView T, PersistentCborView, ReplacementCborView} config t
    (a : Authenticator T) :
  commanded config (new_authenticator t) a →
  (initialised (persistent a) = true → persistence_failed (persistent a) = false →
     durable (trussed a) = Some (skip_fields (persistent a))) ∧
  (persistence_failed (persistent a) = true → unauthorised a ∧
     ∀ A (c : a_step A), try_handle_ctap2 config c a = Some (Err Other, a)).
Proof.
  intros Hrun. assert (trusted a) as [Hc Hu].
  { induction Hrun as [|A a1 c r a2 _ IH Hc E|a1 t' _ IH]; [by split| |by split]. by eapply handle_trusted. }
  split; [by apply Hc|]. intros Hf. split; [by apply Hu; left|]. intros A c.
  unfold try_handle_ctap2, load_if_not_initialised, return_if_failed, field, mbind, step_bind, on_persistent, zoom.
  cbn. rewrite Hf. cbn. by destruct a.
Qed.

(** A policy whose relying parties do not fit in the store. *)
Definition unstorable : ConfigRequest :=
  mkConfigRequest SetMinPINLength 3 (Some (mkConfigParams (Some 6) (Some [[97]]) None (Some []))) None None.
Definition locked_state : Authenticator model_client := after (config_command sample_config unstorable) (new_authenticator marked_store).

Lemma storage_failure_locks_witness :
  persistence_failed (persistent locked_state) = true ∧
  try_handle_ctap2 sample_config (client_pin sample_config right_guess) locked_state = Some (Err Other, locked_state).
Proof.
  assert (persistence_failed (persistent locked_state) = true) as Hf by by vm_compute.
  assert (commanded sample_config (new_authenticator marked_store) locked_state) as Hrun.
  { apply (commanded_command sample_config _ _ _ (Err KeyStoreFull) _ (commanded_start _ _)
      (command_config sample_config unstorable)). by vm_compute. }
  split; [exact Hf|].
  destruct (storage_failure_locks sample_config marked_store locked_state Hrun) as [_ Hlock].
  destruct (Hlock Hf) as [_ Hrefused]. apply Hrefused.
Defined.
