(* ===== verification/PinAuthorization.v ===== *)
(** * What a token authorises

    A token ages with every request that observes it, and authorises an operation only
    while it is fresh, for what it was granted for: first the protocol, then the
    authenticator and the PIN check of its commands. *)

From stdpp Require Import base tactics numbers list option strings gmap.
From S2P Require Import Prelude Interfaces ModelBackend FidoClient PinToken FidoState ResidentReplacement Utf8 ClientPin ModelFido FidoStateTheorems ClientPinSafety PinAttempts.

(** ** Ageing *)

(** [p] is a subset of [q]. *)
Definition subset_of (p q : Z) : Prop := Z.land p q = p.

#[export] Instance subset_of_preorder : PreOrder subset_of.
Proof.
  split; [intros p; apply Z.land_diag|]. intros p q r E1 E2. unfold subset_of in *.
  by rewrite <- E1, <- Z.land_assoc, E2.
Qed.

Lemma contains_subset p q r : subset_of p q → contains p r = true → contains q r = true.
Proof.
  unfold contains, subset_of. rewrite !Z.eqb_eq. intros E1 E2.
  rewrite <- E2 at 1. by rewrite <- E1, (Z.land_comm p q), <- Z.land_assoc, Z.land_assoc, Z.land_diag, Z.land_assoc,
    (Z.land_comm q p), E1, E2.
Qed.

(** What may happen to a token while it is the same grant. *)
Definition older (token token' : PinToken) : Prop :=
  key_id token' = key_id token ∧
  issued_at (token_state token') = issued_at (token_state token) ∧
  subset_of (permissions (token_state token')) (permissions (token_state token)) ∧
  (∀ r, rp (token_state token) = Some r → rp (token_state token') = Some r) ∧
  (is_user_verified (token_state token') = true → is_user_verified (token_state token) = true) ∧
  (has_been_used (token_state token) = true → has_been_used (token_state token') = true) ∧
  last_observed (token_state token) ≤ last_observed (token_state token').

#[export] Instance older_preorder : PreOrder older.
Proof.
  split; [intros t; unfold older; split_and!; by try reflexivity|].
  intros t1 t2 t3 (A1 & A2 & A3 & A4 & A5 & A6 & A7) (B1 & B2 & B3 & B4 & B5 & B6 & B7). unfold older.
  split_and!; [congruence|congruence|by etrans|auto..|lia].
Qed.

(** A token that is fresh at an instant. *)
Definition fresh (now : Z) (token : PinToken) : Prop :=
  is_in_use (token_state token) = true ∧ last_observed (token_state token) ≤ now ∧
  ∃ t0, issued_at (token_state token) = Some t0 ∧ t0 ≤ now < t0 + MAX_USAGE_PERIOD ∧
    (has_been_used (token_state token) = true ∨ now < t0 + INITIAL_USAGE_LIMIT).

(** Observing keeps a fresh token, and ends any other. *)
Definition seen (now : Z) (s : PinTokenState) : PinTokenState :=
  mkPinTokenState (permissions s) (rp s) false (is_user_verified s) (is_in_use s) (issued_at s) now (has_been_used s).

Lemma observe_cases now token :
  observe now (token_state token) = PinTokenState_default ∨
  observe now (token_state token) = seen now (token_state token) ∧ fresh now token.
Proof.
  unfold observe, fresh. destruct (issued_at (token_state token)) as [t0|] eqn:Ei; cbn; [|left; by rewrite orb_true_r].
  unfold Duration_checked_sub. destruct (Z.leb_spec t0 now); cbn; [|left; by rewrite orb_true_r].
  destruct (_ || _) eqn:E; [by left|right]. bool_to_prop. split; [by unfold seen; rewrite Ei|].
  split_and!; [done|done|]. exists t0. split_and!; [done|done|lia|].
  destruct (has_been_used (token_state token)); [by left|right].
  match goal with K : _ ∨ _ |- _ => destruct K as [K|K]; [done|] end. bool_to_prop. lia.
Qed.

Lemma seen_older now token : fresh now token → older token (on_token_state (seen now) token).
Proof. intros (_ & Hl & _). unfold older. split_and!; try done. Qed.

(** ** The slots of a protocol *)

Definition aged (s s' : PinProtocolState) : Prop := ∀ v token', pin_token v s' = Some token' →
  ∃ token, pin_token v s = Some token ∧ older token token'.

#[export] Instance aged_preorder : PreOrder aged.
Proof.
  split; [intros s v token ->; by exists token|]. intros s1 s2 s3 A1 A2 v token3 (token2 & (token1 & E1 & O1)%A1 & O2)%A2.
  exists token1. split; [done|by etrans].
Qed.

Lemma pin_token_set v v' token s : pin_token v (set_pin_token v' token s) = if decide (v = v') then token else pin_token v s.
Proof. by destruct v, v'. Qed.

Lemma aged_set v token s : (∀ token', token = Some token' → ∃ token0, pin_token v s = Some token0 ∧ older token0 token') →
  aged s (set_pin_token v token s).
Proof.
  intros Ht v' token'. rewrite pin_token_set. case_decide; [subst; apply Ht|]. intros ->. by exists token'.
Qed.

Definition aged_first {T} (s s' : PinProtocolState * T) : Prop := aged (fst s) (fst s').
#[export] Instance aged_first_preorder {T} : PreOrder (aged_first (T := T)).
Proof. split; [intros [s t]; unfold aged_first; reflexivity|]. intros s1 s2 s3. unfold aged_first. by etrans. Qed.

Section protocol.
Context {T : Type} `{FidoCrates, Sha256, FidoClientView T}.
Abbreviation ages c := (preserves (S := PinProtocolState * T) aged_first c).

Lemma client_ages {A} (c : f_step A) : ages (client c).
Proof. intros [s t] r s' E. apply zoom_run in E as (t' & _ & ->). unfold aged_first. cbn. reflexivity. Qed.
Lemma field_ages {A} (f : PinProtocolState → A) : ages (field f : t_step A).
Proof. unfold field. preserve. Qed.
Lemma assign_ages f : (∀ s, aged s (f s)) → ages (assign f : t_step unit).
Proof. intros Hf. apply preserves_modify. intros s. apply Hf. Qed.
Hint Resolve client_ages field_ages : preserves.

Lemma aged_shared_secret x s : aged s (set_shared_secret x s).
Proof. intros v token E. exists token. split; [by destruct v|reflexivity]. Qed.
Lemma aged_key x s : aged s (set_key_agreement_key x s).
Proof. intros v token E. exists token. split; [by destruct v|reflexivity]. Qed.
Lemma aged_none v s : aged s (set_pin_token v None s).
Proof. by apply aged_set. Qed.
Hint Extern 2 (preserves aged_first (assign _)) => apply assign_ages; intros;
  first [apply aged_shared_secret | apply aged_key | apply aged_none] : preserves.

Lemma reset_pin_tokens_ages : ages reset_pin_tokens.
Proof. unfold reset_pin_tokens, reset_slot. preserve. Qed.
Lemma regenerate_ages : ages regenerate.
Proof. unfold regenerate. preserve. Qed.
Lemma shared_secret_ages v peer : ages (shared_secret v peer).
Proof. unfold shared_secret, shared_secret_impl. preserve. Qed.
Lemma verify_ages v k d sig : ages (verify v k d sig).
Proof. unfold verify. pose proof (preserves_assert (S := PinProtocolState * T) (E := CtapError) aged_first). preserve. Qed.
Hint Resolve reset_pin_tokens_ages verify_ages : preserves.
Lemma verify_pin_auth_ages v s d sig : ages (verify_pin_auth v s d sig).
Proof. unfold verify_pin_auth. preserve. Qed.

(** A slot is observed: what it held, if it is still there, was fresh. *)
Lemma observe_slot_run now v s r s' : observe_slot now v s = Some (r, s') →
  (∀ v', v' ≠ v → pin_token v' (fst s') = pin_token v' (fst s)) ∧
  ∀ token', pin_token v (fst s') = Some token' → ∃ token, pin_token v (fst s) = Some token ∧
    fresh now token ∧ token' = on_token_state (seen now) token.
Proof.
  revert r s'. change (wlp (observe_slot now v) (λ _ s', (∀ v', v' ≠ v → pin_token v' (fst s') = pin_token v' (fst s)) ∧
    ∀ token', pin_token v (fst s') = Some token' → ∃ token, pin_token v (fst s) = Some token ∧
      fresh now token ∧ token' = on_token_state (seen now) token) s).
  unfold observe_slot, field. wlp_steps. destruct (pin_token v (fst s)) as [token|] eqn:Et.
  2:{ apply wlp_ret. split; [done|]. by rewrite Et. }
  apply wlp_bind, wlp_modify. cbn [fst snd]. destruct (is_in_use _) eqn:Eu; cbn [negb].
  - apply wlp_ret. cbn [fst]. split; [intros v' Hv; by rewrite pin_token_set, decide_False|].
    rewrite pin_token_set, decide_True by done. intros token' [= <-]. exists token. split; [done|].
    cbn in Eu. destruct (observe_cases now token) as [E|[E Hf]]; [by rewrite E in Eu|].
    split; [done|]. unfold on_token_state. by rewrite E.
  - apply wlp_bind, wlp_modify, wlp_bind. intros r [s2 t2] E. apply zoom_run in E as (t & _ & [= -> ->]). cbn [fst].
    assert ((∀ v', v' ≠ v → pin_token v' (set_pin_token v None (set_pin_token v
        (Some (on_token_state (observe now) token)) (fst s))) = pin_token v' (fst s)) ∧
      pin_token v (set_pin_token v None (set_pin_token v (Some (on_token_state (observe now) token)) (fst s))) = None)
      as [E1 E2].
    { split; [intros v' Hv; by rewrite !pin_token_set, !decide_False|by rewrite pin_token_set, decide_True]. }
    destruct r as [[]|e]; [apply wlp_ret|]; cbn [fst snd]; (split; [exact E1|]); rewrite E2; done.
Qed.

Lemma state_observe_run now s r s' : state_observe_usage_timer now s = Some (r, s') →
  aged (fst s) (fst s') ∧ ∀ v token', pin_token v (fst s') = Some token' → (∃ b, r = Ok b) →
    ∃ token, pin_token v (fst s) = Some token ∧ fresh now token ∧ token' = on_token_state (seen now) token.
Proof.
  assert (∀ v s r s', observe_slot now v s = Some (r, s') → aged (fst s) (fst s')) as Haged.
  { intros v s0 r0 s0' E v' token' Et. destruct (observe_slot_run _ _ _ _ _ E) as [Ho Hv].
    destruct (decide (v' = v)) as [->|Hne]; [|rewrite Ho in Et by done; by exists token'].
    destruct (Hv _ Et) as (token & Et0 & Hf & ->). exists token. split; [done|by apply seen_older]. }
  unfold state_observe_usage_timer, mbind, step_bind.
  destruct (observe_slot now V1 s) as [[[b1|e] s1]|] eqn:E1; [| |done].
  2:{ intros [= <- <-]. split; [by eapply Haged|]. by intros v token' _ [b [=]]. }
  destruct (observe_slot now V2 s1) as [[[b2|e] s2]|] eqn:E2; [| |done].
  2:{ intros [= <- <-]. split; [etrans; by eapply Haged|]. by intros v token' _ [b [=]]. }
  intros [= <- <-]. split; [etrans; by eapply Haged|]. intros v token' Et _.
  destruct (observe_slot_run _ _ _ _ _ E1) as [O1 H1'], (observe_slot_run _ _ _ _ _ E2) as [O2 H2']. destruct v.
  - rewrite O2 in Et by done. by apply H1'.
  - destruct (H2' _ Et) as (token & Et1 & Hf & ->). rewrite O1 in Et1 by done. by exists token.
Qed.

(** [verify] leaves the protocol state alone. *)
Lemma verify_slots `{!FidoCratesView} v k d sig s r s' : verify v k d sig s = Some (Ok r, s') → fst s' = fst s ∧
  (r = true → ∃ mac t2 t3, tc_call (SignHmacSha256 k d) t2 = (Some mac, t3) ∧
    sig = match v with V1 => take 16 mac | V2 => mac end).
Proof.
  unfold verify. intros (mac & s1 & E1 & E)%bind_Ok. apply zoom_run in E1 as (t1 & E1 & ->).
  unfold syscall in E1. destruct (tc_call (SignHmacSha256 k d) (snd s)) as [[m|] t'] eqn:Ec; [|done]. injection E1 as <- <-.
  apply bind_Ok in E as (ex & s2 & Ex & [= <- <-]).
  assert (s2 = (fst s, t') ∧ ex = match v with V1 => take 16 m | V2 => m end) as [-> ->].
  { destruct v; [|by injection Ex as <- <-]. apply bind_Ok in Ex as (u & s3 & E3 & [= <- <-]).
    unfold assert_that in E3. destruct (_ <=? _)%nat; [|done]. by injection E3 as <- <-. }
  split; [done|]. intros Hr. apply ct_eq_true in Hr. eauto 6.
Qed.

Lemma state_observe_ages now : ages (state_observe_usage_timer now).
Proof. intros s r s' E. by destruct (state_observe_run _ _ _ _ E). Qed.
Hint Resolve state_observe_ages : preserves.
Lemma observe_usage_timer_ages : ages observe_usage_timer.
Proof. unfold observe_usage_timer. preserve. Qed.
Hint Resolve observe_usage_timer_ages : preserves.
Lemma verify_pin_token_ages v d sig : ages (verify_pin_token v d sig).
Proof. unfold verify_pin_token. preserve. Qed.

(** The expected signature of a protocol. *)
Definition expected (v : PinProtocolVersion) (mac : bytes) : bytes := match v with V1 => take 16 mac | V2 => mac end.

(** A verified token was fresh at the instant the clock showed, and the signature is the
    HMAC of the data under its key. *)
Lemma verify_pin_token_run `{!FidoCratesView} v d sig s s' : verify_pin_token v d sig s = Some (Ok tt, s') →
  ∃ now t1 token mac t2 t3, tc_call Uptime (snd s) = (Some now, t1) ∧ pin_token v (fst s) = Some token ∧
    fresh now token ∧ pin_token v (fst s') = Some (on_token_state (seen now) token) ∧
    tc_call (SignHmacSha256 (key_id token) d) t2 = (Some mac, t3) ∧ sig = expected v mac.
Proof.
  intros E. unfold verify_pin_token in E. apply bind_Ok in E as (u & s1 & Eo & E).
  apply bind_Ok in E as (slot & s1' & [= <- <-] & E). apply bind_Ok in E as (token' & s1' & Et & E).
  destruct (pin_token v (fst s1)) as [token0|] eqn:Es1; [|done]. injection Et as <- <-.
  unfold observe_usage_timer in Eo. apply bind_Ok in Eo as (now & s0 & Enow & Eo).
  apply zoom_run in Enow as (t1 & Eup & ->). unfold ok_syscall, call in Eup. destruct (tc_call Uptime (snd s)) as [now' t1'] eqn:Ec.
  injection Eup as <- <-. destruct now' as [now|].
  2:{ apply bind_Ok in Eo as (? & ? & _ & [=]). }
  apply bind_Ok in Eo as (b & s2 & Eob & Eo). unfold mret, step_ret in Eo. simplify_eq.
  destruct (state_observe_run _ _ _ _ Eob) as [_ Hrun]. destruct (Hrun v token0 Es1 ltac:(eauto)) as (token & Etok & Hf & ->).
  destruct (is_in_use _); [|done]. apply bind_Ok in E as (valid & s3 & Ev & E). destruct valid; [|done]. injection E as ->.
  destruct (verify_slots _ _ _ _ _ _ _ Ev) as [Hs Hmac]. destruct (Hmac eq_refl) as (mac & t2 & t3 & Hmac' & Hsig).
  exists now, t1', token, mac, t2, t3. split_and!; try done. congruence.
Qed.

(** ** Methods of the token *)

Lemma with_token_ages {A} v (c : step PinToken CtapError A) : preserves older c → ages (with_token v c).
Proof.
  intros Hc [s t] r s' E. unfold with_token in E. cbn [fst snd] in E. destruct (pin_token v s) as [token|] eqn:Et; [|done].
  destruct (c token) as [[r' token']|] eqn:Ec; [|done]. injection E as <- <-. unfold aged_first. cbn [fst].
  apply aged_set. intros ? [= <-]. exists token. split; [done|]. by eapply Hc.
Qed.

Lemma require_permissions_older p : preserves older (require_permissions p).
Proof. unfold require_permissions. preserve. Qed.
Lemma require_valid_older scope : preserves older (require_valid_for_rp scope).
Proof. unfold require_valid_for_rp. preserve. Qed.
Lemma require_verified_older : preserves older require_user_verified.
Proof. unfold require_user_verified. preserve. Qed.
Lemma mark_used_older : preserves older mark_used.
Proof. apply preserves_modify. intros token. unfold older. by split_and!. Qed.
Hint Resolve require_permissions_older require_valid_older require_verified_older mark_used_older : preserves.
Lemma bind_rp_older id : preserves older (bind_rp_if_unset id).
Proof.
  intros token r token'. revert r token'. change (wlp (bind_rp_if_unset id) (λ _ token', older token token') token).
  unfold bind_rp_if_unset. wlp_steps; [by apply (wlp_preserves older); [preserve|]| |reflexivity].
  apply (wlp_preserves older); [preserve|]. intros r token' O. etrans; [|exact O].
  unfold older. split_and!; try done. congruence.
Qed.

(** The step of [pin_prechecks] on the token. *)
Definition spend (p : Z) (id : bytes) : step PinToken CtapError unit :=
  require_permissions p;; require_valid_for_rp (ScopeRpId id);; require_user_verified;; bind_rp_if_unset id;; mark_used.

Lemma spend_older p id : preserves older (spend p id).
Proof. unfold spend. pose proof bind_rp_older. preserve. Qed.

Definition spent (p : Z) (id : bytes) (token token' : PinToken) : Prop :=
  contains (permissions (token_state token)) p = true ∧ is_user_verified (token_state token) = true ∧
  (∀ r, rp (token_state token) = Some r → rp_name r = id) ∧
  has_been_used (token_state token') = true ∧ ∃ r, rp (token_state token') = Some r ∧ rp_name r = id.

Lemma spend_run p id token token' : spend p id token = Some (Ok tt, token') → spent p id token token'.
Proof.
  intros E. assert (wlp (spend p id) (λ r token', r = Ok tt → spent p id token token') token) as Hw; [|by apply (Hw _ _ E)].
  clear E token'. unfold spend, require_permissions, require_valid_for_rp, require_user_verified, bind_rp_if_unset, mark_used.
  unfold spent. wlp_steps; try done; unfold require_valid_for_rp; wlp_steps; try done; intros _.
  - bool_to_prop. destruct_and?. split_and!; try done; [|exists r; split_and!; try done].
    all: match goal with K : is_valid_for_rp _ _ = true |- _ =>
      unfold is_valid_for_rp in K; rewrite Heqo in K; apply bytes_eqb_true in K end; naive_solver.
  - bool_to_prop. destruct_and?. split_and!; try done. unfold String256_try_from in *. eexists. split; [done|].
    cbn. by case_match; simplify_eq.
Qed.
End protocol.

(** ** The slots of an authenticator *)

(** The token in a slot of the authenticator. *)
Definition slot (v : PinProtocolVersion) (r : RuntimeState) : option PinToken := s ← pin_protocol r; pin_token v s.
Definition token_of {T} (v : PinProtocolVersion) (a : Authenticator T) : option PinToken := slot v (runtime a).

Definition slots_aged (r r' : RuntimeState) : Prop := ∀ v token', slot v r' = Some token' →
  ∃ token, slot v r = Some token ∧ older token token'.
#[export] Instance slots_aged_preorder : PreOrder slots_aged.
Proof.
  split; [intros r v token ->; by exists token|]. intros r1 r2 r3 A1 A2 v token3 (token2 & (token1 & E1 & O1)%A1 & O2)%A2.
  exists token1. split; [done|by etrans].
Qed.

Lemma slots_aged_same r r' : pin_protocol r' = pin_protocol r → slots_aged r r'.
Proof. intros E v token. unfold slot. rewrite E. intros ->. by exists token. Qed.
Lemma slots_aged_none r r' : pin_protocol r' = None → slots_aged r r'.
Proof. intros E v token. unfold slot. by rewrite E. Qed.

Section ageing.
Context {T : Type} `{FidoCrates, Sha256, FidoClientView T, PersistentCbor, ReplacementCbor} (config : Config).
Implicit Types a : Authenticator T.

Definition first_aged (r r' : RuntimeState * T) : Prop := slots_aged (fst r) (fst r').
#[export] Instance first_aged_preorder : PreOrder first_aged.
Proof. split; [intros r; unfold first_aged; reflexivity|]. intros r1 r2 r3. unfold first_aged. by etrans. Qed.

(** A method of the protocol runs on the protocol there is, or on a new one. *)
Lemma on_protocol_run {A} s (c : t_step A) (r : RuntimeState * T) x r' : on_protocol s c r = Some (x, r') →
  ∃ s', c (s, snd r) = Some (x, s') ∧ fst r' = set_pin_protocol (Some (fst s')) (fst r).
Proof. intros E. apply zoom_run in E as (s' & E & ->). by exists s'. Qed.

Lemma with_protocol_run {A} (c : t_step A) (r : RuntimeState * T) x r' : with_protocol c r = Some (x, r') →
  fst r' = fst r ∧ (∃ e, x = Err e) ∨
  ∃ s t s', (pin_protocol (fst r) = Some s ∧ t = snd r ∨ pin_protocol (fst r) = None ∧ ∀ v, pin_token v s = None) ∧
    c (s, t) = Some (x, s') ∧ fst r' = set_pin_protocol (Some (fst s')) (fst r).
Proof.
  unfold with_protocol, field, mbind, step_bind, get_state, mret, step_ret.
  destruct (pin_protocol (fst r)) as [s|] eqn:Ep.
  - intros (s' & E & Er)%on_protocol_run. right. exists s, (snd r), s'. auto.
  - unfold on_client, zoom. destruct (PinProtocolState_new (snd r)) as [[[s|e] t]|] eqn:En; [| |done].
    + cbn. intros (s' & E & Er)%on_protocol_run. right. exists s, t, s'. split_and!; [|done|by rewrite Er].
      right. split; [done|]. unfold PinProtocolState_new in En. apply bind_Ok in En as (key & t' & _ & En).
      unfold mret, step_ret in En. simplify_eq. by intros [].
    + intros [= <- <-]. left. eauto.
Qed.

Lemma with_protocol_aged {A} (c : t_step A) : preserves aged_first c → preserves first_aged (with_protocol c).
Proof.
  intros Hc r x r' [[E _]|(s & t & s' & Hs & E & Er)]%with_protocol_run.
  - unfold first_aged. by rewrite E.
  - apply Hc in E. intros v token'. rewrite Er. intros Et. change (pin_token v (fst s') = Some token') in Et.
    destruct (E _ _ Et) as (token & Etok & O). exists token. split; [|done]. cbn in Etok.
    destruct Hs as [[Ep _]|[_ Hs]]; [unfold slot; by rewrite Ep|by rewrite Hs in Etok].
Qed.

Lemma on_protocol_aged {A} s (c : t_step A) (r : RuntimeState * T) x r' : preserves aged_first c → pin_protocol (fst r) = Some s →
  on_protocol s c r = Some (x, r') → first_aged r r'.
Proof.
  intros Hc Ep (s' & E & Er)%on_protocol_run v token'. rewrite Er. apply Hc in E. intros Et. change (pin_token v (fst s') = Some token') in Et.
  destruct (E _ _ Et) as (token & Etok & O). exists token. unfold slot. by rewrite Ep.
Qed.

Lemma assign_aged f : (∀ s, slots_aged s (f s)) → preserves (E := CtapError) first_aged (assign f : r_step unit).
Proof. intros Hf. apply preserves_modify. intros r. apply Hf. Qed.
Lemma on_client_aged {A} (c : f_step A) : preserves (E := CtapError) first_aged (on_client c : r_step A).
Proof. intros r x r' (t & _ & ->)%zoom_run. unfold first_aged. reflexivity. Qed.
Hint Resolve on_client_aged : preserves.

Lemma invalidate_aged : preserves first_aged (invalidate_pin_tokens : r_step unit).
Proof.
  intros r x r' E. unfold invalidate_pin_tokens, field, mbind, step_bind, get_state, mret, step_ret, assign, modify in E. cbn in E.
  assert (∀ s : RuntimeState, slots_aged s (clear_credential_continuations s)) as Hclear by (intros; by apply slots_aged_same).
  destruct (pin_protocol (fst r)) as [s|] eqn:Ep; [|injection E as _ <-; apply Hclear].
  destruct (on_protocol s reset_pin_tokens r) as [[y r1]|] eqn:E1; [|done].
  assert (first_aged r r1) by (by eapply on_protocol_aged; [apply reset_pin_tokens_ages|..]).
  destruct y as [[]|e]; injection E as _ <-; [etrans; [done|apply Hclear]|done].
Qed.

Lemma observe_pin_tokens_aged : preserves first_aged (observe_pin_tokens : r_step unit).
Proof.
  intros r x r' E. unfold observe_pin_tokens, field, mbind, step_bind, get_state, mret, step_ret in E. cbn in E.
  destruct (pin_protocol (fst r)) as [s|] eqn:Ep; [|by injection E as _ <-].
  destruct (on_client (ok_syscall Uptime) r) as [[y r1]|] eqn:E1; [|done].
  assert (fst r1 = fst r) as Er by (by apply zoom_run in E1 as (? & _ & ->)).
  assert (first_aged r r1) as A1 by (unfold first_aged; by rewrite Er). etrans; [exact A1|]. rewrite <- Er in Ep.
  destruct y as [[now|]|e]; [|by apply invalidate_aged in E|by injection E as _ <-].
  destruct (on_protocol s (state_observe_usage_timer now) r1) as [[z r2]|] eqn:E2; [|done].
  assert (first_aged r1 r2) by (by eapply on_protocol_aged; [apply state_observe_ages|..]). etrans; [done|].
  destruct z as [[]|e]; [by apply invalidate_aged in E|by injection E as _ <-..].
Qed.

(** ** The authenticator *)

Definition ages_to a a' : Prop := slots_aged (runtime a) (runtime a').
#[export] Instance ages_to_preorder : PreOrder ages_to.
Proof. split; [intros a; unfold ages_to; reflexivity|]. intros a1 a2 a3. unfold ages_to. by etrans. Qed.
Abbreviation grantless c := (preserves (S := Authenticator T) ages_to c).

Lemma on_trussed_aged {A} (c : f_step A) : grantless (on_trussed c).
Proof. intros a x a' (t & _ & ->)%zoom_run. unfold ages_to. reflexivity. Qed.
Lemma on_persistent_aged {A} (c : s_step A) : grantless (on_persistent c).
Proof. intros a x a' (t & _ & ->)%zoom_run. unfold ages_to. reflexivity. Qed.
Lemma on_runtime_aged {A} (c : r_step A) : preserves first_aged c → grantless (on_runtime c).
Proof. by apply preserves_zoom. Qed.
Lemma on_pin_aged {A} (c : t_step A) : preserves aged_first c → grantless (on_pin c).
Proof. intros. by apply on_runtime_aged, with_protocol_aged. Qed.
Lemma set_runtime_aged f : (∀ r, slots_aged r (f r)) → grantless (set_runtime f : a_step unit).
Proof. intros Hf. apply preserves_modify. intros a. apply Hf. Qed.
Lemma stored_aged {A} (f : PersistentState → A) : grantless (stored f : a_step A).
Proof. unfold stored. preserve. Qed.
Lemma latch_aged : grantless (latch_failure : a_step unit).
Proof. apply preserves_modify. intros a. unfold ages_to. reflexivity. Qed.
Lemma rt_decrement_protocol r : pin_protocol (rt_decrement_retries r) = pin_protocol r.
Proof. unfold rt_decrement_retries. by case_match. Qed.
Hint Resolve on_trussed_aged on_persistent_aged on_runtime_aged on_pin_aged stored_aged latch_aged invalidate_aged
  observe_pin_tokens_aged verify_ages verify_pin_auth_ages verify_pin_token_ages reset_pin_tokens_ages shared_secret_ages
  regenerate_ages with_token_ages spend_older mark_used_older require_permissions_older require_valid_older : preserves.
Hint Extern 2 (preserves ages_to (set_runtime _)) =>
  apply set_runtime_aged; intros; first [by apply slots_aged_none | apply slots_aged_same; by rewrite ?rt_decrement_protocol] : preserves.

Hint Extern 3 (preserves ages_to (on_pin _)) => apply on_pin_aged; preserve : preserves.
Hint Extern 3 (preserves aged_first (with_token _ _)) => apply with_token_ages; preserve : preserves.
Lemma reset_retries_aged : grantless (reset_retries : a_step unit).
Proof. unfold reset_retries. preserve. Qed.
Lemma pin_blocked_aged : grantless (pin_blocked : a_step unit).
Proof. unfold pin_blocked. preserve. Qed.
Lemma selected_aged v : grantless (selected_protocol v : a_step _).
Proof. unfold selected_protocol. preserve. Qed.
Lemma pin_digest_aged pin : grantless (pin_digest pin : a_step _).
Proof. unfold pin_digest. preserve. Qed.
Lemma check_length_aged s e : grantless (decrypt_pin_check_length s e : a_step _).
Proof. unfold decrypt_pin_check_length. preserve. Qed.
Lemma invalidate_tokens_aged : grantless (invalidate_tokens : a_step unit).
Proof. unfold invalidate_tokens. preserve. Qed.
Hint Resolve client_ages field_ages reset_retries_aged pin_blocked_aged selected_aged pin_digest_aged check_length_aged invalidate_tokens_aged : preserves.
Lemma check_pin_aged v s e : grantless (check_pin v s e : a_step unit).
Proof. unfold check_pin, decrement_retries, decrypt_pin_hash_and_maybe_escalate. preserve. Qed.
Lemma change_pin_request_aged r : grantless (change_pin_request r : a_step _).
Proof. unfold change_pin_request. preserve. Qed.
Lemma change_pin_store_aged v s e : grantless (change_pin_store v s e : a_step _).
Proof. unfold change_pin_store. preserve. Qed.
Lemma set_pin_aged r : grantless (set_pin r : a_step _).
Proof. unfold set_pin, hash_store_pin. preserve. Qed.
Hint Resolve check_pin_aged change_pin_request_aged change_pin_store_aged set_pin_aged : preserves.

(** The PIN subcommands that grant nothing. *)
Definition grants (r : PinRequest) : bool :=
  match sub_command r with GetPinToken | GetPinUvAuthTokenUsingPinWithPermissions => true | _ => false end.
Lemma public_key_ages : preserves (S := PinProtocolState * T) aged_first key_agreement_public_key.
Proof. unfold key_agreement_public_key. preserve. Qed.
Lemma client_pin_aged r : grants r = false → grantless (client_pin config r).
Proof.
  unfold grants, client_pin, change_pin. pose proof public_key_ages. destruct (sub_command r); intros; try done; preserve.
Qed.
Lemma consent_aged strong : grantless (consent config strong).
Proof. unfold consent. preserve. Qed.
Hint Resolve consent_aged : preserves.
Lemma pin_prechecks_aged o auth v d p id : grantless (pin_prechecks config o auth v d p id : a_step bool).
Proof. unfold pin_prechecks, user_present. fold (spend p id). preserve. Qed.
Lemma credential_management_aged r : grantless (verify_credential_management_pin_auth r : a_step unit).
Proof. unfold verify_credential_management_pin_auth. preserve. Qed.
Lemma force_change_aged : grantless (force_change : a_step unit).
Proof. unfold force_change. preserve. Qed.
Hint Resolve force_change_aged : preserves.
Lemma config_command_aged r : grantless (config_command config r).
Proof. unfold config_command, config_set_min_pin_length. preserve. Qed.

Lemma or_latch_aged c : grantless c → grantless (or_latch c : a_step unit).
Proof.
  intros Hc a r a' E. unfold or_latch in E. destruct (c a) as [[[[]|e] a1]|] eqn:Ec; [| |done]; injection E as _ <-; by apply Hc in Ec.
Qed.
Lemma runtime_reset_aged : preserves first_aged (runtime_reset : r_step unit).
Proof.
  unfold runtime_reset. apply preserves_bind; [apply _|apply on_client_aged|]. intros []. apply assign_aged.
  intros r. by apply slots_aged_none.
Qed.
Hint Resolve runtime_reset_aged or_latch_aged : preserves.
Lemma reset_aged : grantless (reset config).
Proof. unfold reset, user_present, user_present_strong. preserve. Qed.

Lemma delete_resident_key_aged p : grantless (delete_resident_key_by_path p : a_step unit).
Proof. unfold delete_resident_key_by_path. preserve. Qed.

Lemma discarding_aged {A} (c : a_step A) : grantless c → grantless (discarding c).
Proof.
  intros Hc a r a' E. unfold discarding in E. destruct (c a) as [[r1 a1]|] eqn:Ec; [|done].
  injection E as _ <-. apply Hc in Ec. case_match; [|done]. by apply slots_aged_none.
Qed.
Lemma handle_aged {A} (c : a_step A) : grantless c → grantless (try_handle_ctap2 config c).
Proof. intros. pose proof (discarding_aged c). unfold try_handle_ctap2, try_get_ctap2_response. preserve. Qed.

(** ** The check *)

(** An authorised operation at the token of slot [v]: the instant, the token it found, and
    the token it left. *)
Definition authorised (v : PinProtocolVersion) (data sig : bytes) (p : Z) (id : bytes) a a' : Prop :=
  ∃ now t1 token token' mac t2 t3,
    tc_call Uptime (trussed a) = (Some now, t1) ∧ token_of v a = Some token ∧ fresh now token ∧
    spent p id token token' ∧ token_of v a' = Some token' ∧
    tc_call (SignHmacSha256 (key_id token) data) t2 = (Some mac, t3) ∧ sig = expected v mac.

Lemma authorised_run `{!FidoCratesView} v data sig p id a x a' :
  on_pin (verify_pin_token v data sig;; with_token v (spend p id)) a = Some (Ok x, a') → authorised v data sig p id a a'.
Proof.
  intros (s & E & ->)%zoom_run. apply with_protocol_run in E as [[_ [e [=]]]|(ps & t & s' & Hs & E & Er)].
  apply bind_Ok in E as ([] & s1 & Ev & Et).
  destruct (verify_pin_token_run _ _ _ _ _ Ev) as (now & t1 & token & mac & t2 & t3 & Hup & Htok & Hf & Htok1 & Hmac & Hsig).
  cbn [fst snd] in *. destruct Hs as [[Hp ->]|[_ Hs]]; [|by rewrite Hs in Htok].
  unfold with_token in Et. rewrite Htok1 in Et. destruct (spend p id _) as [[r token']|] eqn:Es; [|done].
  injection Et as -> <-. destruct x. apply spend_run in Es. exists now, t1, token, token', mac, t2, t3.
  split_and!; try done; [unfold token_of, slot; by rewrite Hp|].
  unfold token_of, slot. cbn. rewrite Er. cbn. rewrite pin_token_set. by rewrite decide_True.
Qed.

Lemma selected_protocol_wlp n (Q : result CtapError PinProtocolVersion → Authenticator T → Prop) a :
  (∀ m v, n = Some m → parse_pin_protocol m = Some v → Q (Ok v) a) → (∀ e, Q (Err e) a) →
  wlp (selected_protocol n) Q a.
Proof. intros HQ He. unfold selected_protocol. wlp_steps; eauto. Qed.
Lemma pin_prechecks_run `{!FidoCratesView} options auth version data p id a verified a' :
  let option_of (f : AuthenticatorOptions → option bool) := o ← options; f o in
  pin_prechecks config options auth version data p id a = Some (Ok verified, a') →
  force_pin_change (persistent a) = false ∧
  (if verified then ∃ sig n v, auth = Some sig ∧ version = Some n ∧ parse_pin_protocol n = Some v ∧
     authorised v data sig p id a a'
   else auth = None ∧ option_of opt_uv ≠ Some true ∧ (pin_is_set (persistent a) = true → option_of opt_rk ≠ Some true) ∧
     (always_uv (persistent a) = true → p = GET_ASSERTION ∧ option_of opt_up = Some false)).
Proof.
  intros option_of. revert verified a'.
  assert (wlp (pin_prechecks config options auth version data p id) (λ r a', ∀ verified, r = Ok verified →
    force_pin_change (persistent a) = false ∧
    (if verified then ∃ sig n v, auth = Some sig ∧ version = Some n ∧ parse_pin_protocol n = Some v ∧
       authorised v data sig p id a a'
     else auth = None ∧ option_of opt_uv ≠ Some true ∧ (pin_is_set (persistent a) = true → option_of opt_rk ≠ Some true) ∧
       (always_uv (persistent a) = true → p = GET_ASSERTION ∧ option_of opt_up = Some false))) a) as Hw;
    [|intros verified a' E; by eapply Hw].
  unfold pin_prechecks. fold option_of. destruct auth as [sig|].
  - wlp_steps; try done.
    + intros [[]|e] a1 _; [by apply wlp_throw|done].
    + apply selected_protocol_wlp; [|done]. intros n v Hn Hv. wlp_steps; try done.
      * intros [[]|e] a' E; [|done]. apply wlp_ret. intros verified [= <-]. split; [done|].
        exists sig, n, v. split_and!; try done. by eapply authorised_run.
      * exfalso. rewrite (bool_decide_eq_true_2 (is_Some (Some sig))), orb_true_r in * by eauto. done.
  - wlp_steps; try done; intros verified [= <-].
    all: match goal with Hu : always_uv _ && _ && _ = false, Hv : bool_decide (None = None) && _ = false |- _ =>
      rewrite (bool_decide_eq_true_2 (None = None)) in Hu, Hv by done; apply bool_decide_eq_false in Hv; rename Hu into Hup end.
    all: split_and!; try done; try (intros _; by eapply bool_decide_eq_false).
    all: intros Hu; rewrite Hu in Hup; apply orb_false_iff in Hup as [Hp%negb_false_iff%Z.eqb_eq Hup].
    all: split; [done|]; unfold option_of in *; by destruct (options ≫= _) as [[]|].
Qed.
End ageing.

(** C10: an operation that needs authorisation gets it from a token that holds it.  When the
    PIN check of a command answers that the user was verified, the request carried a
    protocol and a signature; the token of that protocol was issued less than ten minutes
    ago by the clock that was just read, and less than thirty seconds ago unless it has been
    used; it holds every permission asked for, was given for a verified user, and is bound
    to no other relying party; the signature is the HMAC of the data under the key of that
    token; and the token is now used, and bound to the relying party.  When the check
    answers that no verification was made, the request carried no signature, did not ask
    for verification, and asked for no resident key of an authenticator with a PIN. *)
Theorem authorization_sound {T : Type}
    `{FidoCrates, !FidoCratesView, Sha256, FidoClientView T, PersistentCbor, ReplacementCbor} config
    options auth version data p id (a : Authenticator T) verified a' :
  pin_prechecks config options auth version data p id a = Some (Ok verified, a') →
  let option_of (f : AuthenticatorOptions → option bool) := o ← options; f o in
  force_pin_change (persistent a) = false ∧
  (if verified then ∃ sig n v, auth = Some sig ∧ version = Some n ∧ parse_pin_protocol n = Some v ∧
     authorised v data sig p id a a'
   else auth = None ∧ option_of opt_uv ≠ Some true ∧ (pin_is_set (persistent a) = true → option_of opt_rk ≠ Some true) ∧
     (always_uv (persistent a) = true → p = GET_ASSERTION ∧ option_of opt_up = Some false)).
Proof. by apply pin_prechecks_run. Qed.

(** Twenty seconds after the grant, a credential is made for a relying party. *)
Definition granted_state : Authenticator model_client :=
  after (client_pin sample_config right_guess) (new_authenticator pin_store).
Definition later_state : Authenticator model_client :=
  mkAuthenticator
    (mkModelClient (mc_files (trussed granted_state)) (mc_keys (trussed granted_state)) (mc_next (trussed granted_state))
       (Some (20 * 10 ^ 9))) (persistent granted_state) (runtime granted_state).
Definition signed (data : bytes) : bytes := take 16 (mc_tag (replicate 32 5 ++ data)).
Definition make_check : a_step bool :=
  pin_prechecks sample_config None (Some (signed [1; 2; 3])) (Some 1) [1; 2; 3] MAKE_CREDENTIAL [97].
Definition made_state : Authenticator model_client := match make_check later_state with Some (_, a) => a | None => later_state end.

Lemma authorization_sound_witness :
  authorised V1 [1; 2; 3] (signed [1; 2; 3]) MAKE_CREDENTIAL [97] later_state made_state.
Proof.
  assert (make_check later_state = Some (Ok true, made_state)) as E by by vm_compute.
  destruct (authorization_sound sample_config None (Some (signed [1; 2; 3])) (Some 1) [1; 2; 3] MAKE_CREDENTIAL [97]
    later_state true made_state E) as (_ & sig & n & v & [= <-] & [= <-] & [= <-] & Hauth). exact Hauth.
Defined.
