(* ===== verification/TokenLifetime.v ===== *)
(** * The life of a grant

    What a PIN request grants, and what any run of commands can make of it. *)

From stdpp Require Import base tactics numbers list option strings gmap.
From S2P Require Import Prelude Interfaces ModelBackend FidoClient PinToken FidoState ResidentReplacement Utf8 ClientPin ModelFido FidoStateTheorems ClientPinSafety PinAttempts PinAuthorization.

(** The only token of a protocol state, and of an authenticator. *)
Definition exactly (v : PinProtocolVersion) (token : PinToken) (s : PinProtocolState) : Prop :=
  ∀ v', pin_token v' s = if decide (v' = v) then Some token else None.
Definition holds {T} (v : PinProtocolVersion) (token : PinToken) (a : Authenticator T) : Prop :=
  ∃ s, pin_protocol (runtime a) = Some s ∧ exactly v token s.

Section grant.
Context {T : Type} `{FidoCrates, Sha256, FidoClientView T, PersistentCbor, ReplacementCbor} (config : Config).
Implicit Types a : Authenticator T.

Lemma on_pin_run {A} (c : t_step A) a x a' : on_pin c a = Some (Ok x, a') →
  ∃ s t s', (pin_protocol (runtime a) = Some s ∨ pin_protocol (runtime a) = None ∧ ∀ v, pin_token v s = None) ∧
    c (s, t) = Some (Ok x, s') ∧ pin_protocol (runtime a') = Some (fst s').
Proof.
  intros (s & E & ->)%zoom_run. apply with_protocol_run in E as [[_ [e [=]]]|(ps & t & s' & Hs & E & Er)].
  exists ps, t, s'. split_and!; [naive_solver|done|by cbn; rewrite Er].
Qed.

Lemma client_run {A} (c : f_step A) (s : PinProtocolState * T) r s' : client c s = Some (r, s') → fst s' = fst s.
Proof. by intros (t & _ & ->)%zoom_run. Qed.

Lemma reset_slot_run v (s : PinProtocolState * T) r s' : reset_slot v s = Some (r, s') → fst s' = set_pin_token v None (fst s).
Proof. cbn. by intros (t & _ & ->)%zoom_run. Qed.

Lemma begin_run v (s s' : PinProtocolState * T) : reset_and_begin_using_pin_token v s = Some (Ok tt, s') →
  ∃ t1 now t2 key, tc_call Uptime t1 = (Some now, t2) ∧ exactly v (fresh_token now key) (fst s').
Proof.
  intros E. apply bind_Ok in E as ([] & s2 & Er & E). apply bind_Ok in Er as ([] & s1 & E1 & E2).
  apply reset_slot_run in E1, E2. rewrite E1 in E2.
  apply bind_Ok in E as (now & s3 & En & E). apply zoom_run in En as (t & En & ->).
  apply bind_Ok in E as (key & s4 & Ek & [= <-]). apply client_run in Ek. cbn in Ek.
  unfold try_syscall, call_or in En. destruct (tc_call Uptime (snd s2)) as [[now'|] t'] eqn:Ec; simplify_eq.
  exists (snd s2), now, t, key. split; [done|]. intros v'. cbn. rewrite pin_token_set, Ek, E2.
  case_decide; [done|]. by destruct v'.
Qed.

(** The token a grant makes. *)
Definition granted (now : Z) (key : KeyId) (p : Z) (r : option Rp) : PinToken :=
  with_rp r (mkPinToken key (mkPinTokenState p None false true true (Some now) now false)).

Lemma with_token_run v token (c : step PinToken CtapError unit) (s s' : PinProtocolState * T) : exactly v token (fst s) →
  with_token v c s = Some (Ok tt, s') → ∃ token', c token = Some (Ok tt, token') ∧ exactly v token' (fst s').
Proof.
  intros Hs E. unfold with_token in E. rewrite (Hs v), decide_True in E by done.
  destruct (c token) as [[r token']|] eqn:Ec; [|done]. injection E as -> <-. exists token'. split; [done|].
  intros v'. cbn. rewrite pin_token_set. case_decide; [done|]. rewrite (Hs v'). by rewrite decide_False.
Qed.

Lemma restrict_run v now key p id (s s' : PinProtocolState * T) : exactly v (fresh_token now key) (fst s) →
  restrict v p id s = Some (Ok tt, s') → ∃ r, rp_name <$> r = id ∧ exactly v (granted now key p r) (fst s').
Proof.
  intros Hs E. apply bind_Ok in E as ([] & s1 & E1 & E). destruct (with_token_run _ _ _ _ _ Hs E1) as (t1 & [= <-] & Hs1).
  apply bind_Ok in E as (r & s2 & Er & E). assert (fst s2 = fst s1 ∧ rp_name <$> r = id) as [Es Hr].
  { destruct id as [id|]; [|by injection Er as <- <-]. apply bind_Ok in Er as (x & s3 & Ex & [= <- <-]).
    apply zoom_run in Ex as (t & Ex & ->). split; [done|]. apply bind_Ok in Ex as ([] & ? & _ & Ex).
    apply bind_Ok in Ex as (h & ? & _ & Ex). apply bind_Ok in Ex as ([] & ? & _ & [= <- _]). done. }
  rewrite <- Es in Hs1. destruct (with_token_run _ _ _ _ _ Hs1 E) as (t2 & [= <-] & Hs2). by exists r.
Qed.

Hint Resolve client_ages field_ages on_trussed_aged on_pin_aged : preserves.
Lemma encrypt_token_ages v secret : preserves (S := PinProtocolState * T) aged_first (encrypt_token v secret).
Proof. unfold encrypt_token. preserve. Qed.

(** A grant holds one token, of the protocol asked for, with the permissions and relying
    party asked for, issued when the clock showed it. *)
Lemma grant_run v secret p id a res a' : grant_token v secret p id a = Some (Ok res, a') →
  ∃ t1 now t2 key r a1, tc_call Uptime t1 = (Some now, t2) ∧ rp_name <$> r = id ∧
    holds v (granted now key p r) a1 ∧ ages_to a1 a'.
Proof.
  intros E. apply bind_Ok in E as ([] & a1 & _ & E). apply bind_Ok in E as ([] & a2 & Eb & E).
  apply on_pin_run in Eb as (s & t & s2 & _ & Eb & E2). apply begin_run in Eb as (t1 & now & t2 & key & Hup & Hs2).
  apply bind_Ok in E as (id' & a3 & Eid & E). assert (a3 = a2 ∧ id' = id) as [-> ->].
  { destruct id as [id|]; [|by injection Eid as <- <-]. apply bind_Ok in Eid as (i & a4 & Ei & [= <- <-]).
    unfold String256_try_from in Ei. destruct (_ <=? _)%nat; [by injection Ei as <- <-|done]. }
  apply bind_Ok in E as ([] & a4 & Er & E). apply on_pin_run in Er as (s3 & t3 & s4 & Hs3 & Er & E4).
  assert (s3 = fst s2) as -> by (destruct Hs3 as [Hs3|[Hs3 _]]; congruence).
  destruct (restrict_run v now key p id (fst s2, t3) _ Hs2 Er) as (r & Hr & Hs4).
  exists t1, now, t2, key, r, a4. split_and!; [done|done|by exists (fst s4)|].
  assert (preserves ages_to (token ← on_pin (encrypt_token v secret); on_trussed (delete_secret secret);;
    mret (mkPinResponse None None (Some token)) : a_step _)) as Htail by (pose proof encrypt_token_ages; preserve).
  by eapply Htail.
Qed.

(** ** What a request asks to be granted *)

Definition requested (r : PinRequest) : Z :=
  match sub_command r with
  | GetPinToken => Z.lor MAKE_CREDENTIAL GET_ASSERTION
  | _ => from_bits_truncate (default 0 (pr_permissions r))
  end.

Definition grant_of (r : PinRequest) a' : Prop :=
  ∃ n v t1 now t2 key rp a1, pr_protocol r = Some n ∧ parse_pin_protocol n = Some v ∧
    tc_call Uptime t1 = (Some now, t2) ∧ rp_name <$> rp = pr_rp_id r ∧
    holds v (granted now key (requested r) rp) a1 ∧ ages_to a1 a'.

Lemma ok_or_Ok {S E A} (o : option A) (e : E) (s : S) x s' : ok_or o e s = Some (Ok x, s') → o = Some x ∧ s' = s.
Proof. unfold ok_or, mret, step_ret, throw. destruct o; intros; by simplify_eq. Qed.
Lemma return_if_Ok {S E} (c : bool) (e : E) (s : S) x s' : return_if c e s = Some (Ok x, s') → c = false ∧ s' = s.
Proof. unfold return_if, mret, step_ret, throw. destruct c; intros; by simplify_eq. Qed.

Lemma selected_Ok n a v a' : selected_protocol n a = Some (Ok v, a') → ∃ m, n = Some m ∧ parse_pin_protocol m = Some v.
Proof. intros (m & a1 & [? ->]%ok_or_Ok & [? ->]%ok_or_Ok)%bind_Ok. by exists m. Qed.

Lemma token_request_run r a v s e a' : get_pin_token_request r a = Some (Ok (v, s, e), a') →
  ∃ n, pr_protocol r = Some n ∧ parse_pin_protocol n = Some v ∧ pr_rp_id r = None.
Proof.
  intros E. apply bind_Ok in E as (? & a1 & _ & E). apply bind_Ok in E as (? & a2 & _ & E).
  apply bind_Ok in E as (v' & a3 & (n & Hn & Hv)%selected_Ok & E). apply bind_Ok in E as (? & a4 & [Eg _]%return_if_Ok & E).
  apply bind_Ok in E as (? & a5 & _ & E). apply bind_Ok in E as (? & a6 & _ & [= <- _ _ _]). exists n. split_and!; [done..|].
  apply orb_false_iff in Eg as [_ Eg%bool_decide_eq_false]. by apply eq_None_not_Some.
Qed.

Lemma uv_request_run r a v s e p a' : get_pin_uv_auth_token_request config r a = Some (Ok (v, s, e, p), a') →
  ∃ n, pr_protocol r = Some n ∧ parse_pin_protocol n = Some v ∧ p = from_bits_truncate (default 0 (pr_permissions r)).
Proof.
  intros E. apply bind_Ok in E as (? & a1 & _ & E). apply bind_Ok in E as (? & a2 & _ & E).
  apply bind_Ok in E as (p' & a3 & [Hp _]%ok_or_Ok & E). apply bind_Ok in E as (? & a4 & _ & E).
  apply bind_Ok in E as (v' & a5 & (n & Hn & Hv)%selected_Ok & E). cbv zeta in E.
  do 4 (apply bind_Ok in E as (? & ? & _ & E)). apply bind_Ok in E as (? & ? & _ & [= <- _ _ <- _]).
  exists n. by rewrite Hp.
Qed.

Lemma client_pin_grant r a res a' : grants r = true → client_pin config r a = Some (Ok res, a') → grant_of r a'.
Proof.
  unfold grant_of, grants, client_pin, requested. destruct (sub_command r) eqn:Es; try done; intros _ E.
  - apply bind_Ok in E as ([[v s] e] & a1 & (n & Hn & Hv & Hid)%token_request_run & E).
    apply bind_Ok in E as (? & a2 & _ & E). apply bind_Ok in E as (? & a3 & _ & E). apply bind_Ok in E as (? & a4 & _ & E).
    apply grant_run in E as (t1 & now & t2 & key & rp & a5 & Hup & Hrp & Hh & Ha).
    exists n, v, t1, now, t2, key, rp, a5. by rewrite Hid.
  - apply bind_Ok in E as ([[[v s] e] p] & a1 & (n & Hn & Hv & ->)%uv_request_run & E).
    apply bind_Ok in E as (? & a2 & _ & E). apply bind_Ok in E as (? & a3 & _ & E). apply bind_Ok in E as (? & a4 & _ & E).
    apply grant_run in E as (t1 & now & t2 & key & rp & a5 & Hup & Hrp & Hh & Ha).
    exists n, v, t1, now, t2, key, rp, a5. done.
Qed.
End grant.

Section life.
Context {T : Type} `{FidoCrates, !FidoCratesView, Sha256, FidoClientView T, PersistentCborView, ReplacementCborView}.
Context (config : Config).
Implicit Types a : Authenticator T.

(** A grant is made for the right PIN only. *)
Lemma right_check v s e a a' : check_pin v s e a = Some (Ok tt, a') → ∃ b, decrement_retries a = Some (Ok tt, b) ∧
  right_pin s e b = true.
Proof.
  intros ([] & b & Ed & E)%bind_Ok. exists b. split; [done|]. apply bind_Ok in E as ([] & b' & Ec & _).
  destruct (right_pin s e b) eqn:Er; [done|]. by destruct (wrong_pin _ _ _ _ _ _ Er Ec) as [[e' [=]] _].
Qed.

Lemma grant_check r a res a' : grants r = true → client_pin config r a = Some (Ok res, a') → ∃ v s e b,
  (check ← pin_check config r; decrement_retries;; mret check) a = Some (Ok (v, s, e), b) ∧ right_pin s e b = true.
Proof.
  unfold grants, client_pin, pin_check. destruct (sub_command r) eqn:Es; try done; intros _ E.
  - apply bind_Ok in E as ([[v s] e] & a1 & E1 & E). apply bind_Ok in E as ([] & a2 & (b & Ed & Hb)%right_check & _).
    exists v, s, e, b. split; [|done]. apply bind_Ok. exists (v, s, e), a1. split; [done|]. apply bind_Ok. by exists tt, b.
  - apply bind_Ok in E as ([[[v s] e] p] & a1 & E1 & E). apply bind_Ok in E as ([] & a2 & (b & Ed & Hb)%right_check & _).
    exists v, s, e, b. split; [|done]. apply bind_Ok. exists (v, s, e), a1. split; [|apply bind_Ok; by exists tt, b].
    apply bind_Ok. by exists (v, s, e, p), a1.
Qed.

Lemma granted_guess r a res a' : grants r = true → try_handle_ctap2 config (client_pin config r) a = Some (Ok res, a') →
  (∃ b, guess config r a = Some (true, b)) ∧ ∃ a1 a2, client_pin config r a1 = Some (Ok res, a2) ∧ ages_to a2 a'.
Proof.
  intros Hg E. rewrite handle_split in E. apply bind_Ok in E as ([] & a0 & Ep & E). unfold discarding in E.
  destruct (client_pin config r a0) as [[x a1]|] eqn:Ec; [|done]. injection E as -> <-.
  destruct (grant_check _ _ _ _ Hg Ec) as (v & s & e & b & Eb & Hb). split.
  - exists b. unfold guess, before_comparison. unfold mbind at 1, step_bind at 1. rewrite Ep, Eb. by rewrite Hb.
  - exists a0, a1. split; [done|]. case_match; [by apply slots_aged_none|reflexivity].
Qed.

(** ** A run without a grant

    PIN requests that grant nothing, the other commands, their sequences, power cuts, and
    time: the client moves to any other state of it. *)
Inductive ungranting : ∀ {A}, a_step A → Prop :=
  | ungranting_ret {A} (x : A) : ungranting (mret x)
  | ungranting_throw {A} e : ungranting (throw e : a_step A)
  | ungranting_bind {A A'} (c : a_step A) (k : A → a_step A') : ungranting c → (∀ x, ungranting (k x)) → ungranting (c ≫= k)
  | ungranting_client_pin r : grants r = false → ungranting (client_pin config r)
  | ungranting_config r : ungranting (config_command config r)
  | ungranting_credential_management r : ungranting (verify_credential_management_pin_auth r)
  | ungranting_prechecks o auth v d p id : ungranting (pin_prechecks config o auth v d p id)
  | ungranting_consume : ungranting (set_runtime consume_token_user_presence)
  | ungranting_delete p : ungranting (delete_resident_key_by_path p)
  | ungranting_reset : ungranting (reset config)
  | ungranting_consent strong : ungranting (consent config strong)
  | ungranting_trussed {A} (c : f_step A) : ungranting (on_trussed c)
  | ungranting_persistent {A} (c : s_step A) : ungranting (on_persistent c).

Lemma consume_aged r : slots_aged r (consume_token_user_presence r).
Proof.
  intros v token'. unfold slot. cbn. destruct (pin_protocol r) as [s|]; [|done]. cbn.
  assert (pin_token v (consume_user_presence s) = consume_token <$> pin_token v s) as -> by by destruct v.
  destruct (pin_token v s) as [token|]; [|done]. intros [= <-]. exists token. split; [done|].
  unfold older. split_and!; try done. cbn. unfold subset_of. by rewrite Z.land_comm, Z.land_assoc, Z.land_diag.
Qed.

Lemma ungranting_aged {A} (c : a_step A) : ungranting c → preserves ages_to c.
Proof.
  induction 1 as [| |A A' c k _ IHc _ IHk| | | | | | | | | |].
  - apply preserves_ret, _.
  - apply preserves_throw, _.
  - by apply preserves_bind; [apply _|..].
  - by apply client_pin_aged.
  - apply config_command_aged.
  - apply credential_management_aged.
  - apply pin_prechecks_aged.
  - apply set_runtime_aged, consume_aged.
  - apply delete_resident_key_aged.
  - apply reset_aged.
  - apply consent_aged.
  - apply on_trussed_aged.
  - apply on_persistent_aged.
Qed.

Inductive lives a : Authenticator T → Prop :=
  | lives_start : lives a a
  | lives_command {A} a1 (c : a_step A) x a2 : lives a a1 → ungranting c → try_handle_ctap2 config c a1 = Some (x, a2) → lives a a2
  | lives_time a1 t' : lives a a1 → lives a (mkAuthenticator t' (persistent a1) (runtime a1))
  | lives_boot a1 t' : lives a a1 → lives a (new_authenticator t').

Lemma lives_aged a a' : lives a a' → ages_to a a'.
Proof.
  induction 1 as [|A a1 c x a2 _ IH Hc E|a1 t' _ IH|a1 t' _ IH]; [reflexivity| |done|by apply slots_aged_none].
  etrans; [done|]. eapply handle_aged, E. by apply ungranting_aged.
Qed.
End life.

(** The flags are disjoint. *)
Lemma flags_disjoint `{FidoCratesView} p : subset_of p LARGE_BLOB_WRITE → contains p CREDENTIAL_MANAGEMENT = false.
Proof.
  intros Hp. apply not_true_iff_false. intros Hc.
  assert (contains LARGE_BLOB_WRITE CREDENTIAL_MANAGEMENT = true) as Hl by by eapply contains_subset. clear Hp Hc.
  pose proof permission_bits_eq as E. pose proof permission_exponents_NoDup as HN. unfold permission_bits in E.
  destruct permission_exponents as [|k0 [|k1 [|k2 [|k3 [|k4 [|k5 [|? ?]]]]]]]; try done. injection E as _ _ E2 _ E4 _.
  unfold contains in Hl. rewrite E2, E4 in Hl. apply Z.eqb_eq in Hl.
  assert (k2 ≠ k4) as Hne by (intros ->; repeat (apply NoDup_cons in HN as [? HN]); set_solver).
  apply (f_equal (λ z, Z.testbit z (Z.of_nat k2))) in Hl.
  rewrite Z.land_spec, !Z.pow2_bits_eqb, Z.eqb_refl, andb_true_r in Hl by lia. apply Z.eqb_eq in Hl. lia.
Qed.

Lemma permission_run {T} `{FidoCrates, Sha256, FidoClientView T} v p k (a a' : Authenticator T) :
  on_pin (with_token v (require_permissions p;; k)) a = Some (Ok tt, a') →
  ∃ token, token_of v a = Some token ∧ contains (permissions (token_state token)) p = true.
Proof.
  intros (s & t & s' & Hs & E & _)%on_pin_run. unfold with_token in E. cbn [fst] in E.
  destruct (pin_token v s) as [token|] eqn:Et; [|done]. exists token.
  destruct Hs as [Hs|[_ Hs]]; [|by rewrite Hs in Et]. split; [unfold token_of, slot; by rewrite Hs|].
  unfold require_permissions, mbind, step_bind, get_state in E.
  destruct (contains _ _); [done|]. by rewrite andb_false_r in E.
Qed.

(** Credential management, where it is not the continuation of an enumeration, finds its
    permission in a token. *)
Lemma credential_management_run {T} `{FidoCrates, Sha256, FidoClientView T, PersistentCbor, ReplacementCbor}
    r (a a' : Authenticator T) : verify_credential_management_pin_auth r a = Some (Ok tt, a') →
  cm_sub_command r ∈ [EnumerateRpsGetNextRp; EnumerateCredentialsGetNextCredential] ∨
  ∃ v a1 token, ages_to a a1 ∧ token_of v a1 = Some token ∧
    contains (permissions (token_state token)) CREDENTIAL_MANAGEMENT = true.
Proof.
  unfold verify_credential_management_pin_auth. intros (scope & a1 & E1 & E)%bind_Ok.
  assert (a1 = a) as ->.
  { destruct (cm_sub_command r); try (by injection E1 as _ <-). by apply bind_Ok in E1 as (h & a2 & [_ ->]%ok_or_Ok & [= _ <-]). }
  destruct (cm_sub_command r); try (left; set_solver); try done; right.
  all: apply bind_Ok in E as (v & a2 & E2 & E); apply bind_Ok in E as (d & a3 & E3 & E); apply bind_Ok in E as (sig & a4 & E4 & E).
  all: apply bind_Ok in E as ([] & a5 & E5 & E); destruct (permission_run _ _ _ _ _ E) as (token & Htok & Hc); exists v, a5, token.
  all: split; [|done]; etrans; [by eapply selected_aged, E2|]; apply ok_or_Ok in E4 as [_ ->].
  all: assert (preserves ages_to (map_err (on_pin (verify_pin_token v d sig)) PinAuthInvalid : a_step unit)) as Hm
    by (apply preserves_map_err, on_pin_aged, verify_pin_token_ages).
  all: etrans; [|by eapply Hm, E5]; clear - E3.
  1-2: injection E3 as _ <-; reflexivity.
  all: apply bind_Ok in E3 as (p & a6 & [_ ->]%ok_or_Ok & E3); apply bind_Ok in E3 as (c & a7 & [_ ->]%ok_or_Ok & [= _ <-]); reflexivity.
Qed.

(** What an authorisation says of the token that was there earlier. *)
Lemma authorised_earlier {T} `{FidoCrates, Sha256, FidoClient T} v data sig p id (a a1 a2 : Authenticator T) :
  ages_to a a1 → authorised v data sig p id a1 a2 → ∃ token now t', token_of v a = Some token ∧
    tc_call Uptime (trussed a1) = (Some now, t') ∧ contains (permissions (token_state token)) p = true ∧
    is_user_verified (token_state token) = true ∧ (∀ r, rp (token_state token) = Some r → rp_name r = id) ∧
    ∃ t0, issued_at (token_state token) = Some t0 ∧ t0 ≤ now < t0 + MAX_USAGE_PERIOD.
Proof.
  intros Ha (now & t1 & token & token' & mac & t2 & t3 & Hup & Htok & (_ & _ & t0 & Ht0 & Hnow & _) & (Hp & Hv & Hrp & _) & _).
  destruct (Ha _ _ Htok) as (token0 & Htok0 & (_ & Ei & Es & Er & Ev & _)).
  exists token0, now, t1. split_and!; try done; [by eapply contains_subset|by apply Ev|naive_solver|].
  exists t0. split; [congruence|lia].
Qed.

(** C11: a token is granted for the right PIN, and lasts for what it was granted.  A PIN
    request that succeeds in getting a token compared the right PIN.  After it, over any
    run that grants no other token, of PIN requests, policy, reset and credential-management
    commands, removals of credentials, PIN checks, consumed user presence, work of the client and the store, their
    sequences, power cuts, and time, an operation is authorised only through the protocol of that
    request, for permissions among those asked for (those of a legacy request are to make
    and to use credentials), for the relying party that was named, if one was, and less than
    ten minutes after the clock reading at the grant. *)
Theorem grant_lifetime {T : Type}
    `{FidoCrates, !FidoCratesView, Sha256, FidoClientView T, PersistentCborView, ReplacementCborView} config
    (a : Authenticator T) r res a0 :
  grants r = true → try_handle_ctap2 config (client_pin config r) a = Some (Ok res, a0) →
  (∃ b, guess config r a = Some (true, b)) ∧
  ∃ t now t', tc_call Uptime t = (Some now, t') ∧
    ∀ a1 options auth version data p id a2, lives config a0 a1 →
      pin_prechecks config options auth version data p id a1 = Some (Ok true, a2) →
      (version ≫= parse_pin_protocol) = (pr_protocol r ≫= parse_pin_protocol) ∧ contains (requested r) p = true ∧
      (∀ rp_id, pr_rp_id r = Some rp_id → rp_id = id) ∧
      ∃ now' t1', tc_call Uptime (trussed a1) = (Some now', t1') ∧ now ≤ now' < now + MAX_USAGE_PERIOD.
Proof.
  intros Hg E. destruct (granted_guess _ _ _ _ _ Hg E) as [Hb (b0 & b1 & Ec & Hage)]. split; [done|].
  apply client_pin_grant in Ec as (n & v & t & now & t' & key & rp & a3 & Hn & Hv & Hup & Hrp & (s & Es & Hs) & Ha); [|done].
  exists t, now, t'. split; [done|]. intros a1 options auth version data p id a2 Hl Hpre.
  destruct (pin_prechecks_run _ _ _ _ _ _ _ _ _ _ Hpre) as (_ & sig & n' & v' & _ & -> & Hv' & Hauth).
  assert (ages_to a3 a1) as Haged by (do 2 (etrans; [done|]); by apply (lives_aged config)).
  destruct (authorised_earlier _ _ _ _ _ _ _ _ Haged Hauth) as (token & now' & t1' & Htok & Hup' & Hp & _ & Hr & t0 & Ht0 & Hnow).
  unfold token_of, slot in Htok. rewrite Es in Htok. cbn in Htok. rewrite (Hs v') in Htok. case_decide; [subst v'|done].
  injection Htok as <-. injection Ht0 as <-. rewrite Hn. cbn. rewrite Hv, Hv'. split_and!; [done|done| |by exists now', t1'].
  intros rp_id Hid. rewrite Hid in Hrp. destruct rp as [r0|]; [|done]. injection Hrp as <-. by apply Hr.
Qed.

Lemma grant_lifetime_witness : (∃ b, guess sample_config right_guess (new_authenticator pin_store) = Some (true, b)) ∧
  contains (requested right_guess) MAKE_CREDENTIAL = true.
Proof.
  assert (∃ res, try_handle_ctap2 sample_config (client_pin sample_config right_guess) (new_authenticator pin_store) =
    Some (Ok res, granted_state)) as [res E] by (by vm_compute; eexists).
  destruct (grant_lifetime sample_config (new_authenticator pin_store) right_guess res granted_state eq_refl E)
    as (Hb & t & now & t' & _ & Hlife).
  split; [exact Hb|].
  assert (lives sample_config granted_state later_state) as Hl
    by exact (lives_time sample_config granted_state granted_state _ (lives_start sample_config granted_state)).
  destruct (Hlife later_state None (Some (signed [1; 2; 3])) (Some 1) [1; 2; 3] MAKE_CREDENTIAL [97] made_state Hl)
    as (_ & Hp & _); [by vm_compute|exact Hp].
Defined.

(** C12: a token is used for one user presence.  When the user presence of the tokens has
    been consumed, then over any run that grants no other token no check of a PIN to make or
    to use a credential passes, whatever it asks for, and no request to manage credentials
    does but the continuation of an enumeration that had been authorised. *)
Theorem consumed_tokens_authorize_nothing {T : Type}
    `{FidoCrates, !FidoCratesView, Sha256, FidoClientView T, PersistentCborView, ReplacementCborView} config
    (a a1 : Authenticator T) :
  lives config (mkAuthenticator (trussed a) (persistent a) (consume_token_user_presence (runtime a))) a1 →
  (∀ options auth version data p id a2, pin_prechecks config options auth version data p id a1 ≠ Some (Ok true, a2)) ∧
  (∀ r a2, verify_credential_management_pin_auth r a1 = Some (Ok tt, a2) →
     cm_sub_command r ∈ [EnumerateRpsGetNextRp; EnumerateCredentialsGetNextCredential]).
Proof.
  intros Hl%lives_aged.
  assert (∀ v token, token_of v (mkAuthenticator (trussed a) (persistent a) (consume_token_user_presence (runtime a))) = Some token →
    is_user_verified (token_state token) = false ∧ subset_of (permissions (token_state token)) LARGE_BLOB_WRITE) as Hconsumed.
  { intros v token Htok. unfold token_of, slot in Htok. cbn in Htok. destruct (pin_protocol (runtime a)) as [s|]; [|done].
    cbn in Htok. assert (pin_token v (consume_user_presence s) = consume_token <$> pin_token v s) as E by by destruct v.
    rewrite E in Htok. destruct (pin_token v s) as [token0|]; [|done]. injection Htok as <-. split; [done|].
    cbn. unfold subset_of. by rewrite <- Z.land_assoc, Z.land_diag. }
  split.
  - intros options auth version data p id a2 Hpre.
    destruct (pin_prechecks_run _ _ _ _ _ _ _ _ _ _ Hpre) as (_ & sig & n & v & _ & _ & _ & Hauth).
    destruct (authorised_earlier _ _ _ _ _ _ _ _ Hl Hauth) as (token & now & t & Htok & _ & _ & Hver & _).
    destruct (Hconsumed _ _ Htok). congruence.
  - intros r a2 [|(v & a3 & token & Hage & Htok & Hc)]%credential_management_run; [done|].
    destruct ((transitivity Hl Hage) _ _ Htok) as (token0 & Htok0 & (_ & _ & Hs & _)).
    destruct (Hconsumed _ _ Htok0) as [_ Hp]. by rewrite (flags_disjoint _ (transitivity Hs Hp)) in Hc.
Qed.

(** The check that succeeded is refused after the user presence has been consumed. *)
Definition consumed_state : Authenticator model_client :=
  mkAuthenticator (trussed made_state) (persistent made_state) (consume_token_user_presence (runtime made_state)).
Definition refused_state : Authenticator model_client :=
  match make_check consumed_state with Some (_, a) => a | None => consumed_state end.
Lemma consumed_tokens_authorize_nothing_witness :
  make_check made_state ≠ None ∧ make_check consumed_state ≠ Some (Ok true, refused_state).
Proof.
  split; [by vm_compute|]. apply (consumed_tokens_authorize_nothing sample_config made_state consumed_state). apply lives_start.
Defined.
