(* ===== verification/FidoSetup.v ===== *)
(** * The authenticator in the firmware

    How an image configures the authenticator and routes its requests: the versions of
    [src/src/image_version.rs], the configuration of [src/src/config.rs], the extension
    routing of [src/src/platform/dispatch.rs], the generator of [src/src/platform/rng.rs],
    and the dispatcher of the bring-up image, [src/src/get_info.rs]. *)

From stdpp Require Import base tactics numbers list option strings.
From S2P Require Import Prelude Interfaces CtapHid Identity FidoClient PinToken FidoState.

(** ** Versions

    The features that choose the version, and the definitions a build is left with: the
    compiler accepts the image when there is exactly one of them. *)
Record ImageFeatures := mkImageFeatures {
  signed_ab_failure_test : bool;
  signed_ab_success_test : bool;
  security_epoch_preview : bool;
  security_epoch_maintenance : bool;
}.

Definition version_definitions (CARGO_PKG_VERSION : string) (f : ImageFeatures) : list (string * Z) :=
  (if signed_ab_failure_test f then [("0.1.1-ab-fail", 1)] else [])
  ++ (if signed_ab_success_test f then [("0.1.2-ab-pass", 2)] else [])
  ++ (if security_epoch_preview f then [("0.1.3-epoch-preview", 3)] else [])
  ++ (if security_epoch_maintenance f then [("0.1.5-epoch-maint", 5)] else [])
  ++ (if signed_ab_failure_test f || signed_ab_success_test f || security_epoch_preview f || security_epoch_maintenance f
      then [] else [(CARGO_PKG_VERSION, 0)]).

Definition image_version (CARGO_PKG_VERSION : string) (f : ImageFeatures) : option (string * Z) :=
  if signed_ab_failure_test f && signed_ab_success_test f then None
  else match version_definitions CARGO_PKG_VERSION f with [version] => Some version | _ => None end.
Definition APP_VERSION (CARGO_PKG_VERSION : string) (f : ImageFeatures) : option string :=
  fst <$> image_version CARGO_PKG_VERSION f.
Definition FIRMWARE_PATCH (f : ImageFeatures) : option Z := snd <$> image_version "" f.
Definition CONFIRM_SIGNED_UPDATE (f : ImageFeatures) : bool := negb (signed_ab_failure_test f).

Definition FIRMWARE_MAJOR : Z := 0.
Definition FIRMWARE_MINOR : Z := 1.
Definition FIRMWARE_VERSION (patch : Z) : Z :=
  Z.lor (Z.lor (Z.shiftl FIRMWARE_MAJOR 22) (Z.shiftl FIRMWARE_MINOR 6)) patch.

(** Two images that build have the same version numbers only if they have the same
    features; the image that must roll back confirms nothing. *)
Lemma image_versions_distinct f g v w : image_version "0" f = Some v → image_version "0" g = Some w →
  FIRMWARE_VERSION (snd v) = FIRMWARE_VERSION (snd w) → f = g.
Proof.
  destruct f as [[] [] [] []], g as [[] [] [] []]; try done; by intros [= <-] [= <-].
Qed.
Lemma failure_image_unconfirmed f v : image_version "0" f = Some v → CONFIRM_SIGNED_UPDATE f = false ↔ snd v = 1.
Proof. destruct f as [[] [] [] []]; try done; by intros [= <-]. Qed.

(** ** Configuration *)

Definition fido_config (patch : Z) : Config :=
  mkConfig false MAX_MESSAGE_SIZE None (Some 8) None false false
    (Some (mkFirmwareVersion (FIRMWARE_VERSION patch) None None)) (Some CredentialV2) false None.

(** The assertions of the build. *)
Definition config_asserted (config : Config) : bool :=
  negb (ctap1_transport config) && negb (nfc_transport config) && negb (ccid_transport config)
  && bool_decide (large_blobs config = None) && bool_decide (credential_id_version config = Some CredentialV2).

Lemma fido_config_asserted patch : config_asserted (fido_config patch) = true.
Proof. done. Qed.
Lemma fido_config_timeout patch : fido2_up_timeout (fido_config patch) = FIDO2_UP_TIMEOUT.
Proof. done. Qed.

(** ** Extensions *)

Inductive FidoExtensionId := FsInfo | Hkdf.

#[export] Instance FidoExtensionId_eq_dec : EqDecision FidoExtensionId.
Proof. solve_decision. Defined.

Definition extension_u8 (id : FidoExtensionId) : Z := match id with FsInfo => 0 | Hkdf => 1 end.
Definition extension_try_from (value : Z) : option FidoExtensionId :=
  if value =? 0 then Some FsInfo else if value =? 1 then Some Hkdf else None.

Lemma extension_try_from_iff value id : extension_try_from value = Some id ↔ value = extension_u8 id.
Proof.
  unfold extension_try_from. destruct (Z.eqb_spec value 0), (Z.eqb_spec value 1), id; cbn; naive_solver lia.
Qed.

(** The backends an endpoint tries, in order; the second is staging, which also serves the
    extensions. *)
Inductive BackendId := BackendCore | BackendStaging.
Definition FIDO_BACKENDS : list BackendId := [BackendCore; BackendStaging].

Section routing.
Context {X Request SerdeRequest Reply SerdeReply E : Type}.
Context (staging_request : Request → X → result E Reply * X).
Context (staging_extension : FidoExtensionId → SerdeRequest → X → result E SerdeReply * X).

Definition core_request (request : Request) (ctx : X) : result E Reply * X := staging_request request ctx.
Definition extension_request (extension : FidoExtensionId) (request : SerdeRequest) (ctx : X) : result E SerdeReply * X :=
  match extension with
  | FsInfo => staging_extension FsInfo request ctx
  | Hkdf => staging_extension Hkdf request ctx
  end.
End routing.

(** ** The generator

    [Trng::random] and [Trng::read] are the hardware's. *)
Section rng.
Context {R : Type} (random : R → Z * R) (read : nat → R → bytes * R).

Definition next_u32 (rng : R) : Z * R := random rng.
Definition next_u64 (rng : R) : Z * R :=
  let '(bytes, rng) := read 8 rng in (le_decode bytes, rng).
Definition fill_bytes (n : nat) (rng : R) : bytes * R := read n rng.
Definition try_fill_bytes {E} (n : nat) (rng : R) : result E bytes * R :=
  let '(bytes, rng) := read n rng in (Ok bytes, rng).

Lemma next_u64_range rng : (∀ n r, length (fst (read n r)) = n ∧ Forall is_byte (fst (read n r))) →
  0 ≤ fst (next_u64 rng) < 2 ^ 64.
Proof.
  intros Hr. unfold next_u64. destruct (Hr 8%nat rng) as [Hl Hb]. destruct (read 8 rng) as [l r]. cbn in *.
  pose proof (le_decode_bound l Hb) as Hd. rewrite Hl in Hd. exact Hd.
Qed.
End rng.

(** ** The dispatcher of the bring-up image *)

(** The answer to [authenticatorGetInfo]: what [get_info_response] sets, with the version
    and the transport it names. *)
Inductive InfoVersion := Fido2_0.
Inductive InfoTransport := Usb.
Record BringUpInfo := mkBringUpInfo {
  info_versions : list InfoVersion;
  info_aaguid : bytes;
  info_plat : option bool;
  info_max_msg_size : option nat;
  info_transports : list InfoTransport;
}.
Definition bring_up_info : BringUpInfo :=
  mkBringUpInfo [Fido2_0] DEVELOPMENT_AAGUID (Some false) (Some MAX_MESSAGE_SIZE) [Usb].

Section bring_up.
Context {Request E : Type} (deserialize : bytes → result E Request) (is_get_info : Request → bool).
Context (error_code : E → Z) (InvalidCommand : E) (serialize : BringUpInfo → bytes).

Definition error_response (error : E) : bytes := [error_code error].
Definition get_info_response : bytes := serialize bring_up_info.
Definition get_info_dispatch (request : bytes) : bytes :=
  match deserialize request with
  | Ok request => if is_get_info request then get_info_response else error_response InvalidCommand
  | Err error => error_response error
  end.
End bring_up.
